(* ===== verification/_CoqProject ===== *)
-Q . S2P
Prelude.v
Status.v
Checked.v
Buffer.v
Crc.v
Reader.v
Rational.v
Edit.v
Model.v
Lease.v
LeaseThreads.v
Packet.v
Reorder.v
Index.v
Source.v
Samples.v
Frame.v
Validate.v
Bodies.v
Records.v
Header.v
Decoder.v
Parse.v
ParseRule.v
Delivery.v
Replay.v
ParseSplit.v
Feed.v
Session.v
Chunks.v
Harness.v
FuzzDecoder.v
FuzzChunks.v
Writer.v
RoundTrip.v
Damage.v
Mux.v
MuxSpec.v
MuxFile.v
Demux.v
DemuxSpec.v
DemuxRun.v
MuxDemux.v
Repair.v
RepairSpec.v
RepairRun.v
Cli.v
CliRun.v
FuzzRemux.v
Tools.v
ToolsRun.v
Findings.v
