(* ===== verification/Prelude.v ===== *)
(** * Verification of the Tide streaming media container toolkit

    The library under [src/] reads and writes one container format: a 72-byte
    header, then records (a framed prefix, a payload, zero padding and a CRC
    over all of it), which may be nested in groups.  This development models the
    C code of the library in Rocq and proves what its parts promise.

    ** The parts and the files

    - [Prelude] (this file): notations, machine integers at their width,
      the [outcome] monad, arrays of cells, tactics and hint databases, lemmas on
      lists that the parts share.
    - [Status], [Checked], [Buffer], [Crc], [Reader] ([src/common/*.c],
      [src/format/crc32c.c], [src/format/reader.c]): statuses, errors and limits;
      checked arithmetic; the growing byte buffer; checksums; the bounded
      reader and the scalar writers.
    - [Rational], [Edit] ([src/model/time.c], [src/model/edit.c]): time bases,
      conversion of times, edit lists.
    - [Model] ([include/tide/tide.h]): the values that parts exchange and the
      callback interface.
    - [Lease], [Packet] ([src/model/lease.c], [src/model/packet.c]): payload
      leases as a store of reference counts, and the references that own them.
      [LeaseThreads]: the same counts shared by threads, every interleaving of
      the atomic operations and of what the last release does behind its own.
    - [Reorder], [Index] ([src/index/*.c]): the reorder queue and the table of
      index entries.
    - [Source] ([src/source/*.c]): byte sources.
    - [Frame], [Validate], [Header], [Decoder] ([src/format/decoder.c]): the framing
      of one record, the bodies of the record types, the header, and the
      recursive parser with [tide_parse_tide_bytes].  [Bodies] and [Records]: the
      bodies of the records without a callback, as grammars over their bytes.
    - [Parse], [ParseRule], [ParseSplit], [Delivery], [Replay]: what is proved of
      the parser: it is defined on all bytes; a rule for invariants of a run;
      how a run on a cut of the data continues on more of it; what a run
      delivers; and a run with any callbacks as the replay of a log, which ends
      at the first refusal.
    - [Feed], [Chunks], [Session]: the incremental decoder of [decoder.c], that it agrees
      with the one-shot parser for every way of cutting the input, and the
      phases it goes through.
    - [Writer], [RoundTrip], [Damage] ([src/format/writer.c]): the encoders and that the
      parser inverts them; that it notices damage to what they wrote.
    - [Mux], [MuxSpec], [MuxFile] ([src/mux/mux.c]): the muxer, its sessions, and
      the decoder on its files.
    - [Demux], [DemuxSpec], [DemuxRun], [MuxDemux] ([src/demux/demux.c]): the
      demuxer, its tables, its sessions, and the demuxer on the muxer's files.
    - [Repair], [RepairSpec], [RepairRun] ([src/repair/scanner.c]): repair as a
      muxer session on what a demuxer gets from the valid prefix.
    - [Cli], [CliRun] ([src/cli/main.c]): the program [tide], its commands as
      compositions of the parts above, what they print, write and exit with.
    - [Harness], [FuzzDecoder], [FuzzChunks], [FuzzRemux] ([fuzz/*.c]): the fuzz
      harnesses as programs that may abort.
    - [Tools], [ToolsRun] ([examples/*.c], [tools/*.c]): the small programs
      beside the library.
    - [Findings]: runs on concrete inputs that show surprising behaviour of
      the code.
    - [Samples]: a small file, for the witnesses.

    ** How code becomes definitions

    Each C function is one definition with its name; a loop is a [Fixpoint] of
    its own, on a count of rounds or on fuel.  Integers are [Z]; unsigned
    arithmetic wraps ([+u], [*u], [wrap8] ...), signed arithmetic that could
    overflow is a guard, and LP64 sizes are assumed ([size_t] is 64 bits wide).
    A pointer that may be null is an [option]; an array is a list of cells,
    uninitialised ones [None].  [outcome] has three cases: [Done], [Undef] for
    what C leaves undefined (a null dereference, a read outside an array or of
    an uninitialised cell, a use after free, signed overflow) and [NoFuel].  A
    theorem that an operation is "defined" says that it ends with [Done]: the
    fuel used in the definitions is enough and nothing undefined happens.  The
    state that a function changes is passed in and out; the parser, which
    threads much of it, is written in a monad over [pstate].  The allocator is
    a list of answers, and theorems quantify over it; the empty list answers
    yes for ever.  The callbacks are functions on a state [U] of the caller;
    the demuxer's are its own functions on its own state.  What the C library
    answers about files is a record of results ([input_file],
    [output_file]).

    ** What the theorems show

    - The parser is defined on all bytes and limits, given an error and a valid
      prefix to write to when the records are reached ([Delivery]);
      what it hands to callbacks is justified by the bytes; a callback that refuses ends the run with its
      status ([Replay]); the valid prefix is
      where a prefix of the file parses completely ([ParseSplit]); its fuel is
      the size of the data plus one, and each record takes at least one byte.
    - Feeding in chunks is the one-shot parse, for callbacks that do not answer
      [TRUNCATED], up to the one call of [on_error] ([Chunks]); a decoder that failed or was
      cancelled stays so ([Session]).
    - Writing and reading invert each other, for records, whole files ([RoundTrip]),
      muxer sessions ([MuxFile]) and the demuxer's client ([MuxDemux]); damage
      to a payload is reported at its record and what lies before it is
      delivered ([Damage]).
    - Leases: every reachable store counts the handles held ([Lease]); the
      demuxer, muxer, queue and repair neither leak nor free early
      ([balanced] in their theorems).  Leases shared by threads are never used
      after they were freed, and the threads' steps have the effects of the
      sequential operations ([LeaseThreads]).
    - The demuxer refines "the streams and packets the decoder delivers"
      ([DemuxRun]); repair refines "mux what the demuxer gets" and restores a
      prefix of a truncated file ([RepairRun]).
    - The program always ends with a documented exit code and without a leak;
      [tide remux] reopens to what its input held and is idempotent,
      [tide repair] restores cut files, [tide inspect] prints what the
      decoder delivers ([CliRun]).
    - The harnesses never abort on inputs the decoder has room for, when memory
      suffices (for the remux harness: that of its second parse, and the file
      reads back as written), so what they
      check holds of the library: all bytes are consumed, chunks do not matter,
      and a remuxed file has as many streams and packets ([FuzzChunks],
      [FuzzRemux]).  The examples and tools print packets, counts and statuses as the
      decoder gives them, free every source, demuxer, muxer and lease, and
      the file the example writes is read back ([ToolsRun]).
    - Packet tables, edit lists, discontinuities, seek indices, checkpoints, index
      directories and footers are accepted exactly when their payload has the
      form docs/TIDE_FORMAT.md gives it ([Records]); for a seek index, in order of
      track and time when times are below 2^32.  Conditions that span records are
      not tested by the code ([Findings]).
    - The reorder queue refines a stable sorted list; the index table stays in
      order; times convert exactly with the rounding asked for; an edit
      at rate one projects the overlap (other rates the code ignores); alignment, buffers and scalars keep their bounds.

    ** Bounds

    Data is below 2^64 bytes where a [size_t] carries it, and below 2^56 in the
    demuxer and repair, so that sizes of their arrays do not wrap; both
    are far above what an address space holds.  Written files are parsed under
    limits that admit them ([file_fits], [session_fits], [repair_fits]).  Fuel
    is computed from the data ([parse_fuel], [packet_fuel]) and the theorems show that it
    is enough.

    ** Not modelled

    The tests under [tests/]: concrete runs of what is modelled.
    [src/format/records.c] holds a comment only.  A
    callback that calls back into its own decoder; failures of [printf]; memory
    orders weaker than sequential consistency (the retain is relaxed, the
    release acquires and releases), and threads that share anything else than
    leases; memory other than leases, apart from what the examples and tools
    hold ([Tools] counts it); the contents of a file when [fwrite] stops early, apart from their
    being a
    prefix. *)

From Stdlib Require Export ZArith Lia Bool Ascii String Znumtheory.
From Stdlib Require Export Strings.Byte.
From stdpp Require Export base list list_numbers numbers sorting gmap.

(** ** Scope and integer notations *)

Declare Scope tide_scope.
Delimit Scope tide_scope with tide.
Global Open Scope Z_scope.
Global Open Scope tide_scope.

Abbreviation UINT16_MAX := 65535 (only parsing).
Abbreviation UINT32_MAX := 4294967295 (only parsing).
Abbreviation UINT64_MAX := 18446744073709551615 (only parsing).
Abbreviation INT64_MAX := 9223372036854775807 (only parsing).
Abbreviation INT64_MIN := (-9223372036854775808) (only parsing).
(** The development fixes the LP64 data model: [size_t] is 64 bits wide. *)
Abbreviation SIZE_MAX := 18446744073709551615 (only parsing).

(** Unsigned arithmetic wraps modulo [2^w]. *)
Definition wrap8 (z : Z) : Z := z mod 256.
Definition wrap16 (z : Z) : Z := z mod 65536.
Definition wrap32 (z : Z) : Z := z mod 4294967296.
Definition wrap64 (z : Z) : Z := z mod 18446744073709551616.

Notation "x +u y" := (wrap64 (x + y)) (at level 50, left associativity) : tide_scope.
Notation "x -u y" := (wrap64 (x - y)) (at level 50, left associativity) : tide_scope.
Notation "x *u y" := (wrap64 (x * y)) (at level 40, left associativity) : tide_scope.

Definition is_u8 (z : Z) : Prop := 0 <= z < 256.
Definition is_u16 (z : Z) : Prop := 0 <= z < 65536.
Definition is_u32 (z : Z) : Prop := 0 <= z < 4294967296.
Definition is_u64 (z : Z) : Prop := 0 <= z < 18446744073709551616.
Definition is_i64 (z : Z) : Prop := INT64_MIN <= z <= INT64_MAX.

(** The two's complement reading of a 64-bit word, what [memcpy] between an
    [int64_t] and a [uint64_t] does. *)
Definition u64_to_i64 (z : Z) : Z := if z <=? INT64_MAX then z else z - 18446744073709551616.
Definition i64_to_u64 (z : Z) : Z := wrap64 z.

(** ** Outcomes of C code

    [Done a]: the code returns [a].  [Undef]: it has undefined behaviour (an
    access outside an object, a null dereference, a signed overflow, a shift
    by the width or more).  [NoFuel]: the bound given to a loop was too small
    (a loop that never ends has this outcome for every bound). *)
Inductive outcome (A : Type) : Type :=
  | Done (a : A)
  | Undef
  | NoFuel.
Arguments Done {A} a.
Arguments Undef {A}.
Arguments NoFuel {A}.

#[export] Instance outcome_ret : MRet outcome := fun A a => Done a.
#[export] Instance outcome_bind : MBind outcome := fun A B f m =>
  match m with Done a => f a | Undef => Undef | NoFuel => NoFuel end.

(** [assert_def b]: the code is undefined unless [b]. *)
Definition assert_def (b : bool) : outcome unit := if b then Done tt else Undef.

(** Weakest precondition: the outcome is a result that satisfies [Q]. *)
Definition wp {A} (m : outcome A) (Q : A -> Prop) : Prop :=
  match m with Done a => Q a | _ => False end.

Section outcome_lemmas.
Context {A B : Type}.

Lemma bind_done (a : A) (f : A -> outcome B) : Done a ≫= f = f a.
Proof. reflexivity. Qed.

Lemma wp_done (a : A) (Q : A -> Prop) : Q a -> wp (Done a) Q.
Proof. auto. Qed.

Lemma wp_bind (m : outcome A) (f : A -> outcome B) (Q : B -> Prop) :
  wp m (fun a => wp (f a) Q) -> wp (m ≫= f) Q.
Proof. destruct m; auto. Qed.

Lemma wp_mono (m : outcome A) (P Q : A -> Prop) :
  wp m P -> (forall a, P a -> Q a) -> wp m Q.
Proof. destruct m; simpl; auto. Qed.

Lemma wp_inv (m : outcome A) (Q : A -> Prop) : wp m Q -> exists a, m = Done a /\ Q a.
Proof. destruct m; simpl; try tauto; eauto. Qed.

Lemma wp_intro (m : outcome A) (Q : A -> Prop) a : m = Done a -> Q a -> wp m Q.
Proof. intros ->. auto. Qed.

Lemma bind_Done_inv (m : outcome A) (f : A -> outcome B) b :
  m ≫= f = Done b -> exists a, m = Done a /\ f a = Done b.
Proof. destruct m; try discriminate. eauto. Qed.

Lemma wp_assert (b : bool) (Q : unit -> Prop) : b = true -> Q tt -> wp (assert_def b) Q.
Proof. intros ->. auto. Qed.
End outcome_lemmas.

(** [m ⊑ m']: [m'] returns what [m] returns unless [m] ran out of fuel. *)
Definition less_fuel {A} (m m' : outcome A) : Prop := m = NoFuel \/ m = m'.

Lemma less_fuel_refl {A} (m : outcome A) : less_fuel m m.
Proof. right. reflexivity. Qed.

Lemma less_fuel_bind {A B} (m m' : outcome A) (f f' : A -> outcome B) :
  less_fuel m m' -> (forall a, less_fuel (f a) (f' a)) -> less_fuel (m ≫= f) (m' ≫= f').
Proof. intros [->| ->] Hf; [left; reflexivity|]. destruct m'; simpl; auto using less_fuel_refl. Qed.

Lemma less_fuel_Done {A} (m m' : outcome A) a : less_fuel m m' -> m = Done a -> m' = Done a.
Proof. intros [->| ->]; congruence. Qed.

(** ** Bytes *)

#[export] Instance byte_eq_dec : EqDecision byte := Byte.byte_eq_dec.

Definition u8 (b : byte) : Z := Z.of_N (Byte.to_N b).
(** Conversion to [uint8_t]: modulo 256. *)
Definition byte_of_Z (z : Z) : byte :=
  match Byte.of_N (Z.to_N (wrap8 z)) with Some b => b | None => x00 end.

Lemma u8_range b : is_u8 (u8 b).
Proof. unfold is_u8, u8. pose proof (Byte.to_N_bounded b). lia. Qed.

Lemma u8_byte_of_Z z : u8 (byte_of_Z z) = wrap8 z.
Proof.
  unfold u8, byte_of_Z, wrap8.
  pose proof (Z.mod_pos_bound z 256 ltac:(lia)) as Hb.
  destruct (Byte.of_N (Z.to_N (z mod 256))) as [b|] eqn:E.
  - apply Byte.to_of_N in E. rewrite E. lia.
  - apply Byte.of_N_None_iff in E. lia.
Qed.

Lemma u8_inj a b : u8 a = u8 b -> a = b.
Proof.
  unfold u8. intros H. apply N2Z.inj in H.
  pose proof (Byte.of_to_N a). pose proof (Byte.of_to_N b). congruence.
Qed.

Lemma byte_of_Z_u8 b : byte_of_Z (u8 b) = b.
Proof.
  apply u8_inj. rewrite u8_byte_of_Z. apply Z.mod_small. apply u8_range.
Qed.

Lemma byte_of_Z_small z : is_u8 z -> u8 (byte_of_Z z) = z.
Proof. intros. rewrite u8_byte_of_Z. apply Z.mod_small. auto. Qed.

(** ** Machine arithmetic lemmas *)

Lemma wrap8_small z : is_u8 z -> wrap8 z = z.
Proof. apply Z.mod_small. Qed.
Lemma wrap16_small z : is_u16 z -> wrap16 z = z.
Proof. apply Z.mod_small. Qed.
Lemma wrap32_small z : is_u32 z -> wrap32 z = z.
Proof. apply Z.mod_small. Qed.
Lemma wrap64_small z : is_u64 z -> wrap64 z = z.
Proof. apply Z.mod_small. Qed.
Lemma wrap8_range z : is_u8 (wrap8 z).
Proof. apply Z.mod_pos_bound. lia. Qed.
Lemma wrap16_range z : is_u16 (wrap16 z).
Proof. apply Z.mod_pos_bound. lia. Qed.
Lemma wrap32_range z : is_u32 (wrap32 z).
Proof. apply Z.mod_pos_bound. lia. Qed.
Lemma wrap64_range z : is_u64 (wrap64 z).
Proof. apply Z.mod_pos_bound. lia. Qed.

Lemma u64_i64_inverse z : is_i64 z -> u64_to_i64 (i64_to_u64 z) = z.
Proof.
  unfold is_i64, u64_to_i64, i64_to_u64, wrap64. intros Hz.
  destruct (Z_lt_le_dec z 0) as [Hn|Hn].
  - rewrite <- (Z.mod_add z 1) by lia. rewrite Z.mod_small by lia.
    destruct (Z.leb_spec (z + 1 * 18446744073709551616) INT64_MAX); lia.
  - rewrite Z.mod_small by lia.
    destruct (Z.leb_spec z INT64_MAX); lia.
Qed.

Lemma i64_u64_inverse z : is_u64 z -> i64_to_u64 (u64_to_i64 z) = z.
Proof.
  unfold is_u64, u64_to_i64, i64_to_u64, wrap64. intros Hz.
  destruct (Z.leb_spec z INT64_MAX); [apply Z.mod_small; lia|].
  rewrite <- (Z.mod_add _ 1) by lia. rewrite Z.mod_small by lia. lia.
Qed.

Lemma u64_to_i64_range z : is_u64 z -> is_i64 (u64_to_i64 z).
Proof. unfold is_u64, is_i64, u64_to_i64. intros. destruct (Z.leb_spec z INT64_MAX); lia. Qed.

(** [x <<u s] on [uint64_t]: undefined when the shift reaches the width. *)
Definition shl64 (x s : Z) : outcome Z :=
  _ ← assert_def ((0 <=? s) && (s <? 64)); Done (wrap64 (Z.shiftl x s)).

Lemma shl64_done x s : 0 <= s < 64 -> shl64 x s = Done (wrap64 (Z.shiftl x s)).
Proof.
  intros. unfold shl64, assert_def.
  rewrite (proj2 (Z.leb_le 0 s)), (proj2 (Z.ltb_lt s 64)) by lia. reflexivity.
Qed.

(** ** Bits *)

Lemma testbit_small z n i : 0 <= z < 2 ^ n -> n <= i -> Z.testbit z i = false.
Proof.
  intros Hz Hi. destruct (Z_lt_le_dec n 0) as [Hn|Hn].
  { rewrite Z.pow_neg_r in Hz by lia. lia. }
  rewrite <- (Z.mod_small z (2 ^ n)) by lia. apply Z.mod_pow2_bits_high. lia.
Qed.

Lemma land_shiftl_0 a b n : 0 <= n -> 0 <= a < 2 ^ n -> Z.land a (Z.shiftl b n) = 0.
Proof.
  intros Hn Ha. apply Z.bits_inj'. intros i Hi. rewrite Z.land_spec, Z.bits_0.
  destruct (Z_lt_le_dec i n).
  - rewrite Z.shiftl_spec_low by lia. apply andb_false_r.
  - rewrite (testbit_small a n) by lia. reflexivity.
Qed.

Lemma lxor_shiftl_add a b n : 0 <= n -> 0 <= a < 2 ^ n -> Z.lxor a (Z.shiftl b n) = a + b * 2 ^ n.
Proof.
  intros Hn Ha. rewrite <- Z.add_nocarry_lxor by (apply land_shiftl_0; auto).
  rewrite Z.shiftl_mul_pow2 by lia. reflexivity.
Qed.

Lemma lor_shiftl_add a b n : 0 <= n -> 0 <= a < 2 ^ n -> Z.lor a (Z.shiftl b n) = a + b * 2 ^ n.
Proof.
  intros Hn Ha. rewrite <- Z.lxor_lor by (apply land_shiftl_0; auto).
  apply lxor_shiftl_add; auto.
Qed.

Lemma land_ones_mod a n : 0 <= n -> Z.land a (2 ^ n - 1) = a mod 2 ^ n.
Proof. intros. rewrite <- Z.land_ones by lia. rewrite Z.ones_equiv. reflexivity. Qed.

(** ** Memory: objects are the lists of their bytes *)

Definition zlen {A} (l : list A) : Z := Z.of_nat (length l).

(** [m[i]], undefined outside the object. *)
Definition load (m : list byte) (i : Z) : outcome Z :=
  if 0 <=? i then
    match m !! Z.to_nat i with Some b => Done (u8 b) | None => Undef end
  else Undef.

(** The [n] bytes from [m + off]; a pointer together with the length the
    program uses with it is the list of the bytes it spans. *)
Definition slice (m : list byte) (off n : Z) : list byte :=
  take (Z.to_nat n) (drop (Z.to_nat off) m).
Definition span (m : list byte) (off n : Z) : outcome (list byte) :=
  _ ← assert_def ((0 <=? off) && (0 <=? n) && (off + n <=? zlen m));
  Done (slice m off n).

(** A local array; [None] is a byte not initialised yet. *)
Definition array := list (option byte).
Definition uninit (n : nat) : array := replicate n None.
Definition zeroed (n : nat) : array := replicate n (Some x00).
(** Store bytes at [dst + off]. *)
Definition store (dst : array) (off : nat) (bs : list byte) : outcome array :=
  _ ← assert_def (off + length bs <=? length dst)%nat;
  Done (take off dst ++ map Some bs ++ drop (off + length bs) dst).
(** Read the first [n] bytes; reading an uninitialised byte is undefined. *)
Definition initialised (src : array) (n : nat) : outcome (list byte) :=
  _ ← assert_def (n <=? length src)%nat;
  match mapM (fun o : option byte => o) (take n src) with Some bs => Done bs | None => Undef end.

Lemma load_spec m i : 0 <= i < zlen m -> exists b, m !! Z.to_nat i = Some b /\ load m i = Done (u8 b).
Proof.
  unfold zlen, load. intros Hi.
  destruct (lookup_lt_is_Some_2 m (Z.to_nat i)) as [b Hb]; [lia|].
  exists b. rewrite Hb, (proj2 (Z.leb_le 0 i)) by lia. auto.
Qed.

Lemma span_done m off n : 0 <= off -> 0 <= n -> off + n <= zlen m -> span m off n = Done (slice m off n).
Proof.
  intros. unfold span, assert_def.
  rewrite !(proj2 (Z.leb_le _ _)) by lia. reflexivity.
Qed.

Lemma zlen_nonneg {A} (l : list A) : 0 <= zlen l.
Proof. unfold zlen. lia. Qed.
Lemma zlen_app {A} (l k : list A) : zlen (l ++ k) = zlen l + zlen k.
Proof. unfold zlen. rewrite length_app. lia. Qed.
Lemma zlen_slice m off n :
  0 <= off -> 0 <= n -> off + n <= zlen m -> zlen (slice m off n) = n.
Proof. unfold zlen, slice. intros. rewrite length_take, length_drop. lia. Qed.

Lemma slice_full m : slice m 0 (zlen m) = m.
Proof. unfold slice, zlen. rewrite Nat2Z.id. rewrite drop_0. apply firstn_all. Qed.

Lemma slice_take m n off k :
  0 <= off -> 0 <= k -> off + k <= n -> slice (take (Z.to_nat n) m) off k = slice m off k.
Proof.
  intros. unfold slice. rewrite skipn_firstn_comm, take_take. f_equal. lia.
Qed.

Lemma slice_slice m off n off' n' :
  0 <= off -> 0 <= off' -> 0 <= n' -> off' + n' <= n ->
  slice (slice m off n) off' n' = slice m (off + off') n'.
Proof.
  intros. unfold slice. rewrite skipn_firstn_comm, take_take, drop_drop.
  f_equal; [lia|]. f_equal. lia.
Qed.

Lemma slice_app_l m k off n :
  0 <= off -> 0 <= n -> off + n <= zlen m -> slice (m ++ k) off n = slice m off n.
Proof.
  unfold zlen. intros. unfold slice. rewrite drop_app_le by lia.
  apply take_app_le. rewrite length_drop. lia.
Qed.

Lemma slice_app_r m k off n :
  zlen m <= off -> slice (m ++ k) off n = slice k (off - zlen m) n.
Proof.
  unfold zlen. intros. unfold slice. rewrite drop_app_ge by lia. do 2 f_equal. lia.
Qed.

Lemma slice_split m off n k :
  0 <= off -> 0 <= n -> 0 <= k -> slice m off (n + k) = slice m off n ++ slice m (off + n) k.
Proof.
  intros. unfold slice. rewrite !Z2Nat.inj_add by lia.
  rewrite <- drop_drop. symmetry. apply take_take_drop.
Qed.

(** Filling an array from the front. *)
Lemma store_at (xs bs : list byte) (rest : array) off :
  off = length xs -> (length bs <= length rest)%nat ->
  store (map Some xs ++ rest) off bs = Done (map Some (xs ++ bs) ++ drop (length bs) rest).
Proof.
  intros -> Hl. unfold store, assert_def. rewrite !length_app, length_map.
  rewrite (proj2 (Nat.leb_le _ _)) by lia. cbn [mbind outcome_bind]. f_equal.
  rewrite take_app_length' by (rewrite length_map; reflexivity). rewrite drop_app_ge by (rewrite length_map; lia).
  rewrite length_map, map_app, <- app_assoc. do 3 f_equal. lia.
Qed.

Lemma initialised_at (xs : list byte) (rest : array) n : n = length xs -> initialised (map Some xs ++ rest) n = Done xs.
Proof.
  intros ->. unfold initialised, assert_def. rewrite length_app, length_map.
  rewrite (proj2 (Nat.leb_le _ _)) by lia. cbn [mbind outcome_bind].
  rewrite take_app_length' by (rewrite length_map; reflexivity).
  assert (H : mapM (fun o : option byte => o) (map Some xs) = Some xs).
  { clear. induction xs as [|x xs IH]; [reflexivity|]. cbn. rewrite IH. reflexivity. }
  rewrite H. reflexivity.
Qed.

(** Overwriting the front of an array. *)
Lemma store_over (xs bs : list byte) (ys : list byte) (rest : array) off :
  off = length xs -> length bs = length ys ->
  store (map Some (xs ++ ys) ++ rest) off bs = Done (map Some (xs ++ bs) ++ rest).
Proof.
  intros -> Hl. unfold store, assert_def. rewrite !length_app, length_map, length_app.
  rewrite (proj2 (Nat.leb_le _ _)) by lia. cbn [mbind outcome_bind]. f_equal.
  rewrite !map_app, <- !app_assoc. rewrite take_app_length' by (rewrite length_map; reflexivity). do 2 f_equal.
  rewrite app_assoc. apply drop_app_length'. rewrite length_app, !length_map. lia.
Qed.

(** ** Arrays of structures

    An allocated array: its cells, [None] for one not written since its
    allocation; reading such a cell or outside the array is undefined. *)

Abbreviation cells A := (list (option A)).

Definition read_cell {A} (items : cells A) (i : nat) : outcome A :=
  match items !! i with Some (Some item) => Done item | _ => Undef end.
Definition write_cell {A} (items : cells A) (i : nat) (item : A) : outcome (cells A) :=
  _ ← assert_def (i <? length items)%nat; Done (<[i := Some item]> items).

(** [realloc]: the cells kept, the new ones not written. *)
Definition resize {A} (items : cells A) (n : Z) : cells A :=
  take (Z.to_nat n) items ++ replicate (Z.to_nat n - length items) None.

(** The first cells of the array hold [its]. *)
Definition holds {A} (items : cells A) (its : list A) : Prop := exists rest, items = map Some its ++ rest.

Section cells_lemmas.
Context {A : Type}.
Implicit Types (items rest : cells A) (its l : list A).

Lemma read_cell_at l x rest : read_cell (map Some l ++ Some x :: rest) (length l) = Done x.
Proof. unfold read_cell. rewrite lookup_app_r by (rewrite length_map; lia). rewrite length_map, Nat.sub_diag. reflexivity. Qed.

Lemma write_cell_at l c rest x :
  write_cell (map Some l ++ c :: rest) (length l) x = Done (map Some l ++ Some x :: rest).
Proof.
  unfold write_cell, assert_def. rewrite (proj2 (Nat.ltb_lt _ _)) by (rewrite length_app, length_map; cbn; lia).
  rewrite bind_done. f_equal. rewrite insert_app_r_alt by (rewrite length_map; lia). rewrite length_map, Nat.sub_diag. reflexivity.
Qed.

Lemma read_cell_eq l x rest n : n = length l -> read_cell (map Some l ++ Some x :: rest) n = Done x.
Proof. intros ->. apply read_cell_at. Qed.
Lemma write_cell_eq l c rest x n : n = length l ->
  write_cell (map Some l ++ c :: rest) n x = Done (map Some l ++ Some x :: rest).
Proof. intros ->. apply write_cell_at. Qed.

Lemma zlen_resize items n : 0 <= n -> zlen (resize items n) = n.
Proof. intros H. unfold resize, zlen. rewrite length_app, length_take, length_replicate. lia. Qed.

(** An array all written, after it has grown. *)
Lemma resize_full its n : zlen its <= n -> resize (map Some its) n = map Some its ++ replicate (Z.to_nat (n - zlen its)) None.
Proof.
  intros H. unfold resize, zlen in *. rewrite take_ge, length_map by (rewrite length_map; lia). do 2 f_equal. lia.
Qed.

Lemma holds_zlen items its : holds items its -> zlen its <= zlen items.
Proof. intros [rest ->]. rewrite zlen_app. pose proof (zlen_nonneg rest). unfold zlen in *. rewrite length_map. lia. Qed.

Lemma holds_resize items its n : holds items its -> zlen its <= n -> holds (resize items n) its.
Proof.
  intros [rest ->] Hn. eexists (take (Z.to_nat n - length its) rest ++ replicate (Z.to_nat n - length (map Some its ++ rest)) None).
  unfold resize. rewrite app_assoc. f_equal. rewrite take_app, length_map. f_equal. apply take_ge. rewrite length_map.
  unfold zlen in *. lia.
Qed.

(** A free cell behind the ones in use. *)
Lemma holds_room items its : holds items its -> zlen its < zlen items -> exists c rest, items = map Some its ++ c :: rest.
Proof.
  intros [[|c rest] ->] Hlt; [exfalso|eauto]. rewrite app_nil_r in Hlt. unfold zlen in Hlt. rewrite length_map in Hlt. lia.
Qed.
End cells_lemmas.

Lemma length_omap {A B} (f : A -> option B) l : (length (omap f l) <= length l)%nat.
Proof. induction l as [|x l IH]; [reflexivity|]. cbn. destruct (f x); cbn; lia. Qed.

Lemma map_snoc {A B} (f : A -> B) l x rest : map f (l ++ [x]) ++ rest = map f l ++ f x :: rest.
Proof. rewrite map_app, <- app_assoc. reflexivity. Qed.

(** ** Little-endian byte strings *)

Fixpoint le_bytes (n : nat) (z : Z) : list byte :=
  match n with
  | O => []
  | S n => byte_of_Z z :: le_bytes n (Z.shiftr z 8)
  end.

Fixpoint le_Z (bs : list byte) : Z :=
  match bs with
  | [] => 0
  | b :: bs => u8 b + 256 * le_Z bs
  end.

Lemma length_le_bytes n z : length (le_bytes n z) = n.
Proof. revert z. induction n; intros; simpl; auto. Qed.

Lemma le_Z_range bs : 0 <= le_Z bs < 2 ^ (8 * zlen bs).
Proof.
  unfold zlen. induction bs as [|b bs IH]; [simpl; lia|].
  cbn [le_Z length]. pose proof (u8_range b) as Hb. unfold is_u8 in Hb.
  replace (8 * Z.of_nat (S (length bs))) with (8 + 8 * Z.of_nat (length bs)) by lia.
  rewrite Z.pow_add_r by lia. change (2 ^ 8) with 256. lia.
Qed.

Lemma le_Z_le_bytes n z : le_Z (le_bytes n z) = z mod 2 ^ (8 * Z.of_nat n).
Proof.
  revert z. induction n as [|n IH]; intros z; [symmetry; apply Z.mod_1_r|].
  cbn [le_bytes le_Z]. rewrite IH, u8_byte_of_Z, Z.shiftr_div_pow2 by lia.
  replace (8 * Z.of_nat (S n)) with (8 + 8 * Z.of_nat n) by lia.
  rewrite Z.pow_add_r by lia. change (2 ^ 8) with 256. unfold wrap8.
  rewrite Z.rem_mul_r by lia. reflexivity.
Qed.

Lemma le_bytes_le_Z bs : le_bytes (length bs) (le_Z bs) = bs.
Proof.
  induction bs as [|b bs IH]; [reflexivity|].
  cbn [le_bytes le_Z length]. pose proof (u8_range b) as Hb. unfold is_u8 in Hb. f_equal.
  - apply u8_inj. rewrite u8_byte_of_Z. unfold wrap8.
    rewrite Z.mul_comm, Z.mod_add by lia. apply Z.mod_small. lia.
  - rewrite Z.shiftr_div_pow2 by lia. change (2 ^ 8) with 256.
    rewrite Z.mul_comm, Z.div_add, Z.div_small by lia. apply IH.
Qed.

Lemma le_Z_app bs cs : le_Z (bs ++ cs) = le_Z bs + 2 ^ (8 * zlen bs) * le_Z cs.
Proof.
  unfold zlen. induction bs as [|b bs IH]; [simpl; lia|].
  cbn [le_Z app length]. rewrite IH.
  replace (8 * Z.of_nat (S (length bs))) with (8 + 8 * Z.of_nat (length bs)) by lia.
  rewrite Z.pow_add_r by lia. change (2 ^ 8) with 256. lia.
Qed.

(** ** Automation shared by the components *)

Create HintDb tide.
#[export] Hint Resolve u8_range wrap8_range wrap16_range wrap32_range wrap64_range
  u64_to_i64_range zlen_nonneg : tide.
Create Rewrite HintDb tide_rw.
#[export] Hint Rewrite @zlen_app u8_byte_of_Z byte_of_Z_u8 length_le_bytes : tide_rw.

(** Unfold the integer ranges, then linear arithmetic. *)
Ltac ranges := unfold is_u8, is_u16, is_u32, is_u64, is_i64, zlen in *.
Ltac zlia := ranges; lia.

(** Remove the wrap-around where the operands are known to fit. *)
Ltac unwrap :=
  repeat first
    [ rewrite wrap64_small by zlia
    | rewrite wrap32_small by zlia
    | rewrite wrap16_small by zlia
    | rewrite wrap8_small by zlia ].

(** Turn boolean comparisons in the hypotheses and the goal into
    propositions. *)
Ltac bool_props :=
  repeat match goal with
  | H : _ && _ = true |- _ => apply andb_true_iff in H; destruct H
  | H : _ || _ = false |- _ => apply orb_false_iff in H; destruct H
  | H : _ || _ = true |- _ => apply orb_true_iff in H
  | H : _ && _ = false |- _ => apply andb_false_iff in H
  | H : negb _ = true |- _ => apply negb_true_iff in H
  | H : negb _ = false |- _ => apply negb_false_iff in H
  | H : (_ <? _) = true |- _ => apply Z.ltb_lt in H
  | H : (_ <? _) = false |- _ => apply Z.ltb_ge in H
  | H : (_ <=? _) = true |- _ => apply Z.leb_le in H
  | H : (_ <=? _) = false |- _ => apply Z.leb_gt in H
  | H : (_ =? _) = true |- _ => apply Z.eqb_eq in H
  | H : (_ =? _) = false |- _ => apply Z.eqb_neq in H
  | H : (_ >? _) = true |- _ => rewrite Z.gtb_ltb in H
  | H : (_ >? _) = false |- _ => rewrite Z.gtb_ltb in H
  | H : (_ >=? _) = true |- _ => rewrite Z.geb_leb in H
  | H : (_ >=? _) = false |- _ => rewrite Z.geb_leb in H
  | H : bool_decide _ = true |- _ => apply bool_decide_eq_true in H
  | H : bool_decide _ = false |- _ => apply bool_decide_eq_false in H
  end.

(** Case analysis on the condition of the first [if] of the goal. *)
Ltac case_if :=
  match goal with
  | |- context [if ?b then _ else _] => let E := fresh "Hif" in destruct b eqn:E; bool_props
  end.

(** ** The allocator and pointers

    [malloc], [calloc] and [realloc] may fail at any call: a heap is the list
    of their answers to come, success once the list is used up. *)
Definition heap := list bool.
Definition alloc (h : heap) : bool * heap :=
  match h with [] => (true, []) | b :: h => (b, h) end.

(** A pointer the program tests against [NULL] is an [option]; reading
    through a null pointer is undefined. *)
Definition deref {A} (p : option A) : outcome A :=
  match p with Some a => Done a | None => Undef end.
Definition is_null {A} (p : option A) : bool :=
  match p with Some _ => false | None => true end.
