(* ===== verification/Status.v ===== *)
(** * Statuses, error records and limits

    [include/tide/error.h], [src/common/error.c], [include/tide/limits.h],
    [src/common/limits.c] and the record-type constants of
    [include/tide/tide.h].  A [tide_error *] is [option tide_error], [None]
    being the null pointer.  The two fixed text buffers of an error are the
    strings before their terminator. *)

From S2P Require Import Prelude.

Inductive tide_status : Set :=
  | TIDE_STATUS_OK
  | TIDE_STATUS_PARTIAL
  | TIDE_STATUS_WOULD_BLOCK
  | TIDE_STATUS_CANCELLED
  | TIDE_STATUS_INVALID_ARGUMENT
  | TIDE_STATUS_FORMAT
  | TIDE_STATUS_TRUNCATED
  | TIDE_STATUS_UNSUPPORTED
  | TIDE_STATUS_INTEGRITY
  | TIDE_STATUS_TIMELINE
  | TIDE_STATUS_INDEX
  | TIDE_STATUS_RESOURCE
  | TIDE_STATUS_IO
  | TIDE_STATUS_INTERNAL.

#[export] Instance tide_status_eq_dec : EqDecision tide_status.
Proof. solve_decision. Defined.

Inductive tide_severity : Set :=
  | TIDE_SEVERITY_INFO
  | TIDE_SEVERITY_WARNING
  | TIDE_SEVERITY_ERROR
  | TIDE_SEVERITY_FATAL.

Record tide_error : Set := mk_tide_error {
  err_code : tide_status;
  err_severity : tide_severity;
  err_offset : Z;
  err_record_type : Z;
  err_depth : Z;
  err_track_id : Z;
  err_generation : Z;
  err_packet_seq : Z;
  err_component : string;
  err_message : string
}.

(** [tide_status_string] ([src/common/error.c]). *)
Definition tide_status_string (status : tide_status) : string :=
  match status with
  | TIDE_STATUS_OK => "OK"
  | TIDE_STATUS_PARTIAL => "PARTIAL"
  | TIDE_STATUS_WOULD_BLOCK => "WOULD_BLOCK"
  | TIDE_STATUS_CANCELLED => "CANCELLED"
  | TIDE_STATUS_INVALID_ARGUMENT => "INVALID_ARGUMENT"
  | TIDE_STATUS_FORMAT => "FORMAT"
  | TIDE_STATUS_TRUNCATED => "TRUNCATED"
  | TIDE_STATUS_UNSUPPORTED => "UNSUPPORTED"
  | TIDE_STATUS_INTEGRITY => "INTEGRITY"
  | TIDE_STATUS_TIMELINE => "TIMELINE"
  | TIDE_STATUS_INDEX => "INDEX"
  | TIDE_STATUS_RESOURCE => "RESOURCE"
  | TIDE_STATUS_IO => "IO"
  | TIDE_STATUS_INTERNAL => "INTERNAL"
  end%string.

(** All bytes zero ([memset], [calloc]). *)
Definition zero_error : tide_error :=
  mk_tide_error TIDE_STATUS_OK TIDE_SEVERITY_INFO 0 0 0 0 0 0 EmptyString EmptyString.

Definition tide_error_clear (error : option tide_error) : option tide_error :=
  match error with
  | None => None
  | Some _ => Some zero_error
  end.

(** The loop of [tide_copy_text]: [room] is [dst_size - 1 - i]. *)
Fixpoint copy_loop (room : nat) (src : string) : string :=
  match room, src with
  | S room, String c src => if Ascii.eqb c zero then EmptyString else String c (copy_loop room src)
  | _, _ => EmptyString
  end.

(** [tide_copy_text]: what [dst] holds afterwards, as a C string; [src] is
    [None] for a null pointer.  [dst_size = 0] writes nothing at all. *)
Definition tide_copy_text (dst : string) (dst_size : nat) (src : option string) : string :=
  match dst_size with
  | O => dst
  | S room => match src with None => EmptyString | Some src => copy_loop room src end
  end.

Definition tide_error_set (error : option tide_error) (code : tide_status)
    (severity : tide_severity) (offset record_type depth : Z)
    (component message : option string) : option tide_error :=
  match tide_error_clear error with
  | None => None
  | Some e => Some (mk_tide_error code severity offset record_type depth
                      (err_track_id e) (err_generation e) (err_packet_seq e)
                      (tide_copy_text (err_component e) 24 component)
                      (tide_copy_text (err_message e) 120 message))
  end.

(** ** Limits *)

Definition TIDE_MAX_DEFAULT_DEPTH : Z := 16.
Definition TIDE_MAX_FULL_DEPTH : Z := 32.
Definition TIDE_HEADER_SIZE : Z := 72.
Definition TIDE_UUID_SIZE : Z := 16.
Definition TIDE_DIGEST_SIZE : Z := 32.

Record tide_limits : Set := mk_tide_limits {
  max_file_size : Z;
  max_record_size : Z;
  max_payload_size : Z;
  max_single_alloc : Z;
  max_aggregate_alloc : Z;
  max_depth : Z;
  max_tracks : Z;
  max_edit_entries : Z;
  max_packet_table_entries : Z;
  reorder_depth : Z
}.

Definition tide_limits_default : tide_limits := {|
  max_file_size := 512 * 1024 * 1024;
  max_record_size := 64 * 1024 * 1024;
  max_payload_size := 64 * 1024 * 1024;
  max_single_alloc := 32 * 1024 * 1024;
  max_aggregate_alloc := 128 * 1024 * 1024;
  max_depth := TIDE_MAX_DEFAULT_DEPTH;
  max_tracks := 64;
  max_edit_entries := 256;
  max_packet_table_entries := 1000000;
  reorder_depth := 16
|}.

Definition tide_limits_full : tide_limits := {|
  max_file_size := 8 * 1024 * 1024 * 1024;
  max_record_size := max_record_size tide_limits_default;
  max_payload_size := 1024 * 1024 * 1024;
  max_single_alloc := max_single_alloc tide_limits_default;
  max_aggregate_alloc := 512 * 1024 * 1024;
  max_depth := TIDE_MAX_FULL_DEPTH;
  max_tracks := 1024;
  max_edit_entries := 1024;
  max_packet_table_entries := max_packet_table_entries tide_limits_default;
  reorder_depth := 64
|}.

(** The fields fit their C types. *)
Definition limits_typed (l : tide_limits) : Prop :=
  is_u64 (max_file_size l) /\ is_u64 (max_record_size l) /\ is_u64 (max_payload_size l) /\
  is_u64 (max_single_alloc l) /\ is_u64 (max_aggregate_alloc l) /\ is_u32 (max_depth l) /\
  is_u32 (max_tracks l) /\ is_u32 (max_edit_entries l) /\
  is_u32 (max_packet_table_entries l) /\ is_u32 (reorder_depth l).

(** ** Record types ([include/tide/tide.h], [src/tide_internal.h]) *)

Definition TIDE_RECORD_GROUP : Z := 0x0001.
Definition TIDE_RECORD_STREAM_DESC : Z := 0x0010.
Definition TIDE_RECORD_PACKET : Z := 0x0020.
Definition TIDE_RECORD_PACKET_TABLE : Z := 0x0021.
Definition TIDE_RECORD_EDIT_LIST : Z := 0x0030.
Definition TIDE_RECORD_DISCONTINUITY : Z := 0x0031.
Definition TIDE_RECORD_SEEK_INDEX : Z := 0x0040.
Definition TIDE_RECORD_CHECKPOINT : Z := 0x0050.
Definition TIDE_RECORD_INDEX_DIRECTORY : Z := 0x0060.
Definition TIDE_RECORD_FOOTER : Z := 0x007F.
Definition TIDE_RECORD_SKIPPABLE_BIT : Z := 0x8000.
Definition TIDE_MAX_HEADER_VARINT_BYTES : nat := 10.
Definition TIDE_GROUP_META_SIZE : Z := 20.
Definition TIDE_PACKET_FIXED_SIZE : nat := 44.

(** ** Lemmas *)

Lemma limits_default_typed : limits_typed tide_limits_default.
Proof. vm_compute. intuition discriminate. Qed.

Lemma limits_full_typed : limits_typed tide_limits_full.
Proof. vm_compute. intuition discriminate. Qed.

Lemma length_copy_loop room src : (String.length (copy_loop room src) <= room)%nat.
Proof.
  revert src. induction room as [|room IH]; intros [|c src]; simpl; try lia.
  destruct (Ascii.eqb c zero); simpl; [lia|]. specialize (IH src). lia.
Qed.

Lemma copy_loop_prefix room src : String.prefix (copy_loop room src) src = true.
Proof.
  revert src. induction room as [|room IH]; intros [|c src]; simpl; try reflexivity.
  destruct (Ascii.eqb c zero); simpl; [reflexivity|].
  destruct (Ascii.ascii_dec c c); [apply IH|congruence].
Qed.

Lemma error_set_code error c sev off ty d comp msg e :
  tide_error_set error c sev off ty d comp msg = Some e -> err_code e = c.
Proof. destruct error; simpl; [|discriminate]. intros [= <-]. reflexivity. Qed.
