(* ===== verification/Checked.v ===== *)
(** * Checked arithmetic

    The first half of [src/common/checked.c]: overflow-checked addition and
    multiplication, alignment and the Euclidean algorithm.  A function that
    returns a success flag and stores through a pointer returns an [option]. *)

From S2P Require Import Prelude.

Definition tide_checked_add_u64 (a b : Z) : option Z :=
  if UINT64_MAX -u a <? b then None else Some (a +u b).

Definition tide_checked_mul_u64 (a b : Z) : option Z :=
  if negb (a =? 0) && (b >? UINT64_MAX / a) then None else Some (a *u b).

Definition tide_checked_u64_to_size (value : Z) : option Z :=
  if value >? SIZE_MAX then None else Some value.

(** [~x] on [uint64_t]. *)
Definition lnot64 (x : Z) : Z := wrap64 (Z.lnot x).

Definition tide_align_u64 (value alignment : Z) : option Z :=
  if (alignment =? 0) || negb (Z.land alignment (alignment -u 1) =? 0) then None
  else
    let mask := alignment -u 1 in
    match tide_checked_add_u64 value mask with
    | None => None
    | Some added => Some (Z.land added (lnot64 mask))
    end.

(** The loop of [tide_gcd_u64]. *)
Fixpoint gcd_loop (fuel : nat) (a b : Z) : outcome Z :=
  match fuel with
  | O => NoFuel
  | S fuel => if b =? 0 then Done a else gcd_loop fuel b (a mod b)
  end.

(** Two rounds at least halve [b], so 129 rounds are enough below [2^64]. *)
Definition gcd_fuel : nat := 129.
Definition tide_gcd_u64 (a b : Z) : outcome Z := gcd_loop gcd_fuel a b.

(** ** Addition and multiplication *)

Lemma checked_add_spec a b :
  is_u64 a -> is_u64 b ->
  tide_checked_add_u64 a b = if a + b <=? UINT64_MAX then Some (a + b) else None.
Proof.
  intros Ha Hb. unfold tide_checked_add_u64.
  rewrite (wrap64_small (UINT64_MAX - a)) by zlia.
  destruct (Z.ltb_spec (UINT64_MAX - a) b); destruct (Z.leb_spec (a + b) UINT64_MAX); try lia.
  - reflexivity.
  - unwrap. reflexivity.
Qed.

Lemma checked_mul_spec a b :
  is_u64 a -> is_u64 b ->
  tide_checked_mul_u64 a b = if a * b <=? UINT64_MAX then Some (a * b) else None.
Proof.
  intros Ha Hb. unfold tide_checked_mul_u64. ranges.
  destruct (Z.eqb_spec a 0) as [->|Hn]; [reflexivity|].
  cbn [negb andb]. rewrite Z.gtb_ltb.
  pose proof (Z.div_mod UINT64_MAX a ltac:(lia)).
  pose proof (Z.mod_pos_bound UINT64_MAX a ltac:(lia)).
  destruct (Z.ltb_spec (UINT64_MAX / a) b); destruct (Z.leb_spec (a * b) UINT64_MAX);
    try reflexivity; try nia.
  rewrite wrap64_small by (ranges; nia). reflexivity.
Qed.

(** ** Alignment *)

Lemma land_pred_pow2 k : 0 <= k -> Z.land (2 ^ k) (2 ^ k - 1) = 0.
Proof.
  intros. rewrite land_ones_mod by lia. apply Z.mod_same. apply Z.pow_nonzero; lia.
Qed.

Lemma land_pred_zero a : 0 < a -> Z.land a (a - 1) = 0 -> a = 2 ^ Z.log2 a.
Proof.
  intros Ha Hl. destruct (Z.log2_spec a Ha) as [Hlo Hhi].
  destruct (Z.eq_dec a (2 ^ Z.log2 a)) as [|Hne]; [assumption|exfalso].
  assert (Hlog : Z.log2 (a - 1) = Z.log2 a).
  { apply Z.log2_unique; [apply Z.log2_nonneg|]. lia. }
  assert (Hpos : 0 < 2 ^ Z.log2 a) by (apply Z.pow_pos_nonneg; [lia|apply Z.log2_nonneg]).
  assert (Hb : Z.testbit (Z.land a (a - 1)) (Z.log2 a) = true).
  { rewrite Z.land_spec, Z.bit_log2 by lia. rewrite <- Hlog. apply Z.bit_log2. lia. }
  rewrite Hl, Z.bits_0 in Hb. discriminate.
Qed.

Lemma land_lnot64_mask x k :
  is_u64 x -> 0 <= k <= 64 -> Z.land x (lnot64 (2 ^ k - 1)) = x - x mod 2 ^ k.
Proof.
  intros Hx Hk.
  assert (Hpow : 0 < 2 ^ k) by (apply Z.pow_pos_nonneg; lia).
  transitivity (Z.ldiff x (2 ^ k - 1)).
  - apply Z.bits_inj'. intros i Hi. rewrite Z.land_spec, Z.ldiff_spec.
    unfold lnot64, wrap64. change 18446744073709551616 with (2 ^ 64).
    destruct (Z_lt_le_dec i 64) as [Hlt|Hge].
    + rewrite Z.mod_pow2_bits_low, Z.lnot_spec by lia. reflexivity.
    + rewrite (testbit_small x 64) by (ranges; lia). reflexivity.
  - replace (2 ^ k - 1) with (Z.ones k) by (rewrite Z.ones_equiv; reflexivity).
    rewrite Z.ldiff_ones_r, Z.shiftl_mul_pow2, Z.shiftr_div_pow2 by lia.
    rewrite (Z.div_mod x (2 ^ k)) at 2 by lia. lia.
Qed.

(** [align_up v m]: the least multiple of [m] that is at least [v]. *)
Definition align_up (v m : Z) : Z := m * ((v + (m - 1)) / m).

Lemma align_up_spec v m :
  0 <= v -> 0 < m -> (m | align_up v m) /\ v <= align_up v m < v + m /\
  forall z, (m | z) -> v <= z -> align_up v m <= z.
Proof.
  intros Hv Hm. unfold align_up.
  pose proof (Z.div_mod (v + (m - 1)) m ltac:(lia)) as Hd.
  pose proof (Z.mod_pos_bound (v + (m - 1)) m ltac:(lia)) as Hb.
  split; [apply Z.divide_factor_l|]. split; [lia|].
  intros z [q ->] Hz.
  assert ((v + (m - 1)) / m < q + 1) by (apply Z.div_lt_upper_bound; lia). nia.
Qed.

Lemma align_pow2 v k :
  is_u64 v -> 0 <= k < 64 ->
  tide_align_u64 v (2 ^ k) =
    if v + (2 ^ k - 1) <=? UINT64_MAX then Some (align_up v (2 ^ k)) else None.
Proof.
  intros Hv Hk.
  assert (Hp : 0 < 2 ^ k) by (apply Z.pow_pos_nonneg; lia).
  assert (Hp' : 2 ^ k <= 2 ^ 63) by (apply Z.pow_le_mono_r; lia). change (2 ^ 63) with 9223372036854775808 in Hp'.
  unfold tide_align_u64. rewrite (wrap64_small (2 ^ k - 1)) by zlia.
  rewrite land_pred_pow2 by lia.
  destruct (Z.eqb_spec (2 ^ k) 0); [lia|]. cbn [orb negb Z.eqb].
  rewrite checked_add_spec by (ranges; lia).
  destruct (Z.leb_spec (v + (2 ^ k - 1)) UINT64_MAX); [|reflexivity].
  rewrite land_lnot64_mask by zlia. f_equal. unfold align_up.
  pose proof (Z.div_mod (v + (2 ^ k - 1)) (2 ^ k) ltac:(lia)). lia.
Qed.

(** ** Greatest common divisor *)

Lemma gcd_loop_spec k a b fuel :
  0 <= a -> 0 <= b < 2 ^ Z.of_nat k -> (2 * k + 1 <= fuel)%nat ->
  gcd_loop fuel a b = Done (Z.gcd a b).
Proof.
  revert a b fuel. induction k as [|k IH]; intros a b fuel Ha Hb Hf.
  { change (2 ^ Z.of_nat 0) with 1 in Hb. assert (b = 0) as -> by lia.
    destruct fuel as [|fuel]; [lia|]. simpl. rewrite Z.gcd_0_r, Z.abs_eq by lia. reflexivity. }
  destruct fuel as [|[|fuel]]; [lia|lia|]. cbn [gcd_loop].
  destruct (Z.eqb_spec b 0) as [->|Hb0]; [rewrite Z.gcd_0_r, Z.abs_eq by lia; reflexivity|].
  pose proof (Z.mod_pos_bound a b ltac:(lia)) as Hr.
  assert (Hg : Z.gcd b (a mod b) = Z.gcd a b) by (rewrite Z.gcd_comm, Z.gcd_mod by lia; apply Z.gcd_comm).
  destruct (Z.eqb_spec (a mod b) 0) as [Hr0|Hr0].
  { rewrite <- Hg, Hr0, Z.gcd_0_r, Z.abs_eq by lia. reflexivity. }
  pose proof (Z.mod_pos_bound b (a mod b) ltac:(lia)) as Hr2.
  pose proof (Z.div_mod b (a mod b) ltac:(lia)) as Hd.
  assert (1 <= b / (a mod b)) by (apply Z.div_le_lower_bound; lia).
  rewrite IH; [|lia| |lia].
  - f_equal. rewrite <- Hg, (Z.gcd_comm b), (Z.gcd_comm _ (b mod _)). apply Z.gcd_mod. lia.
  - replace (Z.of_nat (S k)) with (1 + Z.of_nat k) in Hb by lia.
    rewrite Z.pow_add_r in Hb by lia. change (2 ^ 1) with 2 in Hb. nia.
Qed.

Lemma gcd_spec a b : is_u64 a -> is_u64 b -> tide_gcd_u64 a b = Done (Z.gcd a b).
Proof.
  intros Ha Hb. apply (gcd_loop_spec 64); [ranges; lia| |unfold gcd_fuel; lia].
  change (2 ^ Z.of_nat 64) with 18446744073709551616. ranges; lia.
Qed.

(** C33: the Euclidean algorithm ends on all 64-bit values, within its fuel, and
    returns the greatest common divisor: a divisor of both that every common
    divisor divides, zero only for two zeros. *)
Theorem tide_gcd_u64_correct (a b : Z) :
  is_u64 a -> is_u64 b ->
  exists g, tide_gcd_u64 a b = Done g /\ is_u64 g /\ (g | a) /\ (g | b) /\
    (forall d, (d | a) -> (d | b) -> (d | g)) /\ (g = 0 <-> a = 0 /\ b = 0).
Proof.
  intros Ha Hb. exists (Z.gcd a b). split; [apply gcd_spec; assumption|].
  pose proof (Z.gcd_nonneg a b). pose proof (Z.gcd_divide_l a b) as Hl. pose proof (Z.gcd_divide_r a b) as Hr.
  split; [|split; [exact Hl|split; [exact Hr|split; [intros d; apply Z.gcd_greatest|apply Z.gcd_eq_0]]]].
  destruct (Z.eq_dec a 0) as [->|Ha0]; [rewrite Z.gcd_0_l, Z.abs_eq by zlia; exact Hb|].
  apply Z.divide_pos_le in Hl; zlia.
Qed.

Lemma tide_gcd_u64_correct_witness : exists g, tide_gcd_u64 18446744073709551615 4294967295 = Done g /\ (g | 4294967295) /\ g = 4294967295.
Proof.
  destruct (tide_gcd_u64_correct 18446744073709551615 4294967295 ltac:(zlia) ltac:(zlia)) as (g & Hg & _ & _ & Hd & _).
  exists g. split; [exact Hg|]. split; [exact Hd|]. vm_compute in Hg. injection Hg as <-. reflexivity.
Defined.

(** C37: [tide_align_u64] succeeds exactly on a power of two for which the
    rounding does not overflow, and then returns the least multiple of it that
    is at least the value. *)
Theorem tide_align_u64_correct (value alignment : Z) :
  is_u64 value -> is_u64 alignment ->
  match tide_align_u64 value alignment with
  | Some r => (exists k, 0 <= k < 64 /\ alignment = 2 ^ k) /\ value + (alignment - 1) <= UINT64_MAX /\
      is_u64 r /\ (alignment | r) /\ value <= r < value + alignment /\
      forall z, (alignment | z) -> value <= z -> r <= z
  | None => (forall k, 0 <= k -> alignment <> 2 ^ k) \/ UINT64_MAX < value + (alignment - 1)
  end.
Proof.
  intros Hv Ha.
  destruct (Z.eq_dec alignment 0) as [->|H0].
  { left. intros k Hk. pose proof (Z.pow_pos_nonneg 2 k ltac:(lia) Hk). lia. }
  destruct (Z.eq_dec (Z.land alignment (alignment - 1)) 0) as [Hl|Hl].
  - apply land_pred_zero in Hl; [|zlia]. assert (Hk : 0 <= Z.log2 alignment < 64).
    { split; [apply Z.log2_nonneg|]. apply Z.log2_lt_pow2; zlia. }
    revert Hl Hk. generalize (Z.log2 alignment). intros k -> Hk. rewrite align_pow2 by assumption.
    assert (0 < 2 ^ k) by (apply Z.pow_pos_nonneg; lia).
    destruct (align_up_spec value (2 ^ k)) as (Hd & Hb & Hm); [zlia|lia|].
    destruct (Z.leb_spec (value + (2 ^ k - 1)) UINT64_MAX); [|right; lia].
    split; [exists k; auto|]. split; [assumption|]. split; [zlia|]. auto.
  - unfold tide_align_u64. rewrite (wrap64_small (alignment - 1)) by zlia.
    rewrite (proj2 (Z.eqb_neq alignment 0)), (proj2 (Z.eqb_neq _ 0)) by assumption. cbn [orb negb].
    left. intros k Hk ->. apply Hl, land_pred_pow2, Hk.
Qed.

Lemma tide_align_u64_correct_witness :
  is_u64 13 /\ match tide_align_u64 13 8 with Some r => r = 16 /\ 13 <= r < 13 + 8 | None => False end.
Proof.
  split; [zlia|]. pose proof (tide_align_u64_correct 13 8 ltac:(zlia) ltac:(zlia)) as H.
  change (tide_align_u64 13 8) with (Some 16) in *. cbv iota beta in *. split; [reflexivity|apply H].
Defined.
