(* ===== verification/Buffer.v ===== *)
(** * Growable byte buffers

    The second half of [src/common/checked.c].  [buf_data] holds the first [buf_size]
    bytes of the allocation, the initialised ones; [buf_capacity] is the size of
    the allocation. *)

From S2P Require Import Prelude Status.

Record tide_buffer : Set := mk_buffer {
  buf_data : list byte;
  buf_size : Z;
  buf_capacity : Z;
  buf_aggregate_limit : Z
}.

(** [tide_buffer b = {0}; b.buf_aggregate_limit = limit;] *)
Definition empty_buffer (limit : Z) : tide_buffer := mk_buffer [] 0 0 limit.

(** The doubling loop of [tide_buffer_reserve]. *)
Fixpoint grow_loop (fuel : nat) (next needed : Z) : outcome Z :=
  match fuel with
  | O => NoFuel
  | S fuel =>
    if next <? needed then
      if next >? SIZE_MAX / 2 then Done needed
      else grow_loop fuel (next *u 2) needed
    else Done next
  end.

(** 64 doublings of a positive size exceed [SIZE_MAX]. *)
Definition grow_fuel : nat := 66.

Definition tide_buffer_reserve (buffer : option tide_buffer) (additional : Z) (h : heap)
    : outcome (tide_status * option tide_buffer * heap) :=
  match buffer with
  | None => Done (TIDE_STATUS_INVALID_ARGUMENT, None, h)
  | Some b =>
    if additional >? SIZE_MAX -u buf_size b then Done (TIDE_STATUS_RESOURCE, Some b, h)
    else
      let needed := buf_size b +u additional in
      if (needed >? buf_aggregate_limit b) && negb (buf_aggregate_limit b =? 0) then
        Done (TIDE_STATUS_RESOURCE, Some b, h)
      else if needed <=? buf_capacity b then Done (TIDE_STATUS_OK, Some b, h)
      else
        next ← grow_loop grow_fuel (if buf_capacity b =? 0 then 256 else buf_capacity b) needed;
        let (grown, h) := alloc h in
        if negb grown then Done (TIDE_STATUS_RESOURCE, Some b, h)
        else Done (TIDE_STATUS_OK, Some (mk_buffer (buf_data b) (buf_size b) next (buf_aggregate_limit b)), h)
  end.

(** Store [bs] at [buffer->buf_data + buffer->buf_size] and advance [buf_size]. *)
Definition buffer_push (b : tide_buffer) (bs : list byte) : outcome tide_buffer :=
  _ ← assert_def (buf_size b + zlen bs <=? buf_capacity b);
  Done (mk_buffer (buf_data b ++ bs) (buf_size b +u zlen bs) (buf_capacity b) (buf_aggregate_limit b)).

Definition tide_buffer_append (buffer : option tide_buffer) (src : option (list byte))
    (n : Z) (h : heap) : outcome (tide_status * option tide_buffer * heap) :=
  if negb (n =? 0) && is_null src then Done (TIDE_STATUS_INVALID_ARGUMENT, buffer, h)
  else
    '(status, buffer, h) ← tide_buffer_reserve buffer n h;
    if negb (bool_decide (status = TIDE_STATUS_OK)) then Done (status, buffer, h)
    else if n =? 0 then Done (TIDE_STATUS_OK, buffer, h)
    else
      b ← deref buffer; src ← deref src; bs ← span src 0 n;
      b ← buffer_push b bs;
      Done (TIDE_STATUS_OK, Some b, h).

Definition tide_buffer_append_zero (buffer : option tide_buffer) (n : Z) (h : heap)
    : outcome (tide_status * option tide_buffer * heap) :=
  '(status, buffer, h) ← tide_buffer_reserve buffer n h;
  if negb (bool_decide (status = TIDE_STATUS_OK)) then Done (status, buffer, h)
  else if n =? 0 then Done (TIDE_STATUS_OK, buffer, h)
  else
    b ← deref buffer;
    b ← buffer_push b (replicate (Z.to_nat n) x00);
    Done (TIDE_STATUS_OK, Some b, h).

Definition tide_buffer_destroy (buffer : option tide_buffer) : option tide_buffer :=
  match buffer with
  | None => None
  | Some b => Some (mk_buffer [] 0 0 (buf_aggregate_limit b))
  end.

(** ** Invariant and specification *)

Definition buffer_wf (b : tide_buffer) : Prop :=
  buf_size b = zlen (buf_data b) /\ buf_size b <= buf_capacity b < 2 ^ 64 /\
  (buf_aggregate_limit b <> 0 -> buf_size b <= buf_aggregate_limit b).

(** [room b n]: [n] more bytes pass the buffer's limit and [size_t]. *)
Definition room (b : tide_buffer) (n : Z) : bool :=
  (buf_size b + n <=? SIZE_MAX) && ((buf_size b + n <=? buf_aggregate_limit b) || (buf_aggregate_limit b =? 0)).

(** The buffer holding [bs] more bytes; only the buf_capacity is left open. *)
Definition extends (b : tide_buffer) (bs : list byte) (b' : tide_buffer) : Prop :=
  buf_data b' = buf_data b ++ bs /\ buf_aggregate_limit b' = buf_aggregate_limit b /\ buffer_wf b' /\
  buf_capacity b <= buf_capacity b'.

Lemma room_u64 b n : room b n = true -> 0 <= buf_size b -> n < 2 ^ 64.
Proof. unfold room. intros H ?. bool_props. lia. Qed.

Lemma empty_buffer_wf limit : 0 <= limit -> buffer_wf (empty_buffer limit).
Proof. intros. split; [reflexivity|]. simpl. lia. Qed.

Lemma grow_loop_spec k next needed fuel :
  0 < next < 2 ^ 64 -> needed < 2 ^ 64 -> 2 ^ 64 <= next * 2 ^ Z.of_nat k -> (k + 2 <= fuel)%nat ->
  exists r, grow_loop fuel next needed = Done r /\ needed <= r < 2 ^ 64 /\ next <= r /\
    (r = next \/ r < 2 * needed).
Proof.
  revert next fuel. induction k as [|k IH]; intros next fuel Hn Hd Hk Hf.
  { change (2 ^ Z.of_nat 0) with 1 in Hk. lia. }
  destruct fuel as [|fuel]; [lia|]. cbn [grow_loop].
  destruct (Z.ltb_spec next needed) as [Hlt|Hge].
  2: { exists next. split; [reflexivity|]. lia. }
  rewrite Z.gtb_ltb. change (SIZE_MAX / 2) with 9223372036854775807.
  destruct (Z.ltb_spec 9223372036854775807 next).
  { exists needed. split; [reflexivity|]. lia. }
  rewrite wrap64_small by (unfold is_u64; lia).
  destruct (IH (next * 2) fuel) as (r & Hr & H1 & H2 & H3); try lia.
  { replace (Z.of_nat (S k)) with (1 + Z.of_nat k) in Hk by lia.
    rewrite Z.pow_add_r in Hk by lia. change (2 ^ 1) with 2 in Hk. lia. }
  exists r. split; [exact Hr|]. lia.
Qed.

(** Reserving never touches the contents; it succeeds when there is room and
    the allocator does not fail. *)
Lemma reserve_spec b n h :
  buffer_wf b -> 0 <= n < 2 ^ 64 ->
  exists st b' h', tide_buffer_reserve (Some b) n h = Done (st, Some b', h') /\
    ((st = TIDE_STATUS_OK /\ room b n = true /\ buf_data b' = buf_data b /\ buf_size b' = buf_size b /\
        buf_aggregate_limit b' = buf_aggregate_limit b /\ buffer_wf b' /\ buf_size b + n <= buf_capacity b' /\
        buf_capacity b <= buf_capacity b')
     \/ (st = TIDE_STATUS_RESOURCE /\ b' = b)) /\
    (h = [] -> h' = [] /\ (room b n = true -> st = TIDE_STATUS_OK)) /\
    (room b n = false -> st = TIDE_STATUS_RESOURCE).
Proof.
  intros (Hsz & Hcap & Hlim) Hn. unfold tide_buffer_reserve, room.
  pose proof (zlen_nonneg (buf_data b)).
  rewrite (wrap64_small (SIZE_MAX - buf_size b)) by (unfold is_u64; lia). rewrite Z.gtb_ltb.
  destruct (Z.ltb_spec (SIZE_MAX - buf_size b) n).
  { exists TIDE_STATUS_RESOURCE, b, h. rewrite (proj2 (Z.leb_gt (buf_size b + n) SIZE_MAX)) by lia.
    intuition discriminate. }
  rewrite (wrap64_small (buf_size b + n)) by (unfold is_u64; lia).
  rewrite (proj2 (Z.leb_le (buf_size b + n) SIZE_MAX)) by lia. rewrite Z.gtb_ltb. cbn [andb].
  destruct (Z.ltb_spec (buf_aggregate_limit b) (buf_size b + n)) as [Hl|Hl];
    destruct (Z.eqb_spec (buf_aggregate_limit b) 0) as [Hz|Hz]; cbn [andb negb].
  2: { exists TIDE_STATUS_RESOURCE, b, h. rewrite (proj2 (Z.leb_gt _ _)) by lia.
       intuition discriminate. }
  all: rewrite ?orb_true_r; rewrite ?(proj2 (Z.leb_le (buf_size b + n) (buf_aggregate_limit b))) by lia; cbn [orb].
  all: destruct (Z.leb_spec (buf_size b + n) (buf_capacity b)).
  1,3,5: exists TIDE_STATUS_OK, b, h; split; [reflexivity|]; split;
    [left; unfold buffer_wf; intuition lia|intuition discriminate].
  all: edestruct (grow_loop_spec 64 (if buf_capacity b =? 0 then 256 else buf_capacity b) (buf_size b + n) grow_fuel)
    as (r & -> & Hr & Hr2 & _); [destruct (Z.eqb_spec (buf_capacity b) 0); lia|lia| |unfold grow_fuel; lia|];
    [change (2 ^ Z.of_nat 64) with (2 ^ 64); destruct (Z.eqb_spec (buf_capacity b) 0); nia|].
  all: cbn [mbind outcome_bind]; destruct (alloc h) as [[] h'] eqn:Ea; cbn [negb].
  all: try (exists TIDE_STATUS_RESOURCE, b, h'; split; [reflexivity|]; split; [right; auto|];
      split; [intros ->; discriminate|discriminate]).
  all: exists TIDE_STATUS_OK, (mk_buffer (buf_data b) (buf_size b) r (buf_aggregate_limit b)), h';
    split; [reflexivity|]; split; [left; unfold buffer_wf; simpl;
      destruct (Z.eqb_spec (buf_capacity b) 0); repeat split; try lia; auto|];
    split; [intros ->; injection Ea as <-; auto|discriminate].
Qed.

Lemma push_spec b bs :
  buffer_wf b -> buf_size b + zlen bs <= buf_capacity b -> room b (zlen bs) = true ->
  exists b', buffer_push b bs = Done b' /\ extends b bs b' /\ buf_capacity b' = buf_capacity b.
Proof.
  intros (Hsz & Hcap & Hlim) Hb Hr. unfold buffer_push, assert_def, room in *. bool_props.
  pose proof (zlen_nonneg bs). pose proof (zlen_nonneg (buf_data b)).
  rewrite (proj2 (Z.leb_le _ _)) by lia. cbn [mbind outcome_bind].
  eexists. split; [reflexivity|]. rewrite wrap64_small by (unfold is_u64; lia).
  unfold extends, buffer_wf. cbn [buf_data buf_size buf_capacity buf_aggregate_limit].
  rewrite zlen_app. repeat split; lia.
Qed.

(** What appending [bs] does: either the buffer holds the bytes and the status
    is [OK], or it is exactly the buffer it was and the status is [RESOURCE];
    it is [OK] whenever there is room and the allocator does not fail. *)
Definition append_outcome (b : tide_buffer) (bs : list byte) (h : heap)
    (o : outcome (tide_status * option tide_buffer * heap)) : Prop :=
  exists st b' h', o = Done (st, Some b', h') /\
    ((st = TIDE_STATUS_OK /\ extends b bs b' /\ room b (zlen bs) = true) \/
     (st = TIDE_STATUS_RESOURCE /\ b' = b)) /\
    (h = [] -> h' = [] /\ (room b (zlen bs) = true -> st = TIDE_STATUS_OK)).

Lemma extends_nil b b' :
  buf_data b' = buf_data b -> buf_size b' = buf_size b -> buf_aggregate_limit b' = buf_aggregate_limit b ->
  buffer_wf b' -> buf_capacity b <= buf_capacity b' -> extends b [] b'.
Proof. intros. unfold extends. rewrite app_nil_r. auto. Qed.

Lemma push_after_reserve b b' bs :
  buf_data b' = buf_data b -> buf_size b' = buf_size b -> buf_aggregate_limit b' = buf_aggregate_limit b ->
  buffer_wf b' -> buf_size b + zlen bs <= buf_capacity b' -> buf_capacity b <= buf_capacity b' ->
  room b (zlen bs) = true ->
  exists b'', buffer_push b' bs = Done b'' /\ extends b bs b''.
Proof.
  intros Hd Hs Hl Hw Hc Hcc Hr.
  destruct (push_spec b' bs) as (b'' & -> & (E1 & E2 & E3 & E4) & Hc'');
    [exact Hw|rewrite Hs; exact Hc|unfold room in *; rewrite Hs, Hl; exact Hr|].
  exists b''. split; [reflexivity|]. unfold extends. rewrite E1, E2, Hd, Hl.
  repeat split; try apply E3; lia.
Qed.

Lemma append_spec b src n h :
  buffer_wf b -> 0 <= n <= zlen src -> n < 2 ^ 64 ->
  append_outcome b (slice src 0 n) h (tide_buffer_append (Some b) (Some src) n h).
Proof.
  intros Hb Hn Hn'. unfold append_outcome, tide_buffer_append. cbn [is_null]. rewrite andb_false_r.
  rewrite zlen_slice by lia.
  destruct (reserve_spec b n h Hb ltac:(lia)) as (st & b1 & h1 & -> & Hst & Hh & _).
  cbn [mbind outcome_bind].
  destruct Hst as [(-> & Hr & Hd & Hs & Hl & Hw & Hc & Hcc)|[-> ->]].
  2: { exists TIDE_STATUS_RESOURCE, b, h1. split; [reflexivity|]. intuition. }
  rewrite bool_decide_eq_true_2 by reflexivity. cbn [negb].
  destruct (Z.eqb_spec n 0) as [->|Hn0].
  { exists TIDE_STATUS_OK, b1, h1. split; [reflexivity|]. split; [|tauto].
    left. split; [reflexivity|]. split; [apply extends_nil; auto|exact Hr]. }
  cbn [deref mbind outcome_bind]. rewrite span_done by lia. cbn [mbind outcome_bind].
  destruct (push_after_reserve b b1 (slice src 0 n)) as (b2 & -> & He); auto;
    try (rewrite zlen_slice by lia; auto).
  exists TIDE_STATUS_OK, b2, h1. split; [reflexivity|]. split; [left; auto|tauto].
Qed.

(** A null source is accepted exactly when no byte is asked for. *)
Lemma append_null_spec b n h :
  buffer_wf b -> 0 <= n < 2 ^ 64 ->
  if n =? 0 then append_outcome b [] h (tide_buffer_append (Some b) None n h)
  else tide_buffer_append (Some b) None n h = Done (TIDE_STATUS_INVALID_ARGUMENT, Some b, h).
Proof.
  intros Hb Hn. destruct (Z.eqb_spec n 0) as [->|Hn0].
  2: { unfold tide_buffer_append. rewrite (proj2 (Z.eqb_neq n 0)) by lia. reflexivity. }
  exact (append_spec b [] 0 h Hb ltac:(unfold zlen; simpl; lia) ltac:(lia)).
Qed.

Lemma append_zero_spec b n h :
  buffer_wf b -> 0 <= n < 2 ^ 64 ->
  append_outcome b (replicate (Z.to_nat n) x00) h (tide_buffer_append_zero (Some b) n h).
Proof.
  intros Hb Hn. unfold append_outcome, tide_buffer_append_zero.
  assert (Hz : zlen (replicate (Z.to_nat n) x00) = n)
    by (unfold zlen; rewrite length_replicate; lia).
  rewrite Hz.
  destruct (reserve_spec b n h Hb ltac:(lia)) as (st & b1 & h1 & -> & Hst & Hh & _).
  cbn [mbind outcome_bind].
  destruct Hst as [(-> & Hr & Hd & Hs & Hl & Hw & Hc & Hcc)|[-> ->]].
  2: { exists TIDE_STATUS_RESOURCE, b, h1. split; [reflexivity|]. intuition. }
  rewrite bool_decide_eq_true_2 by reflexivity. cbn [negb].
  destruct (Z.eqb_spec n 0) as [->|Hn0].
  { exists TIDE_STATUS_OK, b1, h1. split; [reflexivity|]. split; [|tauto].
    left. split; [reflexivity|]. split; [apply extends_nil; auto|exact Hr]. }
  cbn [deref mbind outcome_bind].
  destruct (push_after_reserve b b1 (replicate (Z.to_nat n) x00)) as (b2 & -> & He); auto;
    try (rewrite Hz; auto).
  exists TIDE_STATUS_OK, b2, h1. split; [reflexivity|]. split; [left; auto|tauto].
Qed.

(** ** Sequences of appends *)

(** Appends that stop at the first failure: all of [bs] and [OK], or a part of
    [bs] and [RESOURCE]; [OK] whenever there is room and no allocation fails. *)
Definition appended (b : tide_buffer) (bs : list byte) (h : heap) (r : tide_status * option tide_buffer * heap) : Prop :=
  exists st b' h', r = (st, Some b', h') /\
    ((st = TIDE_STATUS_OK /\ extends b bs b' /\ room b (zlen bs) = true) \/
     (st = TIDE_STATUS_RESOURCE /\ exists k, (k <= length bs)%nat /\ extends b (take k bs) b')) /\
    (h = [] -> h' = [] /\ (room b (zlen bs) = true -> st = TIDE_STATUS_OK)).

Lemma extends_refl b : buffer_wf b -> extends b [] b.
Proof. intros. apply extends_nil; auto. lia. Qed.

Lemma extends_app b xs b1 ys b2 : extends b xs b1 -> extends b1 ys b2 -> extends b (xs ++ ys) b2.
Proof.
  intros (H1 & H2 & H3 & H4) (G1 & G2 & G3 & G4). unfold extends. rewrite G1, H1, app_assoc, G2, H2.
  repeat split; try apply G3; lia.
Qed.

Lemma extends_size b bs b' : buffer_wf b -> extends b bs b' -> buf_size b' = buf_size b + zlen bs.
Proof. intros (H1 & _) (H2 & _ & (H3 & _) & _). rewrite H3, H2, zlen_app, H1. reflexivity. Qed.

Lemma room_app b xs b1 n : buffer_wf b -> extends b xs b1 -> 0 <= n -> room b (zlen xs + n) = room b1 n.
Proof.
  intros Hb He Hn. unfold room. rewrite (extends_size b xs b1 Hb He). destruct He as (_ & -> & _). rewrite !Z.add_assoc. reflexivity.
Qed.

Lemma room_le b n m : 0 <= m <= n -> room b n = true -> room b m = true.
Proof.
  unfold room. intros Hm H. bool_props. rewrite (proj2 (Z.leb_le _ SIZE_MAX)) by lia. cbn [andb].
  destruct (buf_aggregate_limit b =? 0); [apply orb_true_r|]. rewrite orb_false_r in *. apply Z.leb_le. bool_props. lia.
Qed.

Lemma append_appended b src n h :
  buffer_wf b -> 0 <= n <= zlen src -> n < 2 ^ 64 ->
  wp (tide_buffer_append (Some b) (Some src) n h) (appended b (slice src 0 n) h).
Proof.
  intros Hb Hn Hm. destruct (append_spec b src n h Hb Hn Hm) as (st & b' & h' & -> & Hst & Hh).
  exists st, b', h'. split; [reflexivity|]. split; [|exact Hh]. destruct Hst as [?|[? ->]]; [left; assumption|right].
  split; [assumption|]. exists 0%nat. split; [lia|apply extends_refl, Hb].
Qed.

Lemma append_all b src h :
  buffer_wf b -> zlen src < 2 ^ 64 -> wp (tide_buffer_append (Some b) (Some src) (zlen src) h) (appended b src h).
Proof.
  intros Hb Hm. rewrite <- (slice_full src) at 3. pose proof (zlen_nonneg src). apply append_appended; assumption || lia.
Qed.

Lemma append_zero_appended b n h :
  buffer_wf b -> 0 <= n < 2 ^ 64 -> wp (tide_buffer_append_zero (Some b) n h) (appended b (replicate (Z.to_nat n) x00) h).
Proof.
  intros Hb Hn. destruct (append_zero_spec b n h Hb Hn) as (st & b' & h' & -> & Hst & Hh).
  exists st, b', h'. split; [reflexivity|]. split; [|exact Hh]. destruct Hst as [?|[? ->]]; [left; assumption|right].
  split; [assumption|]. exists 0%nat. split; [lia|apply extends_refl, Hb].
Qed.

(** One append after another. *)
Lemma appended_bind b xs ys h (m : outcome (tide_status * option tide_buffer * heap))
    (k : tide_buffer -> heap -> outcome (tide_status * option tide_buffer * heap)) :
  buffer_wf b -> wp m (appended b xs h) ->
  (forall b1 h1, extends b xs b1 -> room b (zlen xs) = true -> wp (k b1 h1) (appended b1 ys h1)) ->
  wp ('(st, b1, h1) ← m;
      if negb (bool_decide (st = TIDE_STATUS_OK)) then Done (st, b1, h1)
      else b1 ← deref b1; k b1 h1) (appended b (xs ++ ys) h).
Proof.
  intros Hb Hm Hk. apply wp_inv in Hm as (r & -> & st & b1 & h1 & -> & Hst & Hh). rewrite bind_done. cbv beta iota.
  pose proof (zlen_nonneg xs). pose proof (zlen_nonneg ys).
  destruct Hst as [(-> & He & Hr)|[-> (n & Hn & He)]].
  - rewrite bool_decide_eq_true_2 by reflexivity. cbn [negb deref]. rewrite bind_done.
    specialize (Hk b1 h1 He Hr). apply wp_inv in Hk as (r & -> & st2 & b2 & h2 & -> & Hst2 & Hh2).
    exists st2, b2, h2. split; [reflexivity|]. rewrite zlen_app, (room_app b xs b1) by (assumption || lia). split.
    + destruct Hst2 as [(-> & He2 & Hr2)|[-> (n & Hn & He2)]]; [left|right].
      * split; [reflexivity|]. split; [eapply extends_app; eassumption|exact Hr2].
      * split; [reflexivity|]. exists (length xs + n)%nat. rewrite length_app. split; [lia|].
        rewrite take_app_ge by lia.
        replace (length xs + n - length xs)%nat with n by lia. eapply extends_app; eassumption.
    + intros ->. destruct (Hh eq_refl) as [-> _]. destruct (Hh2 eq_refl) as [-> Hok2]. auto.
  - rewrite bool_decide_eq_false_2 by discriminate. cbn [negb].
    exists TIDE_STATUS_RESOURCE, b1, h1. split; [reflexivity|]. split.
    + right. split; [reflexivity|]. exists n. rewrite length_app. split; [lia|]. rewrite take_app_le by lia. exact He.
    + intros ->. destruct (Hh eq_refl) as [-> Hok]. split; [reflexivity|]. rewrite zlen_app. intros Hr.
      apply Hok. eapply room_le; [|exact Hr]. lia.
Qed.

(** ** The operations *)

(** C29: every operation on a well-formed buffer is defined (growing it takes at
    most 66 doublings) and leaves a buffer that is well formed, within its
    allocation and its aggregate limit: an append stores exactly the bytes
    given behind those there, or fails with [RESOURCE] and changes nothing;
    it fails when there is no room, and otherwise only with the allocator;
    reserving never changes the contents. *)
Theorem tide_buffer_operations_correct (b : tide_buffer) (data : list byte) (n : Z) (h : heap) :
  buffer_wf b -> zlen data < 2 ^ 64 -> 0 <= n < 2 ^ 64 ->
  let fits := fun r => room b r = true in
  (exists st b' h', tide_buffer_reserve (Some b) n h = Done (st, Some b', h') /\ buffer_wf b' /\
     buf_data b' = buf_data b /\ (st = TIDE_STATUS_OK /\ buf_size b + n <= buf_capacity b' \/ st = TIDE_STATUS_RESOURCE /\ b' = b)) /\
  (exists st b' h', tide_buffer_append (Some b) (Some data) (zlen data) h = Done (st, Some b', h') /\ buffer_wf b' /\
     (st = TIDE_STATUS_OK /\ fits (zlen data) /\ buf_data b' = buf_data b ++ data \/ st = TIDE_STATUS_RESOURCE /\ b' = b) /\
     (h = [] -> fits (zlen data) -> st = TIDE_STATUS_OK)) /\
  (exists st b' h', tide_buffer_append_zero (Some b) n h = Done (st, Some b', h') /\ buffer_wf b' /\
     (st = TIDE_STATUS_OK /\ fits n /\ buf_data b' = buf_data b ++ replicate (Z.to_nat n) x00 \/ st = TIDE_STATUS_RESOURCE /\ b' = b) /\
     (h = [] -> fits n -> st = TIDE_STATUS_OK)) /\
  tide_buffer_destroy (Some b) = Some (empty_buffer (buf_aggregate_limit b)).
Proof.
  intros Hb Hd Hn fits. pose proof (zlen_nonneg data). split; [|split; [|split; [|reflexivity]]].
  - destruct (reserve_spec b n h Hb Hn) as (st & b' & h' & Hrun & Hst & _). exists st, b', h'. split; [exact Hrun|].
    destruct Hst as [(-> & _ & Hdata & _ & _ & Hw & Hc & _)|[-> ->]]; auto 10.
  - destruct (append_spec b data (zlen data) h Hb ltac:(lia) Hd) as (st & b' & h' & Hrun & Hst & Hok). rewrite slice_full in *.
    exists st, b', h'. split; [exact Hrun|]. split; [|split; [|intros E; apply (Hok E)]];
      destruct Hst as [(-> & (Hdata & _ & Hw & _) & Hr)|[-> ->]]; unfold fits; auto.
  - destruct (append_zero_spec b n h Hb Hn) as (st & b' & h' & Hrun & Hst & Hok).
    assert (Hz : zlen (replicate (Z.to_nat n) x00) = n) by (unfold zlen; rewrite length_replicate; lia). rewrite Hz in *.
    exists st, b', h'. split; [exact Hrun|]. split; [|split; [|intros E; apply (Hok E)]];
      destruct Hst as [(-> & (Hdata & _ & Hw & _) & Hr)|[-> ->]]; unfold fits; auto.
Qed.

Lemma tide_buffer_operations_correct_witness :
  exists b', tide_buffer_append (Some (empty_buffer 300)) (Some [x01; x02]) 2 [] = Done (TIDE_STATUS_OK, Some b', []) /\
    buffer_wf b' /\ buf_data b' = [x01; x02].
Proof.
  destruct (tide_buffer_operations_correct (empty_buffer 300) [x01; x02] 400 [] ltac:(apply empty_buffer_wf; lia) ltac:(reflexivity) ltac:(lia))
    as (_ & (st & b' & h' & Hrun & Hw & Hst & Hok) & _).
  specialize (Hok eq_refl eq_refl). subst st. assert (E := Hrun). vm_compute in E. injection E as <- <-. eexists. split; [exact Hrun|].
  split; [exact Hw|reflexivity].
Defined.
