(* ===== verification/Crc.v ===== *)
(** * CRC-32C and the digest adapter

    [src/format/crc32c.c]: the bitwise, reflected CRC with polynomial
    0x82f63b78, and the 32-byte value derived from it.  The lemmas treat the
    shift register as a linear map over GF(2): its steps are linear and
    injective, which gives the error detection the container relies on. *)

From S2P Require Import Prelude.

(** One round of the inner loop. *)
Definition crc_bit (crc : Z) : Z :=
  let mask := wrap32 (0 - Z.land crc 1) in
  Z.lxor (Z.shiftr crc 1) (Z.land 0x82f63b78 mask).

Definition crc_bits (n : nat) (crc : Z) : Z := Nat.iter n crc_bit crc.

(** One round of the outer loop. *)
Definition crc_byte (crc : Z) (b : byte) : Z := crc_bits 8 (Z.lxor crc (u8 b)).

Definition lnot32 (x : Z) : Z := wrap32 (Z.lnot x).

Definition crc_init : Z := 0xffffffff.
Definition crc32c (bs : list byte) : Z := lnot32 (fold_left crc_byte bs crc_init).

(** [tide_crc32c]: the CRC of the [size] bytes at [data]. *)
Definition tide_crc32c (data : list byte) (size : Z) : outcome Z :=
  bs ← span data 0 size; Done (crc32c bs).

Definition digest_word (base : Z) (i : nat) : Z :=
  Z.lxor base (wrap32 (0x9e3779b9 * wrap32 (Z.of_nat i + 1))).

(** The four stores of one round of [tide_digest_adapter32]. *)
Definition digest_word_bytes (word : Z) : list byte :=
  [ byte_of_Z (Z.land word 0xff);
    byte_of_Z (Z.land (Z.shiftr word 8) 0xff);
    byte_of_Z (Z.land (Z.shiftr word 16) 0xff);
    byte_of_Z (Z.land (Z.shiftr word 24) 0xff) ].

Definition digest32 (bs : list byte) : list byte :=
  concat (map (fun i => digest_word_bytes (digest_word (crc32c bs) i)) (seq 0 8)).

(** [tide_digest_adapter32]: what [out] holds afterwards. *)
Definition tide_digest_adapter32 (data : list byte) (size : Z) : outcome (list byte) :=
  bs ← span data 0 size; Done (digest32 bs).

(** ** The shift register *)

Lemma u32_testbit z : 0 <= z -> (forall i, 32 <= i -> Z.testbit z i = false) -> is_u32 z.
Proof.
  intros Hz Hb. unfold is_u32. split; [exact Hz|].
  change 4294967296 with (2 ^ 32). destruct (Z.eq_dec z 0) as [->|]; [lia|].
  apply Z.log2_lt_pow2; [lia|].
  destruct (Z_lt_le_dec (Z.log2 z) 32) as [|Hge]; [assumption|exfalso].
  specialize (Hb _ Hge). rewrite Z.bit_log2 in Hb by lia. discriminate.
Qed.

Lemma u32_high z i : is_u32 z -> 32 <= i -> Z.testbit z i = false.
Proof. intros Hz. apply testbit_small. exact Hz. Qed.

Lemma lxor_u32 a b : is_u32 a -> is_u32 b -> is_u32 (Z.lxor a b).
Proof.
  intros Ha Hb. apply u32_testbit; [apply Z.lxor_nonneg; ranges; lia|].
  intros i Hi. rewrite Z.lxor_spec, !u32_high by assumption. reflexivity.
Qed.

(** The mask is all ones or zero, as the low bit says. *)
Lemma crc_bit_alt crc :
  crc_bit crc = Z.lxor (Z.shiftr crc 1) (if Z.testbit crc 0 then 0x82f63b78 else 0).
Proof.
  unfold crc_bit.
  assert (Hl : Z.land crc 1 = Z.b2z (Z.testbit crc 0)).
  { change 1 with (2 ^ 1 - 1) at 1. rewrite land_ones_mod by lia.
    rewrite Z.bit0_mod. reflexivity. }
  rewrite Hl. destruct (Z.testbit crc 0); reflexivity.
Qed.

Lemma crc_bit_u32 crc : is_u32 crc -> is_u32 (crc_bit crc).
Proof.
  intros Hc. rewrite crc_bit_alt. apply lxor_u32.
  - rewrite Z.shiftr_div_pow2 by lia. change (2 ^ 1) with 2. ranges.
    split; [apply Z.div_pos; lia|apply Z.div_lt_upper_bound; lia].
  - destruct (Z.testbit crc 0); unfold is_u32; lia.
Qed.

Lemma crc_bit_lxor a b : crc_bit (Z.lxor a b) = Z.lxor (crc_bit a) (crc_bit b).
Proof.
  rewrite !crc_bit_alt, Z.shiftr_lxor, Z.lxor_spec.
  apply Z.bits_inj'. intros i _. rewrite !Z.lxor_spec.
  destruct (Z.testbit a 0), (Z.testbit b 0); cbn [xorb]; rewrite ?Z.bits_0, ?xorb_false_r;
    destruct (Z.testbit (Z.shiftr a 1) i), (Z.testbit (Z.shiftr b 1) i), (Z.testbit 0x82f63b78 i); reflexivity.
Qed.

(** The polynomial has its top coefficient, so no information is lost. *)
Lemma crc_bit_zero a : is_u32 a -> crc_bit a = 0 -> a = 0.
Proof.
  intros Ha Hz. rewrite crc_bit_alt in Hz.
  assert (Hs : 0 <= Z.shiftr a 1 < 2 ^ 31).
  { rewrite Z.shiftr_div_pow2 by lia. change (2 ^ 1) with 2. change (2 ^ 31) with 2147483648. ranges.
    split; [apply Z.div_pos; lia|apply Z.div_lt_upper_bound; lia]. }
  destruct (Z.testbit a 0) eqn:E0.
  - exfalso. apply (f_equal (fun z => Z.testbit z 31)) in Hz.
    rewrite Z.lxor_spec, (testbit_small _ 31), Z.bits_0 in Hz by lia. discriminate.
  - rewrite Z.lxor_0_r in Hz.
    rewrite Z.bit0_odd, <- Z.negb_even in E0. apply negb_false_iff, Z.even_spec in E0 as [q ->].
    rewrite Z.shiftr_div_pow2, Z.mul_comm in Hz by lia. change (2 ^ 1) with 2 in Hz.
    rewrite Z.div_mul in Hz by lia. lia.
Qed.

Lemma crc_bits_u32 n a : is_u32 a -> is_u32 (crc_bits n a).
Proof. intros. induction n; simpl; auto using crc_bit_u32. Qed.

Lemma crc_bits_lxor n a b : crc_bits n (Z.lxor a b) = Z.lxor (crc_bits n a) (crc_bits n b).
Proof. induction n as [|n IH]; [reflexivity|]. simpl. fold (crc_bits n). rewrite IH. apply crc_bit_lxor. Qed.

Lemma crc_bits_zero n a : is_u32 a -> crc_bits n a = 0 -> a = 0.
Proof.
  intros Ha. induction n as [|n IH]; simpl; [auto|]. fold (crc_bits n). intros Hz.
  apply IH, crc_bit_zero; auto using crc_bits_u32.
Qed.

Lemma crc_bits_add m n a : crc_bits (m + n) a = crc_bits m (crc_bits n a).
Proof. induction m as [|m IH]; [reflexivity|]. simpl. rewrite IH. reflexivity. Qed.

(** Bits above the tested one only move down. *)
Lemma crc_bits_shiftl n a : 0 <= a -> crc_bits n (Z.shiftl a (Z.of_nat n)) = a.
Proof.
  intros Ha. induction n as [|n IH]; [apply Z.shiftl_0_r|].
  rewrite <- Nat.add_1_r, crc_bits_add. replace (Z.of_nat (n + 1)) with (Z.of_nat n + 1) by lia.
  assert (Hs : crc_bits 1 (Z.shiftl a (Z.of_nat n + 1)) = Z.shiftl a (Z.of_nat n)).
  { cbn [crc_bits Nat.iter]. change (crc_bits 1 ?z) with (crc_bit z). simpl. rewrite crc_bit_alt.
    rewrite Z.shiftl_spec_low by lia. rewrite Z.lxor_0_r, Z.shiftr_shiftl_l by lia. f_equal. lia. }
  rewrite Hs. exact IH.
Qed.

(** ** The register over byte strings *)

Definition crc_fold (s : Z) (bs : list byte) : Z := fold_left crc_byte bs s.

Lemma crc_fold_app s xs ys : crc_fold s (xs ++ ys) = crc_fold (crc_fold s xs) ys.
Proof. apply fold_left_app. Qed.

Lemma crc_fold_u32 s bs : is_u32 s -> is_u32 (crc_fold s bs).
Proof.
  revert s. induction bs as [|b bs IH]; intros s Hs; [exact Hs|].
  apply IH, crc_bits_u32, lxor_u32; [exact Hs|]. pose proof (u8_range b). zlia.
Qed.

(** Feeding at most four bytes is the same as adding their little-endian
    value first. *)
Lemma crc_fold_le_Z bs s :
  crc_fold s bs = crc_bits (8 * length bs) (Z.lxor s (le_Z bs)).
Proof.
  revert s. induction bs as [|b bs IH]; intros s; [symmetry; apply Z.lxor_0_r|].
  change (crc_fold s (b :: bs)) with (crc_fold (crc_byte s b) bs). rewrite IH.
  replace (8 * length (b :: bs))%nat with (8 * length bs + 8)%nat by (simpl; lia).
  rewrite crc_bits_add. f_equal. unfold crc_byte.
  pose proof (le_Z_range bs) as Hr. pose proof (u8_range b) as Hb.
  assert (Hle : le_Z (b :: bs) = Z.lxor (u8 b) (Z.shiftl (le_Z bs) 8)).
  { rewrite lxor_shiftl_add by (try lia; exact Hb). cbn [le_Z]. lia. }
  rewrite Hle, <- Z.lxor_assoc, (crc_bits_lxor 8 (Z.lxor s (u8 b))). f_equal. symmetry.
  exact (crc_bits_shiftl 8 (le_Z bs) (proj1 Hr)).
Qed.

Lemma lxor_ne a b : a <> b -> Z.lxor a b <> 0.
Proof. intros Hne He. apply Hne, Z.lxor_eq, He. Qed.

(** Different registers stay different under the same bytes. *)
Lemma crc_fold_inj s t bs : is_u32 s -> is_u32 t -> s <> t -> crc_fold s bs <> crc_fold t bs.
Proof.
  intros Hs Ht Hne. revert s t Hs Ht Hne. induction bs as [|b bs IH]; intros s t Hs Ht Hne; [exact Hne|].
  pose proof (u8_range b).
  assert (Hb : is_u32 (u8 b)) by zlia.
  apply IH; try (apply crc_bits_u32, lxor_u32; assumption).
  intros He. apply (f_equal (fun z => Z.lxor z (crc_byte t b))) in He.
  unfold crc_byte in He. rewrite Z.lxor_nilpotent, <- crc_bits_lxor in He.
  apply crc_bits_zero in He; [|apply lxor_u32; apply lxor_u32; assumption].
  apply Hne.
  apply Z.lxor_eq in He. apply (f_equal (fun z => Z.lxor z (u8 b))) in He.
  rewrite !Z.lxor_assoc, Z.lxor_nilpotent, !Z.lxor_0_r in He. exact He.
Qed.

Lemma le_Z_inj xs ys : length xs = length ys -> le_Z xs = le_Z ys -> xs = ys.
Proof.
  intros Hl He. rewrite <- (le_bytes_le_Z xs), <- (le_bytes_le_Z ys), Hl, He. reflexivity.
Qed.

Lemma crc_fold_burst s xs ys :
  is_u32 s -> length xs = length ys -> (length xs <= 4)%nat -> xs <> ys ->
  crc_fold s xs <> crc_fold s ys.
Proof.
  intros Hs Hl H4 Hne. rewrite !crc_fold_le_Z, <- Hl. intros He.
  assert (Hu : forall zs, (length zs <= 4)%nat -> is_u32 (le_Z zs)).
  { intros zs Hz. pose proof (le_Z_range zs) as Hr. unfold is_u32, zlen in *.
    assert (2 ^ (8 * Z.of_nat (length zs)) <= 2 ^ 32) by (apply Z.pow_le_mono_r; lia). lia. }
  apply (f_equal (fun z => Z.lxor z (crc_bits (8 * length xs) (Z.lxor s (le_Z ys))))) in He.
  rewrite Z.lxor_nilpotent, <- crc_bits_lxor in He.
  apply crc_bits_zero in He; [|apply lxor_u32; apply lxor_u32; try apply Hu; assumption || lia].
  apply Z.lxor_eq in He. apply Hne, le_Z_inj; [exact Hl|].
  apply (f_equal (Z.lxor s)) in He. rewrite <- !Z.lxor_assoc, Z.lxor_nilpotent, !Z.lxor_0_l in He.
  exact He.
Qed.

Lemma lnot32_lxor z : is_u32 z -> lnot32 z = Z.lxor z 0xffffffff.
Proof.
  intros Hz. unfold lnot32, wrap32. change 4294967296 with (2 ^ 32). change 0xffffffff with (Z.ones 32).
  apply Z.bits_inj'. intros i Hi. destruct (Z_lt_le_dec i 32).
  - rewrite Z.mod_pow2_bits_low, Z.lnot_spec, Z.lxor_spec, Z.ones_spec_low by lia.
    symmetry. apply xorb_true_r.
  - rewrite Z.mod_pow2_bits_high, Z.lxor_spec, Z.ones_spec_high, u32_high by (auto || lia). reflexivity.
Qed.

Lemma crc_init_u32 : is_u32 crc_init.
Proof. unfold crc_init. zlia. Qed.

Lemma crc32c_u32 bs : is_u32 (crc32c bs).
Proof. apply wrap32_range. Qed.

Lemma crc32c_ne xs ys : crc_fold crc_init xs <> crc_fold crc_init ys -> crc32c xs <> crc32c ys.
Proof.
  intros Hne He. apply Hne. unfold crc32c in He. fold (crc_fold crc_init) in He.
  rewrite !lnot32_lxor in He by apply crc_fold_u32, crc_init_u32.
  apply (f_equal (fun z => Z.lxor z 0xffffffff)) in He.
  rewrite !Z.lxor_assoc, Z.lxor_nilpotent, !Z.lxor_0_r in He. exact He.
Qed.

(** Changes confined to a window of four bytes change the CRC. *)
Lemma crc32c_window p xs ys q :
  length xs = length ys -> (length xs <= 4)%nat -> xs <> ys ->
  crc32c (p ++ xs ++ q) <> crc32c (p ++ ys ++ q).
Proof.
  intros Hl H4 Hne. apply crc32c_ne. rewrite !crc_fold_app.
  pose proof (crc_fold_u32 _ p crc_init_u32).
  apply crc_fold_inj; try apply crc_fold_u32; auto using crc_fold_burst.
Qed.

Lemma tide_crc32c_span data off n :
  0 <= off -> 0 <= n -> off + n <= zlen data ->
  tide_crc32c (slice data off n) n = Done (crc32c (slice data off n)).
Proof.
  intros. unfold tide_crc32c. rewrite span_done by (rewrite ?zlen_slice by lia; lia).
  cbn [mbind outcome_bind]. do 2 f_equal. rewrite <- (zlen_slice data off n) at 2 by lia. apply slice_full.
Qed.

Lemma crc32c_whole data : tide_crc32c data (zlen data) = Done (crc32c data).
Proof.
  unfold tide_crc32c. pose proof (zlen_nonneg data). rewrite span_done by lia.
  cbn [mbind outcome_bind]. rewrite slice_full. reflexivity.
Qed.

Lemma digest_whole data : tide_digest_adapter32 data (zlen data) = Done (digest32 data).
Proof.
  unfold tide_digest_adapter32. pose proof (zlen_nonneg data). rewrite span_done by lia.
  cbn [mbind outcome_bind]. rewrite slice_full. reflexivity.
Qed.

Lemma length_digest32 bs : length (digest32 bs) = 32%nat.
Proof. reflexivity. Qed.

Lemma digest_byte z : byte_of_Z (Z.land z 0xff) = byte_of_Z z.
Proof.
  apply u8_inj. rewrite !u8_byte_of_Z. change 0xff with (2 ^ 8 - 1). rewrite land_ones_mod by lia.
  unfold wrap8. change (2 ^ 8) with 256. apply Z.mod_mod. lia.
Qed.

(** The first word of the digest is the CRC, masked. *)
Lemma digest32_crc xs ys : digest32 xs = digest32 ys -> crc32c xs = crc32c ys.
Proof.
  intros Hd. apply (f_equal (take 4)) in Hd. unfold digest32 in Hd.
  change (digest_word_bytes (digest_word (crc32c xs) 0) = digest_word_bytes (digest_word (crc32c ys) 0)) in Hd.
  assert (Hw : forall z, is_u32 z -> le_Z (digest_word_bytes (digest_word z 0)) = Z.lxor z 0x9e3779b9).
  { intros z Hz. unfold digest_word_bytes. rewrite !digest_byte, <- !(Z.shiftr_shiftr _ 8 8), <- (Z.shiftr_shiftr _ 16 8) by lia.
    change (le_Z (le_bytes 4 (digest_word z 0)) = Z.lxor z 0x9e3779b9). rewrite le_Z_le_bytes.
    unfold digest_word. change (wrap32 (0x9e3779b9 * wrap32 (Z.of_nat 0 + 1))) with 0x9e3779b9.
    apply Z.mod_small. apply (lxor_u32 z 0x9e3779b9 Hz). unfold is_u32. lia. }
  apply (f_equal le_Z) in Hd. rewrite !Hw in Hd by apply crc32c_u32.
  apply (f_equal (fun z => Z.lxor z 0x9e3779b9)) in Hd. rewrite !Z.lxor_assoc, Z.lxor_nilpotent, !Z.lxor_0_r in Hd. exact Hd.
Qed.

Example crc32c_check_value :
  crc32c (map byte_of_Z [49; 50; 51; 52; 53; 54; 55; 56; 57]) = 0xE3069283.
Proof. vm_compute. reflexivity. Qed.

(** C25: the CRC of a byte string and of any string that differs from it inside
    one window of at most four bytes are different, and so are their 32-byte
    digests: such a corruption never goes unnoticed. *)
Theorem crc32c_detects_burst (p xs ys q : list byte) :
  length xs = length ys -> (length xs <= 4)%nat -> xs <> ys ->
  tide_crc32c (p ++ xs ++ q) (zlen (p ++ xs ++ q)) <> tide_crc32c (p ++ ys ++ q) (zlen (p ++ ys ++ q)) /\
  tide_digest_adapter32 (p ++ xs ++ q) (zlen (p ++ xs ++ q)) <> tide_digest_adapter32 (p ++ ys ++ q) (zlen (p ++ ys ++ q)).
Proof.
  intros Hl H4 Hne. pose proof (crc32c_window p xs ys q Hl H4 Hne) as Hcrc.
  rewrite !crc32c_whole, !digest_whole. split; [congruence|].
  intros Hd. apply Hcrc, digest32_crc. revert Hd. generalize (digest32 (p ++ xs ++ q)) (digest32 (p ++ ys ++ q)).
  intros a b Hab. injection Hab. auto.
Qed.

Lemma crc32c_detects_burst_witness :
  [x01; x02] <> [x01; x03] /\
  tide_crc32c [x00; x01; x02; x07] 4 <> tide_crc32c [x00; x01; x03; x07] 4.
Proof. split; [discriminate|]. eapply (crc32c_detects_burst [x00] [x01; x02] [x01; x03] [x07]); [reflexivity|simpl; lia|discriminate]. Defined.
