(* ===== verification/Reader.v ===== *)
(** * The primitive reader and writers

    [src/format/reader.c].  The reader is a cursor in a byte object; every
    read checks that enough bytes remain.  A read returns its success flag and
    value as an option, next to the reader, so [a || b || c] on the failure
    flags is the monadic sequence.  Each operation is proved to refine a
    parser on lists ([refines]): that gives memory safety, the value, and the
    bytes left, and composes along the sequence. *)

From S2P Require Import Prelude Status.

Record tide_reader : Set := mk_reader {
  rd_data : list byte;
  rd_size : Z;
  rd_offset : Z
}.

Definition tide_reader_init (data : list byte) (size : Z) : tide_reader := mk_reader data size 0.

(** A read: the value, [None] when the C function returns 0. *)
Definition reader_m (A : Type) : Type := tide_reader -> outcome (option A * tide_reader).

#[export] Instance reader_ret : MRet reader_m := fun A a r => Done (Some a, r).
#[export] Instance reader_bind : MBind reader_m := fun A B f m r =>
  match m r with
  | Done (Some a, r) => f a r
  | Done (None, r) => Done (None, r)
  | Undef => Undef
  | NoFuel => NoFuel
  end.
Definition reader_fail {A} : reader_m A := fun r => Done (None, r).
(** A condition in the middle of a chain of reads. *)
Definition reader_guard (b : bool) : reader_m unit := fun r => Done (if b then Some tt else None, r).
Definition reader_lift {A} (o : outcome A) : reader_m A := fun r => a ← o; Done (Some a, r).

Definition tide_reader_has (r : tide_reader) (size : Z) : bool :=
  (rd_offset r <=? rd_size r) && (size <=? rd_size r -u rd_offset r).

Definition advance (r : tide_reader) (n : Z) : tide_reader :=
  mk_reader (rd_data r) (rd_size r) (rd_offset r +u n).

Definition tide_reader_read_u8 : reader_m Z := fun r =>
  if negb (tide_reader_has r 1) then Done (None, r)
  else
    p0 ← load (rd_data r) (rd_offset r);
    Done (Some p0, advance r 1).

Definition tide_reader_read_u16 : reader_m Z := fun r =>
  if negb (tide_reader_has r 2) then Done (None, r)
  else
    p0 ← load (rd_data r) (rd_offset r);
    p1 ← load (rd_data r) (rd_offset r + 1);
    Done (Some (wrap16 (Z.lor p0 (Z.shiftl p1 8))), advance r 2).

Definition tide_reader_read_u32 : reader_m Z := fun r =>
  if negb (tide_reader_has r 4) then Done (None, r)
  else
    p0 ← load (rd_data r) (rd_offset r);
    p1 ← load (rd_data r) (rd_offset r + 1);
    p2 ← load (rd_data r) (rd_offset r + 2);
    p3 ← load (rd_data r) (rd_offset r + 3);
    Done (Some (Z.lor (Z.lor (Z.lor p0 (Z.shiftl p1 8)) (Z.shiftl p2 16)) (Z.shiftl p3 24)),
          advance r 4).

Definition tide_reader_read_u64 : reader_m Z :=
  lo ← tide_reader_read_u32;
  hi ← tide_reader_read_u32;
  hi' ← reader_lift (shl64 hi 32);
  mret (Z.lor lo hi').

Definition tide_reader_read_i64 : reader_m Z :=
  raw ← tide_reader_read_u64; mret (u64_to_i64 raw).

(** The pointer stored in [*out], with the [size] bytes it gives access to. *)
Definition tide_reader_read_bytes (size : Z) : reader_m (list byte) := fun r =>
  if negb (tide_reader_has r size) then Done (None, r)
  else
    out ← span (rd_data r) (rd_offset r) size;
    Done (Some out, advance r size).

Definition tide_reader_skip (size : Z) : reader_m unit :=
  _ ← tide_reader_read_bytes size; mret tt.

(** The loop of [tide_reader_read_uleb128]; [n] rounds are left. *)
Fixpoint uleb_loop (n : nat) (i shift value : Z) : reader_m Z :=
  match n with
  | O => reader_fail
  | S n =>
    b ← tide_reader_read_u8;
    if (shift =? 63) && negb (Z.land b 0x7e =? 0) then reader_fail
    else
      part ← reader_lift (shl64 (Z.land b 0x7f) shift);
      let value := Z.lor value part in
      if Z.land b 0x80 =? 0 then
        if (i >? 0) && (b =? 0) then reader_fail else mret value
      else uleb_loop n (i + 1) (shift + 7) value
  end.

Definition tide_reader_read_uleb128 : reader_m Z := uleb_loop TIDE_MAX_HEADER_VARINT_BYTES 0 0 0.

(** ** Writers: the bytes stored from [dst] on *)

Definition tide_write_u16 (value : Z) : list byte :=
  [ byte_of_Z (Z.land value 0xff); byte_of_Z (Z.land (Z.shiftr value 8) 0xff) ].

Definition tide_write_u32 (value : Z) : list byte :=
  [ byte_of_Z (Z.land value 0xff);
    byte_of_Z (Z.land (Z.shiftr value 8) 0xff);
    byte_of_Z (Z.land (Z.shiftr value 16) 0xff);
    byte_of_Z (Z.land (Z.shiftr value 24) 0xff) ].

Definition tide_write_u64 (value : Z) : list byte :=
  tide_write_u32 (Z.land value 0xffffffff) ++ tide_write_u32 (wrap32 (Z.shiftr value 32)).

Definition tide_write_i64 (value : Z) : list byte := tide_write_u64 (i64_to_u64 value).

(** The loop of [tide_uleb128_size]. *)
Fixpoint uleb_size_loop (fuel : nat) (value size : Z) : outcome Z :=
  match fuel with
  | O => NoFuel
  | S fuel =>
    if value >=? 0x80 then uleb_size_loop fuel (Z.shiftr value 7) (size +u 1) else Done size
  end.

(** The loop of [tide_write_uleb128]: the bytes it stores. *)
Fixpoint uleb_write_loop (fuel : nat) (value : Z) : outcome (list byte) :=
  match fuel with
  | O => NoFuel
  | S fuel =>
    let b := wrap8 (Z.land value 0x7f) in
    let value := Z.shiftr value 7 in
    if negb (value =? 0) then
      bs ← uleb_write_loop fuel value;
      Done (byte_of_Z (Z.lor b 0x80) :: bs)
    else Done [byte_of_Z b]
  end.

(** A 64-bit value has at most ten groups of seven bits. *)
Definition uleb_fuel : nat := 10.
Definition tide_uleb128_size (value : Z) : outcome Z := uleb_size_loop uleb_fuel value 1.
Definition tide_write_uleb128 (value : Z) : outcome (list byte) := uleb_write_loop uleb_fuel value.

(** ** Parsers on lists *)

Definition parser (A : Type) : Type := list byte -> option (A * list byte).

#[export] Instance parser_ret : MRet parser := fun A a bs => Some (a, bs).
#[export] Instance parser_bind : MBind parser := fun A B f p bs =>
  match p bs with Some (a, bs) => f a bs | None => None end.
Definition p_fail {A} : parser A := fun _ => None.
Definition p_guard (b : bool) : parser unit := fun bs => if b then Some (tt, bs) else None.

Definition p_bytes (n : Z) : parser (list byte) := fun bs =>
  if n <=? zlen bs then Some (take (Z.to_nat n) bs, drop (Z.to_nat n) bs) else None.
Definition p_le (n : Z) : parser Z := bs ← p_bytes n; mret (le_Z bs).
Definition p_i64 : parser Z := z ← p_le 8; mret (u64_to_i64 z).
Definition p_skip (n : Z) : parser unit := _ ← p_bytes n; mret tt.

Fixpoint p_uleb_loop (n : nat) (i shift value : Z) : parser Z :=
  match n with
  | O => p_fail
  | S n =>
    b ← p_le 1;
    if (shift =? 63) && negb (Z.land b 0x7e =? 0) then p_fail
    else
      let value := Z.lor value (wrap64 (Z.shiftl (Z.land b 0x7f) shift)) in
      if Z.land b 0x80 =? 0 then
        if (i >? 0) && (b =? 0) then p_fail else mret value
      else p_uleb_loop n (i + 1) (shift + 7) value
  end.
Definition p_uleb : parser Z := p_uleb_loop 10 0 0 0.

(** ** Refinement *)

Definition reader_wf (r : tide_reader) : Prop :=
  0 <= rd_offset r <= rd_size r /\ rd_size r = zlen (rd_data r) /\ rd_size r < 2 ^ 64.

(** The bytes not read yet. *)
Definition rest (r : tide_reader) : list byte := drop (Z.to_nat (rd_offset r)) (rd_data r).

(** [r'] is [r] moved forward. *)
Definition moved (r r' : tide_reader) : Prop :=
  reader_wf r' /\ rd_data r' = rd_data r /\ rd_size r' = rd_size r /\ rd_offset r <= rd_offset r'.

Class refines {A} (m : reader_m A) (p : parser A) : Prop :=
  refines_spec : forall r, reader_wf r -> exists r', moved r r' /\
    match p (rest r) with
    | Some (a, bs) => m r = Done (Some a, r') /\ rest r' = bs
    | None => m r = Done (None, r')
    end.

Lemma moved_refl r : reader_wf r -> moved r r.
Proof. unfold moved. intros. repeat split; auto; apply H || lia. Qed.

Lemma moved_trans r1 r2 r3 : moved r1 r2 -> moved r2 r3 -> moved r1 r3.
Proof. unfold moved. intros (?&?&?&?) (?&?&?&?). repeat split; try apply H3; try congruence. lia. Qed.

Lemma zlen_rest r : reader_wf r -> zlen (rest r) = rd_size r - rd_offset r.
Proof. unfold reader_wf, rest, zlen. intros. rewrite length_drop. lia. Qed.

Lemma has_spec r n : reader_wf r -> 0 <= n -> tide_reader_has r n = (n <=? zlen (rest r)).
Proof.
  intros Hr Hn. rewrite zlen_rest by assumption. destruct Hr as (Ho & Hs & Hm).
  unfold tide_reader_has. rewrite (proj2 (Z.leb_le _ _)) by lia.
  rewrite wrap64_small by (unfold is_u64; lia). reflexivity.
Qed.

Lemma advance_moved r n :
  reader_wf r -> 0 <= n <= zlen (rest r) ->
  moved r (advance r n) /\ rest (advance r n) = drop (Z.to_nat n) (rest r).
Proof.
  intros Hr Hn. rewrite zlen_rest in Hn by assumption. pose proof Hr as (Ho & Hs & Hm).
  unfold moved, reader_wf, rest, advance. cbn [rd_data rd_size rd_offset].
  rewrite wrap64_small by (unfold is_u64; lia). split; [repeat split; lia|].
  rewrite drop_drop. f_equal. lia.
Qed.

Lemma load_rest r i :
  reader_wf r -> 0 <= i < zlen (rest r) ->
  exists b, rest r !! Z.to_nat i = Some b /\ load (rd_data r) (rd_offset r + i) = Done (u8 b).
Proof.
  intros Hr Hi. rewrite zlen_rest in Hi by assumption. pose proof Hr as (Ho & Hs & Hm).
  destruct (load_spec (rd_data r) (rd_offset r + i)) as (b & Hb & Hl); [lia|].
  exists b. split; [|exact Hl]. unfold rest. rewrite lookup_drop.
  rewrite <- Hb. f_equal. lia.
Qed.

#[export] Instance refines_ret {A} (a : A) : refines (mret a) (mret a).
Proof. intros r Hr. exists r. split; [apply moved_refl, Hr|]. split; reflexivity. Qed.

#[export] Instance refines_fail {A} : refines (@reader_fail A) p_fail.
Proof. intros r Hr. exists r. split; [apply moved_refl, Hr|reflexivity]. Qed.

#[export] Instance refines_guard b : refines (reader_guard b) (p_guard b).
Proof. intros r Hr. exists r. split; [apply moved_refl, Hr|]. destruct b; [split|]; reflexivity. Qed.

#[export] Instance refines_bind {A B} (m : reader_m A) (p : parser A) (f : A -> reader_m B) (g : A -> parser B) :
  refines m p -> (forall a, refines (f a) (g a)) -> refines (m ≫= f) (p ≫= g).
Proof.
  intros Hm Hf r Hr. destruct (Hm r Hr) as (r1 & Hr1 & H1).
  unfold mbind, parser_bind, reader_bind.
  destruct (p (rest r)) as [[a bs]|].
  - destruct H1 as [-> <-]. destruct (Hf a r1 (proj1 Hr1)) as (r2 & Hr2 & H2).
    exists r2. split; [eapply moved_trans; eauto|]. exact H2.
  - rewrite H1. exists r1. auto.
Qed.

#[export] Instance refines_if {A} (b : bool) (m1 m2 : reader_m A) p1 p2 :
  refines m1 p1 -> refines m2 p2 -> refines (if b then m1 else m2) (if b then p1 else p2).
Proof. destruct b; auto. Qed.

(** Refinement is up to equality of the parser. *)
Lemma refines_ext {A} (m : reader_m A) (p q : parser A) :
  refines m p -> (forall bs, p bs = q bs) -> refines m q.
Proof. intros Hm He r Hr. destruct (Hm r Hr) as (r' & H). exists r'. rewrite <- He. exact H. Qed.

(** ** The primitive reads refine the list parsers *)

Lemma loads_rest r (bs : list byte) (z : Z) b :
  reader_wf r -> rest r = bs -> 0 <= z -> bs !! Z.to_nat z = Some b ->
  load (rd_data r) (rd_offset r + z) = Done (u8 b).
Proof.
  intros Hr Hb Hz Hi.
  destruct (load_rest r z) as (b' & Hl & ->); [exact Hr| |].
  - rewrite Hb. apply lookup_lt_Some in Hi. unfold zlen. lia.
  - rewrite Hb in Hl. congruence.
Qed.

Lemma load_head r (bs : list byte) b :
  reader_wf r -> rest r = b :: bs -> load (rd_data r) (rd_offset r) = Done (u8 b).
Proof.
  intros Hr Hb. rewrite <- (Z.add_0_r (rd_offset r)). eapply loads_rest; eauto; reflexivity.
Qed.

(** Rewrite the loads of a reader whose remaining bytes are known. *)
Ltac solve_loads Hr E :=
  rewrite (load_head _ _ _ Hr E);
  repeat match goal with
  | |- context [load (rd_data ?r) (rd_offset ?r + Zpos ?k)] =>
      rewrite (loads_rest r _ (Zpos k) _ Hr E (Pos2Z.is_nonneg k) eq_refl)
  end.

(** The common shape of a fixed-size read. *)
Lemma refines_fixed {A} (m : reader_m A) (n : nat) (val : list byte -> A) :
  (forall r, reader_wf r -> zlen (rest r) < Z.of_nat n -> m r = Done (None, r)) ->
  (forall r bs cs, reader_wf r -> rest r = bs ++ cs -> length bs = n ->
     m r = Done (Some (val bs), advance r (Z.of_nat n))) ->
  refines m (bs ← p_bytes (Z.of_nat n); mret (val bs)).
Proof.
  intros Hshort Hok r Hr. unfold mbind, parser_bind, mret, parser_ret, p_bytes.
  destruct (Z.leb_spec (Z.of_nat n) (zlen (rest r))) as [Hle|Hlt].
  2: { exists r. split; [apply moved_refl, Hr|]. apply Hshort; assumption. }
  destruct (advance_moved r (Z.of_nat n) Hr) as [Hm Hd]; [lia|].
  exists (advance r (Z.of_nat n)). split; [exact Hm|]. split; [|exact Hd].
  rewrite Nat2Z.id. apply (Hok r _ (drop n (rest r)) Hr).
  - symmetry. apply take_drop.
  - unfold zlen in Hle. rewrite length_take. lia.
Qed.

Lemma has_false r n : reader_wf r -> 0 <= n -> zlen (rest r) < n -> tide_reader_has r n = false.
Proof. intros. rewrite has_spec by (auto; lia). apply Z.leb_gt. lia. Qed.

Lemma has_true r n (bs cs : list byte) :
  reader_wf r -> rest r = bs ++ cs -> zlen bs = n -> tide_reader_has r n = true.
Proof.
  intros Hr E <-. rewrite has_spec by (auto using zlen_nonneg). apply Z.leb_le.
  rewrite E, zlen_app. pose proof (zlen_nonneg cs). lia.
Qed.

Lemma lor2 a b : Z.lor (u8 a) (Z.shiftl (u8 b) 8) = le_Z [a; b].
Proof.
  pose proof (u8_range a). pose proof (u8_range b). ranges.
  rewrite lor_shiftl_add by lia. cbn [le_Z]. change (2 ^ 8) with 256. lia.
Qed.

Lemma lor4 a b c d :
  Z.lor (Z.lor (Z.lor (u8 a) (Z.shiftl (u8 b) 8)) (Z.shiftl (u8 c) 16)) (Z.shiftl (u8 d) 24) = le_Z [a; b; c; d].
Proof.
  pose proof (u8_range a). pose proof (u8_range b). pose proof (u8_range c). pose proof (u8_range d). ranges.
  rewrite (lor_shiftl_add (u8 a)), (lor_shiftl_add _ _ 16), (lor_shiftl_add _ _ 24) by lia.
  cbn [le_Z]. lia.
Qed.

#[export] Instance refines_read_u8 : refines tide_reader_read_u8 (p_le 1).
Proof.
  apply (refines_fixed _ 1 le_Z); unfold tide_reader_read_u8.
  - intros r Hr Hs. rewrite (has_false r 1) by (assumption || lia). reflexivity.
  - intros r [|b [|]] cs Hr E Hl; try discriminate.
    rewrite (has_true r 1 [b] cs Hr E eq_refl). cbn [negb]. cbn [app] in E. solve_loads Hr E.
    cbn [mbind outcome_bind le_Z]. do 3 f_equal. lia.
Qed.

#[export] Instance refines_read_u16 : refines tide_reader_read_u16 (p_le 2).
Proof.
  apply (refines_fixed _ 2 le_Z); unfold tide_reader_read_u16.
  - intros r Hr Hs. rewrite (has_false r 2) by (assumption || lia). reflexivity.
  - intros r [|a [|b [|]]] cs Hr E Hl; try discriminate.
    rewrite (has_true r 2 [a; b] cs Hr E eq_refl). cbn [negb]. cbn [app] in E. solve_loads Hr E.
    cbn [mbind outcome_bind]. rewrite lor2, wrap16_small; [reflexivity|].
    exact (le_Z_range [a; b]).
Qed.

#[export] Instance refines_read_u32 : refines tide_reader_read_u32 (p_le 4).
Proof.
  apply (refines_fixed _ 4 le_Z); unfold tide_reader_read_u32.
  - intros r Hr Hs. rewrite (has_false r 4) by (assumption || lia). reflexivity.
  - intros r [|a [|b [|c [|d [|]]]]] cs Hr E Hl; try discriminate.
    rewrite (has_true r 4 [a; b; c; d] cs Hr E eq_refl). cbn [negb]. cbn [app] in E. solve_loads Hr E.
    cbn [mbind outcome_bind]. rewrite lor4. reflexivity.
Qed.

Lemma refines_lift {A} (o : outcome A) a : o = Done a -> refines (reader_lift o) (mret a).
Proof. intros -> r Hr. exists r. split; [apply moved_refl, Hr|]. split; reflexivity. Qed.

(** Two consecutive little-endian fields are one. *)
Lemma p_le_app n m bs :
  0 <= n -> 0 <= m ->
  (lo ← p_le n; hi ← p_le m; mret (lo + 2 ^ (8 * n) * hi)) bs =
    if n + m <=? zlen bs then p_le (n + m) bs
    else None.
Proof.
  intros Hn Hm. unfold p_le, p_bytes, mbind, parser_bind, mret, parser_ret, zlen in *.
  destruct (Z.leb_spec (n + m) (Z.of_nat (length bs))) as [Hle|Hlt].
  - rewrite (proj2 (Z.leb_le n _)) by lia. rewrite length_drop.
    rewrite (proj2 (Z.leb_le m _)) by lia. rewrite drop_drop.
    replace (Z.to_nat (n + m)) with (Z.to_nat n + Z.to_nat m)%nat by lia.
    rewrite <- take_take_drop, le_Z_app. unfold zlen. rewrite length_take.
    replace (Z.of_nat (Z.to_nat n `min` length bs)) with n by lia. reflexivity.
  - destruct (Z.leb_spec n (Z.of_nat (length bs))); [|reflexivity].
    rewrite length_drop. rewrite (proj2 (Z.leb_gt m _)) by lia. reflexivity.
Qed.

Lemma p_le_short n bs : zlen bs < n -> p_le n bs = None.
Proof. intros. unfold p_le, p_bytes, mbind, parser_bind. rewrite (proj2 (Z.leb_gt n _)) by lia. reflexivity. Qed.

Lemma p_le_range n bs z cs : 0 <= n -> p_le n bs = Some (z, cs) -> 0 <= z < 2 ^ (8 * n) /\ n <= zlen bs.
Proof.
  unfold p_le, p_bytes, mbind, parser_bind, mret, parser_ret, zlen in *. intros Hn.
  destruct (Z.leb_spec n (Z.of_nat (length bs))) as [Hle|]; [|discriminate].
  intros [= <- <-]. split; [|exact Hle].
  pose proof (le_Z_range (take (Z.to_nat n) bs)) as Hr. unfold zlen in Hr. rewrite length_take in Hr.
  replace (Z.of_nat (Z.to_nat n `min` length bs)) with n in Hr by lia. exact Hr.
Qed.

Lemma p_bind_ext {A B} (p : parser A) (f g : A -> parser B) bs :
  (forall a cs, p bs = Some (a, cs) -> f a cs = g a cs) -> (p ≫= f) bs = (p ≫= g) bs.
Proof. unfold mbind, parser_bind. intros H. destruct (p bs) as [[a cs]|]; auto. Qed.

#[export] Instance refines_read_u64 : refines tide_reader_read_u64 (p_le 8).
Proof.
  eapply refines_ext.
  - unfold tide_reader_read_u64. eapply refines_bind; [apply _|]. intros lo.
    eapply refines_bind; [apply _|]. intros hi.
    eapply refines_bind; [|intros hi'; apply refines_ret].
    apply refines_lift. apply shl64_done. lia.
  - intros bs. transitivity (if 4 + 4 <=? zlen bs then p_le (4 + 4) bs else None).
    2: { change (4 + 4) with 8. destruct (Z.leb_spec 8 (zlen bs)); [reflexivity|].
         symmetry. apply p_le_short. assumption. }
    rewrite <- p_le_app by lia. apply p_bind_ext. intros lo cs Hlo.
    apply p_bind_ext. intros hi ds Hhi. unfold mbind, parser_bind, mret, parser_ret.
    apply p_le_range in Hlo as [Hlo _]; [|lia]. apply p_le_range in Hhi as [Hhi _]; [|lia].
    rewrite Z.shiftl_mul_pow2 by lia. rewrite wrap64_small by (unfold is_u64; lia).
    rewrite <- Z.shiftl_mul_pow2 by lia. rewrite lor_shiftl_add by lia. do 2 f_equal. lia.
Qed.

#[export] Instance refines_read_i64 : refines tide_reader_read_i64 p_i64.
Proof. apply refines_bind; [apply _|]. intros. apply _. Qed.

Lemma refines_read_bytes n : 0 <= n -> refines (tide_reader_read_bytes n) (p_bytes n).
Proof.
  intros Hn. eapply refines_ext; [apply (refines_fixed _ (Z.to_nat n) (fun bs => bs))|].
  - intros r Hr Hs. unfold tide_reader_read_bytes. rewrite has_false by (assumption || lia). reflexivity.
  - intros r bs cs Hr E Hl. unfold tide_reader_read_bytes.
    assert (Hz : zlen bs = n) by (unfold zlen; lia). rewrite (has_true r n bs cs Hr E Hz). cbn [negb].
    pose proof (zlen_rest r Hr) as Hlr. rewrite E, zlen_app in Hlr. pose proof (zlen_nonneg cs).
    pose proof Hr as (Ho & Hs & Hm). rewrite span_done by lia. cbn [mbind outcome_bind].
    rewrite Z2Nat.id by lia. do 3 f_equal. unfold slice. fold (rest r). rewrite E, <- Hl. apply take_app_length.
  - intros bs. rewrite Z2Nat.id by lia. unfold mbind, parser_bind, mret, parser_ret.
    destruct (p_bytes n bs) as [[a cs]|]; reflexivity.
Qed.
#[export] Hint Extern 1 (refines (tide_reader_read_bytes _) _) =>
  apply refines_read_bytes; lia : typeclass_instances.

Lemma refines_skip n : 0 <= n -> refines (tide_reader_skip n) (p_skip n).
Proof. intros. apply refines_bind; [apply refines_read_bytes; lia|]. intros. apply _. Qed.
#[export] Hint Extern 1 (refines (tide_reader_skip _) _) => apply refines_skip; lia : typeclass_instances.

Lemma refines_uleb_loop n i shift value :
  0 <= shift -> shift + 7 * Z.of_nat n <= 70 ->
  refines (uleb_loop n i shift value) (p_uleb_loop n i shift value).
Proof.
  revert i shift value. induction n as [|n IH]; intros i shift value Hs Hn; [apply _|].
  cbn [uleb_loop p_uleb_loop]. apply refines_bind; [apply _|]. intros b.
  apply refines_if; [apply _|].
  eapply refines_ext.
  - eapply refines_bind; [apply refines_lift; apply shl64_done; lia|]. intros part.
    apply refines_if; [apply refines_if; apply _|]. apply IH; lia.
  - reflexivity.
Qed.

#[export] Instance refines_read_uleb128 : refines tide_reader_read_uleb128 p_uleb.
Proof. apply refines_uleb_loop; unfold TIDE_MAX_HEADER_VARINT_BYTES; lia. Qed.

(** ** Canonical variable-length integers *)

(** The groups of seven bits of [v], at most [n] of them. *)
Fixpoint uleb_enc (n : nat) (v : Z) : list byte :=
  match n with
  | O => []
  | S n => if v <? 128 then [byte_of_Z v] else byte_of_Z (v mod 128 + 128) :: uleb_enc n (v / 128)
  end.
Definition uleb_bytes (v : Z) : list byte := uleb_enc 10 v.

Lemma land_7f z : Z.land z 0x7f = z mod 128.
Proof. exact (land_ones_mod z 7 ltac:(lia)). Qed.

Lemma land_80 z : is_u8 z -> (Z.land z 0x80 =? 0) = (z <? 128).
Proof.
  intros Hz. assert (Hl : Z.land z 0x80 = if z <? 128 then 0 else 128).
  { replace (Z.land z 128) with (Z.land z (2 ^ 7)) by reflexivity. apply Z.bits_inj'. intros i Hi.
    rewrite Z.land_spec, Z.pow2_bits_eqb by lia. destruct (Z.eqb_spec 7 i) as [<-|Hne].
    - rewrite andb_true_r. destruct (Z.ltb_spec z 128).
      + rewrite Z.bits_0. apply (testbit_small z 7); ranges; lia.
      + change 128 with (2 ^ 7). rewrite Z.pow2_bits_true by lia.
        rewrite Z.testbit_true by lia. change (2 ^ 7) with 128.
        replace (z / 128) with 1; [reflexivity|]. apply Z.div_unique with (z - 128); ranges; lia.
    - rewrite andb_false_r. destruct (z <? 128); [rewrite Z.bits_0; reflexivity|].
      change 128 with (2 ^ 7). symmetry. apply Z.pow2_bits_false. lia. }
  rewrite Hl. destruct (z <? 128); reflexivity.
Qed.

Lemma lor_80 z : 0 <= z < 128 -> Z.lor z 0x80 = z + 128.
Proof. intros. change 0x80 with (Z.shiftl 1 7). rewrite lor_shiftl_add by lia. reflexivity. Qed.

Lemma land_7e z : 0 <= z < 256 -> Z.land z 0x7e = 0 -> z mod 128 < 2.
Proof.
  intros Hz Hl. destruct (Z_lt_le_dec (z mod 128) 2) as [|Hge]; [assumption|exfalso].
  pose proof (Z.mod_pos_bound z 128 ltac:(lia)) as Hm.
  assert (Hb : Z.testbit (Z.land z 0x7e) (Z.log2 (z mod 128)) = true).
  { assert (1 <= Z.log2 (z mod 128)) by (apply (Z.log2_le_mono 2); lia).
    assert (Z.log2 (z mod 128) < 7) by (apply Z.log2_lt_pow2; lia).
    rewrite Z.land_spec. apply andb_true_iff. split.
    - rewrite <- (Z.mod_pow2_bits_low z 7) by lia. apply Z.bit_log2. lia.
    - assert (Hc : Z.log2 (z mod 128) = 1 \/ Z.log2 (z mod 128) = 2 \/ Z.log2 (z mod 128) = 3 \/
        Z.log2 (z mod 128) = 4 \/ Z.log2 (z mod 128) = 5 \/ Z.log2 (z mod 128) = 6) by lia.
      destruct Hc as [-> | [-> | [-> | [-> | [-> | ->]]]]]; reflexivity. }
  rewrite Hl, Z.bits_0 in Hb. discriminate.
Qed.

(** One group contributes its seven bits at [shift]. *)
Lemma lor_group value b s :
  0 <= s -> 0 <= value < 2 ^ s -> value + (b mod 128) * 2 ^ s < 2 ^ 64 ->
  Z.lor value (wrap64 (Z.shiftl (Z.land b 0x7f) s)) = value + (b mod 128) * 2 ^ s.
Proof.
  intros Hs Hv Hb. rewrite land_7f. pose proof (Z.mod_pos_bound b 128 ltac:(lia)).
  assert (0 < 2 ^ s) by (apply Z.pow_pos_nonneg; lia).
  rewrite wrap64_small by (rewrite Z.shiftl_mul_pow2 by lia; unfold is_u64; nia).
  apply lor_shiftl_add; lia.
Qed.

Lemma p_le_1_cons b bs : p_le 1 (b :: bs) = Some (u8 b, bs).
Proof.
  unfold p_le, p_bytes, mbind, parser_bind, mret, parser_ret, zlen. cbn [length].
  destruct (Z.leb_spec 1 (Z.of_nat (S (length bs)))); [|lia].
  change (Z.to_nat 1) with 1%nat. cbn [take drop le_Z]. rewrite Z.mul_0_r, Z.add_0_r. reflexivity.
Qed.

(** The loop at round [10 - n], against the encoding of what it has still to
    read. *)
Lemma p_uleb_loop_enc n i value v bs :
  i = 10 - Z.of_nat n -> 0 <= i -> 0 <= value < 2 ^ (7 * i) -> 0 <= v ->
  value + v * 2 ^ (7 * i) < 2 ^ 64 -> (0 < i -> v <> 0) ->
  p_uleb_loop n i (7 * i) value (uleb_enc n v ++ bs) = Some (value + v * 2 ^ (7 * i), bs).
Proof.
  revert i value v. induction n as [|n IH]; intros i value v Hi Hi0 Hval Hv Htot Hnz.
  { exfalso. assert (i = 10) as -> by lia. assert (v <> 0) by (apply Hnz; lia).
    assert (2 ^ 64 < 2 ^ (7 * 10)) by (apply Z.pow_lt_mono_r; lia). nia. }
  assert (Hp : 0 < 2 ^ (7 * i)) by (apply Z.pow_pos_nonneg; lia).
  assert (Hgroup : Z.land (v mod 128) 0x7e = 0 \/ 7 * i <> 63).
  { destruct (Z.eq_dec (7 * i) 63) as [E|]; [left|right; assumption].
    rewrite E in Htot, Hval. assert (v < 2) by nia. rewrite Z.mod_small by lia.
    assert (Hc : v = 0 \/ v = 1) by lia. destruct Hc as [-> | ->]; reflexivity. }
  assert (Hnext : 128 <= v -> 7 * (i + 1) < 64).
  { intros. destruct (Z_lt_le_dec (7 * (i + 1)) 64); [assumption|exfalso].
    assert (Hmul : 2 ^ 64 <= 2 ^ (7 * (i + 1))) by (apply Z.pow_le_mono_r; lia).
    replace (7 * (i + 1)) with (7 + 7 * i) in Hmul by lia. rewrite Z.pow_add_r in Hmul by lia.
    change (2 ^ 7) with 128 in Hmul. nia. }
  cbn [uleb_enc p_uleb_loop]. unfold mbind, parser_bind.
  destruct (Z.ltb_spec v 128) as [Hsmall|Hbig].
  - cbn [app]. rewrite p_le_1_cons, byte_of_Z_small by (unfold is_u8; lia).
    rewrite Z.mod_small in Hgroup by lia.
    replace ((7 * i =? 63) && negb (Z.land v 126 =? 0)) with false.
    2: { destruct Hgroup as [-> | Hne]; [symmetry; apply andb_false_r|].
         rewrite (proj2 (Z.eqb_neq _ _) Hne). reflexivity. }
    rewrite land_80, (proj2 (Z.ltb_lt v 128)) by (unfold is_u8; lia).
    replace ((i >? 0) && (v =? 0)) with false.
    2: { rewrite Z.gtb_ltb. destruct (Z.ltb_spec 0 i); [|reflexivity].
         rewrite (proj2 (Z.eqb_neq v 0)) by auto. reflexivity. }
    unfold mret, parser_ret. rewrite lor_group; rewrite ?(Z.mod_small v 128) by lia; auto; lia.
  - pose proof (Z.mod_pos_bound v 128 ltac:(lia)). pose proof (Z.div_mod v 128 ltac:(lia)).
    cbn [app]. rewrite p_le_1_cons, byte_of_Z_small by (unfold is_u8; lia).
    rewrite (proj2 (Z.eqb_neq (7 * i) 63)) by lia. cbn [andb].
    rewrite land_80, (proj2 (Z.ltb_ge _ 128)) by (unfold is_u8; lia).
    assert (Hmod : (v mod 128 + 128) mod 128 = v mod 128).
    { rewrite <- (Z.mul_1_l 128) at 2. rewrite Z.mod_add, Z.mod_mod by lia. reflexivity. }
    rewrite lor_group by (try rewrite Hmod; nia). rewrite Hmod.
    replace (7 * i + 7) with (7 * (i + 1)) by lia.
    assert (Hpow : 2 ^ (7 * (i + 1)) = 128 * 2 ^ (7 * i)).
    { replace (7 * (i + 1)) with (7 + 7 * i) by lia. rewrite Z.pow_add_r by lia. reflexivity. }
    rewrite IH; rewrite ?Hpow; try lia; try nia. do 2 f_equal. nia.
Qed.

Lemma p_uleb_enc v bs : is_u64 v -> p_uleb (uleb_bytes v ++ bs) = Some (v, bs).
Proof.
  intros Hv. unfold is_u64 in Hv.
  pose proof (p_uleb_loop_enc 10 0 0 v bs) as H. change (2 ^ (7 * 0)) with 1 in H.
  rewrite Z.mul_1_r, Z.add_0_l in H. apply H; lia.
Qed.

Lemma p_le_1_inv bs b cs : p_le 1 bs = Some (b, cs) -> exists x, bs = x :: cs /\ b = u8 x.
Proof.
  destruct bs as [|x bs]; [discriminate|]. rewrite p_le_1_cons. intros [= <- <-]. eauto.
Qed.

(** What the loop accepts is an encoding: the value determines the bytes. *)
Lemma p_uleb_loop_inv n i value bs w cs :
  i = 10 - Z.of_nat n -> 0 <= i -> 0 <= value < 2 ^ (7 * i) -> value < 2 ^ 64 ->
  p_uleb_loop n i (7 * i) value bs = Some (w, cs) ->
  exists v, 0 <= v /\ w = value + v * 2 ^ (7 * i) /\ w < 2 ^ 64 /\ (0 < i -> v <> 0) /\
    bs = uleb_enc n v ++ cs.
Proof.
  revert i value bs. induction n as [|n IH]; intros i value bs Hi Hi0 Hval Hmax; [discriminate|].
  assert (Hp : 0 < 2 ^ (7 * i)) by (apply Z.pow_pos_nonneg; lia).
  cbn [p_uleb_loop uleb_enc]. unfold mbind, parser_bind.
  destruct (p_le 1 bs) as [[b ds]|] eqn:Eb; [|discriminate].
  apply p_le_1_inv in Eb as (x & -> & ->). pose proof (u8_range x) as Hx. unfold is_u8 in Hx.
  pose proof (Z.mod_pos_bound (u8 x) 128 ltac:(lia)) as Hm.
  destruct ((7 * i =? 63) && negb (Z.land (u8 x) 126 =? 0)) eqn:Etop; [discriminate|].
  assert (Hfit : value + (u8 x mod 128) * 2 ^ (7 * i) < 2 ^ 64).
  { apply andb_false_iff in Etop as [E|E]; bool_props.
    - assert (7 * i + 7 <= 64) by lia.
      assert (Hle : 2 ^ (7 * i + 7) <= 2 ^ 64) by (apply Z.pow_le_mono_r; lia).
      rewrite Z.pow_add_r in Hle by lia. change (2 ^ 7) with 128 in Hle. nia.
    - apply land_7e in E; [|lia]. assert (Hle : 2 ^ (7 * i) <= 2 ^ 63) by (apply Z.pow_le_mono_r; lia).
      assert (i = 9 \/ 7 * i <= 56) as [-> | Hs] by lia; [change (2 ^ (7 * 9)) with (2 ^ 63) in *; lia|].
      assert (2 ^ (7 * i) <= 2 ^ 56) by (apply Z.pow_le_mono_r; lia). nia. }
  rewrite lor_group by lia. rewrite land_80 by exact Hx.
  destruct (Z.ltb_spec (u8 x) 128) as [Hs|Hb].
  - destruct ((i >? 0) && (u8 x =? 0)) eqn:Ez; [discriminate|].
    unfold mret, parser_ret. intros [= <- <-]. exists (u8 x).
    rewrite Z.mod_small in * by lia. rewrite Z.gtb_ltb in Ez.
    rewrite (proj2 (Z.ltb_lt (u8 x) 128)), byte_of_Z_u8 by lia. repeat split; try lia.
  - replace (7 * i + 7) with (7 * (i + 1)) by lia. intros Hrec.
    assert (Hpow : 2 ^ (7 * (i + 1)) = 128 * 2 ^ (7 * i)).
    { replace (7 * (i + 1)) with (7 + 7 * i) by lia. rewrite Z.pow_add_r by lia. reflexivity. }
    apply IH in Hrec as (v & Hv & -> & Hw & Hnz & ->); try lia; [|rewrite Hpow; nia].
    rewrite Hpow in *. exists (u8 x mod 128 + 128 * v).
    assert (v <> 0) by (apply Hnz; lia).
    rewrite (proj2 (Z.ltb_ge _ 128)) by lia.
    replace ((u8 x mod 128 + 128 * v) / 128) with v.
    2: { rewrite Z.mul_comm, Z.div_add, Z.div_small by lia. lia. }
    replace ((u8 x mod 128 + 128 * v) mod 128) with (u8 x mod 128).
    2: { rewrite Z.mul_comm, Z.mod_add, Z.mod_mod by lia. reflexivity. }
    replace (u8 x mod 128 + 128) with (u8 x).
    2: { pose proof (Z.div_mod (u8 x) 128 ltac:(lia)).
         assert (u8 x / 128 = 1) by (symmetry; apply Z.div_unique with (u8 x - 128); lia). lia. }
    rewrite byte_of_Z_u8. repeat split; try lia; try nia. 
Qed.

Lemma p_uleb_inv bs v cs : p_uleb bs = Some (v, cs) -> is_u64 v /\ bs = uleb_bytes v ++ cs.
Proof.
  intros H. apply (p_uleb_loop_inv 10 0 0 bs v cs) in H as (w & Hw & -> & Hm & _ & ->); try lia.
  change (2 ^ (7 * 0)) with 1 in *. rewrite Z.mul_1_r, Z.add_0_l in *.
  split; [unfold is_u64; lia|reflexivity].
Qed.

Lemma length_uleb_enc n v : 0 <= v < 2 ^ (7 * Z.of_nat n) -> (0 < n)%nat -> (1 <= length (uleb_enc n v) <= n)%nat.
Proof.
  revert v. induction n as [|n IH]; intros v Hv Hn; [lia|]. cbn [uleb_enc].
  destruct (Z.ltb_spec v 128) as [|Hb]; [simpl; lia|]. cbn [length].
  destruct n as [|n].
  { change (7 * Z.of_nat 1) with 7 in Hv. change (2 ^ 7) with 128 in Hv. lia. }
  specialize (IH (v / 128)). replace (7 * Z.of_nat (S (S n))) with (7 + 7 * Z.of_nat (S n)) in Hv by lia.
  rewrite Z.pow_add_r in Hv by lia. change (2 ^ 7) with 128 in Hv.
  assert (0 <= v / 128 < 2 ^ (7 * Z.of_nat (S n))).
  { split; [apply Z.div_pos; lia|apply Z.div_lt_upper_bound; lia]. }
  lia.
Qed.

Lemma length_uleb_bytes v : is_u64 v -> (1 <= length (uleb_bytes v) <= 10)%nat.
Proof.
  intros Hv. apply length_uleb_enc; [|lia]. ranges.
  assert (2 ^ 64 < 2 ^ (7 * Z.of_nat 10)) by (apply Z.pow_lt_mono_r; lia). lia.
Qed.

(** ** The writers produce the little-endian and canonical encodings *)

Lemma byte_of_Z_land z : byte_of_Z (Z.land z 0xff) = byte_of_Z z.
Proof.
  apply u8_inj. rewrite !u8_byte_of_Z. change 0xff with (2 ^ 8 - 1). rewrite land_ones_mod by lia.
  unfold wrap8. change (2 ^ 8) with 256. apply Z.mod_mod. lia.
Qed.

Lemma write_u16_le v : tide_write_u16 v = le_bytes 2 v.
Proof. unfold tide_write_u16. rewrite !byte_of_Z_land. reflexivity. Qed.

Lemma write_u32_le v : tide_write_u32 v = le_bytes 4 v.
Proof.
  unfold tide_write_u32. rewrite !byte_of_Z_land. cbn [le_bytes].
  rewrite !Z.shiftr_shiftr by lia. reflexivity.
Qed.

Lemma le_bytes_mod n v : le_bytes n (v mod 2 ^ (8 * Z.of_nat n)) = le_bytes n v.
Proof. rewrite <- le_Z_le_bytes. rewrite <- (length_le_bytes n v) at 1. apply le_bytes_le_Z. Qed.

Lemma le_bytes_app n m v : le_bytes (n + m) v = le_bytes n v ++ le_bytes m (Z.shiftr v (8 * Z.of_nat n)).
Proof.
  revert v. induction n as [|n IH]; intros v; [simpl; rewrite Z.shiftr_0_r; reflexivity|].
  cbn [Nat.add le_bytes app]. rewrite IH, Z.shiftr_shiftr by lia. do 3 f_equal. f_equal. lia.
Qed.

Lemma write_u64_le v : tide_write_u64 v = le_bytes 8 v.
Proof.
  unfold tide_write_u64. rewrite !write_u32_le. change 8%nat with (4 + 4)%nat. rewrite le_bytes_app.
  f_equal.
  - change 0xffffffff with (2 ^ (8 * Z.of_nat 4) - 1). rewrite land_ones_mod by lia. apply le_bytes_mod.
  - unfold wrap32. change 4294967296 with (2 ^ (8 * Z.of_nat 4)). rewrite le_bytes_mod. reflexivity.
Qed.

Lemma p_bytes_app (bs cs : list byte) n : zlen bs = n -> p_bytes n (bs ++ cs) = Some (bs, cs).
Proof.
  intros <-. unfold p_bytes. rewrite zlen_app. pose proof (zlen_nonneg cs).
  rewrite (proj2 (Z.leb_le _ _)) by lia. unfold zlen. rewrite Nat2Z.id.
  rewrite take_app_length, drop_app_length. reflexivity.
Qed.

Lemma p_le_bytes n z bs :
  0 <= z < 2 ^ (8 * Z.of_nat n) -> p_le (Z.of_nat n) (le_bytes n z ++ bs) = Some (z, bs).
Proof.
  intros Hz. unfold p_le, mbind, parser_bind. rewrite p_bytes_app by (unfold zlen; rewrite length_le_bytes; reflexivity).
  unfold mret, parser_ret. rewrite le_Z_le_bytes, Z.mod_small by lia. reflexivity.
Qed.

Lemma p_le_inv n z bs cs : p_le (Z.of_nat n) bs = Some (z, cs) -> bs = le_bytes n z ++ cs.
Proof.
  unfold p_le, p_bytes, mbind, parser_bind, mret, parser_ret.
  destruct (Z.leb_spec (Z.of_nat n) (zlen bs)) as [Hle|]; [|discriminate].
  intros [= <- <-]. rewrite Nat2Z.id. unfold zlen in Hle.
  replace n with (length (take n bs)) at 1 by (rewrite length_take; lia).
  rewrite le_bytes_le_Z. symmetry. apply take_drop.
Qed.

Lemma p_i64_bytes z bs : is_i64 z -> p_i64 (tide_write_i64 z ++ bs) = Some (z, bs).
Proof.
  intros Hz. unfold tide_write_i64, p_i64, mbind, parser_bind. rewrite write_u64_le.
  rewrite (p_le_bytes 8) by apply wrap64_range. unfold mret, parser_ret.
  rewrite u64_i64_inverse by assumption. reflexivity.
Qed.

Lemma uleb_write_loop_enc n v :
  0 <= v < 2 ^ (7 * Z.of_nat n) -> (0 < n)%nat -> uleb_write_loop n v = Done (uleb_enc n v).
Proof.
  revert v. induction n as [|n IH]; intros v Hv Hn; [lia|]. cbn [uleb_write_loop uleb_enc].
  rewrite land_7f, Z.shiftr_div_pow2 by lia. change (2 ^ 7) with 128.
  pose proof (Z.mod_pos_bound v 128 ltac:(lia)). rewrite wrap8_small by (unfold is_u8; lia).
  destruct (Z.ltb_spec v 128) as [Hs|Hb].
  - rewrite Z.div_small, Z.mod_small by lia. reflexivity.
  - assert (1 <= v / 128) by (apply Z.div_le_lower_bound; lia).
    rewrite (proj2 (Z.eqb_neq (v / 128) 0)) by lia. cbn [negb].
    destruct n as [|n].
    { change (7 * Z.of_nat 1) with 7 in Hv. change (2 ^ 7) with 128 in Hv. lia. }
    rewrite IH; [|split; [lia|]|lia].
    + cbn [mbind outcome_bind]. rewrite lor_80 by lia. reflexivity.
    + replace (7 * Z.of_nat (S (S n))) with (7 + 7 * Z.of_nat (S n)) in Hv by lia.
      rewrite Z.pow_add_r in Hv by lia. apply Z.div_lt_upper_bound; lia.
Qed.

Lemma u64_lt_70 v : is_u64 v -> 0 <= v < 2 ^ (7 * Z.of_nat 10).
Proof.
  intros Hv. ranges. assert (2 ^ 64 < 2 ^ (7 * Z.of_nat 10)) by (apply Z.pow_lt_mono_r; lia). lia.
Qed.

Lemma write_uleb128_enc v : is_u64 v -> tide_write_uleb128 v = Done (uleb_bytes v).
Proof. intros. apply uleb_write_loop_enc; [apply u64_lt_70; assumption|unfold uleb_fuel; lia]. Qed.

Lemma uleb_size_loop_enc n v k :
  0 <= v < 2 ^ (7 * Z.of_nat n) -> (0 < n)%nat -> 0 <= k -> k + Z.of_nat n < 2 ^ 64 ->
  uleb_size_loop n v (k + 1) = Done (k + zlen (uleb_enc n v)).
Proof.
  revert v k. induction n as [|n IH]; intros v k Hv Hn Hk Hk64; [lia|]. cbn [uleb_size_loop uleb_enc].
  rewrite Z.geb_leb, Z.shiftr_div_pow2 by lia. change (2 ^ 7) with 128.
  destruct (Z.ltb_spec v 128) as [Hs|Hb].
  - rewrite (proj2 (Z.leb_gt 128 v)) by lia. reflexivity.
  - rewrite (proj2 (Z.leb_le 128 v)) by lia. destruct n as [|n].
    { change (7 * Z.of_nat 1) with 7 in Hv. change (2 ^ 7) with 128 in Hv. lia. }
    rewrite wrap64_small by (unfold is_u64; lia).
    replace (7 * Z.of_nat (S (S n))) with (7 + 7 * Z.of_nat (S n)) in Hv by lia.
    rewrite Z.pow_add_r in Hv by lia. change (2 ^ 7) with 128 in Hv.
    rewrite IH; try lia.
    + f_equal. unfold zlen. cbn [length]. lia.
    + split; [apply Z.div_pos; lia|apply Z.div_lt_upper_bound; lia].
Qed.

Lemma uleb128_size_enc v : is_u64 v -> tide_uleb128_size v = Done (zlen (uleb_bytes v)).
Proof.
  intros. unfold tide_uleb128_size. change 1 with (0 + 1).
  rewrite uleb_size_loop_enc; [reflexivity|apply u64_lt_70; assumption|unfold uleb_fuel; lia|lia|unfold uleb_fuel; lia].
Qed.

(** ** Parsers read a prefix and nothing else *)

(** An accepted input splits into the bytes used and the bytes left, and the
    used bytes are accepted whatever follows them. *)
Class exact {A} (p : parser A) : Prop :=
  exact_spec : forall bs a cs, p bs = Some (a, cs) ->
    exists used, bs = used ++ cs /\ forall ds, p (used ++ ds) = Some (a, ds).

#[export] Instance exact_ret {A} (a : A) : exact (mret a).
Proof. intros bs b cs [= <- <-]. exists []. auto. Qed.

#[export] Instance exact_fail {A} : exact (@p_fail A).
Proof. intros bs a cs. discriminate. Qed.

#[export] Instance exact_guard b : exact (p_guard b).
Proof. destruct b; intros bs a cs; [intros [= <- <-]; exists []; auto|discriminate]. Qed.

#[export] Instance exact_bytes n : exact (p_bytes n).
Proof.
  intros bs a cs. unfold p_bytes. destruct (Z.leb_spec n (zlen bs)) as [Hle|]; [|discriminate].
  intros [= <- <-]. exists (take (Z.to_nat n) bs). split; [symmetry; apply take_drop|].
  intros ds. rewrite zlen_app. pose proof (zlen_nonneg ds).
  assert (Hl : length (take (Z.to_nat n) bs) = Z.to_nat n) by (unfold zlen in *; rewrite length_take; lia).
  rewrite (proj2 (Z.leb_le _ _)) by (unfold zlen in *; lia).
  rewrite take_app_length', drop_app_length' by congruence. reflexivity.
Qed.

#[export] Instance exact_bind {A B} (p : parser A) (f : A -> parser B) :
  exact p -> (forall a, exact (f a)) -> exact (p ≫= f).
Proof.
  intros Hp Hf bs b cs. unfold mbind, parser_bind.
  destruct (p bs) as [[a ds]|] eqn:E; [|discriminate]. intros Hb.
  apply Hp in E as (u & -> & Hu). apply Hf in Hb as (v & -> & Hv).
  exists (u ++ v). split; [apply app_assoc|]. intros es. rewrite <- app_assoc, Hu. apply Hv.
Qed.

#[export] Instance exact_if {A} (b : bool) (p q : parser A) : exact p -> exact q -> exact (if b then p else q).
Proof. destruct b; auto. Qed.

#[export] Instance exact_le n : exact (p_le n).
Proof. unfold p_le. apply _. Qed.
#[export] Instance exact_i64 : exact p_i64.
Proof. unfold p_i64. apply _. Qed.
#[export] Instance exact_skip n : exact (p_skip n).
Proof. unfold p_skip. apply _. Qed.

#[export] Instance exact_uleb : exact p_uleb.
Proof.
  intros bs v cs H. apply p_uleb_inv in H as [Hv ->]. exists (uleb_bytes v).
  split; [reflexivity|]. intros ds. apply p_uleb_enc, Hv.
Qed.

Lemma exact_zlen {A} (p : parser A) `{!exact p} bs a cs : p bs = Some (a, cs) -> zlen cs <= zlen bs.
Proof.
  intros H. apply exact_spec in H as (u & -> & _). rewrite zlen_app. pose proof (zlen_nonneg u). lia.
Qed.

Lemma exact_extend {A} (p : parser A) `{!exact p} bs a cs ds :
  p bs = Some (a, cs) -> p (bs ++ ds) = Some (a, cs ++ ds).
Proof. intros H. apply exact_spec in H as (u & -> & Hu). rewrite <- app_assoc. apply Hu. Qed.

(** How much each parser uses. *)
Lemma p_bytes_zlen n bs xs cs : 0 <= n -> p_bytes n bs = Some (xs, cs) -> zlen bs = n + zlen cs /\ zlen xs = n.
Proof.
  unfold p_bytes. intros Hn. destruct (Z.leb_spec n (zlen bs)) as [Hle|]; [|discriminate].
  intros [= <- <-]. unfold zlen in *. rewrite length_take, length_drop. lia.
Qed.

Lemma p_le_zlen n bs z cs : 0 <= n -> p_le n bs = Some (z, cs) -> zlen bs = n + zlen cs /\ 0 <= z < 2 ^ (8 * n).
Proof.
  intros Hn H. split; [|apply p_le_range in H as [H _]; assumption].
  unfold p_le, mbind, parser_bind, mret, parser_ret in H.
  destruct (p_bytes n bs) as [[xs ds]|] eqn:E; [|discriminate]. injection H as _ <-.
  apply p_bytes_zlen in E as [E _]; assumption.
Qed.

Lemma p_uleb_zlen bs v cs : p_uleb bs = Some (v, cs) -> 1 <= zlen bs - zlen cs <= 10 /\ is_u64 v.
Proof.
  intros H. apply p_uleb_inv in H as [Hv ->]. pose proof (length_uleb_bytes v Hv).
  split; [rewrite zlen_app; zlia|assumption].
Qed.

(** Split the success of a chain of parsers into the successes of its parts. *)
Ltac parse_inv H :=
  unfold mbind, parser_bind, mret, parser_ret, p_skip, p_i64, p_guard in H;
  repeat match type of H with
  | context [match ?p ?b with Some _ => _ | None => None end] =>
      let E := fresh "Hp" in destruct (p b) as [[? ?]|] eqn:E; [|discriminate H];
      unfold mbind, parser_bind, mret, parser_ret in E;
      lazymatch type of E with
      | match _ with _ => _ end = _ => parse_inv E; injection E; clear E; intros; subst
      | _ => idtac
      end
  | context [match (if ?c then _ else None) with Some _ => _ | None => None end] =>
      let E := fresh "Hc" in destruct c eqn:E; [|discriminate H]
  end.

(** Lengths and ranges of the parsed fields. *)
Ltac parse_lengths :=
  repeat match goal with
  | H : p_le _ _ = Some _ |- _ => apply p_le_zlen in H as [? ?]; [|lia]
  | H : p_bytes _ _ = Some _ |- _ => apply p_bytes_zlen in H as [? ?]; [|lia]
  | H : p_uleb _ = Some _ |- _ => apply p_uleb_zlen in H as [? ?]
  end.

(** Running a read on a whole object. *)
Lemma run_init {A} (m : reader_m A) (p : parser A) `{!refines m p} (bs : list byte) n :
  zlen bs = n -> n < 2 ^ 64 ->
  exists r, moved (tide_reader_init bs n) r /\
    match p bs with
    | Some (a, cs) => m (tide_reader_init bs n) = Done (Some a, r) /\ rest r = cs /\ rd_offset r = n - zlen cs
    | None => m (tide_reader_init bs n) = Done (None, r)
    end.
Proof.
  intros Hn Hm. pose proof (zlen_nonneg bs).
  assert (Hw : reader_wf (tide_reader_init bs n)) by (unfold reader_wf; simpl; lia).
  destruct (refines_spec (tide_reader_init bs n) Hw) as (r & Hr & H'). exists r. split; [exact Hr|].
  change (rest (tide_reader_init bs n)) with bs in H'. destruct (p bs) as [[a cs]|]; [|exact H'].
  destruct H' as [-> H']. split; [reflexivity|]. split; [exact H'|].
  destruct Hr as (Hwr & _ & Hs & _). rewrite <- H'. rewrite zlen_rest by assumption.
  simpl in Hs. lia.
Qed.

(** ** Variable-length integers *)

Lemma read_uleb bs : zlen bs < 2 ^ 64 ->
  exists r, tide_reader_read_uleb128 (tide_reader_init bs (zlen bs)) =
    Done (match p_uleb bs with Some (v, _) => Some v | None => None end, r) /\
    (forall v cs, p_uleb bs = Some (v, cs) -> rd_offset r = zlen bs - zlen cs).
Proof.
  intros Hm. destruct (run_init tide_reader_read_uleb128 p_uleb bs (zlen bs) eq_refl Hm) as (r & _ & H). exists r.
  destruct (p_uleb bs) as [[v cs]|]; [|split; [exact H|discriminate]]. destruct H as (H & _ & Ho). split; [exact H|].
  intros v' cs' [= <- <-]. exact Ho.
Qed.

(** C28: variable-length integers round trip, in one encoding only: for every
    64-bit value the writer ends and stores [tide_uleb128_size] bytes, at most
    10, from which the reader gets the value back and stops behind them; and
    bytes that the reader accepts are those the writer stores for the value
    read, so every value has one accepted encoding. *)
Theorem tide_uleb128_roundtrip (value : Z) (after bytes : list byte) :
  is_u64 value -> zlen bytes < 2 ^ 64 ->
  exists out, tide_write_uleb128 value = Done out /\ tide_uleb128_size value = Done (zlen out) /\ 1 <= zlen out <= 10 /\
    (zlen (out ++ after) < 2 ^ 64 -> exists r,
       tide_reader_read_uleb128 (tide_reader_init (out ++ after) (zlen (out ++ after))) = Done (Some value, r) /\ rd_offset r = zlen out) /\
    (forall r, tide_reader_read_uleb128 (tide_reader_init bytes (zlen bytes)) = Done (Some value, r) ->
       exists rest, bytes = out ++ rest /\ rd_offset r = zlen out).
Proof.
  intros Hv Hm. exists (uleb_bytes value). split; [apply write_uleb128_enc, Hv|]. split; [apply uleb128_size_enc, Hv|].
  split; [pose proof (length_uleb_bytes value Hv); zlia|]. split.
  - intros Hz. destruct (read_uleb _ Hz) as (r & -> & Ho). rewrite p_uleb_enc in * by exact Hv. exists r. split; [reflexivity|].
    rewrite (Ho _ _ eq_refl), zlen_app. lia.
  - intros r Hr. destruct (read_uleb bytes Hm) as (r' & Hr' & Ho). rewrite Hr' in Hr. destruct (p_uleb bytes) as [[v cs]|] eqn:E; [|discriminate].
    injection Hr as -> ->. specialize (Ho _ _ eq_refl). apply p_uleb_inv in E as [_ ->]. exists cs. split; [reflexivity|]. rewrite Ho, zlen_app. lia.
Qed.

Lemma tide_uleb128_roundtrip_witness :
  exists r, tide_write_uleb128 300 = Done [xac; x02] /\ tide_reader_read_uleb128 (tide_reader_init [xac; x02; x07] 3) = Done (Some 300, r) /\
    rd_offset r = 2.
Proof.
  destruct (tide_uleb128_roundtrip 300 [x07] [] ltac:(zlia) eq_refl) as (out & Hw & _ & _ & Hr & _).
  assert (E : out = [xac; x02]) by (vm_compute in Hw; injection Hw as <-; reflexivity). subst out.
  destruct (Hr eq_refl) as (r & Hrun & Ho). exists r. auto.
Defined.
