(* ===== verification/Rational.v ===== *)
(** * Rational time bases and timestamp conversion

    [src/model/time.c].  The 128-bit intermediate values are computed with
    their overflow check: a product that does not fit is undefined behaviour,
    and the conversion theorem shows there is none. *)

From S2P Require Import Prelude Status Checked.

Record tide_rational : Set := mk_rational { numerator : Z; denominator : Z }.

#[export] Instance tide_rational_eq_dec : EqDecision tide_rational.
Proof. solve_decision. Defined.

Inductive tide_rounding : Set :=
  | TIDE_ROUND_FLOOR
  | TIDE_ROUND_CEIL
  | TIDE_ROUND_NEAREST_EVEN.

Definition tide_rational_is_valid (value : tide_rational) : outcome bool :=
  if negb (numerator value =? 0) && negb (denominator value =? 0) then
    g ← tide_gcd_u64 (numerator value) (denominator value); Done (g =? 1)
  else Done false.

Definition tide_rational_reduce (value : option tide_rational)
    : outcome (tide_status * option tide_rational) :=
  match value with
  | None => Done (TIDE_STATUS_TIMELINE, None)
  | Some v =>
    if (numerator v =? 0) || (denominator v =? 0) then Done (TIDE_STATUS_TIMELINE, Some v)
    else
      gcd ← tide_gcd_u64 (numerator v) (denominator v);
      Done (TIDE_STATUS_OK,
            Some (mk_rational (wrap32 (numerator v / gcd)) (wrap32 (denominator v / gcd))))
  end.

(** A result of signed 128-bit arithmetic; overflow is undefined. *)
Definition i128 (z : Z) : outcome Z :=
  _ ← assert_def ((- 2 ^ 127 <=? z) && (z <? 2 ^ 127)); Done z.

(** [/] and [%] truncate toward zero.  [out] is the cell the pointer
    designates, [None] for a null pointer; the result holds the cell after. *)
Definition tide_round_div_i128 (num den : Z) (rounding : tide_rounding) (out : option Z)
    : outcome (tide_status * option Z) :=
  if (den <=? 0) || is_null out then Done (TIDE_STATUS_INVALID_ARGUMENT, out)
  else
    q ← i128 (Z.quot num den);
    r ← i128 (Z.rem num den);
    r ← (if r <? 0 then i128 (- r) else Done r);
    q ← match rounding with
        | TIDE_ROUND_FLOOR => if (num <? 0) && negb (r =? 0) then i128 (q - 1) else Done q
        | TIDE_ROUND_CEIL => if (num >? 0) && negb (r =? 0) then i128 (q + 1) else Done q
        | TIDE_ROUND_NEAREST_EVEN =>
          twice ← i128 (r * 2);
          if (twice >? den) || ((twice =? den) && negb (Z.land q 1 =? 0)) then
            i128 (q + (if num >=? 0 then 1 else -1))
          else Done q
        end;
    if (q <? INT64_MIN) || (q >? INT64_MAX) then Done (TIDE_STATUS_TIMELINE, out)
    else Done (TIDE_STATUS_OK, Some q).

Definition tide_time_convert (value : Z) (source destination : tide_rational)
    (rounding : tide_rounding) (out : option Z) : outcome (tide_status * option Z) :=
  vs ← tide_rational_is_valid source;
  if negb vs then Done (TIDE_STATUS_TIMELINE, out) else
  vd ← tide_rational_is_valid destination;
  if negb vd || is_null out then Done (TIDE_STATUS_TIMELINE, out) else
  let num := numerator source in
  let den := denominator source in
  gcd1 ← tide_gcd_u64 num (numerator destination);
  let num := num / gcd1 in
  d ← i128 (numerator destination / gcd1);
  gcd2 ← tide_gcd_u64 (denominator destination) den;
  d ← i128 (d * (den / gcd2));
  n ← i128 (value * num);
  n ← i128 (n * (denominator destination / gcd2));
  tide_round_div_i128 n d rounding out.

(** ** Valid time bases *)

Definition rational_typed (v : tide_rational) : Prop := is_u32 (numerator v) /\ is_u32 (denominator v).

(** A positive fraction in lowest terms. *)
Definition reduced (v : tide_rational) : bool :=
  (0 <? numerator v) && (0 <? denominator v) && (Z.gcd (numerator v) (denominator v) =? 1).

Lemma is_valid_spec v : rational_typed v -> tide_rational_is_valid v = Done (reduced v).
Proof.
  intros [Hn Hd]. unfold tide_rational_is_valid, reduced.
  destruct (Z.eqb_spec (numerator v) 0) as [->|Hn0]; [reflexivity|].
  destruct (Z.eqb_spec (denominator v) 0) as [->|Hd0]; cbn [negb andb].
  { rewrite andb_false_r. reflexivity. }
  rewrite gcd_spec by zlia. rewrite !(proj2 (Z.ltb_lt 0 _)) by zlia. reflexivity.
Qed.

Lemma reduced_spec v : reduced v = true <-> 0 < numerator v /\ 0 < denominator v /\ Z.gcd (numerator v) (denominator v) = 1.
Proof. unfold reduced. rewrite !andb_true_iff, !Z.ltb_lt, Z.eqb_eq. tauto. Qed.

(** C34: [tide_rational_reduce] refuses exactly the fractions with a zero, and
    leaves them as they are; any other becomes the valid time base of the same value. *)
Theorem tide_rational_reduce_correct (v : tide_rational) :
  rational_typed v ->
  if (numerator v =? 0) || (denominator v =? 0) then tide_rational_reduce (Some v) = Done (TIDE_STATUS_TIMELINE, Some v)
  else exists r, tide_rational_reduce (Some v) = Done (TIDE_STATUS_OK, Some r) /\ rational_typed r /\
    tide_rational_is_valid r = Done true /\ numerator r * denominator v = numerator v * denominator r /\
    (tide_rational_is_valid v = Done true -> r = v).
Proof.
  intros Ht. pose proof Ht as [Hn Hd]. unfold tide_rational_reduce.
  destruct (Z.eqb_spec (numerator v) 0) as [|Hn0]; [reflexivity|]. destruct (Z.eqb_spec (denominator v) 0) as [|Hd0]; [reflexivity|]. cbn [orb].
  rewrite gcd_spec by zlia. rewrite bind_done. set (g := Z.gcd (numerator v) (denominator v)).
  assert (Hg : 0 < g) by (pose proof (Z.gcd_nonneg (numerator v) (denominator v)); unfold g; destruct (Z.eq_dec (Z.gcd (numerator v) (denominator v)) 0) as [E|]; [apply Z.gcd_eq_0 in E; lia|lia]).
  destruct (Z.gcd_divide_l (numerator v) (denominator v)) as [a Ha]. destruct (Z.gcd_divide_r (numerator v) (denominator v)) as [b Hb].
  fold g in Ha, Hb. assert (Hpos : 0 < a /\ 0 < b) by (ranges; nia). assert (Hle : a <= numerator v /\ b <= denominator v) by (ranges; nia).
  assert (Hab : Z.gcd a b = 1).
  { assert (E : g = g * Z.gcd a b); [|nia]. rewrite <- (Z.gcd_mul_mono_l_nonneg a b g) by lia. unfold g at 1. rewrite Ha, Hb. f_equal; lia. }
  assert (Ea : wrap32 (numerator v / g) = a) by (rewrite Ha, Z.div_mul, wrap32_small by zlia; reflexivity).
  assert (Eb : wrap32 (denominator v / g) = b) by (rewrite Hb, Z.div_mul, wrap32_small by zlia; reflexivity).
  rewrite Ea, Eb. assert (Hrt : rational_typed (mk_rational a b)) by (split; cbn; zlia).
  exists (mk_rational a b). split; [reflexivity|]. split; [exact Hrt|]. split; [|split].
  - rewrite is_valid_spec by exact Hrt. f_equal. apply reduced_spec. cbn [numerator denominator]. tauto.
  - cbn [numerator denominator]. nia.
  - rewrite is_valid_spec by exact Ht. intros [= E]. apply reduced_spec in E as (_ & _ & E). fold g in E.
    clearbody g. rewrite E, Z.mul_1_r in *. destruct v as [vn vd]. cbn [numerator denominator] in *. congruence.
Qed.

Lemma tide_rational_reduce_correct_witness :
  tide_rational_reduce (Some (mk_rational 48000 30000)) = Done (TIDE_STATUS_OK, Some (mk_rational 8 5)) /\
  tide_rational_is_valid (mk_rational 8 5) = Done true.
Proof.
  destruct (tide_rational_reduce_correct (mk_rational 48000 30000) ltac:(split; split; discriminate || reflexivity)) as (r & Hr & _ & Hv & _).
  assert (E : r = mk_rational 8 5) by (vm_compute in Hr; injection Hr as <-; reflexivity). subst r. auto.
Defined.

(** ** Rounding a fraction *)

(** The integer [rounding] selects for [n / d], [d] positive. *)
Definition round_ratio (rounding : tide_rounding) (n d : Z) : Z :=
  match rounding with
  | TIDE_ROUND_FLOOR => n / d
  | TIDE_ROUND_CEIL => - ((- n) / d)
  | TIDE_ROUND_NEAREST_EVEN =>
    let q := n / d in
    let twice := 2 * (n mod d) in
    if twice <? d then q
    else if d <? twice then q + 1
    else if Z.even q then q else q + 1
  end.

Lemma i128_done z : - 2 ^ 127 <= z < 2 ^ 127 -> i128 z = Done z.
Proof.
  intros. unfold i128, assert_def. rewrite (proj2 (Z.leb_le _ z)), (proj2 (Z.ltb_lt z _)) by lia. reflexivity.
Qed.

Lemma land_1_odd q : negb (Z.land q 1 =? 0) = Z.odd q.
Proof.
  change 1 with (2 ^ 1 - 1). rewrite land_ones_mod by lia. change (2 ^ 1) with 2.
  rewrite Zmod_odd. destruct (Z.odd q); reflexivity.
Qed.

Lemma quot_rem_pos n d : 0 <= n -> 0 < d -> Z.quot n d = n / d /\ Z.rem n d = n mod d.
Proof. intros. split; [apply Z.quot_div_nonneg; lia|apply Z.rem_mod_nonneg; lia]. Qed.

Lemma quot_rem_neg n d : n < 0 -> 0 < d -> Z.quot n d = - ((- n) / d) /\ Z.rem n d = - ((- n) mod d).
Proof.
  intros. rewrite <- (Z.opp_involutive n) at 1 3. rewrite Z.quot_opp_l, Z.rem_opp_l by lia.
  destruct (quot_rem_pos (- n) d) as [-> ->]; lia.
Qed.

(** The quotient of a negative number, from the division of its opposite. *)
Lemma div_neg n d :
  0 < d -> n / d = if (- n) mod d =? 0 then - ((- n) / d) else - ((- n) / d) - 1.
Proof.
  intros. pose proof (Z.div_mod (- n) d ltac:(lia)). pose proof (Z.mod_pos_bound (- n) d ltac:(lia)).
  destruct (Z.eqb_spec ((- n) mod d) 0); symmetry.
  - apply Z.div_unique with 0; lia.
  - apply Z.div_unique with (d - (- n) mod d); lia.
Qed.

Lemma div_small_abs n d : 0 < d -> Z.abs n < 2 ^ 127 -> Z.abs (n / d) <= 2 ^ 127.
Proof.
  intros Hd Hn. pose proof (Z.div_mod n d ltac:(lia)). pose proof (Z.mod_pos_bound n d ltac:(lia)). nia.
Qed.

Definition in_i64 (z : Z) : bool := (INT64_MIN <=? z) && (z <=? INT64_MAX).

Lemma quot_small n d : 0 < d -> Z.abs n < 2 ^ 127 ->
  Z.abs (Z.quot n d) <= Z.abs n /\ Z.abs (Z.rem n d) < d /\ Z.abs (Z.rem n d) <= Z.abs n /\
  (Z.rem n d <> 0 -> 2 * Z.abs (Z.quot n d) <= Z.abs n).
Proof.
  intros Hd Hn. destruct (Z_lt_le_dec n 0) as [Hneg|Hpos].
  - destruct (quot_rem_neg n d Hneg Hd) as [-> ->].
    pose proof (Z.div_mod (- n) d ltac:(lia)). pose proof (Z.mod_pos_bound (- n) d ltac:(lia)).
    assert (0 <= (- n) / d) by (apply Z.div_pos; lia). repeat split; try nia.
  - destruct (quot_rem_pos n d Hpos Hd) as [-> ->].
    pose proof (Z.div_mod n d ltac:(lia)). pose proof (Z.mod_pos_bound n d ltac:(lia)).
    assert (0 <= n / d) by (apply Z.div_pos; lia). repeat split; try nia.
Qed.

(** The rounding step of the code, as a function of the truncated quotient
    and the absolute remainder, is [round_ratio]. *)
Lemma round_step rounding n d :
  0 < d ->
  let q := Z.quot n d in let r := Z.abs (Z.rem n d) in
  match rounding with
  | TIDE_ROUND_FLOOR => if (n <? 0) && negb (r =? 0) then q - 1 else q
  | TIDE_ROUND_CEIL => if (n >? 0) && negb (r =? 0) then q + 1 else q
  | TIDE_ROUND_NEAREST_EVEN =>
    if (r * 2 >? d) || ((r * 2 =? d) && negb (Z.land q 1 =? 0)) then q + (if n >=? 0 then 1 else -1) else q
  end = round_ratio rounding n d.
Proof.
  intros Hd. cbv zeta. rewrite land_1_odd, !Z.gtb_ltb, Z.geb_leb. unfold round_ratio.
  destruct (Z_lt_le_dec n 0) as [Hneg|Hpos].
  - destruct (quot_rem_neg n d Hneg Hd) as [-> ->].
    pose proof (Z.mod_pos_bound (- n) d ltac:(lia)) as Hm. rewrite Z.abs_opp, Z.abs_eq by lia.
    pose proof (Z.div_mod n d ltac:(lia)). pose proof (Z.div_mod (- n) d ltac:(lia)).
    rewrite (proj2 (Z.ltb_lt n 0)), (proj2 (Z.leb_gt 0 n)), (proj2 (Z.ltb_ge 0 n)) by lia.
    rewrite (div_neg n d Hd) in *. rewrite Z.odd_opp.
    destruct (Z.eqb_spec ((- n) mod d) 0) as [E|E]; cbn [negb andb].
    + rewrite E in *. replace (n mod d) with 0 by lia. destruct rounding; try reflexivity.
      rewrite (proj2 (Z.ltb_ge d (0 * 2))), (proj2 (Z.ltb_lt (2 * 0) d)) by lia.
      rewrite (proj2 (Z.eqb_neq (0 * 2) d)) by lia. reflexivity.
    + replace (n mod d) with (d - (- n) mod d) by lia. destruct rounding; try reflexivity.
      replace (Z.even (- (- n / d) - 1)) with (Z.odd (- n / d)).
      2: { rewrite Z.even_sub, Z.even_opp, <- Z.negb_odd. destruct (Z.odd (- n / d)); reflexivity. }
      destruct (Z.ltb_spec d ((- n) mod d * 2)), (Z.ltb_spec (2 * (d - (- n) mod d)) d),
        (Z.ltb_spec d (2 * (d - (- n) mod d))), (Z.eqb_spec ((- n) mod d * 2) d), (Z.odd (- n / d));
        cbn [orb andb]; lia.
  - destruct (quot_rem_pos n d Hpos Hd) as [-> ->].
    pose proof (Z.mod_pos_bound n d ltac:(lia)) as Hm. rewrite Z.abs_eq by lia.
    pose proof (Z.div_mod n d ltac:(lia)).
    rewrite (proj2 (Z.ltb_ge n 0)), (proj2 (Z.leb_le 0 n)) by lia. destruct rounding; [reflexivity| |].
    + rewrite (div_neg (- n) d Hd), Z.opp_involutive.
      destruct (Z.eqb_spec (n mod d) 0) as [E|E]; cbn [negb]; [rewrite andb_false_r; lia|].
      destruct (Z.ltb_spec 0 n); [cbn [andb]; lia|]. assert (n = 0) as -> by lia.
      rewrite Z.mod_0_l in E by lia. lia.
    + rewrite <- Z.negb_even.
      destruct (Z.ltb_spec d (n mod d * 2)), (Z.ltb_spec (2 * (n mod d)) d),
        (Z.ltb_spec d (2 * (n mod d))), (Z.eqb_spec (n mod d * 2) d), (Z.even (n / d));
        cbn [orb andb negb]; lia.
Qed.

Lemma round_div_spec n d rounding o :
  0 < d <= 2 ^ 64 -> Z.abs n < 2 ^ 127 ->
  tide_round_div_i128 n d rounding (Some o) =
    Done (if in_i64 (round_ratio rounding n d) then (TIDE_STATUS_OK, Some (round_ratio rounding n d))
          else (TIDE_STATUS_TIMELINE, Some o)).
Proof.
  intros Hd Hn. destruct (quot_small n d ltac:(lia) Hn) as (Hq & Hr & Hr' & Hhalf).
  unfold tide_round_div_i128. rewrite (proj2 (Z.leb_gt d 0)) by lia. cbn [is_null orb].
  rewrite (i128_done (Z.quot n d)), (i128_done (Z.rem n d)) by lia. cbn [mbind outcome_bind].
  replace (if Z.rem n d <? 0 then i128 (- Z.rem n d) else Done (Z.rem n d)) with (Done (Z.abs (Z.rem n d))).
  2: { destruct (Z.ltb_spec (Z.rem n d) 0); [rewrite i128_done by lia|]; f_equal; lia. }
  cbn [mbind outcome_bind].
  pose proof (round_step rounding n d ltac:(lia)) as Hstep. cbv zeta in Hstep.
  replace (match rounding with
    | TIDE_ROUND_FLOOR => if (n <? 0) && negb (Z.abs (Z.rem n d) =? 0) then i128 (Z.quot n d - 1) else Done (Z.quot n d)
    | TIDE_ROUND_CEIL => if (n >? 0) && negb (Z.abs (Z.rem n d) =? 0) then i128 (Z.quot n d + 1) else Done (Z.quot n d)
    | TIDE_ROUND_NEAREST_EVEN =>
      twice ← i128 (Z.abs (Z.rem n d) * 2);
      if (twice >? d) || ((twice =? d) && negb (Z.land (Z.quot n d) 1 =? 0)) then
        i128 (Z.quot n d + (if n >=? 0 then 1 else -1)) else Done (Z.quot n d)
    end) with (Done (round_ratio rounding n d)).
  - cbn [mbind outcome_bind]. unfold in_i64. rewrite Z.gtb_ltb.
    destruct (Z.ltb_spec (round_ratio rounding n d) INT64_MIN), (Z.leb_spec INT64_MIN (round_ratio rounding n d)),
      (Z.ltb_spec INT64_MAX (round_ratio rounding n d)), (Z.leb_spec (round_ratio rounding n d) INT64_MAX);
      try lia; reflexivity.
  - rewrite <- Hstep. destruct rounding.
    + destruct ((n <? 0) && negb (Z.abs (Z.rem n d) =? 0)) eqn:E; [|reflexivity].
      bool_props. rewrite i128_done by lia. reflexivity.
    + destruct ((n >? 0) && negb (Z.abs (Z.rem n d) =? 0)) eqn:E; [|reflexivity].
      bool_props. rewrite i128_done by lia. reflexivity.
    + clear Hstep. rewrite (i128_done (Z.abs (Z.rem n d) * 2)) by (clear - Hd Hr; lia). cbn [mbind outcome_bind].
      match goal with |- Done (if ?b then _ else _) = _ => destruct b eqn:E end; [|reflexivity].
      rewrite Z.gtb_ltb in E. assert (Z.rem n d <> 0) by (intros E0; rewrite E0 in E; cbn in E; lia).
      rewrite i128_done by (destruct (n >=? 0); lia). reflexivity.
Qed.

Lemma round_ratio_scale rounding n d g :
  0 < d -> 0 < g -> round_ratio rounding (n * g) (d * g) = round_ratio rounding n d.
Proof.
  intros Hd Hg. unfold round_ratio.
  replace (- (n * g)) with (- n * g) by lia. rewrite !Z.div_mul_cancel_r by lia.
  rewrite Z.mul_mod_distr_r by lia. destruct rounding; try reflexivity.
  replace (2 * (n mod d * g)) with (2 * (n mod d) * g) by lia.
  assert (Hlt : forall x y, (x * g <? y * g) = (x <? y)).
  { intros. destruct (Z.ltb_spec x y); [apply Z.ltb_lt|apply Z.ltb_ge]; nia. }
  rewrite !Hlt. reflexivity.
Qed.

(** ** The conversion *)

Section convert.
Context (s d : tide_rational) (Ts : rational_typed s) (Td : rational_typed d).

(** [value] ticks of [s] are [value * ticks_num / ticks_den] ticks of [d]. *)
Definition ticks_num : Z := numerator s * denominator d.
Definition ticks_den : Z := denominator s * numerator d.

Lemma time_convert_eq value rounding o :
  is_i64 value -> reduced s = true -> reduced d = true ->
  let z := round_ratio rounding (value * ticks_num) ticks_den in
  tide_time_convert value s d rounding (Some o) =
    Done (if in_i64 z then (TIDE_STATUS_OK, Some z) else (TIDE_STATUS_TIMELINE, Some o)).
Proof using Ts Td.
  intros Hv Hs Hd. cbv zeta. unfold tide_time_convert. rewrite !is_valid_spec by assumption.
  rewrite Hs, Hd. rewrite !bind_done. cbn [negb is_null orb].
  apply reduced_spec in Hs as (Hsn & Hsd & _), Hd as (Hdn & Hdd & _).
  destruct Ts as [Hsn' Hsd'], Td as [Hdn' Hdd']. ranges.
  rewrite (gcd_spec (numerator s)) by zlia. rewrite bind_done. cbv beta zeta.
  set (g1 := Z.gcd (numerator s) (numerator d)). set (g2 := Z.gcd (denominator d) (denominator s)).
  assert (Hg1 : 0 < g1).
  { pose proof (Z.gcd_nonneg (numerator s) (numerator d)). unfold g1.
    destruct (Z.eq_dec (Z.gcd (numerator s) (numerator d)) 0) as [E|]; [|lia].
    apply Z.gcd_eq_0_l in E. lia. }
  assert (Hg2 : 0 < g2).
  { pose proof (Z.gcd_nonneg (denominator d) (denominator s)). unfold g2.
    destruct (Z.eq_dec (Z.gcd (denominator d) (denominator s)) 0) as [E|]; [|lia].
    apply Z.gcd_eq_0_l in E. lia. }
  destruct (Z.gcd_divide_l (numerator s) (numerator d)) as [a Ea]. fold g1 in Ea.
  destruct (Z.gcd_divide_r (numerator s) (numerator d)) as [b Eb]. fold g1 in Eb.
  destruct (Z.gcd_divide_l (denominator d) (denominator s)) as [c Ec]. fold g2 in Ec.
  destruct (Z.gcd_divide_r (denominator d) (denominator s)) as [e Ee]. fold g2 in Ee.
  assert (Hgcd2 : tide_gcd_u64 (denominator d) (denominator s) = Done g2) by (apply gcd_spec; zlia).
  clearbody g1 g2. rewrite Ec, Ee in Hgcd2. rewrite Ea, Eb, Ec, Ee, !Z.div_mul by lia.
  assert (0 < a < 2 ^ 32) by nia. assert (0 < b < 2 ^ 32) by nia.
  assert (0 < c < 2 ^ 32) by nia. assert (0 < e < 2 ^ 32) by nia.
  rewrite (i128_done b) by lia. rewrite bind_done. cbv beta.
  rewrite Hgcd2, bind_done. rewrite !Z.div_mul by lia.
  assert (0 < b * e <= 2 ^ 64) by nia. rewrite (i128_done (b * e)) by lia. rewrite bind_done.
  assert (Hva : Z.abs (value * a) <= 2 ^ 63 * (2 ^ 32 - 1)) by (rewrite Z.abs_mul; nia).
  rewrite (i128_done (value * a)) by lia. rewrite bind_done.
  assert (Hvac : Z.abs (value * a * c) < 2 ^ 127) by (rewrite Z.abs_mul; nia).
  rewrite (i128_done (value * a * c)) by lia. rewrite bind_done.
  rewrite round_div_spec by assumption. unfold ticks_num, ticks_den. rewrite Ea, Eb, Ec, Ee.
  replace (value * (a * g1 * (c * g2))) with (value * a * c * (g1 * g2)) by ring.
  replace (e * g2 * (b * g1)) with (b * e * (g1 * g2)) by ring.
  rewrite round_ratio_scale by nia. reflexivity.
Qed.

Lemma time_convert_invalid value rounding out :
  reduced s && reduced d = false ->
  tide_time_convert value s d rounding out = Done (TIDE_STATUS_TIMELINE, out).
Proof using Ts Td.
  intros Hf. unfold tide_time_convert. rewrite !is_valid_spec by assumption. cbn [mbind outcome_bind].
  destruct (reduced s); [|reflexivity]. cbn [negb andb] in *. rewrite Hf. reflexivity.
Qed.

Lemma ticks_pos : reduced s = true -> reduced d = true -> 0 < ticks_num /\ 0 < ticks_den.
Proof.
  rewrite !reduced_spec. unfold ticks_num, ticks_den. intros (?&?&_) (?&?&_). nia.
Qed.
End convert.

(** [z] is the integer [rounding] asks for at the fraction [n / d]. *)
Definition rounds_to (rounding : tide_rounding) (n d z : Z) : Prop :=
  match rounding with
  | TIDE_ROUND_FLOOR => z * d <= n < (z + 1) * d
  | TIDE_ROUND_CEIL => (z - 1) * d < n <= z * d
  | TIDE_ROUND_NEAREST_EVEN => 2 * Z.abs (z * d - n) <= d /\ (2 * Z.abs (z * d - n) = d -> Z.even z = true)
  end.

Lemma round_ratio_rounds rounding n d : 0 < d -> rounds_to rounding n d (round_ratio rounding n d).
Proof.
  intros Hd. pose proof (Z.div_mod n d ltac:(lia)). pose proof (Z.mod_pos_bound n d ltac:(lia)).
  destruct rounding; simpl.
  - nia.
  - pose proof (Z.div_mod (- n) d ltac:(lia)). pose proof (Z.mod_pos_bound (- n) d ltac:(lia)). nia.
  - destruct (Z.ltb_spec (2 * (n mod d)) d); [split; nia|].
    destruct (Z.ltb_spec d (2 * (n mod d))).
    + replace ((n / d + 1) * d - n) with (d - n mod d) by nia. lia.
    + destruct (Z.even (n / d)) eqn:E.
      * replace (n / d * d - n) with (- (n mod d)) by nia. split; [lia|auto].
      * replace ((n / d + 1) * d - n) with (d - n mod d) by nia.
        split; [lia|]. intros _. rewrite Z.add_1_r, Z.even_succ, <- Z.negb_even, E. reflexivity.
Qed.

Lemma rounds_to_exact rounding k d z : 0 < d -> rounds_to rounding (k * d) d z -> z = k.
Proof. intros Hd. destruct rounding; simpl; intros; nia. Qed.

(** Rounding is monotone. *)
Lemma round_ratio_mono rounding n m d : 0 < d -> n <= m -> round_ratio rounding n d <= round_ratio rounding m d.
Proof.
  intros Hd Hnm. pose proof (round_ratio_rounds rounding n d Hd) as Hn.
  pose proof (round_ratio_rounds rounding m d Hd) as Hm.
  destruct (Z_le_gt_dec (round_ratio rounding n d) (round_ratio rounding m d)) as [|Hgt]; [assumption|exfalso].
  set (x := round_ratio rounding n d) in *. set (y := round_ratio rounding m d) in *.
  destruct rounding; simpl in *; try nia.
  destruct Hn as [Hn1 Hn2], Hm as [Hm1 Hm2].
  assert (x = y + 1) by nia. assert (2 * Z.abs (x * d - n) = d) by nia. assert (2 * Z.abs (y * d - m) = d) by nia.
  specialize (Hn2 ltac:(assumption)). specialize (Hm2 ltac:(assumption)).
  rewrite H, Z.add_1_r, Z.even_succ, <- Z.negb_even, Hm2 in Hn2. discriminate.
Qed.

(** ** Properties *)

(** C26: [tide_time_convert] is total: with valid time bases no
    intermediate 128-bit product overflows, and the result is the integer the
    rounding mode selects for [value * (sn * dd) / (sd * dn)], or [TIMELINE]
    with the output untouched exactly when that integer is not an [int64_t];
    an invalid base gives [TIMELINE]. *)
Theorem tide_time_convert_correct (value : Z) (s d : tide_rational) (rounding : tide_rounding) (o : Z) :
  is_i64 value -> rational_typed s -> rational_typed d ->
  if reduced s && reduced d then
    exists z, rounds_to rounding (value * (numerator s * denominator d)) (denominator s * numerator d) z /\
      tide_time_convert value s d rounding (Some o) =
        Done (if in_i64 z then (TIDE_STATUS_OK, Some z) else (TIDE_STATUS_TIMELINE, Some o))
  else tide_time_convert value s d rounding (Some o) = Done (TIDE_STATUS_TIMELINE, Some o).
Proof.
  intros Hv Ts Td. destruct (reduced s && reduced d) eqn:E.
  - bool_props. eexists. split; [|apply time_convert_eq; auto].
    apply round_ratio_rounds. apply ticks_pos; assumption.
  - apply time_convert_invalid; assumption.
Qed.

Lemma tide_time_convert_correct_witness :
  tide_time_convert 3 (mk_rational 1 2) (mk_rational 1 1) TIDE_ROUND_NEAREST_EVEN (Some 0) =
    Done (TIDE_STATUS_OK, Some 2) /\
  exists z, rounds_to TIDE_ROUND_NEAREST_EVEN (3 * (1 * 1)) (2 * 1) z.
Proof.
  split; [reflexivity|].
  destruct (tide_time_convert_correct 3 (mk_rational 1 2) (mk_rational 1 1) TIDE_ROUND_NEAREST_EVEN 0)
    as (z & Hz & _); [zlia|split; simpl; zlia|split; simpl; zlia|]. exists z. exact Hz.
Defined.

(** C35: Converting to a base whose tick divides the source tick
    loses nothing: the conversion back, in any rounding mode, gives the
    original timestamp. *)
Theorem tide_time_convert_roundtrip (value w o o' : Z) (s d : tide_rational) (r1 r2 : tide_rounding) :
  is_i64 value -> rational_typed s -> rational_typed d ->
  (denominator s * numerator d | numerator s * denominator d) ->
  tide_time_convert value s d r1 (Some o) = Done (TIDE_STATUS_OK, Some w) ->
  tide_time_convert w d s r2 (Some o') = Done (TIDE_STATUS_OK, Some value).
Proof.
  intros Hv Ts Td [k Hk] Hc. destruct (reduced s && reduced d) eqn:E.
  2: { rewrite time_convert_invalid in Hc by assumption. discriminate. }
  bool_props. rewrite (time_convert_eq s d Ts Td) in Hc by assumption.
  destruct (ticks_pos s d) as [Hn Hd]; try assumption. unfold ticks_num, ticks_den in *.
  pose proof (round_ratio_rounds r1 (value * (numerator s * denominator d)) _ Hd) as Hr.
  rewrite Hk, Z.mul_assoc in Hr. apply rounds_to_exact in Hr; [|assumption].
  rewrite Hk, Z.mul_assoc, Hr in Hc.
  destruct (in_i64 (value * k)) eqn:Ei; [|discriminate]. injection Hc as <-.
  unfold in_i64 in Ei. bool_props.
  rewrite (time_convert_eq d s Td Ts); try assumption; [|zlia]. unfold ticks_num, ticks_den.
  assert (Hkpos : 0 < k) by nia.
  replace (value * k * (numerator d * denominator s)) with (value * (denominator d * numerator s)) by nia.
  pose proof (round_ratio_rounds r2 (value * (denominator d * numerator s)) (denominator d * numerator s) ltac:(lia)) as Hb.
  apply rounds_to_exact in Hb; [|lia]. rewrite Hb.
  unfold in_i64. rewrite !(proj2 (Z.leb_le _ _)) by zlia. reflexivity.
Qed.

Lemma tide_time_convert_roundtrip_witness :
  tide_time_convert 48000 (mk_rational 1 1000) (mk_rational 1 90000) TIDE_ROUND_FLOOR (Some 0) =
    Done (TIDE_STATUS_OK, Some 4320000) /\
  tide_time_convert 4320000 (mk_rational 1 90000) (mk_rational 1 1000) TIDE_ROUND_CEIL (Some 7) =
    Done (TIDE_STATUS_OK, Some 48000).
Proof.
  split; [reflexivity|].
  refine (tide_time_convert_roundtrip 48000 4320000 0 7 (mk_rational 1 1000) (mk_rational 1 90000)
            TIDE_ROUND_FLOOR TIDE_ROUND_CEIL _ _ _ _ _).
  - zlia.
  - split; simpl; zlia.
  - split; simpl; zlia.
  - exists 90. reflexivity.
  - reflexivity.
Defined.
