(* ===== verification/Edit.v ===== *)
(** * Edit-list projection

    [src/model/edit.c].  Signed 64-bit sums and differences are undefined when
    they overflow; the theorem shows that none does, and what the function returns
    among entries at rate one. *)

From S2P Require Import Prelude Status Checked Rational.

Record tide_edit_entry : Set := mk_edit {
  output_start : Z;
  output_duration : Z;
  source_start : Z;
  rate : tide_rational
}.

(** A result of [int64_t] arithmetic. *)
Definition i64 (z : Z) : outcome Z :=
  _ ← assert_def ((INT64_MIN <=? z) && (z <=? INT64_MAX)); Done z.

(** The validity test of an entry, in the order of the source; [true] is the
    [TIMELINE] exit. *)
Definition edit_rejects (e : tide_edit_entry) (packet_pts packet_duration : Z) : outcome bool :=
  valid ← tide_rational_is_valid (rate e);
  if negb valid then Done true
  else if output_duration e <? 0 then Done true
  else
    m ← i64 (INT64_MAX - output_duration e);
    if source_start e >? m then Done true
    else
      m ← i64 (INT64_MAX - packet_duration);
      Done (packet_pts >? m).

(** The loop of [tide_edit_project_one] from index [i], [n] rounds left. *)
Fixpoint edit_loop (n : nat) (i : nat) (edits : list tide_edit_entry)
    (packet_pts packet_duration : Z) (out_pts out_duration : Z)
    : outcome (tide_status * Z * Z) :=
  match n with
  | O => Done (TIDE_STATUS_PARTIAL, out_pts, out_duration)
  | S n =>
    e ← deref (edits !! i : option tide_edit_entry);
    bad ← edit_rejects e packet_pts packet_duration;
    if (bad : bool) then Done (TIDE_STATUS_TIMELINE, out_pts, out_duration)
    else
      edit_src_end ← i64 (source_start e + output_duration e);
      pkt_end ← i64 (packet_pts + packet_duration);
      let start := if packet_pts >? source_start e then packet_pts else source_start e in
      let stop := if pkt_end <? edit_src_end then pkt_end else edit_src_end in
      if start <? stop then
        delta ← i64 (start - source_start e);
        m ← i64 (INT64_MAX - delta);
        if output_start e >? m then Done (TIDE_STATUS_TIMELINE, out_pts, out_duration)
        else
          p ← i64 (output_start e + delta);
          d ← i64 (stop - start);
          Done (TIDE_STATUS_OK, p, d)
      else edit_loop n (S i) edits packet_pts packet_duration out_pts out_duration
  end.

(** [out_pts] and [out_duration] are the cells the pointers designate. *)
Definition tide_edit_project_one (edits : option (list tide_edit_entry)) (edit_count : Z)
    (packet_pts packet_duration : Z) (out_pts out_duration : option Z)
    : outcome (tide_status * option Z * option Z) :=
  match edits, out_pts, out_duration with
  | Some edits, Some p, Some d =>
    if packet_duration <? 0 then Done (TIDE_STATUS_INVALID_ARGUMENT, out_pts, out_duration)
    else
      '(st, p, d) ← edit_loop (Z.to_nat edit_count) 0 edits packet_pts packet_duration p d;
      Done (st, Some p, Some d)
  | _, _, _ => Done (TIDE_STATUS_INVALID_ARGUMENT, out_pts, out_duration)
  end.

(** ** Specification *)

Definition edit_typed (e : tide_edit_entry) : Prop :=
  is_i64 (output_start e) /\ is_i64 (output_duration e) /\ is_i64 (source_start e) /\ rational_typed (rate e).

(** Entry and packet pass the validity test. *)
Definition edit_usable (e : tide_edit_entry) (pts dur : Z) : bool :=
  reduced (rate e) && (0 <=? output_duration e) &&
  (source_start e + output_duration e <=? INT64_MAX) && (pts + dur <=? INT64_MAX).

(** The source interval of [e].  The format says that intervals are scaled by the rate; read
    as a playback speed: the source runs at [rate] times the speed of the
    output, so it starts at [source_start] and is as long as the output window times the rate. *)
Definition edit_source (e : tide_edit_entry) (t : Z) : Prop :=
  source_start e <= t /\
  (t - source_start e) * denominator (rate e) < output_duration e * numerator (rate e).

(** [t] is a source time of both the packet and the entry. *)
Definition edit_covers (e : tide_edit_entry) (pts dur t : Z) : Prop :=
  pts <= t < pts + dur /\ edit_source e t.

(** [u] is the presentation time of the source time [t] under [e]: the distance from the start
    of the window is that from the start of the source, scaled by the rate. *)
Definition edit_maps (e : tide_edit_entry) (t u : Z) : Prop :=
  (u - output_start e) * numerator (rate e) = (t - source_start e) * denominator (rate e).

(** An entry at the speed of the source, or one that is refused for its rate. *)
Definition unit_rate (e : tide_edit_entry) : Prop := reduced (rate e) = true -> rate e = mk_rational 1 1.

(** Entry [e] does not stop the search: it is usable and misses the packet. *)
Definition edit_skips (pts dur : Z) (e : tide_edit_entry) : Prop :=
  edit_usable e pts dur = true /\ forall t, ~ edit_covers e pts dur t.

Lemma i64_done z : is_i64 z -> i64 z = Done z.
Proof.
  unfold is_i64, i64, assert_def. intros. rewrite !(proj2 (Z.leb_le _ _)) by lia. reflexivity.
Qed.

Lemma edit_rejects_spec e pts dur :
  edit_typed e -> is_i64 pts -> is_i64 dur -> 0 <= dur ->
  edit_rejects e pts dur = Done (negb (edit_usable e pts dur)).
Proof.
  intros (Hos & Hod & Hss & Hrate) Hp Hd Hd0. unfold edit_rejects, edit_usable.
  rewrite is_valid_spec by assumption. rewrite bind_done.
  destruct (reduced (rate e)); [|reflexivity]. cbn [negb andb].
  destruct (Z.ltb_spec (output_duration e) 0), (Z.leb_spec 0 (output_duration e)); try lia; [reflexivity|].
  rewrite (i64_done (INT64_MAX - output_duration e)) by zlia. rewrite bind_done, Z.gtb_ltb. cbn [andb].
  destruct (Z.ltb_spec (INT64_MAX - output_duration e) (source_start e)),
    (Z.leb_spec (source_start e + output_duration e) INT64_MAX); try lia; [reflexivity|].
  rewrite (i64_done (INT64_MAX - dur)) by zlia. rewrite bind_done, Z.gtb_ltb. cbn [andb].
  f_equal. destruct (Z.ltb_spec (INT64_MAX - dur) pts), (Z.leb_spec (pts + dur) INT64_MAX); cbn; lia.
Qed.

(** What a projection should return, entry by entry: the interval that the times of the
    packet have under the first entry that meets it. *)
Inductive project_result (es : list tide_edit_entry) (pts dur p0 d0 : Z) : tide_status * Z * Z -> Prop :=
  | project_hit l e r p d :
      es = l ++ e :: r -> Forall (edit_skips pts dur) l -> edit_usable e pts dur = true -> 0 < d ->
      (forall t u, edit_maps e t u -> edit_covers e pts dur t <-> p <= u < p + d) ->
      project_result es pts dur p0 d0 (TIDE_STATUS_OK, p, d)
  | project_reject l e r :
      es = l ++ e :: r -> Forall (edit_skips pts dur) l ->
      edit_usable e pts dur = false \/
        (exists t, edit_covers e pts dur t /\ (forall t', edit_covers e pts dur t' -> t <= t') /\
                   forall u, edit_maps e t u -> INT64_MAX < u) ->
      project_result es pts dur p0 d0 (TIDE_STATUS_TIMELINE, p0, d0)
  | project_gap :
      Forall (edit_skips pts dur) es ->
      project_result es pts dur p0 d0 (TIDE_STATUS_PARTIAL, p0, d0).

Lemma project_result_skip e es pts dur p0 d0 res :
  edit_skips pts dur e -> project_result es pts dur p0 d0 res -> project_result (e :: es) pts dur p0 d0 res.
Proof.
  intros He Hr. destruct Hr as [l x r p d -> Hl Hu Hd Hc | l x r -> Hl Hx | Hl].
  - eapply (project_hit _ _ _ _ _ (e :: l)); eauto.
  - eapply (project_reject _ _ _ _ _ (e :: l)); eauto.
  - apply project_gap. auto.
Qed.

(** At the speed of the source a time keeps its distance. *)
Lemma unit_rate_usable e pts dur : unit_rate e -> edit_usable e pts dur = true -> rate e = mk_rational 1 1.
Proof. intros Hr Hu. apply Hr. unfold edit_usable in Hu. bool_props. assumption. Qed.

Lemma unit_covers e pts dur t : rate e = mk_rational 1 1 ->
  edit_covers e pts dur t <-> pts <= t < pts + dur /\ source_start e <= t < source_start e + output_duration e.
Proof. intros Hr. unfold edit_covers, edit_source. rewrite Hr. cbn. lia. Qed.

Lemma unit_maps e t u : rate e = mk_rational 1 1 -> edit_maps e t u <-> u = output_start e + (t - source_start e).
Proof. intros Hr. unfold edit_maps. rewrite Hr. cbn. lia. Qed.

Lemma edit_loop_spec n i edits pts dur p0 d0 :
  Forall edit_typed edits -> Forall unit_rate edits -> is_i64 pts -> is_i64 dur -> 0 <= dur -> (i + n <= length edits)%nat ->
  exists res, edit_loop n i edits pts dur p0 d0 = Done res /\
    project_result (take n (drop i edits)) pts dur p0 d0 res.
Proof.
  intros Ht Hunit Hp Hd Hd0. revert i. induction n as [|n IH]; intros i Hi.
  { eexists. split; [reflexivity|]. apply project_gap. constructor. }
  destruct (lookup_lt_is_Some_2 edits i) as [e He]; [lia|].
  assert (Hte : edit_typed e) by (eapply Forall_lookup_1; eauto).
  rewrite (drop_S _ _ _ He). cbn [take edit_loop]. rewrite He. cbn [deref]. rewrite bind_done.
  rewrite edit_rejects_spec by assumption. rewrite bind_done.
  destruct (edit_usable e pts dur) eqn:Hu; cbn [negb].
  2: { eexists. split; [reflexivity|]. eapply (project_reject _ _ _ _ _ []); [reflexivity|constructor|left; exact Hu]. }
  assert (Hrate : rate e = mk_rational 1 1) by (apply (unit_rate_usable e pts dur); [eapply Forall_lookup_1; eauto|exact Hu]).
  pose proof Hu as Hu'. unfold edit_usable in Hu'. bool_props. destruct Hte as (Hos & Hod & Hss & _).
  rewrite (i64_done (source_start e + output_duration e)), bind_done by zlia.
  rewrite (i64_done (pts + dur)), bind_done by zlia. cbv beta zeta. rewrite Z.gtb_ltb.
  set (start := if source_start e <? pts then pts else source_start e).
  set (stop := if pts + dur <? source_start e + output_duration e then pts + dur else source_start e + output_duration e).
  assert (Hstart : start = Z.max pts (source_start e)) by (unfold start; destruct (Z.ltb_spec (source_start e) pts); lia).
  assert (Hstop : stop = Z.min (pts + dur) (source_start e + output_duration e))
    by (unfold stop; destruct (Z.ltb_spec (pts + dur) (source_start e + output_duration e)); lia).
  clearbody start stop. destruct (Z.ltb_spec start stop) as [Hlt|Hge].
  - rewrite (i64_done (start - source_start e)), bind_done by zlia.
    rewrite (i64_done (INT64_MAX - _)), bind_done by zlia. rewrite Z.gtb_ltb.
    destruct (Z.ltb_spec (INT64_MAX - (start - source_start e)) (output_start e)).
    + eexists. split; [reflexivity|]. eapply (project_reject _ _ _ _ _ []); [reflexivity|constructor|].
      right. exists start. rewrite (unit_covers e pts dur start Hrate). split; [lia|].
      split; [intros t'; rewrite (unit_covers e pts dur t' Hrate); lia|]. intros u. rewrite (unit_maps e start u Hrate). lia.
    + rewrite (i64_done (output_start e + _)), bind_done by zlia.
      rewrite (i64_done (stop - start)), bind_done by zlia. eexists. split; [reflexivity|].
      eapply (project_hit _ _ _ _ _ []); [reflexivity|constructor|exact Hu|lia|].
      intros t u. rewrite (unit_maps e t u Hrate), (unit_covers e pts dur t Hrate). lia.
  - destruct (IH (S i)) as (res & -> & Hres); [lia|]. exists res. split; [reflexivity|].
    apply project_result_skip; [|exact Hres]. split; [exact Hu|]. intros t. rewrite (unit_covers e pts dur t Hrate). lia.
Qed.

(** ** The rate is validated and not applied *)

Definition unscaled (e : tide_edit_entry) : tide_edit_entry :=
  mk_edit (output_start e) (output_duration e) (source_start e) (if reduced (rate e) then mk_rational 1 1 else rate e).

Lemma unscaled_typed e : edit_typed e -> edit_typed (unscaled e).
Proof.
  intros (H1 & H2 & H3 & H4). split; [exact H1|]. split; [exact H2|]. split; [exact H3|]. unfold unscaled. cbn [rate].
  destruct (reduced (rate e)); [unfold rational_typed; cbn; zlia|exact H4].
Qed.

Lemma unscaled_unit e : unit_rate (unscaled e).
Proof. unfold unit_rate, unscaled. cbn [rate]. destruct (reduced (rate e)) eqn:E; [reflexivity|congruence]. Qed.

Lemma unscaled_rejects e pts dur : edit_typed e -> edit_rejects (unscaled e) pts dur = edit_rejects e pts dur.
Proof.
  intros He. pose proof (unscaled_typed e He) as (_ & _ & _ & Hr). destruct He as (_ & _ & _ & Hr'). unfold edit_rejects.
  rewrite !is_valid_spec, !bind_done by assumption. unfold unscaled. cbn [rate output_duration source_start].
  destruct (reduced (rate e)) eqn:E; [reflexivity|rewrite E; reflexivity].
Qed.

Lemma unscaled_loop n : forall i edits pts dur p d, Forall edit_typed edits ->
  edit_loop n i (map unscaled edits) pts dur p d = edit_loop n i edits pts dur p d.
Proof.
  induction n as [|n IH]; intros i edits pts dur p d Ht; [reflexivity|]. cbn [edit_loop]. rewrite list_lookup_fmap.
  destruct (edits !! i) as [e|] eqn:He; [|reflexivity]. cbn [fmap option_fmap option_map deref]. rewrite !bind_done.
  rewrite unscaled_rejects by (eapply Forall_lookup_1; eauto). rewrite (IH (S i)) by exact Ht. reflexivity.
Qed.

Lemma unscaled_loop_done n edits pts dur p0 d0 : Forall edit_typed edits -> is_i64 pts -> is_i64 dur -> 0 <= dur -> (n <= length edits)%nat ->
  exists res, edit_loop n 0 edits pts dur p0 d0 = Done res /\ project_result (take n (map unscaled edits)) pts dur p0 d0 res.
Proof.
  intros Ht Hp Hd Hd0 Hn. rewrite <- (unscaled_loop n 0 edits) by exact Ht.
  apply (edit_loop_spec n 0 (map unscaled edits)); auto; [| |rewrite length_map; lia]; apply Forall_map;
    (eapply Forall_impl; [exact Ht|]); intros e He; [exact (unscaled_typed e He)|exact (unscaled_unit e)].
Qed.

Lemma unscaled_id e : unit_rate e -> unscaled e = e.
Proof. unfold unit_rate, unscaled. destruct e as [o d s r]. cbn. destruct (reduced r); [intros H; rewrite H; reflexivity|reflexivity]. Qed.

Lemma unscaled_ids es : Forall unit_rate es -> map unscaled es = es.
Proof. induction 1 as [|e es He _ IH]; [reflexivity|]. cbn [map]. rewrite (unscaled_id e He), IH. reflexivity. Qed.

(** C36: [tide_edit_project_one] is defined on all entries: it never overflows a signed
    integer.  Among entries at rate one (others may be there if their rate is invalid), it returns
    [OK] with the presentation interval, under the first entry that meets the packet, of the part of the
    packet inside the source interval of that entry; [TIMELINE] at the first invalid entry or when that
    interval starts beyond [INT64_MAX]; [PARTIAL] exactly when every entry is
    valid and misses the packet.  A negative duration is refused.  (Other valid rates scale the intervals
    in the specification; the code does not apply them, see [Findings].) *)
Theorem tide_edit_project_one_correct (edits : list tide_edit_entry) (n pts dur p0 d0 : Z) :
  Forall edit_typed edits -> is_i64 pts -> is_i64 dur -> 0 <= n <= zlen edits ->
  exists st p d,
    tide_edit_project_one (Some edits) n pts dur (Some p0) (Some d0) = Done (st, Some p, Some d) /\
    if 0 <=? dur then Forall unit_rate (take (Z.to_nat n) edits) -> project_result (take (Z.to_nat n) edits) pts dur p0 d0 (st, p, d)
    else st = TIDE_STATUS_INVALID_ARGUMENT /\ p = p0 /\ d = d0.
Proof.
  intros Ht Hp Hd Hn. unfold tide_edit_project_one. destruct (Z.leb_spec 0 dur) as [H0|H0].
  - rewrite (proj2 (Z.ltb_ge dur 0)) by lia.
    destruct (unscaled_loop_done (Z.to_nat n) edits pts dur p0 d0) as ([[st p] d] & -> & Hr); auto; [zlia|].
    exists st, p, d. split; [reflexivity|]. intros Hunit. rewrite firstn_map, (unscaled_ids _ Hunit) in Hr. exact Hr.
  - rewrite (proj2 (Z.ltb_lt dur 0)) by lia. exists TIDE_STATUS_INVALID_ARGUMENT, p0, d0. auto.
Qed.

Lemma tide_edit_project_one_correct_witness :
  tide_edit_project_one (Some [mk_edit 100 50 10 (mk_rational 1 1)]) 1 0 20 (Some 0) (Some 0)
    = Done (TIDE_STATUS_OK, Some 100, Some 10) /\
  project_result [mk_edit 100 50 10 (mk_rational 1 1)] 0 20 0 0 (TIDE_STATUS_OK, 100, 10).
Proof.
  split; [reflexivity|].
  destruct (tide_edit_project_one_correct [mk_edit 100 50 10 (mk_rational 1 1)] 1 0 20 0 0)
    as (st & p & d & Hrun & H).
  - repeat constructor; simpl; zlia.
  - zlia.
  - zlia.
  - unfold zlen. simpl. lia.
  - injection Hrun as <- <- <-. apply H. constructor; [|constructor]. intros _. reflexivity.
Defined.
