(* ===== verification/Model.v ===== *)
(** * Shared data types

    The structures of [include/tide/tide.h] and [src/tide_internal.h] that the
    decoder, the writer and their clients exchange.  Field names carry a
    prefix per structure.  A data pointer is [None] when null, and otherwise
    the bytes it gives access to. *)

From S2P Require Import Prelude Status Checked Rational.

Record tide_record_event : Set := mk_record_event {
  ev_type : Z;
  ev_flags : Z;
  ev_offset : Z;
  ev_payload_offset : Z;
  ev_payload_size : Z;
  ev_sequence : Z;
  ev_depth : Z;
  ev_skippable : bool
}.

Record tide_stream_info : Set := mk_stream_info {
  si_track_id : Z;
  si_generation : Z;
  si_media_kind : Z;
  si_codec_tag : Z;
  si_time_base : tide_rational;
  si_config : option (list byte);
  si_config_size : Z
}.

(** A payload lease is designated by its address in the lease store. *)
Definition lease_ptr : Set := positive.

Record tide_payload_view : Set := mk_payload_view {
  pv_data : option (list byte);
  pv_size : Z;
  pv_lease : option lease_ptr
}.

Record tide_packet_info : Set := mk_packet_info {
  pk_track_id : Z;
  pk_generation : Z;
  pk_packet_seq : Z;
  pk_dts : Z;
  pk_pts : Z;
  pk_duration : Z;
  pk_flags : Z;
  pk_payload : tide_payload_view
}.

Record tide_track_snapshot : Set := mk_track_snapshot {
  tr_track_id : Z;
  tr_generation : Z;
  tr_media_kind : Z;
  tr_codec_tag : Z;
  tr_time_base : tide_rational
}.

(** The callbacks act on the state [U] behind the [user] pointer; a missing
    callback is a null function pointer. *)
Record tide_callbacks (U : Type) : Type := mk_callbacks {
  on_record : option (tide_record_event -> U -> tide_status * U);
  on_stream : option (tide_stream_info -> U -> tide_status * U);
  on_packet : option (tide_packet_info -> U -> tide_status * U);
  on_error : option (tide_error -> U -> U)
}.
Arguments mk_callbacks {U}.
Arguments on_record {U}.
Arguments on_stream {U}.
Arguments on_packet {U}.
Arguments on_error {U}.

Definition no_callbacks {U : Type} : tide_callbacks U := mk_callbacks None None None None.

Record tide_record_frame : Set := mk_frame {
  fr_type : Z;
  fr_flags : Z;
  fr_header_size : Z;
  fr_alignment_log2 : Z;
  fr_payload_size : Z;
  fr_sequence : Z;
  fr_offset : Z;
  fr_payload_offset : Z;
  fr_payload_end : Z;
  fr_padding_end : Z;
  fr_crc_end : Z;
  fr_depth : Z
}.

#[export] Instance tide_payload_view_eq_dec : EqDecision tide_payload_view.
Proof. solve_decision. Defined.
#[export] Instance tide_stream_info_eq_dec : EqDecision tide_stream_info.
Proof. solve_decision. Defined.
#[export] Instance tide_packet_info_eq_dec : EqDecision tide_packet_info.
Proof. solve_decision. Defined.
#[export] Instance tide_track_snapshot_eq_dec : EqDecision tide_track_snapshot.
Proof. solve_decision. Defined.

(** The fields fit their C types. *)
Definition stream_typed (s : tide_stream_info) : Prop :=
  is_u32 (si_track_id s) /\ is_u32 (si_generation s) /\ is_u16 (si_media_kind s) /\
  is_u32 (si_codec_tag s) /\ rational_typed (si_time_base s) /\ is_u64 (si_config_size s).
Definition packet_typed (p : tide_packet_info) : Prop :=
  is_u32 (pk_track_id p) /\ is_u32 (pk_generation p) /\ is_u64 (pk_packet_seq p) /\
  is_i64 (pk_dts p) /\ is_i64 (pk_pts p) /\ is_i64 (pk_duration p) /\ is_u32 (pk_flags p) /\
  is_u64 (pv_size (pk_payload p)).
