(* ===== verification/Lease.v ===== *)
(** * Payload leases

    [src/model/lease.c]: reference-counted copies of packet payloads.  A lease
    pointer is an address of the store; an address that the store does not map
    is dangling, and reading, retaining or releasing through it is undefined.
    Here the operations run one after the other; [LeaseThreads] has their
    interleavings. *)

From S2P Require Import Prelude Status Model.

Record tide_payload_lease : Set := mk_lease {
  ls_refcount : Z;
  ls_data : option (list byte);
  ls_size : Z;
  ls_id : Z
}.

(** The leases alive, the static [next_id], and the allocator. *)
Record lease_store : Type := mk_store {
  st_leases : gmap lease_ptr tide_payload_lease;
  st_next_id : Z;
  st_heap : heap
}.
Definition empty_store (h : heap) : lease_store := mk_store ∅ 1 h.

Definition set_heap (h : heap) (s : lease_store) : lease_store := mk_store (st_leases s) (st_next_id s) h.
Definition set_leases (m : gmap lease_ptr tide_payload_lease) (s : lease_store) : lease_store :=
  mk_store m (st_next_id s) (st_heap s).

(** The address [calloc] gives: any one not in use; it may have been used by a
    lease freed since. *)
Definition new_address (s : lease_store) : lease_ptr := fresh (dom (st_leases s)).

(** [malloc(size)] and [memcpy], skipped for no byte: [None] when the
    allocation fails. *)
Definition copy_data (data : option (list byte)) (size : Z) (h : heap) : outcome (option (option (list byte)) * heap) :=
  if size =? 0 then Done (Some None, h)
  else
    let (ok, h) := alloc h in
    if negb ok then Done (None, h)
    else data ← deref data; copy ← span data 0 size; Done (Some (Some copy), h).

Definition tide_payload_lease_create_copy (data : option (list byte)) (size : Z) (s : lease_store)
    : outcome (option lease_ptr * lease_store) :=
  if is_null data && negb (size =? 0) then Done (None, s)
  else
    let (ok, h) := alloc (st_heap s) in
    if negb ok then Done (None, set_heap h s)
    else
      '(copy, h) ← copy_data data size h;
      match copy with
      | None => Done (None, set_heap h s)
      | Some copy =>
        let p := new_address s in
        Done (Some p, mk_store (<[p := mk_lease 1 copy size (st_next_id s)]> (st_leases s)) (st_next_id s +u 1) h)
      end.

Definition set_refcount (n : Z) (l : tide_payload_lease) : tide_payload_lease :=
  mk_lease n (ls_data l) (ls_size l) (ls_id l).

Definition tide_payload_lease_retain (lease : option lease_ptr) (s : lease_store) : outcome (option lease_ptr * lease_store) :=
  match lease with
  | None => Done (None, s)
  | Some p =>
    l ← deref (st_leases s !! p);
    Done (Some p, set_leases (<[p := set_refcount (wrap32 (ls_refcount l + 1)) l]> (st_leases s)) s)
  end.

Definition tide_payload_lease_release (lease : option lease_ptr) (s : lease_store) : outcome lease_store :=
  match lease with
  | None => Done s
  | Some p =>
    l ← deref (st_leases s !! p);
    if ls_refcount l =? 1 then Done (set_leases (delete p (st_leases s)) s)
    else Done (set_leases (<[p := set_refcount (wrap32 (ls_refcount l - 1)) l]> (st_leases s)) s)
  end.

Definition tide_payload_lease_data (lease : option lease_ptr) (s : lease_store) : outcome (option (list byte)) :=
  match lease with None => Done None | Some p => l ← deref (st_leases s !! p); Done (ls_data l) end.

Definition tide_payload_lease_size (lease : option lease_ptr) (s : lease_store) : outcome Z :=
  match lease with None => Done 0 | Some p => l ← deref (st_leases s !! p); Done (ls_size l) end.

(** ** Ownership: every lease counts the handles on it *)

Definition handles_on (p : lease_ptr) (hs : list lease_ptr) : nat := length (filter (eq p) hs).

Definition lease_wf (l : tide_payload_lease) : Prop :=
  ls_size l = zlen (default [] (ls_data l)) /\ (ls_data l = None <-> ls_size l = 0).

Definition counted (o : option tide_payload_lease) (n : nat) : Prop :=
  match o with
  | Some l => ls_refcount l = Z.of_nat n /\ (0 < n)%nat /\ Z.of_nat n < 2 ^ 32 /\ lease_wf l
  | None => n = 0%nat
  end.

(** [hs] lists the handles held on the leases of the store, in any order. *)
Definition balanced (s : lease_store) (hs : list lease_ptr) : Prop :=
  forall p, counted (st_leases s !! p) (handles_on p hs).

#[export] Instance handles_on_perm p : Proper ((≡ₚ) ==> (=)) (handles_on p).
Proof. intros hs hs' H. unfold handles_on. rewrite H. reflexivity. Qed.

#[export] Instance balanced_perm s : Proper ((≡ₚ) ==> iff) (balanced s).
Proof.
  intros hs hs' H. unfold balanced. split; intros Hc p; specialize (Hc p); [rewrite <- H|rewrite H]; exact Hc.
Qed.

Lemma handles_cons p q hs : handles_on p (q :: hs) = ((if decide (p = q) then 1 else 0) + handles_on p hs)%nat.
Proof. unfold handles_on. rewrite filter_cons. destruct (decide (p = q)); reflexivity. Qed.

Lemma balanced_empty h : balanced (empty_store h) [].
Proof. intros p. unfold empty_store. cbn. rewrite lookup_empty. reflexivity. Qed.

Lemma balanced_heap s hs h : balanced s hs -> balanced (set_heap h s) hs.
Proof. auto. Qed.

(** No handle is left: every lease was freed. *)
Lemma balanced_nil s : balanced s [] -> st_leases s = ∅.
Proof.
  intros H. apply map_eq. intros p. rewrite lookup_empty. specialize (H p).
  unfold counted, handles_on in H. destruct (st_leases s !! p); [|reflexivity]. cbn in H. lia.
Qed.

Lemma balanced_lookup s p hs : balanced s hs -> p ∈ hs ->
  exists l, st_leases s !! p = Some l /\ ls_refcount l = Z.of_nat (handles_on p hs) /\ (0 < handles_on p hs)%nat /\ lease_wf l.
Proof.
  intros H Hp. specialize (H p). unfold counted in H. destruct (st_leases s !! p) as [l|]; [exists l; tauto|].
  exfalso. apply list_elem_of_split in Hp. destruct Hp as (l1 & l2 & ->).
  rewrite <- Permutation_middle, handles_cons, decide_True in H by reflexivity. lia.
Qed.

(** The update of one lease and of the number of its handles. *)
Lemma balanced_change s s' p hs hs' :
  balanced s hs ->
  (forall q, q <> p -> st_leases s' !! q = st_leases s !! q /\ handles_on q hs' = handles_on q hs) ->
  counted (st_leases s' !! p) (handles_on p hs') -> balanced s' hs'.
Proof.
  intros H Hq Hp q. destruct (decide (q = p)) as [->|Hne]; [exact Hp|].
  destruct (Hq q Hne) as [-> ->]. apply H.
Qed.

Lemma handles_ne p q hs : q <> p -> handles_on q (p :: hs) = handles_on q hs.
Proof. intros. rewrite handles_cons, decide_False by assumption. reflexivity. Qed.
Lemma handles_eq p hs : handles_on p (p :: hs) = S (handles_on p hs).
Proof. rewrite handles_cons, decide_True by reflexivity. reflexivity. Qed.

Lemma handles_none p hs : p ∉ hs -> handles_on p hs = 0%nat.
Proof.
  induction hs as [|q hs IH]; [reflexivity|]. rewrite not_elem_of_cons. intros [Hq Hn].
  rewrite handles_ne by exact Hq. apply IH, Hn.
Qed.

Lemma copy_data_spec data size h : 0 <= size <= zlen data ->
  exists o h', copy_data (Some data) size h = Done (o, h') /\ (h = [] -> is_Some o /\ h' = []) /\
    match o with None => True | Some c => c = if size =? 0 then None else Some (slice data 0 size) end.
Proof.
  intros Hs. unfold copy_data. destruct (size =? 0); [eexists _, _; split; [reflexivity|]; split; eauto|].
  destruct (alloc h) as [[] h'] eqn:Eh; cbn [negb].
  - cbn [deref]. rewrite bind_done, span_done by lia. rewrite bind_done. eexists _, _; split; [reflexivity|].
    split; [intros ->; injection Eh as <-; eauto|reflexivity].
  - eexists _, _; split; [reflexivity|]. split; [intros ->; discriminate|exact I].
Qed.

(** What creating a lease does: a new lease with one handle and a copy of the
    bytes, or nothing when an allocation fails. *)
Lemma create_spec s hs data size :
  balanced s hs -> 0 <= size <= zlen data ->
  exists o s', tide_payload_lease_create_copy (Some data) size s = Done (o, s') /\
    (st_heap s = [] -> is_Some o /\ st_heap s' = []) /\
    match o with
    | None => st_leases s' = st_leases s /\ balanced s' hs
    | Some p => st_leases s !! p = None /\ balanced s' (p :: hs) /\
        exists n, st_leases s' = <[p := mk_lease 1 (if size =? 0 then None else Some (slice data 0 size)) size n]> (st_leases s)
    end.
Proof.
  intros Hb Hs. unfold tide_payload_lease_create_copy. cbn [is_null andb].
  destruct (alloc (st_heap s)) as [[] h] eqn:Ea; cbn [negb].
  2: { exists None, (set_heap h s). split; [reflexivity|]. split; [intros E; rewrite E in Ea; discriminate|]. split; [reflexivity|exact Hb]. }
  destruct (copy_data_spec data size h Hs) as (o & h' & -> & Hh & Ho). rewrite bind_done. cbv beta iota.
  assert (Hemp : st_heap s = [] -> h = []) by (intros E; rewrite E in Ea; injection Ea as <-; reflexivity).
  destruct o as [c|].
  2: { exists None, (set_heap h' s). split; [reflexivity|]. split; [|split; [reflexivity|exact Hb]].
       intros E. destruct (Hh (Hemp E)) as [[? ?] _]. discriminate. }
  eexists (Some (new_address s)), _. split; [reflexivity|]. split; [intros E; split; [eauto|apply Hh, Hemp, E]|].
  assert (Hnew : st_leases s !! new_address s = None).
  { apply not_elem_of_dom. unfold new_address. apply is_fresh. }
  split; [exact Hnew|]. subst c. split; [|eexists; reflexivity].
  apply (balanced_change s _ (new_address s) hs); [exact Hb| |].
  - intros q Hq. cbn [st_leases]. rewrite lookup_insert_ne by auto. split; [reflexivity|apply handles_ne, Hq].
  - cbn [st_leases]. rewrite lookup_insert_eq, handles_eq. specialize (Hb (new_address s)).
    rewrite Hnew in Hb. cbn in Hb. rewrite Hb. split; [reflexivity|]. split; [lia|]. split; [lia|]. split; cbn [ls_size ls_data].
    + destruct (Z.eqb_spec size 0) as [->|]; [reflexivity|]. cbn. rewrite zlen_slice by lia. reflexivity.
    + destruct (Z.eqb_spec size 0); split; congruence.
Qed.

Lemma retain_spec s hs p :
  balanced s hs -> p ∈ hs -> Z.of_nat (handles_on p hs) < 2 ^ 32 - 1 ->
  exists s', tide_payload_lease_retain (Some p) s = Done (Some p, s') /\ balanced s' (p :: hs) /\
    st_heap s' = st_heap s /\
    forall q, option_map ls_data (st_leases s' !! q) = option_map ls_data (st_leases s !! q).
Proof.
  intros Hb Hp Hl. destruct (balanced_lookup s p hs Hb Hp) as (l & Hs & Hn & Hpos & Hw).
  unfold tide_payload_lease_retain. rewrite Hs. cbn [deref]. rewrite bind_done. eexists. split; [reflexivity|].
  split; [|split; [reflexivity|]].
  - apply (balanced_change s _ p hs); [exact Hb| |].
    + intros q Hq. cbn [st_leases set_leases]. rewrite lookup_insert_ne by auto. split; [reflexivity|apply handles_ne, Hq].
    + cbn [st_leases set_leases]. rewrite lookup_insert_eq, handles_eq. cbn. rewrite wrap32_small by zlia. repeat split; [lia..|apply Hw|apply Hw|apply Hw].
  - intros q. cbn [st_leases set_leases]. rewrite lookup_insert. case_decide; [subst q; rewrite Hs|]; reflexivity.
Qed.

(** Releasing one handle: the other handles keep their lease and its bytes, and
    the lease is freed with its last handle. *)
Lemma release_spec s hs p :
  balanced s (p :: hs) ->
  exists s', tide_payload_lease_release (Some p) s = Done s' /\ balanced s' hs /\ st_heap s' = st_heap s /\
    (p ∉ hs -> st_leases s' !! p = None) /\
    forall q, q ∈ hs -> option_map ls_data (st_leases s' !! q) = option_map ls_data (st_leases s !! q).
Proof.
  intros Hb. destruct (balanced_lookup s p _ Hb) as (l & Hs & Hn & Hpos & Hw); [set_solver|].
  rewrite handles_eq in *. assert (Hlen : Z.of_nat (S (handles_on p hs)) < 2 ^ 32).
  { specialize (Hb p). rewrite Hs, handles_eq in Hb. apply Hb. }
  unfold tide_payload_lease_release. rewrite Hs. cbn [deref]. rewrite bind_done, Hn.
  destruct (Z.eqb_spec (Z.of_nat (S (handles_on p hs))) 1) as [E|E]; eexists; (split; [reflexivity|]).
  - assert (E0 : handles_on p hs = 0%nat) by lia. split; [|split; [reflexivity|split]].
    + apply (balanced_change s _ p (p :: hs)); [exact Hb| |].
      * intros q Hq. cbn [st_leases set_leases]. rewrite lookup_delete_ne by auto. split; [reflexivity|symmetry; apply handles_ne, Hq].
      * cbn [st_leases set_leases]. rewrite lookup_delete_eq, E0. reflexivity.
    + intros _. apply lookup_delete_eq.
    + intros q Hq. cbn [st_leases set_leases]. destruct (decide (q = p)) as [->|]; [|rewrite lookup_delete_ne by auto; reflexivity].
      apply list_elem_of_split in Hq. destruct Hq as (l1 & l2 & ->).
      rewrite <- Permutation_middle, handles_eq in E0. lia.
  - assert (Hin : p ∈ hs).
    { destruct (decide (p ∈ hs)) as [|Hni]; [assumption|]. rewrite (handles_none p hs Hni) in E. lia. }
    split; [|split; [reflexivity|split]].
    + apply (balanced_change s _ p (p :: hs)); [exact Hb| |].
      * intros q Hq. cbn [st_leases set_leases]. rewrite lookup_insert_ne by auto. split; [reflexivity|symmetry; apply handles_ne, Hq].
      * cbn [st_leases set_leases]. rewrite lookup_insert_eq. cbn. rewrite wrap32_small by zlia. repeat split; [lia..|apply Hw|apply Hw|apply Hw].
    + intros Hni. contradiction.
    + intros q _. cbn [st_leases set_leases]. rewrite lookup_insert. case_decide; [subst q; rewrite Hs|]; reflexivity.
Qed.

(** ** A client of the leases *)

(** A client that copies payloads, shares leases it holds and releases each
    handle once. *)
Inductive lease_step : lease_store * list lease_ptr -> lease_store * list lease_ptr -> Prop :=
  | step_create s hs data size o s' :
      0 <= size <= zlen data ->
      tide_payload_lease_create_copy (Some data) size s = Done (o, s') -> lease_step (s, hs) (s', option_list o ++ hs)
  | step_retain s hs p o s' :
      Z.of_nat (handles_on p hs) < 2 ^ 32 - 1 -> p ∈ hs ->
      tide_payload_lease_retain (Some p) s = Done (o, s') -> lease_step (s, hs) (s', option_list o ++ hs)
  | step_release s hs p hs' s' :
      hs ≡ₚ p :: hs' -> tide_payload_lease_release (Some p) s = Done s' -> lease_step (s, hs) (s', hs').

Lemma lease_step_balanced c c' : lease_step c c' -> balanced c.1 c.2 -> balanced c'.1 c'.2.
Proof.
  intros Hstep Hb. destruct Hstep as [s hs data size o s' Hs Hc|s hs p o s' Hl Hp Hr|s hs p hs' s' Hp Hr]; cbn [fst snd] in *.
  - destruct (create_spec s hs data size Hb Hs) as (o2 & s2 & E & _ & H). rewrite E in Hc.
    injection Hc as <- <-. destruct o2; apply H.
  - destruct (retain_spec s hs p Hb Hp Hl) as (s2 & E & H & _). rewrite E in Hr. injection Hr as <- <-. exact H.
  - rewrite Hp in Hb. destruct (release_spec s hs' p Hb) as (s2 & E & H & _). rewrite E in Hr. injection Hr as <-. exact H.
Qed.

(** C21: whatever a client does with its leases (copying payloads, sharing,
    releasing each handle once, allocations failing or not), every lease alive
    counts exactly the handles held on it; so using, sharing and releasing a
    lease held is defined, a lease is freed with its last handle and not
    before, and nothing is left when no handle is. *)
Theorem lease_ownership (h : heap) (s : lease_store) (hs : list lease_ptr) :
  rtc lease_step (empty_store h, []) (s, hs) ->
  (forall p, option_map ls_refcount (st_leases s !! p) =
     if decide (p ∈ hs) then Some (Z.of_nat (handles_on p hs)) else None) /\
  (forall p, p ∈ hs ->
     (exists d, tide_payload_lease_data (Some p) s = Done d /\ tide_payload_lease_size (Some p) s = Done (zlen (default [] d))) /\
     (exists s', tide_payload_lease_release (Some p) s = Done s') /\
     (exists s', tide_payload_lease_retain (Some p) s = Done (Some p, s'))) /\
  (hs = [] -> st_leases s = ∅).
Proof.
  intros Hrun. assert (Hb : balanced s hs).
  { change (balanced (s, hs).1 (s, hs).2). revert Hrun.
    apply (rtc_ind_r (fun c => balanced c.1 c.2)); [apply balanced_empty|].
    intros c c' _ Hstep Hc. exact (lease_step_balanced _ _ Hstep Hc). }
  split; [|split].
  - intros p. case_decide as Hp.
    + destruct (balanced_lookup s p hs Hb Hp) as (l & -> & Hn & _). cbn. congruence.
    + specialize (Hb p) as H. rewrite (handles_none p hs Hp) in H. unfold counted in H.
      destruct (st_leases s !! p); [lia|reflexivity].
  - intros p Hp. destruct (balanced_lookup s p hs Hb Hp) as (l & Hs & _ & _ & Hw & _).
    unfold tide_payload_lease_data, tide_payload_lease_size, tide_payload_lease_release, tide_payload_lease_retain.
    rewrite Hs. cbn [deref]. rewrite !bind_done, Hw. split; [eauto|]. split; [|eauto]. destruct (_ =? _); eauto.
  - intros ->. apply balanced_nil, Hb.
Qed.

Lemma lease_ownership_witness :
  exists p s, st_leases s !! p = Some (mk_lease 2 (Some [x07]) 1 1) /\
  (forall q, option_map ls_refcount (st_leases s !! q) =
     if decide (q ∈ [p; p]) then Some (Z.of_nat (handles_on q [p; p])) else None).
Proof.
  assert (E : tide_payload_lease_create_copy (Some [x07]) 1 (empty_store []) =
    Done (Some 1%positive, mk_store {[1%positive := mk_lease 1 (Some [x07]) 1 1]} 2 [])) by (vm_compute; reflexivity).
  exists 1%positive, (mk_store {[1%positive := mk_lease 2 (Some [x07]) 1 1]} 2 []).
  split; [reflexivity|].
  apply (lease_ownership []).
  eapply rtc_l; [eapply (step_create (empty_store []) [] [x07] 1); [unfold zlen; cbn; lia|exact E]|].
  eapply rtc_l; [eapply (step_retain _ _ 1%positive); [reflexivity|set_solver|vm_compute; reflexivity]|].
  apply rtc_refl.
Defined.
