(* ===== verification/LeaseThreads.v ===== *)
(** * Leases shared by threads

    The interleavings behind [src/model/lease.c]: the count of a lease is atomic,
    and what the last release does after its [atomic_fetch_sub] (freeing the data,
    clearing the fields, freeing the lease) is one step each, between which
    other threads run.  Memory is sequentially consistent; a block that was freed
    may be allocated again at once.  [Lease] is the specification: the steps
    have its effect at the atomic operations. *)

From S2P Require Import Prelude Status Model Lease.

Definition block_ptr : Set := positive.

(** A [struct tide_payload_lease] in memory: the data are a block of their own. *)
Record cell : Set := mk_cell {
  c_refcount : Z;
  c_data : option block_ptr;
  c_size : Z;
  c_id : Z
}.

Record memory : Type := mk_memory {
  m_leases : gmap lease_ptr cell;
  m_blocks : gmap block_ptr (list byte);
  m_next_id : Z
}.

Definition set_cells (cs : gmap lease_ptr cell) (m : memory) : memory := mk_memory cs (m_blocks m) (m_next_id m).
Definition set_blocks (bs : gmap block_ptr (list byte)) (m : memory) : memory := mk_memory (m_leases m) bs (m_next_id m).

(** ** Threads *)

(** What the last release has still to do. *)
Inductive stage : Set := Free_data | Clear_data | Clear_size | Free_lease.

(** Where a thread is: in none of the functions, before the atomic operation of
    a retain or a release, or behind that of the last release. *)
Inductive counter : Set :=
  | Idle
  | Adding (p : lease_ptr)
  | Subtracting (p : lease_ptr)
  | Freeing (st : stage) (p : lease_ptr).

Record thread : Set := mk_thread {
  th_counter : counter;
  th_handles : list lease_ptr
}.

(** [free] of a block; nothing for a null pointer. *)
Definition free_block (b : option block_ptr) (m : memory) : outcome memory :=
  match b with
  | None => Done m
  | Some b => _ ← deref (m_blocks m !! b); Done (set_blocks (delete b (m_blocks m)) m)
  end.

(** The next step of a thread; the handle a retain gives is there when it returns. *)
Definition thread_exec (t : thread) (m : memory) : outcome (thread * memory) :=
  match th_counter t with
  | Idle => Done (t, m)
  | Adding p =>
    c ← deref (m_leases m !! p);
    Done (mk_thread Idle (p :: th_handles t),
          set_cells (<[p := mk_cell (wrap32 (c_refcount c + 1)) (c_data c) (c_size c) (c_id c)]> (m_leases m)) m)
  | Subtracting p =>
    c ← deref (m_leases m !! p);
    Done (mk_thread (if c_refcount c =? 1 then Freeing Free_data p else Idle) (th_handles t),
          set_cells (<[p := mk_cell (wrap32 (c_refcount c - 1)) (c_data c) (c_size c) (c_id c)]> (m_leases m)) m)
  | Freeing Free_data p =>
    c ← deref (m_leases m !! p);
    m ← free_block (c_data c) m;
    Done (mk_thread (Freeing Clear_data p) (th_handles t), m)
  | Freeing Clear_data p =>
    c ← deref (m_leases m !! p);
    Done (mk_thread (Freeing Clear_size p) (th_handles t),
          set_cells (<[p := mk_cell (c_refcount c) None (c_size c) (c_id c)]> (m_leases m)) m)
  | Freeing Clear_size p =>
    c ← deref (m_leases m !! p);
    Done (mk_thread (Freeing Free_lease p) (th_handles t),
          set_cells (<[p := mk_cell (c_refcount c) (c_data c) 0 (c_id c)]> (m_leases m)) m)
  | Freeing Free_lease p =>
    _ ← deref (m_leases m !! p);
    Done (mk_thread Idle (th_handles t), set_cells (delete p (m_leases m)) m)
  end.

(** A lease of [bytes] at [p], its data at [b]. *)
Definition create_at (p : lease_ptr) (b : block_ptr) (bytes : list byte) (m : memory) : memory :=
  let data := if zlen bytes =? 0 then None else Some b in
  mk_memory (<[p := mk_cell 1 data (zlen bytes) (m_next_id m)]> (m_leases m))
    (if zlen bytes =? 0 then m_blocks m else <[b := bytes]> (m_blocks m)) (m_next_id m +u 1).

(** The handles held, with those being released, and those being added. *)
Definition held_in (t : thread) : list lease_ptr :=
  th_handles t ++ match th_counter t with Subtracting p => [p] | _ => [] end.
Definition adding_in (t : thread) : list lease_ptr := match th_counter t with Adding p => [p] | _ => [] end.
Definition all_held (ths : list thread) : list lease_ptr := concat (map held_in ths).
Definition all_adding (ths : list thread) : list lease_ptr := concat (map adding_in ths).

(** Threads run in any order.  An idle one can create a lease, at any addresses
    not in use, retain or release a lease it has a handle on, and hand over a
    handle; no lease is ever shared 2^32 times. *)
Inductive threads_step : memory * list thread -> memory * list thread -> Prop :=
  | step_exec m ths i t t' m' :
      ths !! i = Some t -> thread_exec t m = Done (t', m') -> threads_step (m, ths) (m', <[i := t']> ths)
  | step_call_create m ths i hs p b bytes :
      ths !! i = Some (mk_thread Idle hs) -> m_leases m !! p = None -> m_blocks m !! b = None ->
      threads_step (m, ths) (create_at p b bytes m, <[i := mk_thread Idle (p :: hs)]> ths)
  | step_call_retain m ths i hs p :
      ths !! i = Some (mk_thread Idle hs) -> p ∈ hs ->
      Z.of_nat (handles_on p (all_held ths) + handles_on p (all_adding ths)) < 2 ^ 32 - 1 ->
      threads_step (m, ths) (m, <[i := mk_thread (Adding p) hs]> ths)
  | step_call_release m ths i hs hs' p :
      ths !! i = Some (mk_thread Idle hs) -> hs ≡ₚ p :: hs' ->
      threads_step (m, ths) (m, <[i := mk_thread (Subtracting p) hs']> ths)
  | step_hand_over m ths i j hs hs' p t :
      ths !! i = Some (mk_thread Idle hs) -> hs ≡ₚ p :: hs' -> i <> j -> ths !! j = Some t ->
      threads_step (m, ths) (m, <[j := mk_thread (th_counter t) (p :: th_handles t)]> (<[i := mk_thread Idle hs']> ths)).

Definition no_memory : memory := mk_memory ∅ ∅ 1.
Definition idle_threads (n : nat) : list thread := replicate n (mk_thread Idle []).

(** ** What the memory stands for *)

Definition lease_of (bs : gmap block_ptr (list byte)) (c : cell) : option tide_payload_lease :=
  if c_refcount c =? 0 then None else Some (mk_lease (c_refcount c) (c_data c ≫= (bs !!.)) (c_size c) (c_id c)).

(** The leases that are counted; one that is being freed is not. *)
Definition abstraction (m : memory) : lease_store :=
  mk_store (omap (lease_of (m_blocks m)) (m_leases m)) (m_next_id m) [].

(** ** The invariant *)

Definition stage_of (p : lease_ptr) (t : thread) : option stage :=
  match th_counter t with Freeing st q => if decide (q = p) then Some st else None | _ => None end.

(** Where the threads are that are freeing [p]. *)
Definition stages_on (p : lease_ptr) (ths : list thread) : list stage := omap (stage_of p) ths.

(** The data of [c] are a block of its own; [owner] says whose the blocks are. *)
Definition has_data (m : memory) (owner : gmap block_ptr lease_ptr) (p : lease_ptr) (c : cell) : Prop :=
  match c_data c with
  | None => c_size c = 0
  | Some b => owner !! b = Some p /\ exists bytes, m_blocks m !! b = Some bytes /\ c_size c = zlen bytes /\ c_size c <> 0
  end.

(** A cell that is counted [n] times, or is being freed by one thread. *)
Definition cell_ok (m : memory) (owner : gmap block_ptr lease_ptr) (p : lease_ptr) (n : nat) (sts : list stage) : Prop :=
  match m_leases m !! p with
  | None => n = 0%nat /\ sts = []
  | Some c => c_refcount c = Z.of_nat n /\
      ((0 < n)%nat /\ sts = [] /\ has_data m owner p c \/
       n = 0%nat /\ exists st, sts = [st] /\ (st = Free_data -> has_data m owner p c))
  end.

Record threads_inv (m : memory) (ths : list thread) (owner : gmap block_ptr lease_ptr) : Prop := {
  inv_cells : forall p, cell_ok m owner p (handles_on p (all_held ths)) (stages_on p ths);
  inv_bound : forall p, Z.of_nat (handles_on p (all_held ths) + handles_on p (all_adding ths)) < 2 ^ 32;
  inv_adding : forall t p, t ∈ ths -> th_counter t = Adding p -> p ∈ th_handles t;
  (** no block is lost *)
  inv_blocks : forall b, is_Some (m_blocks m !! b) -> exists p c, owner !! b = Some p /\ m_leases m !! p = Some c /\ c_data c = Some b /\
    (stages_on p ths = [] \/ stages_on p ths = [Free_data])
}.

Lemma handles_app q hs hs' : handles_on q (hs ++ hs') = (handles_on q hs + handles_on q hs')%nat.
Proof. unfold handles_on. rewrite filter_app, length_app. reflexivity. Qed.

Lemma handles_in q hs : q ∈ hs -> (0 < handles_on q hs)%nat.
Proof. intros H. apply list_elem_of_split in H as (l1 & l2 & ->). rewrite <- Permutation_middle, handles_eq. lia. Qed.

Lemma thread_insert_split {A} (l : list A) i x : l !! i = Some x -> exists pre post, l = pre ++ x :: post /\ forall y, <[i := y]> l = pre ++ y :: post.
Proof.
  intros H. exists (take i l), (drop (S i) l). split; [symmetry; apply take_drop_middle, H|]. intros y.
  apply insert_take_drop. eapply lookup_lt_Some, H.
Qed.

(** Counts change as those of the thread that moved. *)
Lemma count_insert (f : thread -> list lease_ptr) q ths i t t' : ths !! i = Some t ->
  (handles_on q (concat (map f (<[i := t']> ths))) + handles_on q (f t) = handles_on q (concat (map f ths)) + handles_on q (f t'))%nat.
Proof.
  intros H. destruct (thread_insert_split ths i t H) as (pre & post & -> & ->). rewrite !map_app. cbn [map]. rewrite !concat_app. cbn [concat].
  rewrite !handles_app. lia.
Qed.

Lemma count_in (f : thread -> list lease_ptr) q ths t : t ∈ ths -> (handles_on q (f t) <= handles_on q (concat (map f ths)))%nat.
Proof.
  intros H. apply list_elem_of_split in H as (pre & post & ->). rewrite map_app, concat_app. cbn. rewrite !handles_app. lia.
Qed.

Lemma count_zero (f : thread -> list lease_ptr) q ths : (forall t, t ∈ ths -> handles_on q (f t) = 0%nat) -> handles_on q (concat (map f ths)) = 0%nat.
Proof.
  induction ths as [|t ths IH]; intros H; [reflexivity|]. cbn [map concat]. rewrite handles_app, (H t) by left.
  apply IH. intros u Hu. apply H. right. exact Hu.
Qed.

(** Stages too. *)
Lemma stages_insert q ths i t t' : ths !! i = Some t -> exists xs ys,
  stages_on q ths = xs ++ option_list (stage_of q t) ++ ys /\ stages_on q (<[i := t']> ths) = xs ++ option_list (stage_of q t') ++ ys.
Proof.
  intros H. destruct (thread_insert_split ths i t H) as (pre & post & -> & ->). exists (omap (stage_of q) pre), (omap (stage_of q) post).
  unfold stages_on. rewrite !omap_app. cbn. split; [destruct (stage_of q t)|destruct (stage_of q t')]; reflexivity.
Qed.

Lemma stages_same q ths i t t' : ths !! i = Some t -> stage_of q t' = stage_of q t -> stages_on q (<[i := t']> ths) = stages_on q ths.
Proof. intros H E. destruct (stages_insert q ths i t t' H) as (xs & ys & -> & ->). rewrite E. reflexivity. Qed.

(** A thread that is freeing is the only one. *)
Lemma stages_replace q ths i t t' st : ths !! i = Some t -> stage_of q t = Some st -> (length (stages_on q ths) <= 1)%nat ->
  stages_on q ths = [st] /\ stages_on q (<[i := t']> ths) = option_list (stage_of q t').
Proof.
  intros H E Hl. destruct (stages_insert q ths i t t' H) as (xs & ys & E1 & ->). rewrite E1, E in *. cbn in *.
  rewrite length_app in Hl. cbn in Hl. destruct xs; [|cbn in Hl; lia]. destruct ys; [|cbn in Hl; lia]. rewrite app_nil_r. auto.
Qed.

Lemma stages_add q ths i t t' : ths !! i = Some t -> stages_on q ths = [] -> stages_on q (<[i := t']> ths) = option_list (stage_of q t').
Proof.
  intros H E. destruct (stages_insert q ths i t t' H) as (xs & ys & E1 & ->). rewrite E in E1. destruct xs; [|discriminate].
  destruct (stage_of q t); [discriminate|]. cbn in E1. subst ys. apply app_nil_r.
Qed.

(** What a step of thread [t] to [t'] on the lease [p] leaves alone. *)
Definition local_to (p : lease_ptr) (t t' : thread) : Prop :=
  forall q, q <> p -> handles_on q (held_in t') = handles_on q (held_in t) /\ stage_of q t' = stage_of q t /\
    (handles_on q (adding_in t') <= handles_on q (adding_in t))%nat.

(** The block [b] belongs to the cell of [p]. *)
Definition block_of (m : memory) (owner : gmap block_ptr lease_ptr) (p : lease_ptr) (sts : list stage) (b : block_ptr) : Prop :=
  owner !! b = Some p /\ exists c, m_leases m !! p = Some c /\ c_data c = Some b /\ (sts = [] \/ sts = [Free_data]).

Lemma inv_update m m' ths i t t' owner owner' p :
  threads_inv m ths owner -> ths !! i = Some t -> local_to p t t' ->
  (forall q, q <> p -> m_leases m' !! q = m_leases m !! q) ->
  (forall q c, q <> p -> has_data m owner q c -> has_data m' owner' q c) ->
  cell_ok m' owner' p (handles_on p (all_held (<[i := t']> ths))) (stages_on p (<[i := t']> ths)) ->
  Z.of_nat (handles_on p (all_held (<[i := t']> ths)) + handles_on p (all_adding (<[i := t']> ths))) < 2 ^ 32 ->
  (forall q, th_counter t' = Adding q -> q ∈ th_handles t') ->
  (forall b, is_Some (m_blocks m' !! b) ->
     (exists q, q <> p /\ owner' !! b = Some q /\ owner !! b = Some q /\ is_Some (m_blocks m !! b)) \/
     block_of m' owner' p (stages_on p (<[i := t']> ths)) b) ->
  threads_inv m' (<[i := t']> ths) owner'.
Proof.
  intros [Hc Hb Ha Hbl] Hi Hloc Hm Hd Hp Hbp Hadd Hblocks.
  assert (Hn : forall q, q <> p -> handles_on q (all_held (<[i := t']> ths)) = handles_on q (all_held ths)).
  { intros q Hq. destruct (Hloc q Hq) as (E & _). pose proof (count_insert held_in q ths i t t' Hi). unfold all_held. lia. }
  assert (Hs : forall q, q <> p -> stages_on q (<[i := t']> ths) = stages_on q ths).
  { intros q Hq. apply (stages_same q ths i t t' Hi). apply Hloc, Hq. }
  constructor.
  - intros q. destruct (decide (q = p)) as [->|Hq]; [exact Hp|]. rewrite (Hn q Hq), (Hs q Hq). specialize (Hc q). unfold cell_ok in *.
    rewrite (Hm q Hq). destruct (m_leases m !! q) as [c|]; [|exact Hc]. destruct Hc as [Hr [(H1 & H2 & H3)|(H1 & st & H2 & H3)]]; (split; [exact Hr|]).
    + left. auto.
    + right. split; [exact H1|]. exists st. auto.
  - intros q. destruct (decide (q = p)) as [->|Hq]; [exact Hbp|]. rewrite (Hn q Hq). destruct (Hloc q Hq) as (_ & _ & E).
    pose proof (count_insert adding_in q ths i t t' Hi). specialize (Hb q). unfold all_adding in *. lia.
  - intros u q Hu Hq. apply list_elem_of_lookup in Hu as [j Hj]. destruct (decide (i = j)) as [->|Hne].
    + rewrite list_lookup_insert_eq in Hj by (eapply lookup_lt_Some, Hi). injection Hj as <-. auto.
    + rewrite list_lookup_insert_ne in Hj by exact Hne. apply (Ha u q); [|exact Hq]. eapply list_elem_of_lookup_2, Hj.
  - intros b Hsome. destruct (Hblocks b Hsome) as [(q & Hq & Ho' & Ho & Hsome')|(Ho & c & H1 & H2 & H3)].
    + destruct (Hbl b Hsome') as (q' & c & E & H1 & H2 & H3). rewrite Ho in E. injection E as <-. exists q, c. rewrite (Hm q Hq), (Hs q Hq). auto.
    + exists p, c. auto.
Qed.

(** A step that only writes the cell of [p]. *)
Lemma inv_write m ths i t t' owner p c c' : threads_inv m ths owner -> ths !! i = Some t -> local_to p t t' ->
  m_leases m !! p = Some c ->
  let m' := set_cells (<[p := c']> (m_leases m)) m in
  cell_ok m' owner p (handles_on p (all_held (<[i := t']> ths))) (stages_on p (<[i := t']> ths)) ->
  Z.of_nat (handles_on p (all_held (<[i := t']> ths)) + handles_on p (all_adding (<[i := t']> ths))) < 2 ^ 32 ->
  (forall q, th_counter t' = Adding q -> q ∈ th_handles t') ->
  (forall b, c_data c = Some b -> stages_on p ths = [] \/ stages_on p ths = [Free_data] ->
     c_data c' = Some b /\ (stages_on p (<[i := t']> ths) = [] \/ stages_on p (<[i := t']> ths) = [Free_data])) ->
  threads_inv m' (<[i := t']> ths) owner.
Proof.
  intros Hinv Hi Hloc Hp m' Hok Hbound Hadd Hdata.
  refine (inv_update m m' ths i t t' owner owner p Hinv Hi Hloc _ _ Hok Hbound Hadd _).
  - intros q Hq. apply lookup_insert_ne. congruence.
  - intros q d _ H. exact H.
  - intros b Hb. destruct (inv_blocks _ _ _ Hinv b Hb) as (q & d & Ho & Hq & Hd & Hs). destruct (decide (q = p)) as [->|Hne]; [right|left; exists q; auto].
    rewrite Hp in Hq. injection Hq as <-. split; [exact Ho|]. exists c'. destruct (Hdata b Hd Hs) as [H1 H2].
    split; [apply lookup_insert_eq|]. auto.
Qed.

(** ** The steps *)

Lemma held_count q t : handles_on q (held_in t) =
  (handles_on q (th_handles t) + match th_counter t with Subtracting p => if decide (q = p) then 1 else 0 | _ => 0 end)%nat.
Proof. unfold held_in. rewrite handles_app. destruct (th_counter t); try reflexivity. rewrite handles_cons. unfold handles_on. cbn. lia. Qed.

Lemma adding_count q t : handles_on q (adding_in t) = match th_counter t with Adding p => if decide (q = p) then 1%nat else 0%nat | _ => 0%nat end.
Proof. unfold adding_in. destruct (th_counter t); try reflexivity. rewrite handles_cons. unfold handles_on. cbn. lia. Qed.

(** The counts after a step of thread [i]. *)
Lemma counts_after q ths i t t' : ths !! i = Some t ->
  (handles_on q (all_held (<[i := t']> ths)) + handles_on q (held_in t) = handles_on q (all_held ths) + handles_on q (held_in t') /\
   handles_on q (all_adding (<[i := t']> ths)) + handles_on q (adding_in t) = handles_on q (all_adding ths) + handles_on q (adding_in t'))%nat.
Proof. intros Hi. split; apply count_insert, Hi. Qed.

Ltac count_step q Hi t' :=
  let H1 := fresh "Hheld" in let H2 := fresh "Hadding" in
  destruct (counts_after q _ _ _ t' Hi) as [H1 H2]; rewrite !held_count in H1; rewrite !adding_count in H2;
  cbn [th_counter th_handles] in H1, H2; rewrite ?handles_eq in H1;
  repeat rewrite decide_True in H1 by reflexivity; repeat rewrite decide_True in H2 by reflexivity.

Ltac local_step :=
  let q := fresh "q" in let Hq := fresh "Hq" in
  repeat match goal with x := mk_thread _ _ |- _ => subst x end;
  intros q Hq; rewrite !held_count, !adding_count; unfold stage_of; cbn [th_counter th_handles]; rewrite ?handles_ne by exact Hq;
  repeat rewrite decide_False by congruence; split; [lia|split; [reflexivity|lia]].

Lemma abs_lookup m p : st_leases (abstraction m) !! p = m_leases m !! p ≫= lease_of (m_blocks m).
Proof. unfold abstraction. cbn. apply lookup_omap. Qed.

Lemma abs_write m p c : abstraction (set_cells (<[p := c]> (m_leases m)) m) =
  set_leases (match lease_of (m_blocks m) c with
              | Some l => <[p := l]> (st_leases (abstraction m))
              | None => delete p (st_leases (abstraction m)) end) (abstraction m).
Proof. unfold abstraction, set_leases, set_cells. cbn. f_equal. rewrite omap_insert. destruct (lease_of _ c); reflexivity. Qed.

(** What a step means for the leases of [Lease]. *)
Definition sequential_effect (k : counter) (s s' : lease_store) : Prop :=
  match k with
  | Adding p => tide_payload_lease_retain (Some p) s = Done (Some p, s')
  | Subtracting p => tide_payload_lease_release (Some p) s = Done s'
  | Idle | Freeing _ _ => s' = s
  end.

Definition stepped (m : memory) (ths : list thread) (i : nat) (t : thread) : Prop :=
  exists t' m' owner', thread_exec t m = Done (t', m') /\ threads_inv m' (<[i := t']> ths) owner' /\
    sequential_effect (th_counter t) (abstraction m) (abstraction m').

(** A lease that is held is counted. *)
Lemma inv_live m ths owner p : threads_inv m ths owner -> (0 < handles_on p (all_held ths))%nat ->
  exists c, m_leases m !! p = Some c /\ c_refcount c = Z.of_nat (handles_on p (all_held ths)) /\ stages_on p ths = [] /\ has_data m owner p c.
Proof.
  intros Hinv Hp. pose proof (inv_cells _ _ _ Hinv p) as H. unfold cell_ok in H. destruct (m_leases m !! p) as [c|]; [|lia].
  destruct H as [Hr [(_ & Hs & Hd)|(Hn & _)]]; [|lia]. exists c. auto.
Qed.

(** One that a thread is freeing is not, and no other thread frees it. *)
Lemma inv_dying m ths owner i hs st p : threads_inv m ths owner -> ths !! i = Some (mk_thread (Freeing st p) hs) ->
  exists c, m_leases m !! p = Some c /\ c_refcount c = 0 /\ handles_on p (all_held ths) = 0%nat /\ stages_on p ths = [st] /\
    (st = Free_data -> has_data m owner p c) /\
    forall t', stages_on p (<[i := t']> ths) = option_list (stage_of p t').
Proof.
  intros Hinv Hi. pose proof (inv_cells _ _ _ Hinv p) as H. unfold cell_ok in H.
  assert (Hst : stage_of p (mk_thread (Freeing st p) hs) = Some st) by (cbn; rewrite decide_True by reflexivity; reflexivity).
  assert (Hl : (length (stages_on p ths) <= 1)%nat).
  { destruct (m_leases m !! p); [destruct H as [_ [(_ & -> & _)|(_ & ? & -> & _)]]|destruct H as [_ ->]]; cbn; lia. }
  destruct (stages_replace p ths i _ (mk_thread Idle []) st Hi Hst Hl) as [Es _]. rewrite Es in H.
  destruct (m_leases m !! p) as [c|]; [|destruct H as [_ ?]; discriminate].
  destruct H as [Hr [(_ & ? & _)|(Hn & st' & [= <-] & Hd)]]; [discriminate|]. rewrite Hn in Hr.
  exists c. split; [reflexivity|]. split; [exact Hr|]. split; [exact Hn|]. split; [exact Es|]. split; [exact Hd|].
  intros t'. apply (stages_replace p ths i _ t' st Hi Hst Hl).
Qed.

Lemma exec_adding m ths owner i hs p : threads_inv m ths owner -> ths !! i = Some (mk_thread (Adding p) hs) ->
  stepped m ths i (mk_thread (Adding p) hs).
Proof.
  intros Hinv Hi. assert (Hin : p ∈ hs) by (apply (inv_adding _ _ _ Hinv (mk_thread (Adding p) hs)); [eapply list_elem_of_lookup_2, Hi|reflexivity]).
  assert (Hpos : (0 < handles_on p (all_held ths))%nat).
  { pose proof (count_in held_in p ths _ ltac:(eapply list_elem_of_lookup_2, Hi)) as H. rewrite held_count in H. cbn [th_counter th_handles] in H.
    apply handles_in in Hin. unfold all_held. lia. }
  destruct (inv_live _ _ _ p Hinv Hpos) as (c & Hc & Hr & Hs & Hd). pose proof (inv_bound _ _ _ Hinv p) as Hb.
  count_step p Hi (mk_thread Idle (p :: hs)). set (t' := mk_thread Idle (p :: hs)) in *.
  assert (Hw : wrap32 (c_refcount c + 1) = Z.of_nat (S (handles_on p (all_held ths)))) by (rewrite wrap32_small by zlia; lia).
  exists t', (set_cells (<[p := mk_cell (wrap32 (c_refcount c + 1)) (c_data c) (c_size c) (c_id c)]> (m_leases m)) m), owner.
  split; [unfold thread_exec; cbn [th_counter th_handles]; rewrite Hc; reflexivity|].
  assert (Hst : stages_on p (<[i := t']> ths) = []) by (rewrite (stages_same p ths i _ t' Hi); [exact Hs|reflexivity]).
  split; [|].
  - refine (inv_write m ths i _ t' owner p c _ Hinv Hi _ Hc _ _ _ _).
    + local_step.
    + unfold cell_ok. cbn [m_leases set_cells]. rewrite lookup_insert_eq. cbn [c_refcount]. rewrite Hst. split; [rewrite Hw; lia|].
      left. split; [lia|]. split; [reflexivity|exact Hd].
    + lia.
    + discriminate.
    + rewrite Hst. auto.
  - cbn [th_counter sequential_effect]. unfold tide_payload_lease_retain. rewrite abs_write, abs_lookup, Hc. unfold lease_of. cbn.
    rewrite (proj2 (Z.eqb_neq (c_refcount c) 0)) by lia. rewrite Hw. cbn. rewrite (proj2 (Z.eqb_neq _ 0)) by lia. cbn. rewrite Hw. reflexivity.
Qed.

Lemma exec_subtracting m ths owner i hs p : threads_inv m ths owner -> ths !! i = Some (mk_thread (Subtracting p) hs) ->
  stepped m ths i (mk_thread (Subtracting p) hs).
Proof.
  intros Hinv Hi. assert (Hpos : (0 < handles_on p (all_held ths))%nat).
  { pose proof (count_in held_in p ths _ ltac:(eapply list_elem_of_lookup_2, Hi)) as H. rewrite held_count in H. cbn [th_counter th_handles] in H.
    rewrite decide_True in H by reflexivity. unfold all_held. lia. }
  destruct (inv_live _ _ _ p Hinv Hpos) as (c & Hc & Hr & Hs & Hd). pose proof (inv_bound _ _ _ Hinv p) as Hb.
  set (t' := mk_thread (if c_refcount c =? 1 then Freeing Free_data p else Idle) hs).
  assert (Hcount : (S (handles_on p (all_held (<[i := t']> ths))) = handles_on p (all_held ths) /\
                    handles_on p (all_adding (<[i := t']> ths)) = handles_on p (all_adding ths))%nat).
  { count_step p Hi t'. unfold t' in *. destruct (c_refcount c =? 1); cbn [th_counter th_handles] in *; lia. }
  destruct Hcount as [Hn Ha].
  assert (Hw : wrap32 (c_refcount c - 1) = Z.of_nat (handles_on p (all_held (<[i := t']> ths)))) by (rewrite wrap32_small by zlia; lia).
  assert (Hst : stages_on p (<[i := t']> ths) = if c_refcount c =? 1 then [Free_data] else []).
  { rewrite (stages_add p ths i _ t' Hi Hs). unfold t', stage_of. destruct (c_refcount c =? 1); cbn; [rewrite decide_True by reflexivity|]; reflexivity. }
  exists t', (set_cells (<[p := mk_cell (wrap32 (c_refcount c - 1)) (c_data c) (c_size c) (c_id c)]> (m_leases m)) m), owner.
  split; [unfold thread_exec; cbn [th_counter th_handles]; rewrite Hc; reflexivity|]. split.
  - refine (inv_write m ths i _ t' owner p c _ Hinv Hi _ Hc _ _ _ _).
    + unfold t'. destruct (c_refcount c =? 1); clear t' Hn Ha Hw Hst; local_step.
    + unfold cell_ok. cbn [m_leases set_cells]. rewrite lookup_insert_eq. cbn [c_refcount]. split; [exact Hw|]. rewrite Hst.
      destruct (Z.eqb_spec (c_refcount c) 1); [right|left]; (split; [lia|]); [exists Free_data|]; auto.
    + lia.
    + unfold t'. destruct (c_refcount c =? 1); discriminate.
    + rewrite Hst. destruct (c_refcount c =? 1); auto.
  - cbn [th_counter sequential_effect]. unfold tide_payload_lease_release. rewrite abs_write, abs_lookup, Hc, Hw. unfold lease_of.
    cbn [mbind option_bind m_blocks set_cells c_refcount c_data c_size c_id]. rewrite (proj2 (Z.eqb_neq (c_refcount c) 0)) by lia.
    cbn [deref]. rewrite bind_done. unfold set_refcount. cbn [ls_refcount ls_data ls_size ls_id]. rewrite Hw.
    destruct (Z.eqb_spec (c_refcount c) 1).
    + rewrite (proj2 (Z.eqb_eq _ 0)) by lia. reflexivity.
    + rewrite (proj2 (Z.eqb_neq _ 0)) by lia. reflexivity.
Qed.

(** The two fields that are cleared. *)
Lemma exec_clear m ths owner i hs p st st' c' : threads_inv m ths owner -> ths !! i = Some (mk_thread (Freeing st p) hs) ->
  st <> Free_data -> st' <> Free_data -> (forall c, m_leases m !! p = Some c -> c_refcount (c' c) = c_refcount c) ->
  (forall c, m_leases m !! p = Some c -> thread_exec (mk_thread (Freeing st p) hs) m =
     Done (mk_thread (Freeing st' p) hs, set_cells (<[p := c' c]> (m_leases m)) m)) ->
  stepped m ths i (mk_thread (Freeing st p) hs).
Proof.
  intros Hinv Hi Hst Hst' Hc' Hrun. destruct (inv_dying _ _ _ _ _ _ _ Hinv Hi) as (c & Hc & Hr & Hn & Hs & _ & Hst2).
  pose proof (inv_bound _ _ _ Hinv p) as Hb. count_step p Hi (mk_thread (Freeing st' p) hs). set (t' := mk_thread (Freeing st' p) hs) in *.
  exists t', (set_cells (<[p := c' c]> (m_leases m)) m), owner. split; [exact (Hrun c Hc)|].
  assert (Hst3 : stages_on p (<[i := t']> ths) = [st']) by (rewrite Hst2; unfold t', stage_of; cbn; rewrite decide_True by reflexivity; reflexivity).
  split.
  - refine (inv_write m ths i _ t' owner p c _ Hinv Hi _ Hc _ _ _ _).
    + local_step.
    + unfold cell_ok. cbn [m_leases set_cells]. rewrite lookup_insert_eq, (Hc' c Hc). split; [lia|]. right. split; [lia|]. exists st'. split; [exact Hst3|contradiction].
    + lia.
    + discriminate.
    + intros b _ [E|E]; rewrite Hs in E; [discriminate|]. injection E as E. contradiction.
  - cbn [th_counter sequential_effect]. rewrite abs_write. unfold lease_of at 1. rewrite (Hc' c Hc), Hr. cbn.
    unfold set_leases, abstraction. cbn. f_equal. apply delete_id. rewrite lookup_omap, Hc. cbn. unfold lease_of. rewrite Hr. reflexivity.
Qed.

Lemma exec_free_lease m ths owner i hs p : threads_inv m ths owner -> ths !! i = Some (mk_thread (Freeing Free_lease p) hs) ->
  stepped m ths i (mk_thread (Freeing Free_lease p) hs).
Proof.
  intros Hinv Hi. destruct (inv_dying _ _ _ _ _ _ _ Hinv Hi) as (c & Hc & Hr & Hn & Hs & _ & Hst).
  pose proof (inv_bound _ _ _ Hinv p) as Hb. count_step p Hi (mk_thread Idle hs). set (t' := mk_thread Idle hs) in *.
  exists t', (set_cells (delete p (m_leases m)) m), owner.
  split; [unfold thread_exec; cbn [th_counter th_handles]; rewrite Hc; reflexivity|]. split.
  - refine (inv_update m _ ths i _ t' owner owner p Hinv Hi _ _ _ _ _ _ _).
    + local_step.
    + intros q Hq. apply lookup_delete_ne. congruence.
    + intros q d _ H. exact H.
    + unfold cell_ok. cbn [m_leases set_cells]. rewrite lookup_delete_eq, Hst. split; [lia|reflexivity].
    + lia.
    + discriminate.
    + intros b Hsome. destruct (inv_blocks _ _ _ Hinv b Hsome) as (q & d & Ho & Hq & Hd & Hsq). left. exists q.
      split; [intros ->; rewrite Hs in Hsq; destruct Hsq; discriminate|]. auto.
  - cbn [th_counter sequential_effect]. unfold abstraction, set_cells. cbn [m_leases m_blocks m_next_id]. f_equal. rewrite omap_delete. apply delete_id.
    rewrite lookup_omap, Hc. cbn. unfold lease_of. rewrite Hr. reflexivity.
Qed.

Lemma exec_free_data m ths owner i hs p : threads_inv m ths owner -> ths !! i = Some (mk_thread (Freeing Free_data p) hs) ->
  stepped m ths i (mk_thread (Freeing Free_data p) hs).
Proof.
  intros Hinv Hi. destruct (inv_dying _ _ _ _ _ _ _ Hinv Hi) as (c & Hc & Hr & Hn & Hs & Hd & Hst). specialize (Hd eq_refl).
  pose proof (inv_bound _ _ _ Hinv p) as Hb. count_step p Hi (mk_thread (Freeing Clear_data p) hs).
  set (t' := mk_thread (Freeing Clear_data p) hs) in *.
  assert (Hst' : stages_on p (<[i := t']> ths) = [Clear_data]) by (rewrite Hst; unfold t', stage_of; cbn; rewrite decide_True by reflexivity; reflexivity).
  (* the block goes, if there is one; it is nobody else's *)
  set (bs := match c_data c with None => m_blocks m | Some b => delete b (m_blocks m) end).
  assert (Hother : forall b, owner !! b <> Some p -> bs !! b = m_blocks m !! b).
  { intros b Hb'. unfold bs, has_data in *. destruct (c_data c) as [b0|]; [|reflexivity]. destruct Hd as [Ho _].
    apply lookup_delete_ne. intros ->. contradiction. }
  assert (Hfree : free_block (c_data c) m = Done (set_blocks bs m)).
  { unfold free_block, bs, has_data in *. destruct (c_data c) as [b0|]; [|destruct m; reflexivity]. destruct Hd as (_ & bytes & -> & _). reflexivity. }
  exists t', (set_blocks bs m), owner.
  split; [unfold thread_exec; cbn [th_counter th_handles]; rewrite Hc; cbn [deref]; rewrite bind_done, Hfree; reflexivity|]. split.
  - refine (inv_update m _ ths i _ t' owner owner p Hinv Hi _ _ _ _ _ _ _).
    + local_step.
    + reflexivity.
    + intros q d Hq. unfold has_data. cbn [m_blocks set_blocks]. destruct (c_data d) as [b|]; [|auto]. intros [Ho H].
      rewrite Hother by congruence. auto.
    + unfold cell_ok. cbn [m_leases set_blocks]. rewrite Hc, Hr, Hst'. split; [lia|]. right. split; [lia|]. exists Clear_data. split; [reflexivity|discriminate].
    + lia.
    + discriminate.
    + intros b Hsome. cbn [m_blocks set_blocks] in Hsome. assert (Hsome' : is_Some (m_blocks m !! b)).
      { unfold bs in Hsome. destruct (c_data c) as [b0|]; [|exact Hsome]. destruct (decide (b = b0)) as [->|]; [rewrite lookup_delete_eq in Hsome; destruct Hsome; discriminate|].
        rewrite lookup_delete_ne in Hsome by congruence. exact Hsome. }
      destruct (inv_blocks _ _ _ Hinv b Hsome') as (q & d & Ho & Hq & Hdd & _). left. exists q. split; [|auto].
      intros ->. rewrite Hc in Hq. injection Hq as <-. unfold bs in Hsome. rewrite Hdd, lookup_delete_eq in Hsome. destruct Hsome. discriminate.
  - cbn [th_counter sequential_effect]. unfold abstraction, set_blocks. cbn [m_leases m_blocks m_next_id]. f_equal. apply map_eq. intros q.
    rewrite !lookup_omap. destruct (m_leases m !! q) as [d|] eqn:Hq; [|reflexivity]. cbn. unfold lease_of.
    destruct (Z.eqb_spec (c_refcount d) 0) as [|Hne]; [reflexivity|]. do 2 f_equal. destruct (c_data d) as [b|] eqn:Hdd; [|reflexivity]. cbn.
    apply Hother. pose proof (inv_cells _ _ _ Hinv q) as Hcell. unfold cell_ok in Hcell. rewrite Hq in Hcell.
    destruct Hcell as [Hrq [(_ & _ & Hhas)|(Hz & _)]]; [|lia]. unfold has_data in Hhas. rewrite Hdd in Hhas. destruct Hhas as [-> _].
    intros [= ->]. rewrite Hc in Hq. injection Hq as <-. contradiction.
Qed.

(** Every thread can go on, whatever the others do. *)
Lemma exec_spec m ths owner i t : threads_inv m ths owner -> ths !! i = Some t -> stepped m ths i t.
Proof.
  intros Hinv Hi. destruct t as [[|p|p|st p] hs].
  - exists (mk_thread Idle hs), m, owner. split; [reflexivity|]. split; [|reflexivity]. rewrite list_insert_id by exact Hi. exact Hinv.
  - eapply exec_adding; eassumption.
  - eapply exec_subtracting; eassumption.
  - destruct st.
    + eapply exec_free_data; eassumption.
    + eapply (exec_clear m ths owner i hs p Clear_data Clear_size (fun c => mk_cell (c_refcount c) None (c_size c) (c_id c))); try eassumption; try discriminate.
      * reflexivity.
      * intros c Hc. unfold thread_exec. cbn [th_counter th_handles]. rewrite Hc. reflexivity.
    + eapply (exec_clear m ths owner i hs p Clear_size Free_lease (fun c => mk_cell (c_refcount c) (c_data c) 0 (c_id c))); try eassumption; try discriminate.
      * reflexivity.
      * intros c Hc. unfold thread_exec. cbn [th_counter th_handles]. rewrite Hc. reflexivity.
    + eapply exec_free_lease; eassumption.
Qed.

(** ** The calls *)

(** A step that writes no memory. *)
Lemma inv_quiet m ths ths' owner : threads_inv m ths owner ->
  (forall q, handles_on q (all_held ths') = handles_on q (all_held ths)) -> (forall q, stages_on q ths' = stages_on q ths) ->
  (forall q, Z.of_nat (handles_on q (all_held ths') + handles_on q (all_adding ths')) < 2 ^ 32) ->
  (forall t q, t ∈ ths' -> th_counter t = Adding q -> q ∈ th_handles t) -> threads_inv m ths' owner.
Proof.
  intros [Hc _ _ Hbl] Hn Hs Hb Ha. constructor; [|exact Hb|exact Ha|].
  - intros p. rewrite Hn, Hs. apply Hc.
  - intros b H. destruct (Hbl b H) as (p & c & H1). exists p, c. rewrite Hs. exact H1.
Qed.

(** The threads after an update of one. *)
Lemma adding_insert (ths : list thread) (i : nat) t t' : ths !! i = Some t -> (forall t q, t ∈ ths -> th_counter t = Adding q -> q ∈ th_handles t) ->
  (forall q, th_counter t' = Adding q -> q ∈ th_handles t') ->
  forall u q, u ∈ <[i := t']> ths -> th_counter u = Adding q -> q ∈ th_handles u.
Proof.
  intros Hi Ha Ht u q Hu. destruct (thread_insert_split ths i t Hi) as (pre & post & -> & E). rewrite E in Hu.
  apply elem_of_app in Hu as [Hu|Hu]; [apply Ha; apply elem_of_app; auto|].
  apply elem_of_cons in Hu as [->|Hu]; [auto|]. apply Ha, elem_of_app. right. right. exact Hu.
Qed.

Lemma call_create_inv m ths owner i hs p b bytes : threads_inv m ths owner -> ths !! i = Some (mk_thread Idle hs) ->
  m_leases m !! p = None -> m_blocks m !! b = None ->
  exists owner', threads_inv (create_at p b bytes m) (<[i := mk_thread Idle (p :: hs)]> ths) owner'.
Proof.
  intros Hinv Hi Hp Hb. count_step p Hi (mk_thread Idle (p :: hs)). set (t' := mk_thread Idle (p :: hs)) in *.
  pose proof (inv_cells _ _ _ Hinv p) as Hcell. unfold cell_ok in Hcell. rewrite Hp in Hcell. destruct Hcell as [Hn Hs].
  pose proof (inv_bound _ _ _ Hinv p) as Hbound. exists (<[b := p]> owner).
  assert (Hdata : forall q c, q <> p -> has_data m owner q c -> has_data (create_at p b bytes m) (<[b := p]> owner) q c).
  { intros q c Hq. unfold has_data, create_at. cbn [m_blocks]. destruct (c_data c) as [b'|]; [|auto]. intros (Ho & bs & Hbs & Hsz).
    assert (b' <> b) by congruence. rewrite lookup_insert_ne by congruence. split; [exact Ho|]. exists bs.
    destruct (zlen bytes =? 0); [|rewrite lookup_insert_ne by congruence]; auto. }
  assert (Hst : stages_on p (<[i := t']> ths) = []) by (rewrite (stages_add p ths i _ t' Hi Hs); reflexivity).
  assert (Ha : handles_on p (all_adding ths) = 0%nat).
  { apply count_zero. intros u Hu. rewrite adding_count. destruct (th_counter u) as [|q| |] eqn:Eu; try reflexivity. destruct (decide (p = q)) as [->|]; [|reflexivity].
      pose proof (inv_adding _ _ _ Hinv u q Hu Eu) as Hin. apply handles_in in Hin. pose proof (count_in held_in q ths u Hu) as Hc.
      rewrite held_count in Hc. unfold all_held in Hn. lia. }
  refine (inv_update m _ ths i _ t' owner _ p Hinv Hi _ _ Hdata _ _ _ _).
  - local_step.
  - intros q Hq. apply lookup_insert_ne. congruence.
  - unfold cell_ok, create_at. cbn [m_leases]. rewrite lookup_insert_eq. cbn [c_refcount]. split; [lia|]. left. split; [lia|]. split; [exact Hst|].
    unfold has_data. cbn [c_data c_size m_blocks]. destruct (Z.eqb_spec (zlen bytes) 0) as [E|E]; [exact E|].
    rewrite !lookup_insert_eq. eauto.
  - lia.
  - discriminate.
  - intros b' Hsome. unfold block_of, create_at in *. cbn [m_blocks m_leases] in *. destruct (decide (b' = b)) as [->|Hne].
    + right. rewrite !lookup_insert_eq. split; [reflexivity|]. eexists. split; [reflexivity|]. cbn [c_data].
      destruct (zlen bytes =? 0); [rewrite Hb in Hsome; destruct Hsome; discriminate|auto].
    + left. assert (Hsome' : is_Some (m_blocks m !! b')) by (destruct (zlen bytes =? 0); [|rewrite lookup_insert_ne in Hsome by congruence]; exact Hsome).
      destruct (inv_blocks _ _ _ Hinv b' Hsome') as (q & c & Ho & Hq & _). exists q. rewrite lookup_insert_ne by congruence.
      split; [congruence|auto].
Qed.

Lemma call_retain_inv m ths owner i hs p : threads_inv m ths owner -> ths !! i = Some (mk_thread Idle hs) -> p ∈ hs ->
  Z.of_nat (handles_on p (all_held ths) + handles_on p (all_adding ths)) < 2 ^ 32 - 1 ->
  threads_inv m (<[i := mk_thread (Adding p) hs]> ths) owner.
Proof.
  intros Hinv Hi Hp Hb. set (t' := mk_thread (Adding p) hs).
  assert (Hcounts : forall q, handles_on q (all_held (<[i := t']> ths)) = handles_on q (all_held ths) /\
    handles_on q (all_adding (<[i := t']> ths)) = (handles_on q (all_adding ths) + if decide (q = p) then 1 else 0)%nat).
  { intros q. destruct (counts_after q ths i _ t' Hi) as [H1 H2]. rewrite !held_count in H1. rewrite !adding_count in H2.
    cbn [th_counter th_handles t'] in H1, H2. lia. }
  apply (inv_quiet m ths); [exact Hinv|intros q; apply Hcounts|..].
  - intros q. apply (stages_same q ths i _ t' Hi). reflexivity.
  - intros q. destruct (Hcounts q) as [-> ->]. pose proof (inv_bound _ _ _ Hinv q). destruct (decide (q = p)) as [->|]; lia.
  - apply (adding_insert ths i _ t' Hi); [apply (inv_adding _ _ _ Hinv)|]. intros q [= <-]. exact Hp.
Qed.

Lemma call_release_inv m ths owner i hs hs' p : threads_inv m ths owner -> ths !! i = Some (mk_thread Idle hs) -> hs ≡ₚ p :: hs' ->
  threads_inv m (<[i := mk_thread (Subtracting p) hs']> ths) owner.
Proof.
  intros Hinv Hi Hp. set (t' := mk_thread (Subtracting p) hs').
  assert (Hcounts : forall q, handles_on q (all_held (<[i := t']> ths)) = handles_on q (all_held ths) /\
    handles_on q (all_adding (<[i := t']> ths)) = handles_on q (all_adding ths)).
  { intros q. destruct (counts_after q ths i _ t' Hi) as [H1 H2]. rewrite !held_count in H1. rewrite !adding_count in H2.
    cbn [th_counter th_handles t'] in H1, H2. rewrite (handles_on_perm q _ _ Hp), handles_cons in H1. lia. }
  apply (inv_quiet m ths); [exact Hinv|intros q; apply Hcounts|..].
  - intros q. apply (stages_same q ths i _ t' Hi). reflexivity.
  - intros q. destruct (Hcounts q) as [-> ->]. apply (inv_bound _ _ _ Hinv).
  - apply (adding_insert ths i _ t' Hi); [apply (inv_adding _ _ _ Hinv)|discriminate].
Qed.

Lemma hand_over_inv m ths owner i j hs hs' p t : threads_inv m ths owner -> ths !! i = Some (mk_thread Idle hs) -> hs ≡ₚ p :: hs' ->
  i <> j -> ths !! j = Some t ->
  threads_inv m (<[j := mk_thread (th_counter t) (p :: th_handles t)]> (<[i := mk_thread Idle hs']> ths)) owner.
Proof.
  intros Hinv Hi Hp Hij Hj. set (ti := mk_thread Idle hs'). set (tj := mk_thread (th_counter t) (p :: th_handles t)).
  assert (Hj' : <[i := ti]> ths !! j = Some t) by (rewrite list_lookup_insert_ne by exact Hij; exact Hj).
  assert (Hcounts : forall q, handles_on q (all_held (<[j := tj]> (<[i := ti]> ths))) = handles_on q (all_held ths) /\
                              handles_on q (all_adding (<[j := tj]> (<[i := ti]> ths))) = handles_on q (all_adding ths)).
  { intros q. destruct (counts_after q ths i _ ti Hi) as [H1 H2]. destruct (counts_after q _ j _ tj Hj') as [H3 H4].
    rewrite !held_count in H1, H3. rewrite !adding_count in H2, H4. cbn [th_counter th_handles ti tj] in H1, H2, H3, H4.
    rewrite (handles_on_perm q _ _ Hp), handles_cons in H1. rewrite handles_cons in H3. lia. }
  apply (inv_quiet m ths); [exact Hinv|intros q; apply Hcounts|..].
  - intros q. rewrite (stages_same q _ j _ tj Hj'), (stages_same q _ i _ ti Hi); reflexivity.
  - intros q. destruct (Hcounts q) as [-> ->]. apply (inv_bound _ _ _ Hinv).
  - apply (adding_insert _ j _ tj Hj').
    + apply (adding_insert ths i _ ti Hi); [apply (inv_adding _ _ _ Hinv)|discriminate].
    + intros q Hq. right. apply (inv_adding _ _ _ Hinv t q); [eapply list_elem_of_lookup_2, Hj|exact Hq].
Qed.

Definition has_inv (c : memory * list thread) : Prop := exists owner, threads_inv c.1 c.2 owner.

Lemma threads_step_inv c c' : threads_step c c' -> has_inv c -> has_inv c'.
Proof.
  intros Hstep [owner Hinv]. destruct Hstep as [m ths i t t' m' Hi Hrun|m ths i hs p b bytes Hi Hp Hb|m ths i hs p Hi Hp Hb|m ths i hs hs' p Hi Hp|m ths i j hs hs' p t Hi Hp Hij Hj];
    cbn [fst snd] in *.
  - destruct (exec_spec m ths owner i t Hinv Hi) as (t2 & m2 & owner' & Hrun2 & Hinv' & _). rewrite Hrun in Hrun2. injection Hrun2 as <- <-.
    exists owner'. exact Hinv'.
  - exact (call_create_inv m ths owner i hs p b bytes Hinv Hi Hp Hb).
  - exists owner. exact (call_retain_inv m ths owner i hs p Hinv Hi Hp Hb).
  - exists owner. exact (call_release_inv m ths owner i hs hs' p Hinv Hi Hp).
  - exists owner. exact (hand_over_inv m ths owner i j hs hs' p t Hinv Hi Hp Hij Hj).
Qed.

(** ** What every run satisfies *)

Lemma all_idle ths : Forall (eq (mk_thread Idle [])) ths -> forall q,
  handles_on q (all_held ths) = 0%nat /\ handles_on q (all_adding ths) = 0%nat /\ stages_on q ths = [].
Proof.
  intros H q. rewrite Forall_forall in H. split; [|split].
  - apply count_zero. intros t Ht. rewrite <- (H t Ht). reflexivity.
  - apply count_zero. intros t Ht. rewrite <- (H t Ht). reflexivity.
  - unfold stages_on. induction ths as [|t ths IH]; [reflexivity|]. cbn. rewrite <- (H t) by left. apply IH. intros u Hu. apply H. right. exact Hu.
Qed.

Lemma no_memory_inv n : threads_inv no_memory (idle_threads n) ∅.
Proof.
  assert (H : Forall (eq (mk_thread Idle [])) (idle_threads n)) by (apply Forall_forall; intros t Ht; apply elem_of_replicate in Ht as [-> _]; reflexivity).
  pose proof (all_idle _ H) as Hq. constructor.
  - intros p. destruct (Hq p) as (-> & _ & ->). unfold cell_ok. cbn [m_leases no_memory]. rewrite lookup_empty. auto.
  - intros p. destruct (Hq p) as (-> & -> & _). reflexivity.
  - intros t p Ht. apply elem_of_replicate in Ht as [-> _]. discriminate.
  - intros b [x Hx]. cbn in Hx. rewrite lookup_empty in Hx. discriminate.
Qed.

(** The counted leases are those of the sequential model, with its counts. *)
Lemma inv_balanced m ths owner : threads_inv m ths owner -> balanced (abstraction m) (all_held ths).
Proof.
  intros Hinv p. rewrite abs_lookup. pose proof (inv_cells _ _ _ Hinv p) as H. pose proof (inv_bound _ _ _ Hinv p) as Hb. unfold cell_ok in H.
  destruct (m_leases m !! p) as [c|]; [|exact (proj1 H)]. cbn. unfold lease_of. destruct H as [Hr [(Hn & _ & Hd)|(Hn & _)]].
  - rewrite (proj2 (Z.eqb_neq _ 0)) by lia. cbn. split; [exact Hr|]. split; [exact Hn|]. split; [lia|]. unfold lease_wf. cbn. unfold has_data in Hd.
    destruct (c_data c) as [b|]; cbn.
    + destruct Hd as (_ & bytes & -> & Hz & H0). split; [exact Hz|]. split; [discriminate|intros E; contradiction].
    + rewrite Hd. split; [reflexivity|tauto].
  - rewrite (proj2 (Z.eqb_eq _ 0)) by lia. exact Hn.
Qed.

(** A new lease is one of the sequential model. *)
Lemma create_effect m ths owner p b bytes : threads_inv m ths owner -> m_leases m !! p = None -> m_blocks m !! b = None ->
  st_leases (abstraction (create_at p b bytes m)) =
    <[p := mk_lease 1 (if zlen bytes =? 0 then None else Some bytes) (zlen bytes) (m_next_id m)]> (st_leases (abstraction m)).
Proof.
  intros Hinv Hp Hb. apply map_eq. intros q. rewrite abs_lookup. unfold create_at. cbn [m_leases m_blocks]. destruct (decide (p = q)) as [<-|Hq].
  - rewrite !lookup_insert_eq. cbn. unfold lease_of. cbn. destruct (zlen bytes =? 0); cbn; rewrite ?lookup_insert_eq; reflexivity.
  - rewrite !lookup_insert_ne by exact Hq. rewrite abs_lookup. destruct (m_leases m !! q) as [c|] eqn:Hc; [|reflexivity]. cbn. unfold lease_of.
    destruct (Z.eqb_spec (c_refcount c) 0) as [|Hne]; [reflexivity|]. do 2 f_equal.
    pose proof (inv_cells _ _ _ Hinv q) as H. unfold cell_ok in H. rewrite Hc in H. destruct H as [Hr [(_ & _ & Hd)|(Hn & _)]]; [|lia].
    unfold has_data in Hd. destruct (c_data c) as [b'|]; [|reflexivity]. destruct Hd as (_ & bs & Hbs & _). cbn.
    destruct (zlen bytes =? 0); [reflexivity|]. apply lookup_insert_ne. congruence.
Qed.

(** Steps until the call a thread is in returns. *)
Definition steps_left (k : counter) : nat :=
  match k with
  | Idle => 0 | Adding _ => 1 | Subtracting _ => 5
  | Freeing Free_data _ => 4 | Freeing Clear_data _ => 3 | Freeing Clear_size _ => 2 | Freeing Free_lease _ => 1
  end.

Lemma exec_progress t m t' m' : thread_exec t m = Done (t', m') -> th_counter t <> Idle -> (steps_left (th_counter t') < steps_left (th_counter t))%nat.
Proof.
  destruct t as [[|p|p|[] p] hs]; unfold thread_exec; cbn [th_counter th_handles]; intros E Hne; [contradiction|..];
    apply bind_Done_inv in E as (c & _ & E).
  2: { injection E as <- _. cbn. destruct (_ =? 1); cbn; lia. }
  2: { apply bind_Done_inv in E as (m2 & _ & E). injection E as <- _. cbn. lia. }
  all: injection E as <- _; cbn; lia.
Qed.

(** C22: leases shared by any number of threads, in every interleaving of
    creating, retaining, releasing, freeing and handing over, and with blocks
    allocated again as soon as they were freed: no thread ever reads, writes or
    frees a lease or data that were freed, and every call ends after at most
    five steps of its thread, whatever the others do.  Retaining and releasing
    take effect at their atomic operation, where they are those of the
    sequential model, and creating is too; so the leases alive are balanced: each
    counts the handles held or being released, with its bytes as they were.
    At most one thread frees a lease, and when all threads have returned and
    hold nothing, no lease and no data are left. *)
Theorem shared_leases_safe (n : nat) (m : memory) (ths : list thread) :
  rtc threads_step (no_memory, idle_threads n) (m, ths) ->
  (forall i t, ths !! i = Some t -> exists t' m', thread_exec t m = Done (t', m') /\
     sequential_effect (th_counter t) (abstraction m) (abstraction m') /\
     (th_counter t <> Idle -> (steps_left (th_counter t') < steps_left (th_counter t) <= 5)%nat)) /\
  (forall p b bytes, m_leases m !! p = None -> m_blocks m !! b = None ->
     st_leases (abstraction (create_at p b bytes m)) =
       <[p := mk_lease 1 (if zlen bytes =? 0 then None else Some bytes) (zlen bytes) (m_next_id m)]> (st_leases (abstraction m))) /\
  balanced (abstraction m) (all_held ths) /\
  (forall p, (length (stages_on p ths) <= 1)%nat) /\
  (Forall (eq (mk_thread Idle [])) ths -> m_leases m = ∅ /\ m_blocks m = ∅).
Proof.
  intros Hrun. assert (Hinv : has_inv (m, ths)).
  { revert Hrun. apply (rtc_ind_r has_inv); [exists ∅; apply no_memory_inv|]. intros c c' _ Hstep Hc. exact (threads_step_inv c c' Hstep Hc). }
  destruct Hinv as [owner Hinv]. cbn [fst snd] in Hinv. split; [|split; [|split; [|split]]].
  - intros i t Hi. destruct (exec_spec m ths owner i t Hinv Hi) as (t' & m' & owner' & Ht & _ & He). exists t', m'.
    split; [exact Ht|]. split; [exact He|]. intros Hne. split; [exact (exec_progress t m t' m' Ht Hne)|]. destruct (th_counter t) as [| | |[]]; cbn; lia.
  - intros p b bytes. apply (create_effect m ths owner p b bytes Hinv).
  - exact (inv_balanced m ths owner Hinv).
  - intros p. pose proof (inv_cells _ _ _ Hinv p) as H. unfold cell_ok in H.
    destruct (m_leases m !! p); [destruct H as [_ [(_ & -> & _)|(_ & ? & -> & _)]]|destruct H as [_ ->]]; cbn; lia.
  - intros Hall. assert (Hnone : forall p, m_leases m !! p = None).
    { intros p. destruct (all_idle ths Hall p) as (Hh & _ & Hs). pose proof (inv_cells _ _ _ Hinv p) as H. unfold cell_ok in H.
      rewrite Hh, Hs in H. destruct (m_leases m !! p); [|reflexivity]. destruct H as [_ [(Hn & _)|(_ & st & E & _)]]; [lia|discriminate]. }
    split; [apply map_empty; exact Hnone|]. apply map_empty. intros b. destruct (m_blocks m !! b) as [x|] eqn:E; [|reflexivity].
    destruct (inv_blocks _ _ _ Hinv b ltac:(eauto)) as (p & c & _ & Hp & _). rewrite Hnone in Hp. discriminate.
Qed.

(** Two threads that release the two handles of a lease: the second is left
    with the freeing, while the first has returned. *)
Lemma shared_leases_safe_witness :
  let m := mk_memory {[1%positive := mk_cell 0 (Some 1%positive) 1 1]} {[1%positive := [x07]]} 2 in
  let ths := [mk_thread Idle []; mk_thread (Freeing Free_data 1%positive) []] in
  balanced (abstraction m) [] /\ length (stages_on 1%positive ths) = 1%nat /\
  exists m', thread_exec (mk_thread (Freeing Free_data 1%positive) []) m = Done (mk_thread (Freeing Clear_data 1%positive) [], m') /\ abstraction m' = abstraction m.
Proof.
  intros m ths. assert (Hrun : rtc threads_step (no_memory, idle_threads 2) (m, ths)).
  { eapply rtc_l; [eapply (step_call_create _ _ 0 [] 1%positive 1%positive [x07]); reflexivity|].
    eapply rtc_l; [eapply (step_call_retain _ _ 0 [1%positive] 1%positive); [reflexivity|left|reflexivity]|].
    eapply rtc_l; [eapply (step_exec _ _ 0 (mk_thread (Adding 1%positive) [1%positive])); [reflexivity|vm_compute; reflexivity]|].
    eapply rtc_l; [eapply (step_hand_over _ _ 0 1 [1%positive; 1%positive] [1%positive] 1%positive); [reflexivity|reflexivity|discriminate|reflexivity]|].
    eapply rtc_l; [eapply (step_call_release _ _ 0 [1%positive] [] 1%positive); reflexivity|].
    eapply rtc_l; [eapply (step_call_release _ _ 1 [1%positive] [] 1%positive); reflexivity|].
    eapply rtc_l; [eapply (step_exec _ _ 0 (mk_thread (Subtracting 1%positive) [])); [reflexivity|vm_compute; reflexivity]|].
    eapply rtc_l; [eapply (step_exec _ _ 1 (mk_thread (Subtracting 1%positive) [])); [reflexivity|vm_compute; reflexivity]|]. apply rtc_refl. }
  destruct (shared_leases_safe 2 m ths Hrun) as (Hexec & _ & Hb & Hs & _). split; [exact Hb|]. split; [reflexivity|].
  destruct (Hexec 1%nat _ eq_refl) as (t' & m' & E & He & _). assert (Et : t' = mk_thread (Freeing Clear_data 1%positive) []) by (vm_compute in E; congruence).
  subst t'. exists m'. split; [exact E|exact He].
Defined.
