(* ===== verification/Packet.v ===== *)
(** * Packet references

    [src/model/packet.c]: a packet together with the lease that keeps its
    payload alive.  A pointer to a reference is [None] when null, and otherwise
    the reference it points to. *)

From S2P Require Import Prelude Status Rational Model Lease.

Record tide_packet_ref : Set := mk_packet_ref {
  ref_info : tide_packet_info;
  ref_lease : option lease_ptr
}.

#[export] Instance tide_packet_ref_eq_dec : EqDecision tide_packet_ref.
Proof. solve_decision. Defined.

(** The structure of zero bytes that [memset] leaves. *)
Definition zero_packet : tide_packet_ref :=
  mk_packet_ref (mk_packet_info 0 0 0 0 0 0 0 (mk_payload_view None 0 None)) None.

Definition tide_packet_ref_init (packet : option tide_packet_ref) : option tide_packet_ref :=
  option_map (fun _ => zero_packet) packet.

Definition tide_packet_ref_reset (packet : option tide_packet_ref) (s : lease_store)
    : outcome (option tide_packet_ref * lease_store) :=
  match packet with
  | None => Done (None, s)
  | Some p => s ← tide_payload_lease_release (ref_lease p) s; Done (Some zero_packet, s)
  end.

Definition set_payload (v : tide_payload_view) (i : tide_packet_info) : tide_packet_info :=
  mk_packet_info (pk_track_id i) (pk_generation i) (pk_packet_seq i) (pk_dts i) (pk_pts i) (pk_duration i) (pk_flags i) v.

(** Point the payload of the packet at its lease. *)
Definition sync_payload (r : tide_packet_ref) (s : lease_store) : outcome tide_packet_ref :=
  data ← tide_payload_lease_data (ref_lease r) s;
  size ← tide_payload_lease_size (ref_lease r) s;
  Done (mk_packet_ref (set_payload (mk_payload_view data size (ref_lease r)) (ref_info r)) (ref_lease r)).

(** [same] is [dst == src]. *)
Definition tide_packet_ref_move (same : bool) (dst src : option tide_packet_ref) (s : lease_store)
    : outcome (tide_status * option tide_packet_ref * option tide_packet_ref * lease_store) :=
  if is_null dst || is_null src || same then Done (TIDE_STATUS_INVALID_ARGUMENT, dst, src, s)
  else
    '(_, s) ← tide_packet_ref_reset dst s;
    from ← deref src;
    to ← (if negb (is_null (ref_lease from)) then sync_payload from s else Done from);
    Done (TIDE_STATUS_OK, Some to, Some zero_packet, s).

(** ** Ownership *)

(** The handles a reference holds: its lease, if any. *)
Definition held (r : tide_packet_ref) : list lease_ptr := option_list (ref_lease r).
Definition held_by (rs : list tide_packet_ref) : list lease_ptr := concat (map held rs).

Lemma held_by_cons r rs : held_by (r :: rs) = held r ++ held_by rs.
Proof. reflexivity. Qed.
Lemma held_by_app rs rs' : held_by (rs ++ rs') = held_by rs ++ held_by rs'.
Proof. unfold held_by. rewrite map_app. apply concat_app. Qed.
#[export] Instance held_by_perm : Proper ((≡ₚ) ==> (≡ₚ)) held_by.
Proof.
  intros rs rs' H. unfold held_by. induction H as [|x l l' H IH|x y l|l1 l2 l3 H1 IH1 H2 IH2]; cbn; auto.
  - rewrite IH. reflexivity.
  - rewrite !app_assoc, (Permutation_app_comm (held y)). reflexivity.
  - etransitivity; eauto.
Qed.
Lemma held_by_zero n : held_by (replicate n zero_packet) = [].
Proof. induction n; [reflexivity|exact IHn]. Qed.

(** The leases whose bytes the references of [hs] can rely on are untouched. *)
Definition keeps (hs : list lease_ptr) (s s' : lease_store) : Prop :=
  forall q, q ∈ hs -> option_map ls_data (st_leases s' !! q) = option_map ls_data (st_leases s !! q).

Lemma keeps_refl hs s : keeps hs s s.
Proof. intros q _. reflexivity. Qed.
Lemma keeps_trans hs s1 s2 s3 : keeps hs s1 s2 -> keeps hs s2 s3 -> keeps hs s1 s3.
Proof. intros H1 H2 q Hq. rewrite (H2 q Hq). apply H1, Hq. Qed.
Lemma keeps_sub hs hs' s s' : hs' ⊆ hs -> keeps hs s s' -> keeps hs' s s'.
Proof. intros Hsub H q Hq. apply H, Hsub, Hq. Qed.

(** The payload of the packet is the one of its lease. *)
Definition synced (s : lease_store) (r : tide_packet_ref) : Prop :=
  match ref_lease r with
  | None => True
  | Some p => exists l, st_leases s !! p = Some l /\ pk_payload (ref_info r) = mk_payload_view (ls_data l) (ls_size l) (Some p)
  end.

Lemma reset_spec s r hs :
  balanced s (held r ++ hs) ->
  exists s', tide_packet_ref_reset (Some r) s = Done (Some zero_packet, s') /\ balanced s' hs /\
    st_heap s' = st_heap s /\ keeps hs s s' /\ (ref_lease r = None -> s' = s).
Proof.
  intros Hb. unfold tide_packet_ref_reset, held in *. destruct (ref_lease r) as [p|].
  - destruct (release_spec s hs p Hb) as (s' & -> & Hb' & Hh & _ & Hk). rewrite bind_done.
    exists s'. repeat (split; [auto|]). discriminate.
  - exists s. split; [reflexivity|]. split; [exact Hb|]. repeat split; auto using keeps_refl.
Qed.

(** A move releases what the destination held, hands the source over and
    leaves it empty; the count of every lease stays right. *)
Lemma move_spec s d r hs :
  balanced s (held d ++ held r ++ hs) ->
  exists s' r', tide_packet_ref_move false (Some d) (Some r) s = Done (TIDE_STATUS_OK, Some r', Some zero_packet, s') /\
    balanced s' (held r' ++ hs) /\ st_heap s' = st_heap s /\ keeps (held r ++ hs) s s' /\ (ref_lease d = None -> s' = s) /\
    ref_lease r' = ref_lease r /\ synced s' r' /\ (synced s r -> r' = r) /\
    (exists v, ref_info r' = set_payload v (ref_info r)).
Proof.
  intros Hb. unfold tide_packet_ref_move. cbn [is_null orb].
  destruct (reset_spec s d _ Hb) as (s' & -> & Hb' & Hh & Hk & Hs). rewrite bind_done. cbv beta iota. cbn [deref]. rewrite bind_done.
  destruct (ref_lease r) as [p|] eqn:Er; cbn [is_null negb].
  - assert (Hp : p ∈ held r ++ hs) by (unfold held; rewrite Er; set_solver).
    destruct (balanced_lookup s' p _ Hb' Hp) as (l & Hl & _ & _ & Hw).
    unfold sync_payload, tide_payload_lease_data, tide_payload_lease_size. rewrite Er, Hl. cbn [deref]. rewrite !bind_done.
    eexists s', _. split; [reflexivity|]. unfold held in *. cbn [ref_lease ref_info]. rewrite Er in *.
    split; [exact Hb'|]. split; [exact Hh|]. split; [exact Hk|]. split; [exact Hs|]. split; [reflexivity|].
    split; [unfold synced; cbn; exists l; split; [exact Hl|reflexivity]|]. split; [|eauto].
    unfold synced. rewrite Er. intros (l0 & Hl0 & Hv). specialize (Hk p Hp). rewrite Hl, Hl0 in Hk. cbn in Hk. injection Hk as Hk.
    destruct (balanced_lookup s p _ Hb) as (l1 & Hl1 & _ & _ & Hw1);
      [apply elem_of_app; right; exact Hp|]. rewrite Hl0 in Hl1. injection Hl1 as <-.
    destruct Hw as [Hw _], Hw1 as [Hw1 _]. rewrite Hw, Hk, <- Hw1, <- Hv. destruct r as [[] ?]. unfold set_payload. cbn in *. rewrite Er. reflexivity.
  - exists s', r. split; [reflexivity|]. split; [exact Hb'|]. split; [exact Hh|]. split; [exact Hk|]. split; [exact Hs|].
    split; [auto|]. split; [unfold synced; rewrite Er; exact I|]. split; [auto|].
    exists (pk_payload (ref_info r)). destruct r as [[]]; reflexivity.
Qed.

(** A move into an empty reference of one whose payload is that of its lease:
    nothing is released, and the reference arrives as it was. *)
Lemma move_into_zero s r : synced s r ->
  tide_packet_ref_move false (Some zero_packet) (Some r) s = Done (TIDE_STATUS_OK, Some r, Some zero_packet, s).
Proof.
  unfold synced, tide_packet_ref_move. cbn [is_null orb tide_packet_ref_reset ref_lease zero_packet tide_payload_lease_release].
  rewrite !bind_done. cbv beta iota. cbn [deref]. rewrite bind_done.
  destruct (ref_lease r) as [p|] eqn:Er; cbn [is_null negb]; [|reflexivity].
  intros (l & Hl & Hv). unfold sync_payload, tide_payload_lease_data, tide_payload_lease_size. rewrite Er, Hl. cbn [deref].
  rewrite !bind_done. do 4 f_equal. rewrite <- Hv. destruct r as [[] ?]. unfold set_payload. cbn in *. rewrite Er. reflexivity.
Qed.

Lemma synced_leases s s' r : st_leases s' = st_leases s -> synced s r -> synced s' r.
Proof. unfold synced. intros ->. auto. Qed.
