(* ===== verification/Reorder.v ===== *)
(** * The reorder queue

    [src/index/reorder.c]: a bounded queue of packets kept in presentation
    order by insertion.  [rq_items] is the array behind [items]: as many cells
    as [capacity], [None] for a cell not written since its allocation.  The
    packet given to [push] or [pop_ready] lies outside the array. *)

From S2P Require Import Prelude Status Rational Model Lease Packet.

Record tide_reorder_item : Set := mk_item {
  ri_packet : tide_packet_ref;
  ri_epoch : Z
}.

Record tide_reorder_queue : Set := mk_queue {
  rq_items : cells tide_reorder_item;
  rq_count : Z;
  rq_capacity : Z;
  rq_limit : Z
}.

Definition REORDER_ITEM_SIZE : Z := 88.

Definition tide_packet_less (a : tide_packet_ref) (epoch_a : Z) (b : tide_packet_ref) (epoch_b : Z) : bool :=
  if negb (epoch_a =? epoch_b) then epoch_a <? epoch_b
  else if negb (pk_pts (ref_info a) =? pk_pts (ref_info b)) then pk_pts (ref_info a) <? pk_pts (ref_info b)
  else if negb (pk_dts (ref_info a) =? pk_dts (ref_info b)) then pk_dts (ref_info a) <? pk_dts (ref_info b)
  else pk_packet_seq (ref_info a) <? pk_packet_seq (ref_info b).

Definition tide_reorder_queue_init (queue : option tide_reorder_queue) (limit : Z)
    : tide_status * option tide_reorder_queue :=
  if is_null queue || (limit =? 0) then (TIDE_STATUS_INVALID_ARGUMENT, queue)
  else (TIDE_STATUS_OK, Some (mk_queue [] 0 0 limit)).

(** The loop of [tide_reorder_queue_destroy] over the first [n] cells. *)
Fixpoint reset_loop (n : nat) (i : nat) (items : cells tide_reorder_item) (s : lease_store)
    : outcome lease_store :=
  match n with
  | O => Done s
  | S n =>
    item ← read_cell items i;
    '(_, s) ← tide_packet_ref_reset (Some (ri_packet item)) s;
    reset_loop n (S i) items s
  end.

Definition tide_reorder_queue_destroy (queue : option tide_reorder_queue) (s : lease_store)
    : outcome (option tide_reorder_queue * lease_store) :=
  match queue with
  | None => Done (None, s)
  | Some q =>
    s ← reset_loop (Z.to_nat (rq_count q)) 0 (rq_items q) s;
    Done (Some (mk_queue [] 0 0 (rq_limit q)), s)
  end.

Definition queue_grow (q : tide_reorder_queue) (s : lease_store)
    : outcome (tide_status * tide_reorder_queue * lease_store) :=
  if rq_count q =? rq_capacity q then
    let next := if rq_capacity q =? 0 then 8 else rq_capacity q *u 2 in
    let next := if next >? rq_limit q then rq_limit q else next in
    _ ← assert_def (next * REORDER_ITEM_SIZE <=? SIZE_MAX);
    let (grown, h) := alloc (st_heap s) in
    if negb grown then Done (TIDE_STATUS_RESOURCE, q, set_heap h s)
    else Done (TIDE_STATUS_OK, mk_queue (resize (rq_items q) next) (rq_count q) next (rq_limit q), set_heap h s)
  else Done (TIDE_STATUS_OK, q, s).

(** The insertion loop from position [pos]: the array and the final position. *)
Fixpoint shift_loop (pos : nat) (items : cells tide_reorder_item) (packet : tide_packet_ref) (epoch : Z)
    : outcome (cells tide_reorder_item * nat) :=
  match pos with
  | O => Done (items, O)
  | S k =>
    item ← read_cell items k;
    if tide_packet_less packet epoch (ri_packet item) (ri_epoch item) then
      items ← write_cell items (S k) item;
      shift_loop k items packet epoch
    else Done (items, S k)
  end.

Definition tide_reorder_queue_push (queue : option tide_reorder_queue) (packet : option tide_packet_ref) (epoch : Z)
    (s : lease_store) : outcome (tide_status * option tide_reorder_queue * option tide_packet_ref * lease_store) :=
  match queue, packet with
  | Some q, Some p =>
    if rq_count q >=? rq_limit q then Done (TIDE_STATUS_RESOURCE, queue, packet, s)
    else
      '(status, q, s) ← queue_grow q s;
      if negb (bool_decide (status = TIDE_STATUS_OK)) then Done (status, Some q, packet, s)
      else
        '(items, pos) ← shift_loop (Z.to_nat (rq_count q)) (rq_items q) p epoch;
        '(status, stored, packet, s) ← tide_packet_ref_move false (Some zero_packet) packet s;
        stored ← deref stored;
        items ← write_cell items pos (mk_item stored epoch);
        Done (status, Some (mk_queue items (rq_count q +u 1) (rq_capacity q) (rq_limit q)), packet, s)
  | _, _ => Done (TIDE_STATUS_INVALID_ARGUMENT, queue, packet, s)
  end.

(** The loop that closes the gap, from cell [i], [n] cells left. *)
Fixpoint close_loop (n : nat) (i : nat) (items : cells tide_reorder_item) : outcome (cells tide_reorder_item) :=
  match n with
  | O => Done items
  | S n =>
    item ← read_cell items i;
    items ← write_cell items (i - 1) item;
    close_loop n (S i) items
  end.

Definition tide_reorder_queue_pop_ready (queue : option tide_reorder_queue) (out : option tide_packet_ref) (s : lease_store)
    : outcome (tide_status * option tide_reorder_queue * option tide_packet_ref * lease_store) :=
  match queue, out with
  | Some q, Some _ =>
    if rq_count q =? 0 then Done (TIDE_STATUS_WOULD_BLOCK, queue, out, s)
    else
      let out := tide_packet_ref_init out in
      first ← read_cell (rq_items q) 0;
      '(_, out, emptied, s) ← tide_packet_ref_move false out (Some (ri_packet first)) s;
      emptied ← deref emptied;
      items ← write_cell (rq_items q) 0 (mk_item emptied (ri_epoch first));
      items ← close_loop (Z.to_nat (rq_count q) - 1) 1 items;
      Done (TIDE_STATUS_OK, Some (mk_queue items (rq_count q -u 1) (rq_capacity q) (rq_limit q)), out, s)
  | _, _ => Done (TIDE_STATUS_INVALID_ARGUMENT, queue, out, s)
  end.

(** ** The order *)

Definition before (a b : tide_reorder_item) : bool := tide_packet_less (ri_packet a) (ri_epoch a) (ri_packet b) (ri_epoch b).

(** [a] may stand in front of [b]. *)
Definition in_order (a b : tide_reorder_item) : Prop := before b a = false.

(** The order is the lexicographic one on epoch, pts, dts and sequence. *)
Lemma before_lex a b :
  let i := ref_info (ri_packet a) in let j := ref_info (ri_packet b) in
  before a b = true <->
    ri_epoch a < ri_epoch b \/
    (ri_epoch a = ri_epoch b /\
      (pk_pts i < pk_pts j \/
       (pk_pts i = pk_pts j /\ (pk_dts i < pk_dts j \/ (pk_dts i = pk_dts j /\ pk_packet_seq i < pk_packet_seq j))))).
Proof. cbv zeta. unfold before, tide_packet_less. repeat (case_if; cbn [negb]); bool_props; rewrite ?Z.ltb_lt; lia. Qed.

Lemma in_order_lex a b :
  let i := ref_info (ri_packet a) in let j := ref_info (ri_packet b) in
  in_order a b <->
    ri_epoch a < ri_epoch b \/
    (ri_epoch a = ri_epoch b /\
      (pk_pts i < pk_pts j \/
       (pk_pts i = pk_pts j /\ (pk_dts i < pk_dts j \/ (pk_dts i = pk_dts j /\ pk_packet_seq i <= pk_packet_seq j))))).
Proof. cbv zeta. unfold in_order. rewrite <- not_true_iff_false, before_lex. lia. Qed.

#[export] Instance in_order_trans : Transitive in_order.
Proof. intros a b c. rewrite !in_order_lex. lia. Qed.
#[export] Instance in_order_total : Total in_order.
Proof. intros a b. rewrite !in_order_lex. lia. Qed.

Lemma before_in_order a b : before a b = true -> in_order a b.
Proof. rewrite before_lex, in_order_lex. lia. Qed.

(** ** The abstract queue: a sorted list *)

(** Behind the items that may stand in front, before the others. *)
Fixpoint insert_item (x : tide_reorder_item) (its : list tide_reorder_item) : list tide_reorder_item :=
  match its with
  | [] => [x]
  | y :: its => if before x y then x :: y :: its else y :: insert_item x its
  end.

Lemma insert_perm x its : insert_item x its ≡ₚ x :: its.
Proof. induction its as [|y its IH]; [reflexivity|]. cbn. destruct (before x y); [reflexivity|]. rewrite IH. constructor. Qed.

Lemma insert_sorted x its : StronglySorted in_order its -> StronglySorted in_order (insert_item x its).
Proof.
  induction 1 as [|y its Hs IH Hy]; [repeat constructor|]. cbn. destruct (before x y) eqn:E.
  - apply before_in_order in E. constructor; [constructor; assumption|]. constructor; [exact E|].
    eapply Forall_impl; [exact Hy|]. intros z. apply in_order_trans, E.
  - constructor; [exact IH|]. rewrite insert_perm. constructor; [exact E|exact Hy].
Qed.

(** Where the insertion loop stops. *)
Lemma insert_split x l r :
  Forall (fun y => before x y = true) r -> Forall (fun y => before x y = false) l -> insert_item x (l ++ r) = l ++ x :: r.
Proof.
  intros Hr. induction 1 as [|y l Hy Hl IH]; cbn.
  - destruct r as [|y r]; [reflexivity|]. cbn. inversion Hr; subst. rewrite H1. reflexivity.
  - rewrite Hy, IH. reflexivity.
Qed.

(** ** The array holds the abstract queue *)

Definition queue_rep (q : tide_reorder_queue) (its : list tide_reorder_item) : Prop :=
  holds (rq_items q) its /\
  rq_count q = zlen its /\ rq_capacity q = zlen (rq_items q) /\
  rq_count q <= rq_limit q /\ rq_capacity q <= rq_limit q /\ rq_limit q * REORDER_ITEM_SIZE <= SIZE_MAX.

Lemma shift_loop_spec p epoch l c r rest :
  StronglySorted in_order l -> Forall (fun y => before (mk_item p epoch) y = true) r ->
  exists l' r' c', l ++ r = l' ++ r' /\
    shift_loop (length l) (map Some l ++ c :: map Some r ++ rest) p epoch
      = Done (map Some l' ++ c' :: map Some r' ++ rest, length l') /\
    Forall (fun y => before (mk_item p epoch) y = true) r' /\ Forall (fun y => before (mk_item p epoch) y = false) l'.
Proof.
  revert c r. induction l as [|y l IH] using rev_ind; intros c r Hs Hr.
  { exists [], r, c. auto. }
  rewrite length_app, Nat.add_1_r. cbn [shift_loop]. rewrite map_snoc, read_cell_at, bind_done.
  change (tide_packet_less p epoch (ri_packet y) (ri_epoch y)) with (before (mk_item p epoch) y).
  destruct (before (mk_item p epoch) y) eqn:E.
  - replace (map Some l ++ Some y :: c :: map Some r ++ rest) with (map Some (l ++ [y]) ++ c :: map Some r ++ rest)
      by apply map_snoc.
    replace (S (length l)) with (length (l ++ [y])) by (rewrite length_app; cbn; lia).
    rewrite write_cell_at, bind_done, map_snoc.
    destruct (IH (Some y) (y :: r)) as (l' & r' & c' & El & Hl & H); [|constructor; assumption|].
    { apply StronglySorted_app in Hs. apply Hs. }
    exists l', r', c'. split; [rewrite <- El, <- app_assoc; reflexivity|]. split; [exact Hl|exact H].
  - exists (l ++ [y]), r, c. split; [reflexivity|]. split; [rewrite map_snoc, length_app, Nat.add_1_r; reflexivity|].
    split; [exact Hr|]. apply StronglySorted_app in Hs. destruct Hs as (Hx & _ & _).
    apply Forall_app. split; [|constructor; [exact E|constructor]].
    apply Forall_forall. intros z Hz. change (in_order z (mk_item p epoch)). transitivity y; [|exact E].
    apply Hx; [exact Hz|apply list_elem_of_here || set_solver].
Qed.

(** Growing keeps the queue and makes room for one more item, unless the
    allocation fails. *)
Lemma queue_grow_spec q its s :
  queue_rep q its -> rq_count q < rq_limit q ->
  exists st q' h', queue_grow q s = Done (st, q', set_heap h' s) /\
    ((st = TIDE_STATUS_OK /\ queue_rep q' its /\ rq_count q' < rq_capacity q' /\ rq_limit q' = rq_limit q) \/
     (st = TIDE_STATUS_RESOURCE /\ q' = q)) /\
    (st_heap s = [] -> st = TIDE_STATUS_OK /\ h' = []).
Proof.
  intros Hq Hlt. pose proof Hq as (Hi & Hc & Hcap & Hl & Hcl & Hm). unfold queue_grow, REORDER_ITEM_SIZE in *.
  pose proof (holds_zlen _ _ Hi). pose proof (zlen_nonneg its). destruct (Z.eqb_spec (rq_count q) (rq_capacity q)) as [Hf|Hf].
  2: { exists TIDE_STATUS_OK, q, (st_heap s). split; [destruct s; reflexivity|]. split; [|auto].
       left. split; [reflexivity|]. split; [exact Hq|]. split; [lia|reflexivity]. }
  set (next := if rq_capacity q =? 0 then 8 else rq_capacity q *u 2).
  set (next' := if next >? rq_limit q then rq_limit q else next).
  assert (Hn : rq_count q < next' <= rq_limit q).
  { unfold next', next. destruct (Z.eqb_spec (rq_capacity q) 0).
    - destruct (Z.gtb_spec 8 (rq_limit q)); lia.
    - rewrite wrap64_small by zlia. destruct (Z.gtb_spec (rq_capacity q * 2) (rq_limit q)); lia. }
  unfold assert_def. rewrite (proj2 (Z.leb_le _ _)) by lia. rewrite bind_done.
  destruct (alloc (st_heap s)) as [[] h] eqn:Ea; cbn [negb].
  2: { exists TIDE_STATUS_RESOURCE, q, h. split; [reflexivity|]. split; [auto|]. intros E. rewrite E in Ea. discriminate. }
  eexists TIDE_STATUS_OK, _, h. split; [reflexivity|]. split.
  2: { intros E. rewrite E in Ea. injection Ea as <-. auto. }
  left. split; [reflexivity|]. unfold queue_rep, REORDER_ITEM_SIZE. cbn [rq_items rq_count rq_capacity rq_limit].
  rewrite zlen_resize by lia. split; [|lia]. split; [apply holds_resize; [exact Hi|lia]|]. repeat split; lia.
Qed.

(** [tide_reorder_queue_push]: a full queue refuses, a failed allocation
    changes nothing, and otherwise the packet is moved to its place. *)
Lemma push_full q its s p epoch : queue_rep q its -> rq_limit q <= zlen its ->
  tide_reorder_queue_push (Some q) (Some p) epoch s = Done (TIDE_STATUS_RESOURCE, Some q, Some p, s).
Proof.
  intros (_ & Hc & _) Hl. unfold tide_reorder_queue_push. rewrite Z.geb_leb, (proj2 (Z.leb_le _ _)) by lia. reflexivity.
Qed.

Lemma queue_push_spec q its s p epoch :
  queue_rep q its -> StronglySorted in_order its -> synced s p -> zlen its < rq_limit q ->
  exists st q' p' h', tide_reorder_queue_push (Some q) (Some p) epoch s = Done (st, Some q', Some p', set_heap h' s) /\
    ((st = TIDE_STATUS_OK /\ queue_rep q' (insert_item (mk_item p epoch) its) /\ p' = zero_packet /\ rq_limit q' = rq_limit q) \/
     (st = TIDE_STATUS_RESOURCE /\ q' = q /\ p' = p)) /\
    (st_heap s = [] -> st = TIDE_STATUS_OK /\ h' = []).
Proof.
  intros Hq Hsort Hp Hlt. unfold tide_reorder_queue_push. pose proof Hq as (_ & Hc & _ & _ & _ & Hm0).
  rewrite Z.geb_leb, (proj2 (Z.leb_gt _ _)) by lia.
  destruct (queue_grow_spec q its s Hq ltac:(lia)) as (st & q1 & h' & -> & Hst & Hh). rewrite bind_done. cbv beta iota.
  destruct Hst as [(-> & Hq1 & Hroom & Hlim)|[-> ->]].
  2: { rewrite bool_decide_eq_false_2 by discriminate. cbn [negb]. exists TIDE_STATUS_RESOURCE, q, p, h'.
       split; [reflexivity|]. split; [right; auto|exact Hh]. }
  rewrite bool_decide_eq_true_2 by reflexivity. cbn [negb].
  destruct Hq1 as (Hi & Hc1 & Hcap & Hl & Hcl & Hm).
  destruct (holds_room _ _ Hi ltac:(lia)) as (c & rest & Hi'). rewrite Hi', Hc1.
  replace (Z.to_nat (zlen its)) with (length its) by (unfold zlen; lia).
  destruct (shift_loop_spec p epoch its c [] rest Hsort) as (l & r & c' & El & Hloop & Hr & Hl'); [constructor|].
  cbn [app map] in Hloop. rewrite Hloop, bind_done. cbv beta iota.
  rewrite move_into_zero by (eapply synced_leases; [|exact Hp]; reflexivity). rewrite bind_done. cbv beta iota. cbn [deref]. rewrite bind_done, write_cell_at, bind_done.
  eexists TIDE_STATUS_OK, _, zero_packet, h'. split; [reflexivity|]. split; [|exact Hh]. left.
  split; [reflexivity|]. split; [|split; [reflexivity|exact Hlim]].
  rewrite app_nil_r in El. subst its. rewrite (insert_split _ l r Hr Hl').
  pose proof (zlen_nonneg (l ++ r)). pose proof (zlen_nonneg rest).
  assert (Hz : zlen (map Some (l ++ mk_item p epoch :: r) ++ rest) = rq_capacity q1).
  { rewrite Hcap, Hi'. unfold zlen. rewrite !length_app, !length_map, !length_app. cbn [length]. lia. }
  assert (Hz2 : zlen (l ++ mk_item p epoch :: r) = zlen (l ++ r) + 1)
    by (unfold zlen; rewrite !length_app; cbn [length]; lia).
  unfold queue_rep, REORDER_ITEM_SIZE in *. cbn [rq_items rq_count rq_capacity rq_limit].
  rewrite wrap64_small by zlia. split; [exists rest; rewrite map_app, <- app_assoc; reflexivity|].
  replace (map Some l ++ Some (mk_item p epoch) :: map Some r ++ rest) with (map Some (l ++ mk_item p epoch :: r) ++ rest)
    by (rewrite map_app, <- app_assoc; reflexivity).
  repeat split; lia.
Qed.

Lemma close_loop_spec l c r rest :
  exists c', close_loop (length r) (S (length l)) (map Some l ++ c :: map Some r ++ rest) = Done (map Some (l ++ r) ++ c' :: rest).
Proof.
  revert l c. induction r as [|y r IH]; intros l c; [exists c; rewrite app_nil_r; reflexivity|].
  cbn [close_loop length map app]. 
  assert (Hread : read_cell (map Some l ++ c :: Some y :: map Some r ++ rest) (S (length l)) = Done y).
  { unfold read_cell. rewrite lookup_app_r by (rewrite length_map; lia). rewrite length_map.
    replace (S (length l) - length l)%nat with 1%nat by lia. reflexivity. }
  rewrite Hread, bind_done. replace (S (length l) - 1)%nat with (length l) by lia. rewrite write_cell_at, bind_done.
  destruct (IH (l ++ [y]) (Some y)) as (c' & H). exists c'. rewrite length_app, Nat.add_1_r, map_snoc in H.
  rewrite H, <- app_assoc. reflexivity.
Qed.

Lemma pop_empty q s out : queue_rep q [] ->
  tide_reorder_queue_pop_ready (Some q) (Some out) s = Done (TIDE_STATUS_WOULD_BLOCK, Some q, Some out, s).
Proof. intros (_ & Hc & _). unfold tide_reorder_queue_pop_ready. rewrite Hc. reflexivity. Qed.

Lemma queue_pop_spec q x its s out :
  queue_rep q (x :: its) -> synced s (ri_packet x) ->
  exists q', tide_reorder_queue_pop_ready (Some q) (Some out) s = Done (TIDE_STATUS_OK, Some q', Some (ri_packet x), s) /\
    queue_rep q' its /\ rq_limit q' = rq_limit q.
Proof.
  intros ((rest & Hi) & Hc & Hcap & Hl & Hcl & Hm) Hx. unfold tide_reorder_queue_pop_ready.
  pose proof (zlen_nonneg its). assert (Hz : zlen (x :: its) = zlen its + 1) by (unfold zlen; cbn [length]; lia).
  rewrite (proj2 (Z.eqb_neq _ _)) by lia. rewrite Hi. cbn [map app tide_packet_ref_init option_map].
  rewrite (read_cell_at [] x (map Some its ++ rest) : read_cell (Some x :: map Some its ++ rest) 0 = _), bind_done.
  rewrite move_into_zero by exact Hx. rewrite bind_done. cbv beta iota. cbn [deref]. rewrite bind_done.
  rewrite (write_cell_at [] (Some x) (map Some its ++ rest) _ : write_cell (Some x :: map Some its ++ rest) 0 _ = _), bind_done.
  replace (Z.to_nat (rq_count q) - 1)%nat with (length its) by (unfold zlen in *; lia).
  destruct (close_loop_spec [] (Some (mk_item zero_packet (ri_epoch x))) its rest) as (c' & Hclose). cbn [map app length] in Hclose |- *.
  rewrite Hclose, bind_done. eexists. split; [reflexivity|]. split; [|reflexivity].
  unfold queue_rep, REORDER_ITEM_SIZE in *. cbn [rq_items rq_count rq_capacity rq_limit]. rewrite wrap64_small by zlia.
  assert (zlen (map Some its ++ c' :: rest) = rq_capacity q)
    by (rewrite Hcap, Hi; unfold zlen; cbn [map app length]; rewrite !length_app; cbn [length]; lia).
  split; [exists (c' :: rest); reflexivity|]. repeat split; lia.
Qed.

(** ** Runs of the queue *)

Inductive queue_op : Set :=
  | Push (packet : tide_packet_ref) (epoch : Z)
  | Pop.

(** What a call returns: its status and the caller's reference afterwards. *)
Definition queue_reply : Set := tide_status * tide_packet_ref.

Definition queue_step (op : queue_op) (q : option tide_reorder_queue) (s : lease_store)
    : outcome (queue_reply * option tide_reorder_queue * lease_store) :=
  match op with
  | Push p epoch =>
    '(st, q, p, s) ← tide_reorder_queue_push q (Some p) epoch s; p ← deref p; Done ((st, p), q, s)
  | Pop =>
    '(st, q, p, s) ← tide_reorder_queue_pop_ready q (Some zero_packet) s; p ← deref p; Done ((st, p), q, s)
  end.

Fixpoint queue_run (ops : list queue_op) (q : option tide_reorder_queue) (s : lease_store)
    : outcome (list queue_reply * option tide_reorder_queue * lease_store) :=
  match ops with
  | [] => Done ([], q, s)
  | op :: ops =>
    '(r, q, s) ← queue_step op q s;
    '(rs, q, s) ← queue_run ops q s;
    Done (r :: rs, q, s)
  end.

(** The specification: a bounded sorted list. *)
Definition spec_step (limit : Z) (op : queue_op) (its : list tide_reorder_item) : queue_reply * list tide_reorder_item :=
  match op with
  | Push p epoch =>
    if limit <=? zlen its then ((TIDE_STATUS_RESOURCE, p), its)
    else ((TIDE_STATUS_OK, zero_packet), insert_item (mk_item p epoch) its)
  | Pop =>
    match its with
    | [] => ((TIDE_STATUS_WOULD_BLOCK, zero_packet), [])
    | x :: its => ((TIDE_STATUS_OK, ri_packet x), its)
    end
  end.

Fixpoint spec_run (limit : Z) (ops : list queue_op) (its : list tide_reorder_item) : list queue_reply * list tide_reorder_item :=
  match ops with
  | [] => ([], its)
  | op :: ops => let (r, its) := spec_step limit op its in let (rs, its) := spec_run limit ops its in (r :: rs, its)
  end.

Definition op_synced (s : lease_store) (op : queue_op) : Prop := match op with Push p _ => synced s p | Pop => True end.
Definition items_synced (s : lease_store) (its : list tide_reorder_item) : Prop := Forall (fun x => synced s (ri_packet x)) its.

(** One step of the queue is one step of the specification. *)
Lemma queue_simulation limit op q its s :
  queue_rep q its -> StronglySorted in_order its -> items_synced s its -> op_synced s op -> rq_limit q = limit -> st_heap s = [] ->
  exists q', queue_step op (Some q) s = Done ((spec_step limit op its).1, Some q', s) /\
    let its' := (spec_step limit op its).2 in
    queue_rep q' its' /\ StronglySorted in_order its' /\ items_synced s its' /\ rq_limit q' = limit.
Proof.
  intros Hq Hs Hi Hop <- Hh. destruct op as [p epoch|]; cbn [queue_step spec_step op_synced] in *.
  - destruct (Z.leb_spec (rq_limit q) (zlen its)) as [Hfull|Hroom].
    { rewrite push_full with (its := its) by assumption. rewrite bind_done. exists q. auto. }
    destruct (queue_push_spec q its s p epoch Hq Hs Hop Hroom) as (st & q' & p' & h' & -> & Hst & Hok).
    destruct (Hok Hh) as [-> ->]. replace (set_heap [] s) with s by (destruct s; cbn in *; subst; reflexivity).
    destruct Hst as [(_ & Hq' & -> & Hl)|[? _]]; [|discriminate]. rewrite bind_done. exists q'. split; [reflexivity|].
    cbv zeta. split; [exact Hq'|]. split; [apply insert_sorted, Hs|]. split; [|exact Hl].
    unfold items_synced. cbn [snd]. rewrite insert_perm. constructor; assumption.
  - destruct its as [|x its].
    { rewrite pop_empty by assumption. rewrite bind_done. exists q. auto. }
    inversion Hi; subst. inversion Hs; subst. destruct (queue_pop_spec q x its s zero_packet Hq H1) as (q' & -> & Hq' & Hl).
    rewrite bind_done. exists q'. auto.
Qed.

Lemma queue_run_simulation limit ops q its s :
  queue_rep q its -> StronglySorted in_order its -> items_synced s its -> Forall (op_synced s) ops -> rq_limit q = limit ->
  st_heap s = [] ->
  exists q', queue_run ops (Some q) s = Done ((spec_run limit ops its).1, Some q', s) /\
    queue_rep q' (spec_run limit ops its).2 /\ StronglySorted in_order (spec_run limit ops its).2 /\ rq_limit q' = limit.
Proof.
  revert q its. induction ops as [|op ops IH]; intros q its Hq Hs Hi Hops Hl Hh; [exists q; auto|].
  inversion Hops as [|? ? Hop Hrest]; subst. cbn [queue_run spec_run].
  destruct (queue_simulation _ op q its s Hq Hs Hi Hop eq_refl Hh) as (q' & -> & Hq' & Hs' & Hi' & Hl').
  rewrite bind_done. cbv beta iota. destruct (spec_step (rq_limit q) op its) as [r its']. cbn [fst snd] in *.
  destruct (IH q' its' Hq' Hs' Hi' Hrest Hl' Hh) as (q2 & -> & H2). rewrite bind_done. cbv beta iota.
  exists q2. destruct (spec_run (rq_limit q) ops its'). cbn [fst snd] in *. auto.
Qed.

Lemma init_rep limit : 0 < limit -> limit * REORDER_ITEM_SIZE <= SIZE_MAX -> queue_rep (mk_queue [] 0 0 limit) [].
Proof. intros. split; [exists []; reflexivity|]. cbn. unfold zlen. cbn. lia. Qed.

(** C23: a queue, from [tide_reorder_queue_init] on and for every sequence of
    pushes and pops, gives exactly the answers of a bounded sorted list, stays
    within its array, and leaves the leases alone. *)
Theorem reorder_queue_refines (limit : Z) (q0 : tide_reorder_queue) (ops : list queue_op) (s : lease_store) :
  0 < limit -> limit * REORDER_ITEM_SIZE <= SIZE_MAX -> Forall (op_synced s) ops -> st_heap s = [] ->
  exists q, tide_reorder_queue_init (Some q0) limit = (TIDE_STATUS_OK, Some q) /\
  exists q', queue_run ops (Some q) s = Done ((spec_run limit ops []).1, Some q', s) /\
    take (length (spec_run limit ops []).2) (rq_items q') = map Some (spec_run limit ops []).2 /\
    rq_count q' = zlen (spec_run limit ops []).2 /\
    rq_count q' <= rq_capacity q' /\ zlen (rq_items q') = rq_capacity q' /\ rq_capacity q' <= limit.
Proof.
  intros Hp Hm Hops Hh. exists (mk_queue [] 0 0 limit). unfold tide_reorder_queue_init. cbn [is_null orb].
  rewrite (proj2 (Z.eqb_neq limit 0)) by lia. split; [reflexivity|].
  destruct (queue_run_simulation limit ops (mk_queue [] 0 0 limit) [] s) as (q' & -> & ((rest & Hi) & Hc & Hcap & Hl & Hcl & _) & _ & Hlim);
    auto using init_rep, SSorted_nil; [constructor|].
  exists q'. split; [reflexivity|]. rewrite <- Hlim, Hc, Hcap in *.
  split; [rewrite Hi; apply take_app_length'; rewrite length_map; reflexivity|].
  split; [reflexivity|]. split; [|auto]. rewrite Hi, zlen_app. pose proof (zlen_nonneg rest). unfold zlen at 2. rewrite length_map. unfold zlen in *. lia.
Qed.

(** ** Draining: a stable sort *)

Definition same_key (x y : tide_reorder_item) : bool := negb (before x y) && negb (before y x).

Lemma same_key_in_order x y : same_key x y = true <-> in_order x y /\ in_order y x.
Proof. unfold same_key, in_order. rewrite andb_true_iff, !negb_true_iff. tauto. Qed.

(** Items of one key keep the order they were pushed in. *)
Lemma insert_stable k x its : StronglySorted in_order its ->
  List.filter (same_key k) (insert_item x its) = List.filter (same_key k) its ++ List.filter (same_key k) [x].
Proof.
  induction 1 as [|y its Hs IH Hy]; [reflexivity|]. cbn [insert_item]. destruct (before x y) eqn:E.
  - change (List.filter (same_key k) (x :: y :: its)) with (List.filter (same_key k) ([x] ++ (y :: its))).
    rewrite List.filter_app. cbn [List.filter]. destruct (same_key k x) eqn:Ex; [|rewrite app_nil_r; reflexivity].
    assert (Hno : List.filter (same_key k) (y :: its) = []).
    { assert (Hall : Forall (fun z => in_order y z) (y :: its)).
      { constructor; [unfold in_order; apply not_true_iff_false; rewrite before_lex; lia|exact Hy]. }
      revert Hall. generalize (y :: its) as l. intros l Hall. induction Hall as [|z l Hz Hl IHl]; [reflexivity|]. cbn.
      destruct (same_key k z) eqn:Ez; [|exact IHl]. exfalso. apply same_key_in_order in Ex, Ez.
      apply before_lex in E. destruct Ex, Ez. rewrite !in_order_lex in *. lia. }
    cbn [List.filter] in Hno. rewrite Hno. reflexivity.
  - cbn [List.filter] in *. rewrite IH. destruct (same_key k y); reflexivity.
Qed.

Definition pushes (xs : list tide_reorder_item) : list queue_op := map (fun x => Push (ri_packet x) (ri_epoch x)) xs.

Lemma spec_run_app limit ops1 ops2 its :
  spec_run limit (ops1 ++ ops2) its =
    ((spec_run limit ops1 its).1 ++ (spec_run limit ops2 (spec_run limit ops1 its).2).1,
     (spec_run limit ops2 (spec_run limit ops1 its).2).2).
Proof.
  revert its. induction ops1 as [|op ops1 IH]; intros its; [cbn; destruct (spec_run _ _ _); reflexivity|].
  cbn [app spec_run]. destruct (spec_step limit op its) as [r its1]. rewrite IH.
  destruct (spec_run limit ops1 its1) as [rs its2]. reflexivity.
Qed.

(** Pushing within the limit: everything is accepted; the queue is the stable
    sort of what it held and what was pushed. *)
Lemma spec_pushes limit xs its :
  zlen its + zlen xs <= limit -> StronglySorted in_order its ->
  exists its', spec_run limit (pushes xs) its = (replicate (length xs) (TIDE_STATUS_OK, zero_packet), its') /\
    StronglySorted in_order its' /\ its' ≡ₚ its ++ xs /\
    forall k, List.filter (same_key k) its' = List.filter (same_key k) (its ++ xs).
Proof.
  revert its. induction xs as [|x xs IH]; intros its Hl Hs.
  { exists its. rewrite app_nil_r. auto. }
  unfold zlen in *. cbn [length] in Hl. cbn [pushes map spec_run spec_step].
  rewrite (proj2 (Z.leb_gt _ _)) by (unfold zlen; lia). replace (mk_item (ri_packet x) (ri_epoch x)) with x by (destruct x; reflexivity).
  destruct (IH (insert_item x its)) as (its' & E & Hs' & Hp & Hf); [rewrite (Permutation_length (insert_perm x its)); cbn [length]; lia|apply insert_sorted, Hs|].
  unfold pushes in E. rewrite E. exists its'. split; [reflexivity|]. split; [exact Hs'|]. split.
  - rewrite Hp, insert_perm. apply Permutation_middle.
  - intros k. rewrite Hf, !List.filter_app, (insert_stable k x its Hs). rewrite <- app_assoc, <- List.filter_app. reflexivity.
Qed.

Lemma spec_pops limit its : spec_run limit (replicate (length its) Pop) its = (map (fun x => (TIDE_STATUS_OK, ri_packet x)) its, []).
Proof. induction its as [|x its IH]; [reflexivity|]. cbn [length replicate spec_run spec_step map]. rewrite IH. reflexivity. Qed.

(** C24: packets pushed within the limit come out by [tide_reorder_queue_pop_ready]
    in presentation order (epoch, pts, dts, sequence), each once, packets of
    equal order in the order they were pushed; then the queue is empty. *)
Theorem reorder_queue_drains (limit : Z) (xs : list tide_reorder_item) (s : lease_store) :
  0 < limit -> limit * REORDER_ITEM_SIZE <= SIZE_MAX -> zlen xs <= limit -> items_synced s xs -> st_heap s = [] ->
  exists ys q, queue_run (pushes xs ++ replicate (length xs) Pop) (Some (mk_queue [] 0 0 limit)) s
      = Done (replicate (length xs) (TIDE_STATUS_OK, zero_packet) ++ map (fun y => (TIDE_STATUS_OK, ri_packet y)) ys, Some q, s) /\
    StronglySorted in_order ys /\ ys ≡ₚ xs /\ (forall k, List.filter (same_key k) ys = List.filter (same_key k) xs) /\
    rq_count q = 0.
Proof.
  intros Hp Hm Hl Hx Hh.
  destruct (spec_pushes limit xs []) as (ys & E & Hs & Hperm & Hf); [exact Hl|constructor|].
  destruct (queue_run_simulation limit (pushes xs ++ replicate (length xs) Pop) (mk_queue [] 0 0 limit) [] s)
    as (q & Hrun & (_ & Hc & _) & _); auto using init_rep, SSorted_nil; [constructor| |].
  { apply Forall_app. split; [|apply Forall_replicate; exact I]. unfold pushes. apply Forall_map. exact Hx. }
  rewrite spec_run_app, E in Hrun, Hc. cbn [fst snd] in Hrun, Hc.
  rewrite <- (Permutation_length Hperm : length ys = length xs), spec_pops in Hrun, Hc. cbn [fst snd] in *.
  rewrite <- (Permutation_length Hperm : length ys = length xs). exists ys, q. rewrite Hrun. auto 6.
Qed.

(** ** Destroying a queue *)

Lemma reset_loop_spec its hs rest done s :
  balanced s (held_by (map ri_packet its) ++ hs) ->
  exists s', reset_loop (length its) (length done) (map Some (done ++ its) ++ rest) s = Done s' /\
    balanced s' hs /\ st_heap s' = st_heap s.
Proof.
  revert done s. induction its as [|x its IH]; intros done s Hb; [exists s; auto|].
  cbn [reset_loop length]. replace (map Some (done ++ x :: its) ++ rest) with (map Some done ++ Some x :: map Some its ++ rest)
    by (rewrite map_app, <- app_assoc; reflexivity).
  rewrite read_cell_at, bind_done. cbn [map] in Hb. rewrite held_by_cons, <- app_assoc in Hb.
  destruct (reset_spec s (ri_packet x) _ Hb) as (s' & -> & Hb' & Hh & _). rewrite bind_done. cbv beta iota.
  destruct (IH (done ++ [x]) s' Hb') as (s2 & Hs2 & Hb2 & Hh2). exists s2. rewrite <- Hh. split; [|auto].
  rewrite length_app, Nat.add_1_r in Hs2.
  replace (map Some done ++ Some x :: map Some its ++ rest) with (map Some ((done ++ [x]) ++ its) ++ rest)
    by (rewrite !map_app, <- !app_assoc; reflexivity).
  exact Hs2.
Qed.

(** C38: destroying a queue releases the lease of every packet still in it and
    nothing else, and leaves an empty queue. *)
Theorem reorder_queue_destroy_correct (q : tide_reorder_queue) (its : list tide_reorder_item) (hs : list lease_ptr) (s : lease_store) :
  queue_rep q its -> balanced s (held_by (map ri_packet its) ++ hs) ->
  exists s', tide_reorder_queue_destroy (Some q) s = Done (Some (mk_queue [] 0 0 (rq_limit q)), s') /\ balanced s' hs.
Proof.
  intros ((rest & Hi) & Hc & _) Hb. unfold tide_reorder_queue_destroy.
  destruct (reset_loop_spec its hs rest [] s Hb) as (s' & Hrun & Hb' & _). cbn [app length] in Hrun.
  rewrite Hc, Hi. replace (Z.to_nat (zlen its)) with (length its) by (unfold zlen; lia). rewrite Hrun, bind_done. eauto.
Qed.

(** Witnesses: a queue of three over packets without leases. *)
Definition plain_item (epoch pts seq : Z) : tide_reorder_item :=
  mk_item (mk_packet_ref (mk_packet_info 1 1 seq pts pts 10 0 (mk_payload_view None 0 None)) None) epoch.
Definition plain_items : list tide_reorder_item := [plain_item 0 20 1; plain_item 0 10 2; plain_item 0 20 1].

Lemma reorder_queue_refines_witness :
  exists q, tide_reorder_queue_init (Some (mk_queue [None] 5 7 9)) 2 = (TIDE_STATUS_OK, Some q) /\
  exists q', queue_run (pushes plain_items ++ [Pop; Pop; Pop]) (Some q) (empty_store [])
    = Done ([(TIDE_STATUS_OK, zero_packet); (TIDE_STATUS_OK, zero_packet); (TIDE_STATUS_RESOURCE, ri_packet (plain_item 0 20 1));
             (TIDE_STATUS_OK, ri_packet (plain_item 0 10 2)); (TIDE_STATUS_OK, ri_packet (plain_item 0 20 1));
             (TIDE_STATUS_WOULD_BLOCK, zero_packet)], Some q', empty_store []).
Proof.
  destruct (reorder_queue_refines 2 (mk_queue [None] 5 7 9) (pushes plain_items ++ [Pop; Pop; Pop]) (empty_store []))
    as (q & Hi & q' & Hr & _); [reflexivity|vm_compute; discriminate|repeat constructor|reflexivity|].
  exists q. split; [exact Hi|]. exists q'. exact Hr.
Defined.

Lemma reorder_queue_drains_witness :
  exists ys q, queue_run (pushes plain_items ++ [Pop; Pop; Pop]) (Some (mk_queue [] 0 0 3)) (empty_store [])
    = Done (replicate 3 (TIDE_STATUS_OK, zero_packet) ++ map (fun y => (TIDE_STATUS_OK, ri_packet y)) ys, Some q, empty_store []) /\
    ys ≡ₚ plain_items.
Proof.
  destruct (reorder_queue_drains 3 plain_items (empty_store [])) as (ys & q & H & _ & Hp & _);
    [reflexivity|vm_compute; discriminate|vm_compute; discriminate|repeat constructor|reflexivity|].
  exists ys, q. split; [exact H|exact Hp].
Defined.

Definition leased_item : tide_reorder_item := mk_item (mk_packet_ref (ref_info zero_packet) (Some 5%positive)) 0.
Definition leased_queue : tide_reorder_queue := mk_queue [Some leased_item; None] 1 2 2.
Definition leased_store : lease_store := mk_store {[5%positive := mk_lease 1 (Some [x07]) 1 3]} 4 [].

Lemma reorder_queue_destroy_correct_witness :
  exists s', tide_reorder_queue_destroy (Some leased_queue) leased_store = Done (Some (mk_queue [] 0 0 2), s') /\ balanced s' [].
Proof.
  apply (reorder_queue_destroy_correct leased_queue [leased_item] []).
  - split; [exists [None]; reflexivity|]. cbn. unfold zlen, REORDER_ITEM_SIZE. cbn. lia.
  - intros p. change (held_by (map ri_packet [leased_item]) ++ []) with [5%positive].
    destruct (decide (p = 5%positive)) as [->|Hne].
    + rewrite handles_eq. split; [reflexivity|]. split; [lia|]. split; [reflexivity|]. split; [reflexivity|]. split; discriminate.
    + unfold leased_store. cbn [st_leases]. rewrite lookup_singleton_ne by auto. rewrite handles_ne by auto. reflexivity.
Defined.
