(* ===== verification/Index.v ===== *)
(** * The index builder

    [src/index/index_builder.c]: a growing table of index entries whose record
    offsets never go down.  The three cells behind [entries], [count] and
    [capacity] are those of one table; a null pointer among the arguments is
    [None]. *)

From S2P Require Import Prelude Status.

Record tide_index_entry : Set := mk_index_entry {
  ie_track_id : Z;
  ie_packet_seq : Z;
  ie_pts : Z;
  ie_record_offset : Z
}.

Definition INDEX_ENTRY_SIZE : Z := 32.

Record index_table : Set := mk_table {
  it_entries : cells tide_index_entry;
  it_count : Z;
  it_capacity : Z
}.

(** Whether the new entry lies before the last one. *)
Definition index_goes_back (t : index_table) (entry : tide_index_entry) : outcome bool :=
  if it_count t =? 0 then Done false
  else
    last ← read_cell (it_entries t) (Z.to_nat (it_count t - 1));
    Done (ie_record_offset entry <? ie_record_offset last).

(** The table with room for one more entry; [None] when [realloc] fails.  An
    allocation size that wraps is counted as undefined. *)
Definition index_grow (t : index_table) (h : heap) : outcome (option index_table * heap) :=
  if it_count t =? it_capacity t then
    let next := if it_capacity t =? 0 then 16 else it_capacity t *u 2 in
    _ ← assert_def (next * INDEX_ENTRY_SIZE <=? SIZE_MAX);
    let (grown, h) := alloc h in
    if negb grown then Done (None, h)
    else Done (Some (mk_table (resize (it_entries t) next) (it_count t) next), h)
  else Done (Some t, h).

Definition tide_index_builder_add (table : option index_table) (entry : option tide_index_entry) (h : heap)
    : outcome (tide_status * option index_table * heap) :=
  match table, entry with
  | Some t, Some e =>
    back ← index_goes_back t e;
    if (back : bool) then Done (TIDE_STATUS_INDEX, table, h)
    else
      '(grown, h) ← index_grow t h;
      match grown with
      | None => Done (TIDE_STATUS_RESOURCE, table, h)
      | Some t =>
        entries ← write_cell (it_entries t) (Z.to_nat (it_count t)) e;
        Done (TIDE_STATUS_OK, Some (mk_table entries (it_count t +u 1) (it_capacity t)), h)
      end
  | _, _ => Done (TIDE_STATUS_INVALID_ARGUMENT, table, h)
  end.

Definition empty_table : index_table := mk_table [] 0 0.

(** ** Invariant *)

Definition offset_le (a b : tide_index_entry) : Prop := ie_record_offset a <= ie_record_offset b.
#[export] Instance offset_le_trans : Transitive offset_le.
Proof. intros a b c. unfold offset_le. lia. Qed.

(** The table holds the entries [es], in order of offset. *)
Definition table_rep (t : index_table) (es : list tide_index_entry) : Prop :=
  holds (it_entries t) es /\ it_count t = zlen es /\ it_capacity t = zlen (it_entries t) /\
  it_capacity t <= Z.max 16 (2 * zlen es) /\ StronglySorted offset_le es.

(** [e] may follow [es]. *)
Definition may_follow (es : list tide_index_entry) (e : tide_index_entry) : bool :=
  match last es with Some l => negb (ie_record_offset e <? ie_record_offset l) | None => true end.

Lemma empty_table_rep : table_rep empty_table [].
Proof. split; [exists []; reflexivity|]. unfold zlen. cbn. repeat split; lia || constructor. Qed.

Lemma goes_back_spec t es e : table_rep t es -> index_goes_back t e = Done (negb (may_follow es e)).
Proof.
  intros ([rest Hi] & Hc & _). unfold index_goes_back, may_follow.
  destruct es as [|l es _] using rev_ind; [rewrite Hc; reflexivity|]. rewrite last_snoc, negb_involutive.
  assert (Hz : zlen (es ++ [l]) = zlen es + 1) by apply zlen_app. pose proof (zlen_nonneg es).
  rewrite (proj2 (Z.eqb_neq _ _)) by lia. rewrite Hi, Hc, Hz.
  replace (Z.to_nat (zlen es + 1 - 1)) with (length es) by (unfold zlen; lia). rewrite map_snoc, read_cell_at. reflexivity.
Qed.

Lemma sorted_snoc es e : StronglySorted offset_le es -> may_follow es e = true -> StronglySorted offset_le (es ++ [e]).
Proof.
  intros Hs Hm. apply StronglySorted_app_2; [|exact Hs|repeat constructor].
  intros x y Hx Hy. apply list_elem_of_singleton in Hy. subst y. unfold may_follow in Hm.
  destruct es as [|l es _] using rev_ind; [set_solver|]. rewrite last_snoc in Hm. bool_props.
  assert (Hxl : offset_le x l).
  { apply elem_of_app in Hx. destruct Hx as [Hx|Hx]; [|apply list_elem_of_singleton in Hx; subst; unfold offset_le; lia].
    apply (StronglySorted_app_1_elem_of offset_le es [l]); [exact Hs|exact Hx|set_solver]. }
  unfold offset_le in *. lia.
Qed.

Lemma index_grow_spec t es h :
  table_rep t es -> 2 * zlen es * INDEX_ENTRY_SIZE <= SIZE_MAX ->
  exists o h', index_grow t h = Done (o, h') /\ (h = [] -> is_Some o /\ h' = []) /\
    match o with None => True | Some t' => table_rep t' es /\ zlen es < zlen (it_entries t') end.
Proof.
  intros Ht Hm. pose proof Ht as (Hi & Hc & Hcap & Hb & Hs). unfold index_grow, INDEX_ENTRY_SIZE in *.
  pose proof (holds_zlen _ _ Hi). pose proof (zlen_nonneg es). destruct (Z.eqb_spec (it_count t) (it_capacity t)) as [Hf|Hf].
  2: { exists (Some t), h. split; [reflexivity|]. split; [eauto|]. split; [exact Ht|lia]. }
  set (next := if it_capacity t =? 0 then 16 else it_capacity t *u 2).
  assert (Hn : zlen es < next <= Z.max 16 (2 * zlen es)).
  { unfold next. destruct (Z.eqb_spec (it_capacity t) 0); [lia|]. rewrite wrap64_small by zlia. lia. }
  unfold assert_def. rewrite (proj2 (Z.leb_le _ _)) by lia. rewrite bind_done.
  destruct (alloc h) as [[] h'] eqn:Ea; cbn [negb].
  - eexists (Some _), h'. split; [reflexivity|]. split; [intros ->; injection Ea as <-; eauto|].
    unfold table_rep. cbn [it_entries it_count it_capacity]. rewrite zlen_resize by lia. split; [|lia].
    split; [apply holds_resize; [exact Hi|lia]|]. split; [exact Hc|]. split; [reflexivity|]. split; [lia|exact Hs].
  - exists None, h'. split; [reflexivity|]. split; [intros ->; discriminate|exact I].
Qed.

(** C39: adding to a table of entries in order of record offset is defined; an
    entry that lies before the last one is refused with [INDEX], a failed
    allocation gives [RESOURCE], both without a change; otherwise the entry is
    appended and the table stays in order.  Without failing allocations only
    the order decides. *)
Theorem tide_index_builder_add_correct (t : index_table) (es : list tide_index_entry) (e : tide_index_entry) (h : heap) :
  table_rep t es -> 2 * zlen es * INDEX_ENTRY_SIZE <= SIZE_MAX ->
  exists st t' h', tide_index_builder_add (Some t) (Some e) h = Done (st, Some t', h') /\
    ((st = TIDE_STATUS_OK /\ may_follow es e = true /\ table_rep t' (es ++ [e])) \/
     (st = TIDE_STATUS_INDEX /\ may_follow es e = false /\ t' = t) \/
     (st = TIDE_STATUS_RESOURCE /\ may_follow es e = true /\ t' = t)) /\
    (h = [] -> st <> TIDE_STATUS_RESOURCE).
Proof.
  intros Ht Hm. unfold tide_index_builder_add. rewrite (goes_back_spec t es e Ht), bind_done.
  destruct (may_follow es e) eqn:Ef; cbn [negb].
  2: { exists TIDE_STATUS_INDEX, t, h. split; [reflexivity|]. split; [auto|discriminate]. }
  destruct (index_grow_spec t es h Ht Hm) as (o & h' & -> & Hh & Ho). rewrite bind_done. cbv beta iota.
  destruct o as [t1|].
  2: { exists TIDE_STATUS_RESOURCE, t, h'. split; [reflexivity|]. split; [auto|]. intros E. destruct (Hh E) as [[? ?] _]. discriminate. }
  destruct Ho as ((Hi & Hc & Hcap & Hb & Hs) & Hroom). destruct (holds_room _ _ Hi Hroom) as (c & rest & Hi').
  rewrite Hi', Hc. replace (Z.to_nat (zlen es)) with (length es) by (unfold zlen; lia). rewrite write_cell_at, bind_done.
  eexists TIDE_STATUS_OK, _, h'. split; [reflexivity|]. split; [|discriminate]. left. split; [reflexivity|]. split; [reflexivity|].
  pose proof (zlen_nonneg es). unfold INDEX_ENTRY_SIZE in Hm.
  unfold table_rep. cbn [it_entries it_count it_capacity]. rewrite wrap64_small by zlia. rewrite zlen_app. change (zlen [e]) with 1.
  split; [exists rest; apply eq_sym, map_snoc|]. split; [reflexivity|].
  split; [rewrite Hcap, Hi'; unfold zlen; rewrite !length_app; reflexivity|]. split; [lia|]. apply sorted_snoc; assumption.
Qed.

Lemma tide_index_builder_add_correct_witness :
  let e n := mk_index_entry 1 n 0 (100 * n) in
  exists st t' h', tide_index_builder_add (Some (mk_table (map Some [e 1; e 2]) 2 2)) (Some (e 1)) [] = Done (st, Some t', h') /\
    st = TIDE_STATUS_INDEX.
Proof.
  cbv zeta. set (t := mk_table (map Some [mk_index_entry 1 1 0 100; mk_index_entry 1 2 0 200]) 2 2).
  destruct (tide_index_builder_add_correct t [mk_index_entry 1 1 0 100; mk_index_entry 1 2 0 200] (mk_index_entry 1 1 0 100) [])
    as (st & t' & h' & H & Hst & _).
  - split; [exists []; reflexivity|]. unfold zlen. cbn. repeat split; try lia. repeat constructor; unfold offset_le; cbn; lia.
  - vm_compute. discriminate.
  - exists st, t', h'. split; [exact H|]. destruct Hst as [(_ & Hf & _)|[(Hst & _)|(_ & Hf & _)]]; [discriminate|exact Hst|discriminate].
Defined.
