(* ===== verification/Source.v ===== *)
(** * Byte sources

    [src/source/memory_source.c] and [src/source/source.c]: a copy of a file in
    memory.  The C library's file functions are given by their results. *)

From S2P Require Import Prelude Status.

Record tide_source : Set := mk_source {
  src_data : option (list byte);
  src_size : Z;
  src_generation : Z
}.

(** [malloc(size)] filled by [fill]; no allocation for no byte.  [None] when
    the allocation fails. *)
Definition source_data (size : Z) (fill : outcome (list byte)) (h : heap)
    : outcome (option (option (list byte)) * heap) :=
  if size =? 0 then Done (Some None, h)
  else
    let (ok, h) := alloc h in
    if negb ok then Done (None, h) else bytes ← fill; Done (Some (Some bytes), h).

(** [out] is [None] when null, and otherwise the cell behind it. *)
Definition tide_source_from_memory (out : option (option tide_source)) (data : option (list byte)) (size : Z) (h : heap)
    : outcome (tide_status * option (option tide_source) * heap) :=
  if is_null out || (is_null data && negb (size =? 0)) then Done (TIDE_STATUS_INVALID_ARGUMENT, out, h)
  else
    let (ok, h) := alloc h in
    if negb ok then Done (TIDE_STATUS_RESOURCE, Some None, h)
    else
      '(copy, h) ← source_data size (data ← deref data; span data 0 size) h;
      match copy with
      | None => Done (TIDE_STATUS_RESOURCE, Some None, h)
      | Some copy => Done (TIDE_STATUS_OK, Some (Some (mk_source copy size 1)), h)
      end.

(** What the C library answers when the file is read: whether [fopen] and the
    two [fseek] succeed, what [ftell] returns, and the bytes [fread] gives
    when it is asked for some. *)
Record input_file : Set := mk_input {
  in_open : bool;
  in_seek_end : bool;
  in_tell : Z;
  in_seek_set : bool;
  in_read : Z -> list byte
}.

(** An existing file of these bytes that can be read. *)
Definition readable (content : list byte) : input_file :=
  mk_input true true (zlen content) true (fun n => take (Z.to_nat n) content).

Definition tide_source_from_file (out : option (option tide_source)) (path : option input_file) (h : heap)
    : outcome (tide_status * option (option tide_source) * heap) :=
  match out, path with
  | Some _, Some file =>
    if negb (in_open file) then Done (TIDE_STATUS_IO, Some None, h)
    else if negb (in_seek_end file) then Done (TIDE_STATUS_IO, Some None, h)
    else
      let length := in_tell file in
      if length <? 0 then Done (TIDE_STATUS_IO, Some None, h)
      else if negb (in_seek_set file) then Done (TIDE_STATUS_IO, Some None, h)
      else
        let (ok, h) := alloc h in
        if negb ok then Done (TIDE_STATUS_RESOURCE, Some None, h)
        else
          '(data, h) ← source_data length (Done (in_read file length)) h;
          match data with
          | None => Done (TIDE_STATUS_RESOURCE, Some None, h)
          | Some data =>
            if negb (length =? 0) && negb (zlen (default [] data) =? length) then Done (TIDE_STATUS_IO, Some None, h)
            else Done (TIDE_STATUS_OK, Some (Some (mk_source data length 1)), h)
          end
  | _, _ => Done (TIDE_STATUS_INVALID_ARGUMENT, out, h)
  end.

(** [free] of the source: nothing of it can be read afterwards. *)
Definition tide_source_destroy (source : option tide_source) : option tide_source := None.

Definition tide_source_data (source : option tide_source) : option (list byte) := s ← source; src_data s.
Definition tide_source_size (source : option tide_source) : Z := match source with None => 0 | Some s => src_size s end.

(** ** Properties *)

(** The bytes of a source, as a reader gets them. *)
Definition source_wf (s : tide_source) (bytes : list byte) : Prop :=
  default [] (src_data s) = bytes /\ src_size s = zlen bytes /\ src_generation s = 1.

Definition source_of (bytes : list byte) : tide_source :=
  mk_source (if zlen bytes =? 0 then None else Some bytes) (zlen bytes) 1.

Lemma source_of_wf bytes : source_wf (source_of bytes) bytes.
Proof.
  unfold source_wf, source_of. cbn. split; [|auto]. destruct (Z.eqb_spec (zlen bytes) 0) as [E|]; [|reflexivity].
  unfold zlen in E. destruct bytes; [reflexivity|discriminate].
Qed.

Lemma from_memory_spec o (data : list byte) n h :
  0 <= n <= zlen data ->
  exists st r h', tide_source_from_memory (Some o) (Some data) n h = Done (st, Some r, h') /\
    ((st = TIDE_STATUS_OK /\ r = Some (source_of (slice data 0 n))) \/ (st = TIDE_STATUS_RESOURCE /\ r = None)) /\
    (h = [] -> st = TIDE_STATUS_OK /\ h' = []).
Proof.
  intros Hn. unfold tide_source_from_memory, source_data, source_of. cbn [is_null orb andb]. rewrite zlen_slice by lia.
  destruct (alloc h) as [[] h1] eqn:E1; cbn [negb].
  2: { exists TIDE_STATUS_RESOURCE, None, h1. split; [reflexivity|]. split; [auto|intros ->; discriminate]. }
  destruct (n =? 0).
  { rewrite bind_done. eexists TIDE_STATUS_OK, _, h1. split; [reflexivity|]. split; [auto|]. intros ->. injection E1 as <-. auto. }
  destruct (alloc h1) as [[] h2] eqn:E2; cbn [negb].
  2: { rewrite bind_done. exists TIDE_STATUS_RESOURCE, None, h2. split; [reflexivity|]. split; [auto|]. intros ->. injection E1 as <-. discriminate. }
  cbn [deref]. rewrite bind_done, span_done by lia. rewrite !bind_done. eexists TIDE_STATUS_OK, _, h2.
  split; [reflexivity|]. split; [auto|]. intros ->. injection E1 as <-. injection E2 as <-. auto.
Qed.

(** The status of reading a file, step by step as the code takes them. *)
Definition file_status (file : input_file) : tide_status :=
  if in_open file && in_seek_end file && (0 <=? in_tell file) && in_seek_set file &&
     ((in_tell file =? 0) || (zlen (in_read file (in_tell file)) =? in_tell file))
  then TIDE_STATUS_OK else TIDE_STATUS_IO.

(** The bytes read. *)
Definition file_bytes (file : input_file) : list byte := if in_tell file =? 0 then [] else in_read file (in_tell file).

Lemma from_file_spec o file h :
  exists st r h', tide_source_from_file (Some o) (Some file) h = Done (st, Some r, h') /\
    match r with
    | Some s => st = TIDE_STATUS_OK /\ file_status file = TIDE_STATUS_OK /\ s = source_of (file_bytes file) /\
        zlen (file_bytes file) = in_tell file
    | None => st = TIDE_STATUS_IO \/ st = TIDE_STATUS_RESOURCE
    end /\
    (h = [] -> st = file_status file /\ h' = []).
Proof.
  unfold tide_source_from_file, file_status, file_bytes, source_of, source_data.
  destruct (in_open file); cbn [negb andb]; [|eexists _, None, _; auto].
  destruct (in_seek_end file); cbn [negb andb]; [|eexists _, None, _; auto].
  rewrite Z.leb_antisym. destruct (in_tell file <? 0); cbn [negb andb]; [eexists _, None, _; auto|].
  destruct (in_seek_set file); cbn [negb andb]; [|eexists _, None, _; auto].
  destruct (alloc h) as [[] h1] eqn:E1; cbn [negb].
  2: { eexists _, None, _. split; [reflexivity|]. split; [auto|]. intros ->. discriminate. }
  assert (Hh1 : h = [] -> h1 = []) by (intros ->; injection E1 as <-; reflexivity).
  destruct (Z.eqb_spec (in_tell file) 0) as [E0|E0]; cbn [orb].
  { rewrite bind_done, E0. cbv beta iota. eexists _, (Some _), _. split; [reflexivity|]. split; [|auto]. repeat split. }
  destruct (alloc h1) as [[] h2] eqn:E2; cbn [negb].
  2: { rewrite bind_done. eexists _, None, _. split; [reflexivity|]. split; [auto|]. intros E. rewrite (Hh1 E) in E2. discriminate. }
  assert (Hh2 : h = [] -> h2 = []) by (intros E; rewrite (Hh1 E) in E2; injection E2 as <-; reflexivity).
  rewrite !bind_done. cbv beta iota. cbn [default]. unfold id. cbn [negb andb].
  destruct (Z.eqb_spec (zlen (in_read file (in_tell file))) (in_tell file)) as [El|El]; cbn [negb].
  - rewrite El, (proj2 (Z.eqb_neq _ _) E0). eexists _, (Some _), _. split; [reflexivity|]. split; [|auto]. repeat split.
  - eexists _, None, _. auto.
Qed.

(** C40: reading a file into memory is defined whatever the C library and the
    allocator answer; it gives a source exactly when every step succeeds, a
    source that holds all the bytes read, and otherwise leaves a null pointer
    with [IO] or [RESOURCE]. *)
Theorem tide_source_from_file_correct (o : option tide_source) (file : input_file) (h : heap) :
  exists st r h', tide_source_from_file (Some o) (Some file) h = Done (st, Some r, h') /\
    match r with
    | Some s => st = TIDE_STATUS_OK /\ file_status file = TIDE_STATUS_OK /\
        source_wf s (if in_tell file =? 0 then [] else in_read file (in_tell file))
    | None => st = TIDE_STATUS_IO \/ st = TIDE_STATUS_RESOURCE
    end /\
    (h = [] -> st = file_status file).
Proof.
  destruct (from_file_spec o file h) as (st & r & h' & Hrun & Hr & Hst). exists st, r, h'. split; [exact Hrun|].
  split; [|intros E; apply Hst, E]. destruct r as [s|]; [|exact Hr]. destruct Hr as (E & Hf & -> & _).
  split; [exact E|]. split; [exact Hf|]. exact (source_of_wf (file_bytes file)).
Qed.
