(* ===== verification/Samples.v ===== *)
(** * A sample file

    A file with a header, a stream descriptor aligned to 8 bytes and a group
    that holds one packet: the concrete input of the examples and of the
    satisfiability lemmas. *)

From S2P Require Import Prelude.

Definition sample_header : list byte := map byte_of_Z [
    84; 73; 68; 69; 49; 13; 10; 26; 1; 0; 0; 0; 1; 0; 0; 0; 0; 0; 0; 0; 0; 0; 0; 0; 0; 0; 0; 0; 1; 0; 0; 0;
    232; 3; 0; 0; 0; 0; 0; 0; 0; 0; 0; 0; 0; 0; 0; 0; 0; 0; 0; 0; 0; 0; 0; 4; 0; 0; 0; 0; 0; 0; 0; 0; 0; 0; 0;
    0; 13; 180; 115; 246 ].

(** The stream descriptor of track 1, generation 0. *)
Definition sample_stream_record : list byte := map byte_of_Z [
    16; 0; 0; 0; 10; 0; 3; 0; 26; 1; 1; 0; 0; 0; 0; 0; 0; 0; 2; 0; 0; 0; 97; 0; 0; 0; 1; 0; 0; 0; 232; 3; 0;
    0; 1; 7; 0; 0; 0; 0; 144; 118; 230; 115 ].

(** A group with one packet record. *)
Definition sample_group_record : list byte := map byte_of_Z [
    1; 0; 0; 0; 10; 0; 2; 0; 81; 3; 0; 0; 0; 0; 61; 0; 0; 0; 0; 0; 0; 0; 9; 0; 0; 0; 0; 0; 0; 0; 32; 0; 0; 0;
    10; 0; 0; 0; 47; 2; 1; 0; 0; 0; 0; 0; 0; 0; 5; 0; 0; 0; 0; 0; 0; 0; 255; 255; 255; 255; 255; 255; 255;
    255; 3; 0; 0; 0; 0; 0; 0; 0; 4; 0; 0; 0; 0; 0; 0; 0; 1; 0; 0; 0; 2; 170; 187; 140; 124; 135; 91; 0; 205;
    101; 255; 69 ].

Definition sample_file : list byte := sample_header ++ sample_stream_record ++ sample_group_record.
