(* ===== verification/Frame.v ===== *)
(** * Record framing

    The decoder's parse state and the two framing functions of
    [src/format/decoder.c]: the record prefix and the integrity check.  The
    state is what the parsing functions can change: the track table of the
    decoder, the cells behind [error] and [valid_prefix], the user's state
    behind the callbacks, and the allocator. *)

From S2P Require Import Prelude Status Checked Crc Reader Rational Model.

Record pstate (U : Type) : Type := mk_pstate {
  ps_tracks : list tide_track_snapshot;
  ps_track_capacity : Z;
  ps_error : option tide_error;
  ps_valid_prefix : option Z;
  ps_user : U;
  ps_heap : heap
}.
Arguments mk_pstate {U}.
Arguments ps_tracks {U}.
Arguments ps_track_capacity {U}.
Arguments ps_error {U}.
Arguments ps_valid_prefix {U}.
Arguments ps_user {U}.
Arguments ps_heap {U}.

(** Parsing code. *)
Definition parse_m (U A : Type) : Type := pstate U -> outcome (A * pstate U).

#[export] Instance parse_ret {U} : MRet (parse_m U) := fun A a s => Done (a, s).
#[export] Instance parse_bind {U} : MBind (parse_m U) := fun A B f m s =>
  match m s with
  | Done (a, s) => f a s
  | Undef => Undef
  | NoFuel => NoFuel
  end.
Definition lift {U A} (o : outcome A) : parse_m U A := fun s => a ← o; Done (a, s).

Lemma run_lift {U A B} (o : outcome A) (f : A -> parse_m U B) s a : o = Done a -> (lift o ≫= f) s = f a s.
Proof. intros ->. reflexivity. Qed.

Definition set_error {U} (e : option tide_error) (s : pstate U) : pstate U :=
  mk_pstate (ps_tracks s) (ps_track_capacity s) e (ps_valid_prefix s) (ps_user s) (ps_heap s).
Definition set_prefix {U} (v : Z) (s : pstate U) : pstate U :=
  mk_pstate (ps_tracks s) (ps_track_capacity s) (ps_error s) (Some v) (ps_user s) (ps_heap s).
Definition set_user {U} (u : U) (s : pstate U) : pstate U :=
  mk_pstate (ps_tracks s) (ps_track_capacity s) (ps_error s) (ps_valid_prefix s) u (ps_heap s).

(** [tide_set_parse_error(error, ...)]. *)
Definition tide_set_parse_error {U} (status : tide_status) (offset type depth : Z) (message : string)
    : parse_m U unit := fun s =>
  Done (tt, set_error (tide_error_set (ps_error s) status TIDE_SEVERITY_ERROR offset type depth
                         (Some "decoder"%string) (Some message)) s).

(** Set the error and return its status. *)
Definition fail_with {U} (status : tide_status) (offset type depth : Z) (message : string)
    : parse_m U tide_status :=
  _ ← tide_set_parse_error status offset type depth message; mret status.

Lemma fail_with_done {U} st off ty d msg (s : pstate U) :
  fail_with st off ty d msg s =
    Done (st, set_error (tide_error_set (ps_error s) st TIDE_SEVERITY_ERROR off ty d
                           (Some "decoder"%string) (Some msg)) s).
Proof. reflexivity. Qed.

(** [*valid_prefix = v]. *)
Definition write_valid_prefix {U} (v : Z) : parse_m U unit := fun s =>
  _ ← deref (ps_valid_prefix s); Done (tt, set_prefix v s).

(** The fields of a prefix, in the two groups the code reads them in. *)
Definition read_prefix_head : reader_m (Z * Z * Z * Z) :=
  type ← tide_reader_read_u16;
  flags ← tide_reader_read_u16;
  header_size ← tide_reader_read_u16;
  alignment_log2 ← tide_reader_read_u8;
  mret (type, flags, header_size, alignment_log2).

Definition read_prefix_tail : reader_m (Z * Z) :=
  _ ← tide_reader_skip 1;
  payload_size ← tide_reader_read_uleb128;
  sequence ← tide_reader_read_uleb128;
  mret (payload_size, sequence).

(** The overflow-checked ends of a record: payload, padding and CRC; [one]
    is [1ull << alignment_log2]. *)
Definition record_ends (offset header_size payload_size one : Z) : option (Z * Z * Z) :=
  record_payload_end ← tide_checked_add_u64 header_size payload_size;
  payload_end ← tide_checked_add_u64 offset record_payload_end;
  record_padded_end ← tide_align_u64 record_payload_end one;
  padding_end ← tide_checked_add_u64 offset record_padded_end;
  crc_end ← tide_checked_add_u64 padding_end 4;
  if (payload_end >? SIZE_MAX) || (padding_end >? SIZE_MAX) || (crc_end >? SIZE_MAX) then None
  else Some (payload_end, padding_end, crc_end).

(** [tide_decode_record_prefix]: [inl] is a status other than [OK], [inr] the
    frame it fills. *)
Definition tide_decode_record_prefix {U} (data : list byte) (size offset depth : Z)
    : parse_m U (tide_status + tide_record_frame) :=
  if size -u offset <? 8 then mret (inl TIDE_STATUS_TRUNCATED)
  else
    obj ← lift (span data offset (size -u offset));
    '(head, reader) ← lift (read_prefix_head (tide_reader_init obj (size -u offset)));
    match head with
    | None => mret (inl TIDE_STATUS_TRUNCATED)
    | Some (type, flags, header_size, alignment_log2) =>
      '(tail, reader) ← lift (read_prefix_tail reader);
      match tail with
      | None => mret (inl TIDE_STATUS_TRUNCATED)
      | Some (payload_size, sequence) =>
        if negb (header_size =? rd_offset reader) || (alignment_log2 >? 4) then
          st ← fail_with TIDE_STATUS_FORMAT offset type depth "invalid record prefix"; mret (inl st)
        else
          one ← lift (shl64 1 alignment_log2);
          match record_ends offset header_size payload_size one with
          | None =>
            st ← fail_with TIDE_STATUS_RESOURCE offset type depth "record size overflow"; mret (inl st)
          | Some (payload_end, padding_end, crc_end) =>
            if crc_end >? size then mret (inl TIDE_STATUS_TRUNCATED)
            else mret (inr (mk_frame type flags header_size alignment_log2 payload_size sequence
                              offset (offset +u header_size) payload_end padding_end crc_end depth))
          end
      end
    end.

(** The padding loop of [tide_validate_record_integrity] from byte [i], [n]
    bytes left: the offset of the first nonzero byte. *)
Fixpoint padding_loop (n : nat) (i : Z) (data : list byte) : outcome (option Z) :=
  match n with
  | O => Done None
  | S n =>
    b ← load data i;
    if negb (b =? 0) then Done (Some i) else padding_loop n (i +u 1) data
  end.

Definition tide_validate_record_integrity {U} (data : list byte) (frame : tide_record_frame)
    : parse_m U tide_status :=
  bad ← lift (padding_loop (Z.to_nat (fr_padding_end frame - fr_payload_end frame)) (fr_payload_end frame) data);
  match bad with
  | Some i => fail_with TIDE_STATUS_FORMAT i (fr_type frame) (fr_depth frame) "nonzero padding"
  | None =>
    b0 ← lift (load data (fr_padding_end frame));
    b1 ← lift (load data (fr_padding_end frame +u 1));
    b2 ← lift (load data (fr_padding_end frame +u 2));
    b3 ← lift (load data (fr_padding_end frame +u 3));
    let stored := Z.lor (Z.lor (Z.lor b0 (Z.shiftl b1 8)) (Z.shiftl b2 16)) (Z.shiftl b3 24) in
    record ← lift (span data (fr_offset frame) (fr_padding_end frame -u fr_offset frame));
    actual ← lift (tide_crc32c record (fr_padding_end frame -u fr_offset frame));
    if negb (stored =? actual) then
      fail_with TIDE_STATUS_INTEGRITY (fr_padding_end frame) (fr_type frame) (fr_depth frame) "record crc mismatch"
    else mret TIDE_STATUS_OK
  end.

(** ** Framing as a function of the bytes *)

Definition p_prefix_head : parser (Z * Z * Z * Z) :=
  type ← p_le 2; flags ← p_le 2; header_size ← p_le 2; alignment_log2 ← p_le 1;
  mret (type, flags, header_size, alignment_log2).
Definition p_prefix_tail : parser (Z * Z) :=
  _ ← p_skip 1; payload_size ← p_uleb; sequence ← p_uleb; mret (payload_size, sequence).

#[export] Instance refines_prefix_head : refines read_prefix_head p_prefix_head.
Proof. unfold read_prefix_head, p_prefix_head. apply _. Qed.
#[export] Instance refines_prefix_tail : refines read_prefix_tail p_prefix_tail.
Proof. unfold read_prefix_tail, p_prefix_tail. apply _. Qed.
#[export] Instance exact_prefix_head : exact p_prefix_head.
Proof. unfold p_prefix_head. apply _. Qed.
#[export] Instance exact_prefix_tail : exact p_prefix_tail.
Proof. unfold p_prefix_tail. apply _. Qed.

Definition p_prefix : parser (Z * Z * Z * Z * (Z * Z)) :=
  h ← p_prefix_head; t ← p_prefix_tail; mret (h, t).
#[export] Instance exact_prefix : exact p_prefix.
Proof. unfold p_prefix. apply _. Qed.

Inductive framing : Set :=
  | Incomplete
  | Malformed (status : tide_status) (type : Z) (message : string)
  | Framed (frame : tide_record_frame).

(** The framing of the bytes [bs] that remain at [offset], below [size]. *)
Definition frame_of (bs : list byte) (size offset depth : Z) : framing :=
  match p_prefix bs with
  | None => Incomplete
  | Some ((type, flags, header_size, alignment_log2, (payload_size, sequence)), cs) =>
    if negb (header_size =? zlen bs - zlen cs) || (4 <? alignment_log2) then
      Malformed TIDE_STATUS_FORMAT type "invalid record prefix"
    else
      match record_ends offset header_size payload_size (2 ^ alignment_log2) with
      | None => Malformed TIDE_STATUS_RESOURCE type "record size overflow"
      | Some (payload_end, padding_end, crc_end) =>
        if size <? crc_end then Incomplete
        else Framed (mk_frame type flags header_size alignment_log2 payload_size sequence
                       offset (offset + header_size) payload_end padding_end crc_end depth)
      end
  end.

Lemma p_prefix_range bs type flags hs al ps sq cs :
  p_prefix bs = Some ((type, flags, hs, al, (ps, sq)), cs) ->
  is_u16 type /\ is_u16 flags /\ is_u16 hs /\ is_u8 al /\ is_u64 ps /\ is_u64 sq /\
  10 <= zlen bs - zlen cs <= 28.
Proof.
  unfold p_prefix, p_prefix_head, p_prefix_tail. intros H. parse_inv H.
  injection H; intros; subst. parse_lengths. ranges. repeat split; lia.
Qed.

(** The end of the padded record, from its start. *)
Definition padded (header_size payload_size alignment_log2 : Z) : Z :=
  align_up (header_size + payload_size) (2 ^ alignment_log2).

Lemma record_ends_spec offset hs ps al :
  is_u64 offset -> 0 <= hs -> 0 <= ps -> is_u64 hs -> is_u64 ps -> 0 <= al <= 4 ->
  record_ends offset hs ps (2 ^ al) =
    if offset + padded hs ps al + 4 <=? UINT64_MAX then
      Some (offset + (hs + ps), offset + padded hs ps al, offset + padded hs ps al + 4)
    else None.
Proof.
  intros Ho Hh0 Hp0 Hh Hp Hal. unfold record_ends, padded.
  assert (Hpow : 0 < 2 ^ al <= 16) by (split; [apply Z.pow_pos_nonneg; lia|apply (Z.pow_le_mono_r 2 al 4); lia]).
  destruct (align_up_spec (hs + ps) (2 ^ al)) as (Hdiv & Hb & _); [lia|lia|].
  set (pad := align_up (hs + ps) (2 ^ al)) in *.
  assert (Hmask : pad + 4 <= UINT64_MAX -> hs + ps + (2 ^ al - 1) <= UINT64_MAX).
  { intros Hlt. destruct Hdiv as [q Hq].
    assert (Hal' : al = 0 \/ al = 1 \/ al = 2 \/ al = 3 \/ al = 4) by lia.
    destruct Hal' as [-> | [-> | [-> | [-> | ->]]]]; simpl in *; lia. }
  rewrite checked_add_spec by assumption.
  destruct (Z.leb_spec (hs + ps) UINT64_MAX) as [H1|H1]; cbn [mbind option_bind].
  2: { rewrite (proj2 (Z.leb_gt _ _)) by zlia. reflexivity. }
  rewrite checked_add_spec by zlia.
  destruct (Z.leb_spec (offset + (hs + ps)) UINT64_MAX) as [H2|H2]; cbn [mbind option_bind].
  2: { rewrite (proj2 (Z.leb_gt _ _)) by zlia. reflexivity. }
  rewrite align_pow2 by zlia. fold pad.
  destruct (Z.leb_spec (hs + ps + (2 ^ al - 1)) UINT64_MAX) as [H3|H3]; cbn [mbind option_bind].
  2: { rewrite (proj2 (Z.leb_gt _ _)) by zlia. reflexivity. }
  rewrite checked_add_spec by zlia.
  destruct (Z.leb_spec (offset + pad) UINT64_MAX) as [H4|H4]; cbn [mbind option_bind].
  2: { rewrite (proj2 (Z.leb_gt _ _)) by zlia. reflexivity. }
  rewrite checked_add_spec by zlia.
  destruct (Z.leb_spec (offset + pad + 4) UINT64_MAX) as [H5|H5]; cbn [mbind option_bind]; [|reflexivity].
  rewrite !Z.gtb_ltb, !(proj2 (Z.ltb_ge SIZE_MAX _)) by lia. reflexivity.
Qed.

Lemma pow2_al_pos al : 0 <= al -> 0 < 2 ^ al.
Proof. intros. apply Z.pow_pos_nonneg; lia. Qed.

Lemma padded_bounds hs ps al :
  0 <= hs -> 0 <= ps -> 0 <= al <= 4 -> hs + ps <= padded hs ps al < hs + ps + 16.
Proof.
  intros. assert (0 < 2 ^ al <= 16) by (split; [apply pow2_al_pos; lia|apply (Z.pow_le_mono_r 2 al 4); lia]).
  destruct (align_up_spec (hs + ps) (2 ^ al)) as (_ & Hb & _); unfold padded; lia.
Qed.

(** The frame of a complete record lies in the object, past its prefix. *)
Definition frame_wf (f : tide_record_frame) (size : Z) : Prop :=
  0 <= fr_offset f /\ 10 <= fr_header_size f <= 28 /\ fr_payload_offset f = fr_offset f + fr_header_size f /\
  is_u16 (fr_type f) /\ is_u16 (fr_flags f) /\ is_u64 (fr_sequence f) /\
  0 <= fr_alignment_log2 f <= 4 /\ 0 <= fr_payload_size f /\
  fr_payload_end f = fr_payload_offset f + fr_payload_size f /\
  fr_padding_end f = fr_offset f + padded (fr_header_size f) (fr_payload_size f) (fr_alignment_log2 f) /\
  fr_payload_end f <= fr_padding_end f < fr_payload_end f + 16 /\
  fr_crc_end f = fr_padding_end f + 4 /\ fr_crc_end f <= size.

Lemma frame_of_wf bs size offset depth f :
  is_u64 offset -> frame_of bs size offset depth = Framed f ->
  frame_wf f size /\ fr_offset f = offset /\ fr_depth f = depth.
Proof.
  unfold frame_of. intros Ho.
  destruct (p_prefix bs) as [[[[[[type flags] hs] al] [ps sq]] cs]|] eqn:Ep; [|discriminate].
  apply p_prefix_range in Ep as (Ht & Hfl & Hh & Hal & Hps & Hsq & Hlen).
  destruct (negb (hs =? zlen bs - zlen cs) || (4 <? al)) eqn:Ec; [discriminate|].
  bool_props. subst hs. rewrite record_ends_spec by zlia.
  destruct (Z.leb_spec (offset + padded (zlen bs - zlen cs) ps al + 4) UINT64_MAX); [|discriminate].
  destruct (Z.ltb_spec size (offset + padded (zlen bs - zlen cs) ps al + 4)); [discriminate|].
  intros [= <-]. unfold frame_wf. cbn.
  pose proof (padded_bounds (zlen bs - zlen cs) ps al ltac:(zlia) ltac:(zlia) ltac:(zlia)).
  repeat split; try zlia; auto.
Qed.

(** [tide_decode_record_prefix] computes the framing. *)
Lemma decode_prefix_eq {U} (data : list byte) size offset depth (s : pstate U) :
  0 <= offset <= size -> size <= zlen data -> size < 2 ^ 64 ->
  tide_decode_record_prefix data size offset depth s =
    match frame_of (slice data offset (size - offset)) size offset depth with
    | Incomplete => Done (inl TIDE_STATUS_TRUNCATED, s)
    | Malformed st type msg => (r ← fail_with st offset type depth msg; mret (inl r)) s
    | Framed f => Done (inr f, s)
    end.
Proof.
  intros Ho Hs Hm. unfold tide_decode_record_prefix, frame_of. set (bs := slice data offset (size - offset)).
  assert (Hl : zlen bs = size - offset) by (apply zlen_slice; lia).
  rewrite (wrap64_small (size - offset)) by zlia.
  destruct (Z.ltb_spec (size - offset) 8) as [H8|H8].
  { destruct (p_prefix bs) as [[[[[[? ?] ?] ?] [? ?]] cs]|] eqn:Ep; [|reflexivity].
    apply p_prefix_range in Ep as (_ & _ & _ & _ & _ & _ & Hlen). pose proof (zlen_nonneg cs). lia. }
  unfold lift. rewrite span_done by lia. fold bs.
  unfold mbind at 1, parse_bind at 1. rewrite bind_done.
  destruct (run_init read_prefix_head p_prefix_head bs (size - offset) Hl ltac:(lia)) as (r1 & Hr1 & H1).
  unfold p_prefix. unfold mbind at 1, parse_bind at 1.
  change ((p_prefix_head ≫= (fun h => p_prefix_tail ≫= (fun t => mret (h, t)))) bs)
    with (match p_prefix_head bs with Some (h, cs) => (p_prefix_tail ≫= (fun t => mret (h, t))) cs | None => None end).
  destruct (p_prefix_head bs) as [[[[[type flags] hs] al] cs1]|] eqn:E1.
  2: { rewrite H1. reflexivity. }
  destruct H1 as (-> & Hrest & Hoff). rewrite bind_done. cbv beta iota.
  destruct (refines_spec (m := read_prefix_tail) r1 (proj1 Hr1)) as (r2 & Hr2 & H2). rewrite Hrest in H2.
  unfold mbind at 1, parse_bind at 1.
  change ((p_prefix_tail ≫= (fun t => mret (type, flags, hs, al, t))) cs1)
    with (match p_prefix_tail cs1 with Some (t, cs) => Some ((type, flags, hs, al, t), cs) | None => None end).
  destruct (p_prefix_tail cs1) as [[[ps sq] cs2]|] eqn:E2.
  2: { rewrite H2. reflexivity. }
  destruct H2 as [-> Hrest2]. rewrite bind_done. cbv beta iota.
  assert (Ep : p_prefix bs = Some ((type, flags, hs, al, (ps, sq)), cs2)).
  { unfold p_prefix, mbind, parser_bind. rewrite E1, E2. reflexivity. }
  apply p_prefix_range in Ep as (Ht & Hfl & Hh & Hal & Hps & Hsq & Hlen).
  assert (Hroff : rd_offset r2 = zlen bs - zlen cs2).
  { pose proof (zlen_rest r2 (proj1 Hr2)) as Hz. rewrite Hrest2 in Hz.
    destruct Hr2 as (_ & _ & Hs2 & _). destruct Hr1 as (_ & _ & Hs1 & _). simpl in Hs1. lia. }
  rewrite Hroff, Z.gtb_ltb.
  destruct (negb (hs =? zlen bs - zlen cs2) || (4 <? al)) eqn:Ec; [reflexivity|]. bool_props.
  rewrite shl64_done, Z.shiftl_1_l by zlia. unfold mbind at 1, parse_bind at 1. rewrite bind_done.
  assert (0 < 2 ^ al <= 16) by (split; [apply pow2_al_pos; zlia|apply (Z.pow_le_mono_r 2 al 4); zlia]).
  rewrite (wrap64_small (2 ^ al)) by zlia. rewrite record_ends_spec by zlia.
  destruct (Z.leb_spec (offset + padded hs ps al + 4) UINT64_MAX); [|reflexivity].
  rewrite Z.gtb_ltb. destruct (Z.ltb_spec size (offset + padded hs ps al + 4)); [reflexivity|].
  pose proof (padded_bounds hs ps al ltac:(zlia) ltac:(zlia) ltac:(zlia)).
  rewrite (wrap64_small (offset + hs)) by zlia. reflexivity.
Qed.

(** ** Integrity as a function of the bytes *)

Fixpoint first_nonzero (i : Z) (bs : list byte) : option Z :=
  match bs with
  | [] => None
  | b :: bs => if u8 b =? 0 then first_nonzero (i + 1) bs else Some i
  end.

(** The error of the integrity check, [None] for an intact record. *)
Definition integrity_of (data : list byte) (f : tide_record_frame) : option (tide_status * Z * string) :=
  match first_nonzero (fr_payload_end f) (slice data (fr_payload_end f) (fr_padding_end f - fr_payload_end f)) with
  | Some i => Some (TIDE_STATUS_FORMAT, i, "nonzero padding"%string)
  | None =>
    if le_Z (slice data (fr_padding_end f) 4) =? crc32c (slice data (fr_offset f) (fr_padding_end f - fr_offset f))
    then None
    else Some (TIDE_STATUS_INTEGRITY, fr_padding_end f, "record crc mismatch"%string)
  end.

Lemma slice_cons (m : list byte) off n b :
  m !! Z.to_nat off = Some b -> 0 <= off -> 0 < n -> slice m off n = b :: slice m (off + 1) (n - 1).
Proof.
  intros Hb Ho Hn. unfold slice. rewrite (drop_S _ _ _ Hb).
  replace (Z.to_nat n) with (S (Z.to_nat (n - 1))) by lia.
  replace (Z.to_nat (off + 1)) with (S (Z.to_nat off)) by lia. reflexivity.
Qed.

Lemma padding_loop_eq n i (data : list byte) :
  0 <= i -> i + Z.of_nat n <= zlen data -> zlen data < 2 ^ 64 ->
  padding_loop n i data = Done (first_nonzero i (slice data i (Z.of_nat n))).
Proof.
  revert i. induction n as [|n IH]; intros i Hi Hn Hm; [reflexivity|].
  destruct (load_spec data i) as (b & Hb & Hl); [lia|].
  cbn [padding_loop]. rewrite Hl, bind_done. rewrite (slice_cons data i _ b Hb) by lia. cbn [first_nonzero].
  destruct (u8 b =? 0); cbn [negb]; [|reflexivity].
  rewrite wrap64_small by zlia. rewrite IH by lia. do 3 f_equal. lia.
Qed.

Lemma load4 (data : list byte) i :
  0 <= i -> i + 4 <= zlen data ->
  exists a b c d, slice data i 4 = [a; b; c; d] /\ load data i = Done (u8 a) /\
    load data (i + 1) = Done (u8 b) /\ load data (i + 2) = Done (u8 c) /\ load data (i + 3) = Done (u8 d).
Proof.
  intros Hi Hn.
  destruct (load_spec data i) as (a & Ha & La); [lia|].
  destruct (load_spec data (i + 1)) as (b & Hb & Lb); [lia|].
  destruct (load_spec data (i + 2)) as (c & Hc & Lc); [lia|].
  destruct (load_spec data (i + 3)) as (d & Hd & Ld); [lia|].
  exists a, b, c, d. repeat split; try assumption.
  rewrite (slice_cons _ _ _ _ Ha), (slice_cons _ _ _ _ Hb) by lia.
  replace (i + 1 + 1) with (i + 2) by lia. rewrite (slice_cons _ _ _ _ Hc) by lia.
  replace (i + 2 + 1) with (i + 3) by lia. rewrite (slice_cons _ _ _ _ Hd) by lia. reflexivity.
Qed.

Lemma validate_integrity_eq {U} (data : list byte) f size (s : pstate U) :
  frame_wf f size -> size <= zlen data -> zlen data < 2 ^ 64 ->
  tide_validate_record_integrity data f s =
    match integrity_of data f with
    | None => Done (TIDE_STATUS_OK, s)
    | Some (st, off, msg) => fail_with st off (fr_type f) (fr_depth f) msg s
    end.
Proof.
  intros (H0 & Hh & Hpo & _ & _ & _ & Hal & Hps & Hpe & Hpad & Hb & Hce & Hsz) Hs Hm.
  unfold tide_validate_record_integrity, integrity_of.
  unfold mbind at 1, parse_bind at 1, lift at 1.
  rewrite padding_loop_eq, bind_done by lia. rewrite Z2Nat.id by lia.
  destruct (first_nonzero _ _) as [i|]; [reflexivity|].
  destruct (load4 data (fr_padding_end f)) as (a & b & c & d & Hsl & La & Lb & Lc & Ld); [lia|lia|].
  rewrite !(wrap64_small (fr_padding_end f + _)) by zlia.
  rewrite !(wrap64_small (fr_padding_end f - fr_offset f)) by zlia.
  rewrite (run_lift _ _ _ _ La), (run_lift _ _ _ _ Lb), (run_lift _ _ _ _ Lc), (run_lift _ _ _ _ Ld).
  erewrite run_lift by (apply span_done; lia). erewrite run_lift by (apply tide_crc32c_span; lia).
  rewrite lor4, Hsl.
  destruct (le_Z [a; b; c; d] =? crc32c (slice data (fr_offset f) (fr_padding_end f - fr_offset f))); reflexivity.
Qed.

(** ** Framing and integrity depend on the bytes of the record only *)

(** The first [n] bytes agree. *)
Definition agree (n : Z) (d1 d2 : list byte) : Prop := take (Z.to_nat n) d1 = take (Z.to_nat n) d2.

Lemma agree_slice n d1 d2 off k :
  agree n d1 d2 -> 0 <= off -> 0 <= k -> off + k <= n -> slice d1 off k = slice d2 off k.
Proof.
  intros Ha Ho Hk Hn. rewrite <- (slice_take d1 n off k), <- (slice_take d2 n off k) by lia.
  rewrite Ha. reflexivity.
Qed.

Lemma agree_le n m d1 d2 : agree n d1 d2 -> 0 <= m <= n -> agree m d1 d2.
Proof.
  unfold agree. intros Ha Hm. apply (f_equal (take (Z.to_nat m))) in Ha.
  rewrite !take_take in Ha. replace (Z.to_nat m `min` Z.to_nat n)%nat with (Z.to_nat m) in Ha by lia. exact Ha.
Qed.

Lemma agree_app d ds : agree (zlen d) d (d ++ ds).
Proof. unfold agree, zlen. rewrite Nat2Z.id, take_app_length, firstn_all. reflexivity. Qed.

Lemma agree_sym n d1 d2 : agree n d1 d2 -> agree n d2 d1.
Proof. unfold agree. auto. Qed.

Lemma integrity_agree n d1 d2 f :
  frame_wf f n -> agree n d1 d2 -> integrity_of d1 f = integrity_of d2 f.
Proof.
  intros (H0 & Hh & Hpo & _ & _ & _ & Hal & Hps & Hpe & Hpad & Hb & Hce & Hsz) Ha.
  unfold integrity_of.
  rewrite (agree_slice n d1 d2 (fr_payload_end f) (fr_padding_end f - fr_payload_end f)) by (assumption || lia).
  rewrite (agree_slice n d1 d2 (fr_padding_end f) 4) by (assumption || lia).
  rewrite (agree_slice n d1 d2 (fr_offset f) (fr_padding_end f - fr_offset f)) by (assumption || lia).
  reflexivity.
Qed.

(** More bytes and a larger bound do not change a framing that is not
    incomplete. *)
Lemma frame_of_extend bs ds size size' offset depth :
  size <= size' -> frame_of bs size offset depth <> Incomplete ->
  frame_of (bs ++ ds) size' offset depth = frame_of bs size offset depth.
Proof.
  intros Hs. unfold frame_of.
  destruct (p_prefix bs) as [[[[[[type flags] hs] al] [ps sq]] cs]|] eqn:Ep; [|congruence].
  rewrite (exact_extend _ _ _ _ ds Ep), !zlen_app.
  replace (zlen bs + zlen ds - (zlen cs + zlen ds)) with (zlen bs - zlen cs) by lia.
  destruct (negb (hs =? zlen bs - zlen cs) || (4 <? al)); [reflexivity|].
  destruct (record_ends offset hs ps (2 ^ al)) as [[[pe pad] ce]|]; [|reflexivity].
  destruct (Z.ltb_spec size ce); [congruence|].
  rewrite (proj2 (Z.ltb_ge size' ce)) by lia. reflexivity.
Qed.

Lemma frame_of_agree d1 d2 e1 e2 offset depth :
  0 <= offset -> offset <= e1 -> e1 <= e2 -> agree e1 d1 d2 ->
  frame_of (slice d1 offset (e1 - offset)) e1 offset depth <> Incomplete ->
  frame_of (slice d2 offset (e2 - offset)) e2 offset depth =
    frame_of (slice d1 offset (e1 - offset)) e1 offset depth.
Proof.
  intros H0 Ho He Ha Hne. rewrite (agree_slice e1 d1 d2) in * by (assumption || lia).
  replace (e2 - offset) with ((e1 - offset) + (e2 - e1)) by lia.
  rewrite slice_split by lia. apply frame_of_extend; assumption.
Qed.
