(* ===== verification/Validate.v ===== *)
(** * Record bodies

    The part of [src/format/decoder.c] that reads the payload of one record:
    the track table, the stream and packet bodies, and the bodies that are
    only validated ([tide_emit_simple_record]).  A run of reads and conditions
    with one error exit, [if (!a || !b || c) { set error; return status; }], is
    a chain of reads under [or_fail].  As for the reader, each body is proved
    to refine a function on the list of its bytes ([checks]). *)

From S2P Require Import Prelude Status Checked Crc Reader Rational Edit Model Frame.

(** ** The track table *)

Fixpoint tide_find_track (tracks : list tide_track_snapshot) (track_id generation : Z)
    : option tide_track_snapshot :=
  match tracks with
  | [] => None
  | t :: tracks =>
    if (tr_track_id t =? track_id) && (tr_generation t =? generation) then Some t
    else tide_find_track tracks track_id generation
  end.
Definition known (tracks : list tide_track_snapshot) (track_id generation : Z) : bool :=
  negb (is_null (tide_find_track tracks track_id generation)).

Definition TRACK_SNAPSHOT_SIZE : Z := 20.

Definition set_tracks {U} (tracks : list tide_track_snapshot) (capacity : Z) (h : heap) (s : pstate U) : pstate U :=
  mk_pstate tracks capacity (ps_error s) (ps_valid_prefix s) (ps_user s) h.

(** Store the snapshot at [impl->tracks[impl->track_count]]. *)
Definition store_track {U} (stream : tide_stream_info) : parse_m U tide_status := fun s =>
  _ ← assert_def (zlen (ps_tracks s) <? ps_track_capacity s);
  Done (TIDE_STATUS_OK,
        set_tracks (ps_tracks s ++
            [mk_track_snapshot (si_track_id stream) (si_generation stream) (si_media_kind stream)
               (si_codec_tag stream) (si_time_base stream)])
          (ps_track_capacity s) (ps_heap s) s).

(** An allocation size that wraps is counted as undefined. *)
Definition tide_add_track {U} (limits : tide_limits) (stream : tide_stream_info) (offset : Z)
    : parse_m U tide_status := fun s =>
  if known (ps_tracks s) (si_track_id stream) (si_generation stream) then
    fail_with TIDE_STATUS_FORMAT offset TIDE_RECORD_STREAM_DESC 0 "duplicate stream generation" s
  else if zlen (ps_tracks s) >=? max_tracks limits then
    fail_with TIDE_STATUS_RESOURCE offset TIDE_RECORD_STREAM_DESC 0 "track limit exceeded" s
  else if zlen (ps_tracks s) =? ps_track_capacity s then
    let next := if ps_track_capacity s =? 0 then 8 else ps_track_capacity s *u 2 in
    _ ← assert_def (next * TRACK_SNAPSHOT_SIZE <=? SIZE_MAX);
    let (grown, h) := alloc (ps_heap s) in
    if negb grown then Done (TIDE_STATUS_RESOURCE, set_tracks (ps_tracks s) (ps_track_capacity s) h s)
    else store_track stream (set_tracks (ps_tracks s) next h s)
  else store_track stream s.

(** Call a callback, if there is one. *)
Definition call {U X} (callback : option (X -> U -> tide_status * U)) (x : X) : parse_m U tide_status := fun s =>
  match callback with
  | None => Done (TIDE_STATUS_OK, s)
  | Some f => let (st, u) := f x (ps_user s) in Done (st, set_user u s)
  end.

(** ** Chains of reads with an error exit *)

(** The status and message of the exit taken, or the value. *)
Definition verdict (A : Type) : Type := (tide_status * string) + A.
Definition check_m (A : Type) : Type := tide_reader -> outcome (verdict A * tide_reader).

#[export] Instance check_ret : MRet check_m := fun A a r => Done (inr a, r).
#[export] Instance check_bind : MBind check_m := fun A B f m r =>
  match m r with
  | Done (inr a, r) => f a r
  | Done (inl e, r) => Done (inl e, r)
  | Undef => Undef
  | NoFuel => NoFuel
  end.
Definition reject {A} (status : tide_status) (message : string) : check_m A := fun r =>
  Done (inl (status, message), r).
Definition or_fail {A} (m : reader_m A) (status : tide_status) (message : string) : check_m A := fun r =>
  '(o, r) ← m r;
  Done (match o with Some a => inr a | None => inl (status, message) end, r).

(** [if (reader.offset != payload_size) ...]. *)
Definition at_end (payload_size : Z) (status : tide_status) (message : string) : check_m unit := fun r =>
  Done (if negb (rd_offset r =? payload_size) then inl (status, message) else inr tt, r).

(** [for (; i < count; ++i) body], carrying [a] from round to round. *)
Fixpoint check_for {A} (fuel : nat) (i count : Z) (body : Z -> A -> check_m A) (a : A) : check_m A :=
  match fuel with
  | O => fun _ => NoFuel
  | S fuel =>
    if i <? count then a ← body i a; check_for fuel (i +u 1) count body a else mret a
  end.

(** Every round reads at least one byte, so one more than the size is enough. *)
Definition body_fuel (payload_size : Z) : nat := S (Z.to_nat payload_size).

Definition reader_option {A} (o : option A) : reader_m A := fun r => Done (o, r).

(** ** The bodies *)

Definition read_stream : reader_m tide_stream_info :=
  track_id ← tide_reader_read_u32;
  generation ← tide_reader_read_u32;
  media_kind ← tide_reader_read_u16;
  _ ← tide_reader_skip 2;
  codec_tag ← tide_reader_read_u32;
  time_base_numerator ← tide_reader_read_u32;
  time_base_denominator ← tide_reader_read_u32;
  config_size_u64 ← tide_reader_read_uleb128;
  config_size ← reader_option (tide_checked_u64_to_size config_size_u64);
  config ← tide_reader_read_bytes config_size;
  mret (mk_stream_info track_id generation media_kind codec_tag
          (mk_rational time_base_numerator time_base_denominator) (Some config) config_size).

Definition parse_stream (payload_size : Z) : check_m tide_stream_info :=
  stream ← or_fail read_stream TIDE_STATUS_FORMAT "bad stream descriptor";
  _ ← at_end payload_size TIDE_STATUS_FORMAT "bad stream descriptor";
  _ ← or_fail (ok ← reader_lift (tide_rational_is_valid (si_time_base stream)); reader_guard ok)
        TIDE_STATUS_TIMELINE "invalid stream time base";
  mret stream.

Definition read_packet : reader_m tide_packet_info :=
  track_id ← tide_reader_read_u32;
  generation ← tide_reader_read_u32;
  packet_seq ← tide_reader_read_u64;
  dts ← tide_reader_read_i64;
  pts ← tide_reader_read_i64;
  duration ← tide_reader_read_i64;
  flags ← tide_reader_read_u32;
  packet_payload_u64 ← tide_reader_read_uleb128;
  packet_payload_size ← reader_option (tide_checked_u64_to_size packet_payload_u64);
  payload ← tide_reader_read_bytes packet_payload_size;
  mret (mk_packet_info track_id generation packet_seq dts pts duration flags
          (mk_payload_view (Some payload) packet_payload_size None)).

Definition parse_packet (tracks : list tide_track_snapshot) (payload_size : Z) : check_m tide_packet_info :=
  packet ← or_fail read_packet TIDE_STATUS_FORMAT "bad packet";
  _ ← at_end payload_size TIDE_STATUS_FORMAT "bad packet";
  if pk_duration packet <? 0 then reject TIDE_STATUS_TIMELINE "negative packet duration"
  else if negb (known tracks (pk_track_id packet) (pk_generation packet)) then
    reject TIDE_STATUS_FORMAT "packet before descriptor"
  else mret packet.

(** The state of the loop is [(previous_seq, previous_end)]. *)
Definition packet_table_entry (i : Z) (previous : Z * Z) : reader_m (Z * Z) :=
  packet_seq ← tide_reader_read_u64;
  _dts ← tide_reader_read_i64;
  _pts ← tide_reader_read_i64;
  duration ← tide_reader_read_i64;
  _flags ← tide_reader_read_u32;
  range_offset ← tide_reader_read_u64;
  range_size ← tide_reader_read_u64;
  _ ← reader_guard (negb (duration <? 0));
  range_end ← reader_option (tide_checked_add_u64 range_offset range_size);
  _ ← reader_guard (negb (negb (i =? 0) && (packet_seq <=? previous.1)));
  _ ← reader_guard (negb (range_offset <? previous.2));
  mret (packet_seq, range_end).

Definition check_packet_table (limits : tide_limits) (tracks : list tide_track_snapshot) (payload_size : Z)
    : check_m unit :=
  count ← or_fail (track_id ← tide_reader_read_u32;
                   generation ← tide_reader_read_u32;
                   count ← tide_reader_read_uleb128;
                   _ ← reader_guard (negb (count >? max_packet_table_entries limits));
                   _ ← reader_guard (known tracks track_id generation);
                   mret count)
            TIDE_STATUS_RESOURCE "packet table limit";
  _ ← check_for (body_fuel payload_size) 0 count
        (fun i previous => or_fail (packet_table_entry i previous) TIDE_STATUS_FORMAT "bad packet table entry") (0, 0);
  at_end payload_size TIDE_STATUS_FORMAT "packet table trailing bytes".

Definition edit_list_entry (i previous_end : Z) : check_m Z :=
  '(output_start, output_end) ←
    or_fail (output_start ← tide_reader_read_i64;
             output_duration ← tide_reader_read_i64;
             _source_start ← tide_reader_read_i64;
             rate_numerator ← tide_reader_read_u32;
             rate_denominator ← tide_reader_read_u32;
             _ ← reader_guard (negb (output_duration <? 0));
             _ ← reader_guard (negb (output_start >? INT64_MAX - output_duration));
             ok ← reader_lift (tide_rational_is_valid (mk_rational rate_numerator rate_denominator));
             _ ← reader_guard ok;
             output_end ← reader_lift (i64 (output_start + output_duration));
             mret (output_start, output_end))
      TIDE_STATUS_TIMELINE "bad edit entry";
  if negb (i =? 0) && (output_start <? previous_end) then
    reject TIDE_STATUS_TIMELINE "overlapping edit entries"
  else mret output_end.

Definition check_edit_list (limits : tide_limits) (tracks : list tide_track_snapshot) (payload_size : Z)
    : check_m unit :=
  count ← or_fail (track_id ← tide_reader_read_u32;
                   generation ← tide_reader_read_u32;
                   count ← tide_reader_read_uleb128;
                   _ ← reader_guard (negb (count >? max_edit_entries limits));
                   _ ← reader_guard (known tracks track_id generation);
                   mret count)
            TIDE_STATUS_TIMELINE "bad edit list";
  _ ← check_for (body_fuel payload_size) 0 count edit_list_entry INT64_MIN;
  at_end payload_size TIDE_STATUS_FORMAT "edit list trailing bytes".

Definition check_discontinuity (tracks : list tide_track_snapshot) (payload_size : Z) : check_m unit :=
  '(track_id, generation) ←
    or_fail (track_id ← tide_reader_read_u32;
             generation ← tide_reader_read_u32;
             epoch ← tide_reader_read_u64;
             _reason ← tide_reader_read_u32;
             _ ← reader_guard (negb (epoch =? 0));
             mret (track_id, generation))
      TIDE_STATUS_FORMAT "bad discontinuity";
  _ ← at_end payload_size TIDE_STATUS_FORMAT "bad discontinuity";
  if negb (track_id =? 0) && negb (known tracks track_id generation) then
    reject TIDE_STATUS_FORMAT "bad discontinuity"
  else mret tt.

Definition seek_sort_key (track_id pts : Z) : Z :=
  Z.lxor (wrap64 (Z.shiftl track_id 32)) (if pts <? 0 then 0 else pts).

Definition seek_index_entry (tracks : list tide_track_snapshot) (frame_offset i previous_sort_key : Z) : check_m Z :=
  sort_key ←
    or_fail (track_id ← tide_reader_read_u32;
             generation ← tide_reader_read_u32;
             _packet_seq ← tide_reader_read_u64;
             pts ← tide_reader_read_i64;
             group_offset ← tide_reader_read_u64;
             record_offset ← tide_reader_read_u64;
             _ ← reader_guard (known tracks track_id generation);
             _ ← reader_guard (negb (group_offset <? TIDE_HEADER_SIZE));
             _ ← reader_guard (negb (record_offset <? group_offset));
             _ ← reader_guard (negb (record_offset >=? frame_offset));
             mret (seek_sort_key track_id pts))
      TIDE_STATUS_INDEX "bad seek index entry";
  if negb (i =? 0) && (sort_key <? previous_sort_key) then reject TIDE_STATUS_INDEX "unsorted seek index"
  else mret sort_key.

Definition check_seek_index (tracks : list tide_track_snapshot) (frame_offset payload_size : Z) : check_m unit :=
  count ← or_fail (_index_generation ← tide_reader_read_u64; tide_reader_read_uleb128)
            TIDE_STATUS_INDEX "bad seek index header";
  _ ← check_for (body_fuel payload_size) 0 count (seek_index_entry tracks frame_offset) 0;
  at_end payload_size TIDE_STATUS_INDEX "seek index trailing bytes".

Definition check_checkpoint (limits : tide_limits) (tracks : list tide_track_snapshot) (frame_offset payload_size : Z)
    : check_m unit :=
  count ← or_fail (_group_sequence ← tide_reader_read_u64;
                   prefix_offset ← tide_reader_read_u64;
                   _digest ← tide_reader_read_bytes TIDE_DIGEST_SIZE;
                   count ← tide_reader_read_uleb128;
                   _ ← reader_guard (negb (prefix_offset >? frame_offset));
                   _ ← reader_guard (negb (count >? max_tracks limits));
                   mret count)
            TIDE_STATUS_FORMAT "bad checkpoint";
  _ ← check_for (body_fuel payload_size) 0 count
        (fun _ _ => or_fail (track_id ← tide_reader_read_u32;
                             generation ← tide_reader_read_u32;
                             reader_guard (known tracks track_id generation))
                      TIDE_STATUS_FORMAT "bad checkpoint descriptor") tt;
  at_end payload_size TIDE_STATUS_FORMAT "checkpoint trailing bytes".

(** The state of the loop is [(previous_generation, previous_end)];
    [(uint64_t)start_time] and [(uint64_t)end_time] are of nonnegative values. *)
Definition index_directory_entry (frame_offset i : Z) (previous : Z * Z) : reader_m (Z * Z) :=
  generation ← tide_reader_read_u64;
  start_time ← tide_reader_read_i64;
  end_time ← tide_reader_read_i64;
  offset ← tide_reader_read_u64;
  _ ← reader_guard (negb (start_time <? 0));
  _ ← reader_guard (negb (end_time <? start_time));
  _ ← reader_guard (negb (offset <? TIDE_HEADER_SIZE));
  _ ← reader_guard (negb (offset >=? frame_offset));
  _ ← reader_guard (negb (negb (i =? 0) && (generation <=? previous.1)));
  _ ← reader_guard (negb (negb (i =? 0) && (i64_to_u64 start_time <? previous.2)));
  mret (generation, i64_to_u64 end_time).

Definition check_index_directory (frame_offset payload_size : Z) : check_m unit :=
  count ← or_fail tide_reader_read_uleb128 TIDE_STATUS_INDEX "bad index directory";
  _ ← check_for (body_fuel payload_size) 0 count
        (fun i previous => or_fail (index_directory_entry frame_offset i previous)
                             TIDE_STATUS_INDEX "bad index directory entry") (0, 0);
  at_end payload_size TIDE_STATUS_INDEX "index directory trailing bytes".

(** The footer: the stored digest is compared with the digest of the
    [frame_offset] bytes before the record. *)
Definition check_footer (file_data : list byte) (frame : tide_record_frame) (payload_size : Z) : check_m unit :=
  '(file_length, index_directory_offset, digest) ←
    or_fail (file_length ← tide_reader_read_u64;
             index_directory_offset ← tide_reader_read_u64;
             _last_checkpoint_sequence ← tide_reader_read_uleb128;
             digest ← tide_reader_read_bytes TIDE_DIGEST_SIZE;
             mret (file_length, index_directory_offset, digest))
      TIDE_STATUS_FORMAT "bad footer";
  _ ← at_end payload_size TIDE_STATUS_FORMAT "bad footer";
  if negb (file_length =? fr_crc_end frame) ||
     (negb (index_directory_offset =? 0) &&
      ((index_directory_offset <? TIDE_HEADER_SIZE) || (index_directory_offset >=? fr_offset frame)))
  then reject TIDE_STATUS_FORMAT "bad footer"
  else
    expected_digest ← (fun r => d ← tide_digest_adapter32 file_data (fr_offset frame); Done (inr d, r));
    if negb (bool_decide (digest = expected_digest)) then reject TIDE_STATUS_INTEGRITY "footer digest mismatch"
    else mret tt.

(** Run a body on the payload: its error exit sets the error of the frame. *)
Definition with_body {U A} (body : check_m A) (payload : list byte) (payload_size : Z) (frame : tide_record_frame)
    (k : A -> parse_m U tide_status) : parse_m U tide_status :=
  '(v, _) ← lift (body (tide_reader_init payload payload_size));
  match v with
  | inl (status, message) => fail_with status (fr_payload_offset frame) (fr_type frame) (fr_depth frame) message
  | inr a => k a
  end.

(** [error->code]. *)
Definition error_code {U} : parse_m U tide_status := fun s =>
  error ← deref (ps_error s); Done (err_code error, s).

Definition tide_emit_stream {U} (limits : tide_limits) (callbacks : tide_callbacks U) (payload : list byte)
    (payload_size : Z) (frame : tide_record_frame) : parse_m U tide_status :=
  with_body (parse_stream payload_size) payload payload_size frame (fun stream =>
    st ← tide_add_track limits stream (fr_offset frame);
    if negb (bool_decide (st = TIDE_STATUS_OK)) then error_code
    else call (on_stream callbacks) stream).

Definition tide_emit_packet {U} (callbacks : tide_callbacks U) (payload : list byte)
    (payload_size : Z) (frame : tide_record_frame) : parse_m U tide_status := fun s =>
  with_body (parse_packet (ps_tracks s) payload_size) payload payload_size frame
    (fun packet => call (on_packet callbacks) packet) s.

(** The [switch] of [tide_emit_simple_record]. *)
Definition simple_body (limits : tide_limits) (tracks : list tide_track_snapshot) (file_data : list byte)
    (payload_size : Z) (frame : tide_record_frame) : check_m unit :=
  if fr_type frame =? TIDE_RECORD_PACKET_TABLE then check_packet_table limits tracks payload_size
  else if fr_type frame =? TIDE_RECORD_EDIT_LIST then check_edit_list limits tracks payload_size
  else if fr_type frame =? TIDE_RECORD_DISCONTINUITY then check_discontinuity tracks payload_size
  else if fr_type frame =? TIDE_RECORD_SEEK_INDEX then check_seek_index tracks (fr_offset frame) payload_size
  else if fr_type frame =? TIDE_RECORD_CHECKPOINT then
    check_checkpoint limits tracks (fr_offset frame) payload_size
  else if fr_type frame =? TIDE_RECORD_INDEX_DIRECTORY then check_index_directory (fr_offset frame) payload_size
  else if fr_type frame =? TIDE_RECORD_FOOTER then check_footer file_data frame payload_size
  else mret tt.

Definition tide_emit_simple_record {U} (limits : tide_limits) (file_data payload : list byte)
    (payload_size : Z) (frame : tide_record_frame) : parse_m U tide_status := fun s =>
  with_body (simple_body limits (ps_tracks s) file_data payload_size frame) payload payload_size frame
    (fun _ => mret TIDE_STATUS_OK) s.

(** ** Bodies as functions of their bytes *)

Definition checker (A : Type) : Type := list byte -> (tide_status * string) + (A * list byte).

#[export] Instance checker_ret : MRet checker := fun A a bs => inr (a, bs).
#[export] Instance checker_bind : MBind checker := fun A B f m bs =>
  match m bs with inr (a, bs) => f a bs | inl e => inl e end.
Definition c_reject {A} (status : tide_status) (message : string) : checker A := fun _ => inl (status, message).
Definition c_or_fail {A} (p : parser A) (status : tide_status) (message : string) : checker A := fun bs =>
  match p bs with Some (a, cs) => inr (a, cs) | None => inl (status, message) end.
Definition c_at_end (status : tide_status) (message : string) : checker unit := fun bs =>
  match bs with [] => inr (tt, []) | _ => inl (status, message) end.
(** [n] rounds from index [i]. *)
Fixpoint c_for {A} (n : nat) (i : Z) (body : Z -> A -> checker A) (a : A) : checker A :=
  match n with
  | O => mret a
  | S n => a ← body i a; c_for n (i + 1) body a
  end.
Definition p_option {A} (o : option A) : parser A := fun bs => a ← o; Some (a, bs).

(** On an object of [size] bytes, [m] does what [c] says about the bytes that
    remain. *)
Class checks (size : Z) {A} (m : check_m A) (c : checker A) : Prop :=
  checks_spec : forall r, reader_wf r -> rd_size r = size -> exists r', moved r r' /\
    match c (rest r) with
    | inr (a, bs) => m r = Done (inr a, r') /\ rest r' = bs
    | inl e => m r = Done (inl e, r')
    end.

(** [p] may return [a]. *)
Definition produces {A} (p : parser A) (a : A) : Prop := exists bs cs, p bs = Some (a, cs).

Lemma refines_bind_out {A B} (m : reader_m A) (p : parser A) (f : A -> reader_m B) (g : A -> parser B) :
  refines m p -> (forall a, produces p a -> refines (f a) (g a)) -> refines (m ≫= f) (p ≫= g).
Proof.
  intros Hm Hf r Hr. destruct (Hm r Hr) as (r1 & Hr1 & H1).
  unfold mbind, parser_bind, reader_bind.
  destruct (p (rest r)) as [[a bs]|] eqn:E.
  - destruct H1 as [-> <-].
    assert (Ha : produces p a) by (exists (rest r), (rest r1); exact E).
    destruct (Hf a Ha r1 (proj1 Hr1)) as (r2 & Hr2 & H2).
    exists r2. split; [eapply moved_trans; eauto|]. exact H2.
  - rewrite H1. exists r1. auto.
Qed.

Lemma refines_guard_bind {B} (b : bool) (f : unit -> reader_m B) (g : unit -> parser B) :
  (b = true -> refines (f tt) (g tt)) -> refines (reader_guard b ≫= f) (p_guard b ≫= g).
Proof.
  intros H. apply refines_bind_out; [apply _|]. intros [] (bs & cs & Hp).
  apply H. unfold p_guard in Hp. destruct b; [reflexivity|discriminate].
Qed.

#[export] Instance refines_option {A} (o : option A) : refines (reader_option o) (p_option o).
Proof. intros r Hr. exists r. split; [apply moved_refl, Hr|]. destruct o; [split|]; reflexivity. Qed.

#[export] Instance exact_option {A} (o : option A) : exact (p_option o).
Proof. intros bs a cs. destruct o; [intros [= <- <-]; exists []; auto|discriminate]. Qed.

#[export] Instance checks_ret size {A} (a : A) : checks size (mret a) (mret a).
Proof. intros r Hr _. exists r. split; [apply moved_refl, Hr|]. split; reflexivity. Qed.

#[export] Instance checks_reject size {A} st msg : checks size (@reject A st msg) (c_reject st msg).
Proof. intros r Hr _. exists r. split; [apply moved_refl, Hr|reflexivity]. Qed.

#[export] Instance checks_or_fail size {A} (m : reader_m A) p st msg :
  refines m p -> checks size (or_fail m st msg) (c_or_fail p st msg).
Proof.
  intros Hm r Hr _. destruct (Hm r Hr) as (r' & Hr' & H). exists r'. split; [exact Hr'|].
  unfold or_fail, c_or_fail. destruct (p (rest r)) as [[a cs]|].
  - destruct H as [-> H]. split; [reflexivity|exact H].
  - rewrite H. reflexivity.
Qed.

#[export] Instance checks_at_end size st msg : checks size (at_end size st msg) (c_at_end st msg).
Proof.
  intros r Hr Hs. exists r. split; [apply moved_refl, Hr|]. unfold at_end, c_at_end.
  pose proof (zlen_rest r Hr) as Hl. pose proof (zlen_nonneg (rest r)).
  destruct (rest r) as [|b bs].
  - change (zlen (@nil byte)) with 0 in Hl. rewrite (proj2 (Z.eqb_eq _ _)) by lia. split; reflexivity.
  - unfold zlen in Hl. cbn [length] in Hl. rewrite (proj2 (Z.eqb_neq _ _)) by lia. reflexivity.
Qed.

#[export] Instance checks_bind size {A B} (m : check_m A) (c : checker A) (f : A -> check_m B) (g : A -> checker B) :
  checks size m c -> (forall a, checks size (f a) (g a)) -> checks size (m ≫= f) (c ≫= g).
Proof.
  intros Hm Hf r Hr Hs. destruct (Hm r Hr Hs) as (r1 & Hr1 & H1).
  unfold mbind, checker_bind, check_bind. destruct (c (rest r)) as [e|[a bs]].
  - rewrite H1. exists r1. auto.
  - destruct H1 as [-> <-]. pose proof Hr1 as (Hw1 & _ & Hs1 & _).
    destruct (Hf a r1 Hw1) as (r2 & Hr2 & H2); [congruence|].
    exists r2. split; [eapply moved_trans; eauto|]. exact H2.
Qed.

#[export] Instance checks_if size {A} (b : bool) (m1 m2 : check_m A) c1 c2 :
  checks size m1 c1 -> checks size m2 c2 -> checks size (if b then m1 else m2) (if b then c1 else c2).
Proof. destruct b; auto. Qed.

#[export] Instance checks_pair size {A B C} (x : A * B) (f : A -> B -> check_m C) (g : A -> B -> checker C) :
  (forall a b, checks size (f a b) (g a b)) ->
  checks size (let (a, b) := x in f a b) (let (a, b) := x in g a b).
Proof. destruct x. auto. Qed.

(** A body that reads something whenever it succeeds. *)
Definition consumes {A} (c : checker A) : Prop :=
  forall bs a cs, c bs = inr (a, cs) -> zlen cs < zlen bs.

Lemma checks_for size {A} (body : Z -> A -> check_m A) (c : Z -> A -> checker A) fuel i count a r :
  (forall i a, checks size (body i a) (c i a)) -> (forall i a, consumes (c i a)) ->
  0 <= i -> count < 2 ^ 64 -> reader_wf r -> rd_size r = size -> zlen (rest r) < Z.of_nat fuel ->
  exists r', moved r r' /\
    match c_for (Z.to_nat (count - i)) i c a (rest r) with
    | inr (b, bs) => check_for fuel i count body a r = Done (inr b, r') /\ rest r' = bs
    | inl e => check_for fuel i count body a r = Done (inl e, r')
    end.
Proof.
  intros Hb Hc. revert i a r. induction fuel as [|fuel IH]; intros i a r Hi Hn Hr Hs Hf.
  { pose proof (zlen_nonneg (rest r)). lia. }
  cbn [check_for]. destruct (Z.ltb_spec i count) as [Hlt|Hge].
  2: { replace (Z.to_nat (count - i)) with O by lia. exists r. split; [apply moved_refl, Hr|]. split; reflexivity. }
  replace (Z.to_nat (count - i)) with (S (Z.to_nat (count - (i + 1)))) by lia.
  cbn [c_for]. unfold mbind, checker_bind, check_bind.
  destruct (Hb i a r Hr Hs) as (r1 & Hr1 & H1). pose proof Hr1 as (Hw1 & _ & Hs1 & _).
  destruct (c i a (rest r)) as [e|[a' bs]] eqn:E; [rewrite H1; exists r1; auto|].
  destruct H1 as [-> <-]. apply Hc in E. rewrite wrap64_small by zlia.
  destruct (IH (i + 1) a' r1) as (r2 & Hr2 & H2); [lia|lia|exact Hw1|congruence|lia|].
  exists r2. split; [eapply moved_trans; eauto|]. exact H2.
Qed.

Lemma checks_for_0 size {A} (body : Z -> A -> check_m A) (c : Z -> A -> checker A) count a :
  (forall i a, checks size (body i a) (c i a)) -> (forall i a, consumes (c i a)) -> count < 2 ^ 64 ->
  checks size (check_for (body_fuel size) 0 count body a) (c_for (Z.to_nat count) 0 c a).
Proof.
  intros Hb Hc Hn r Hr Hs. pose proof (zlen_rest r Hr) as Hl. destruct (Hr) as (Ho & _ & _).
  destruct (checks_for size body c (body_fuel size) 0 count a r) as (r' & H); try assumption; try lia.
  { unfold body_fuel. lia. }
  rewrite Z.sub_0_r in H. exists r'. exact H.
Qed.

(** ** What each body accepts *)

Definition p_stream : parser tide_stream_info :=
  track_id ← p_le 4; generation ← p_le 4; media_kind ← p_le 2; _ ← p_skip 2; codec_tag ← p_le 4;
  num ← p_le 4; den ← p_le 4; config_size ← p_uleb;
  config_size ← p_option (tide_checked_u64_to_size config_size);
  config ← p_bytes config_size;
  mret (mk_stream_info track_id generation media_kind codec_tag (mk_rational num den) (Some config) config_size).

Definition c_stream : checker tide_stream_info :=
  stream ← c_or_fail p_stream TIDE_STATUS_FORMAT "bad stream descriptor";
  _ ← c_at_end TIDE_STATUS_FORMAT "bad stream descriptor";
  _ ← c_or_fail (p_guard (reduced (si_time_base stream))) TIDE_STATUS_TIMELINE "invalid stream time base";
  mret stream.

Definition p_packet : parser tide_packet_info :=
  track_id ← p_le 4; generation ← p_le 4; packet_seq ← p_le 8; dts ← p_i64; pts ← p_i64;
  duration ← p_i64; flags ← p_le 4; size ← p_uleb;
  size ← p_option (tide_checked_u64_to_size size);
  payload ← p_bytes size;
  mret (mk_packet_info track_id generation packet_seq dts pts duration flags
          (mk_payload_view (Some payload) size None)).

Definition c_packet (tracks : list tide_track_snapshot) : checker tide_packet_info :=
  packet ← c_or_fail p_packet TIDE_STATUS_FORMAT "bad packet";
  _ ← c_at_end TIDE_STATUS_FORMAT "bad packet";
  if pk_duration packet <? 0 then c_reject TIDE_STATUS_TIMELINE "negative packet duration"
  else if negb (known tracks (pk_track_id packet) (pk_generation packet)) then
    c_reject TIDE_STATUS_FORMAT "packet before descriptor"
  else mret packet.

Definition p_packet_table_entry (i : Z) (previous : Z * Z) : parser (Z * Z) :=
  packet_seq ← p_le 8; _ ← p_i64; _ ← p_i64; duration ← p_i64; _ ← p_le 4;
  range_offset ← p_le 8; range_size ← p_le 8;
  _ ← p_guard (negb (duration <? 0));
  range_end ← p_option (tide_checked_add_u64 range_offset range_size);
  _ ← p_guard (negb (negb (i =? 0) && (packet_seq <=? previous.1)));
  _ ← p_guard (negb (range_offset <? previous.2));
  mret (packet_seq, range_end).

(** Track, generation and count: the head of a table of a known track. *)
Definition p_table_head (limit : Z) (tracks : list tide_track_snapshot) : parser Z :=
  track_id ← p_le 4; generation ← p_le 4; count ← p_uleb;
  _ ← p_guard (negb (count >? limit)); _ ← p_guard (known tracks track_id generation); mret count.

Definition c_packet_table (limits : tide_limits) (tracks : list tide_track_snapshot) : checker unit :=
  count ← c_or_fail (p_table_head (max_packet_table_entries limits) tracks) TIDE_STATUS_RESOURCE "packet table limit";
  _ ← c_for (Z.to_nat count) 0
        (fun i previous => c_or_fail (p_packet_table_entry i previous) TIDE_STATUS_FORMAT "bad packet table entry") (0, 0);
  c_at_end TIDE_STATUS_FORMAT "packet table trailing bytes".

Definition p_edit_list_entry : parser (Z * Z) :=
  output_start ← p_i64; output_duration ← p_i64; _ ← p_i64; num ← p_le 4; den ← p_le 4;
  _ ← p_guard (negb (output_duration <? 0));
  _ ← p_guard (negb (output_start >? INT64_MAX - output_duration));
  _ ← p_guard (reduced (mk_rational num den));
  mret (output_start, output_start + output_duration).

Definition c_edit_list_entry (i previous_end : Z) : checker Z :=
  '(output_start, output_end) ← c_or_fail p_edit_list_entry TIDE_STATUS_TIMELINE "bad edit entry";
  if negb (i =? 0) && (output_start <? previous_end) then
    c_reject TIDE_STATUS_TIMELINE "overlapping edit entries"
  else mret output_end.

Definition c_edit_list (limits : tide_limits) (tracks : list tide_track_snapshot) : checker unit :=
  count ← c_or_fail (p_table_head (max_edit_entries limits) tracks) TIDE_STATUS_TIMELINE "bad edit list";
  _ ← c_for (Z.to_nat count) 0 c_edit_list_entry INT64_MIN;
  c_at_end TIDE_STATUS_FORMAT "edit list trailing bytes".

Definition c_discontinuity (tracks : list tide_track_snapshot) : checker unit :=
  '(track_id, generation) ←
    c_or_fail (track_id ← p_le 4; generation ← p_le 4; epoch ← p_le 8; _ ← p_le 4;
               _ ← p_guard (negb (epoch =? 0)); mret (track_id, generation))
      TIDE_STATUS_FORMAT "bad discontinuity";
  _ ← c_at_end TIDE_STATUS_FORMAT "bad discontinuity";
  if negb (track_id =? 0) && negb (known tracks track_id generation) then
    c_reject TIDE_STATUS_FORMAT "bad discontinuity"
  else mret tt.

Definition c_seek_index_entry (tracks : list tide_track_snapshot) (offset i previous_sort_key : Z) : checker Z :=
  sort_key ←
    c_or_fail (track_id ← p_le 4; generation ← p_le 4; _ ← p_le 8; pts ← p_i64;
               group_offset ← p_le 8; record_offset ← p_le 8;
               _ ← p_guard (known tracks track_id generation);
               _ ← p_guard (negb (group_offset <? TIDE_HEADER_SIZE));
               _ ← p_guard (negb (record_offset <? group_offset));
               _ ← p_guard (negb (record_offset >=? offset));
               mret (seek_sort_key track_id pts))
      TIDE_STATUS_INDEX "bad seek index entry";
  if negb (i =? 0) && (sort_key <? previous_sort_key) then c_reject TIDE_STATUS_INDEX "unsorted seek index"
  else mret sort_key.

Definition c_seek_index (tracks : list tide_track_snapshot) (offset : Z) : checker unit :=
  count ← c_or_fail (_ ← p_le 8; p_uleb) TIDE_STATUS_INDEX "bad seek index header";
  _ ← c_for (Z.to_nat count) 0 (c_seek_index_entry tracks offset) 0;
  c_at_end TIDE_STATUS_INDEX "seek index trailing bytes".

Definition c_checkpoint (limits : tide_limits) (tracks : list tide_track_snapshot) (offset : Z) : checker unit :=
  count ← c_or_fail (_ ← p_le 8; prefix_offset ← p_le 8; _ ← p_bytes TIDE_DIGEST_SIZE; count ← p_uleb;
                     _ ← p_guard (negb (prefix_offset >? offset));
                     _ ← p_guard (negb (count >? max_tracks limits)); mret count)
            TIDE_STATUS_FORMAT "bad checkpoint";
  _ ← c_for (Z.to_nat count) 0
        (fun _ _ => c_or_fail (track_id ← p_le 4; generation ← p_le 4; p_guard (known tracks track_id generation))
                      TIDE_STATUS_FORMAT "bad checkpoint descriptor") tt;
  c_at_end TIDE_STATUS_FORMAT "checkpoint trailing bytes".

Definition p_index_directory_entry (offset_limit i : Z) (previous : Z * Z) : parser (Z * Z) :=
  generation ← p_le 8; start_time ← p_i64; end_time ← p_i64; offset ← p_le 8;
  _ ← p_guard (negb (start_time <? 0));
  _ ← p_guard (negb (end_time <? start_time));
  _ ← p_guard (negb (offset <? TIDE_HEADER_SIZE));
  _ ← p_guard (negb (offset >=? offset_limit));
  _ ← p_guard (negb (negb (i =? 0) && (generation <=? previous.1)));
  _ ← p_guard (negb (negb (i =? 0) && (i64_to_u64 start_time <? previous.2)));
  mret (generation, i64_to_u64 end_time).

Definition c_index_directory (offset : Z) : checker unit :=
  count ← c_or_fail p_uleb TIDE_STATUS_INDEX "bad index directory";
  _ ← c_for (Z.to_nat count) 0
        (fun i previous => c_or_fail (p_index_directory_entry offset i previous)
                             TIDE_STATUS_INDEX "bad index directory entry") (0, 0);
  c_at_end TIDE_STATUS_INDEX "index directory trailing bytes".

(** [before]: the bytes of the file before the footer record. *)
Definition c_footer (before : list byte) (frame : tide_record_frame) : checker unit :=
  '(file_length, index_directory_offset, digest) ←
    c_or_fail (file_length ← p_le 8; index_directory_offset ← p_le 8; _ ← p_uleb;
               digest ← p_bytes TIDE_DIGEST_SIZE; mret (file_length, index_directory_offset, digest))
      TIDE_STATUS_FORMAT "bad footer";
  _ ← c_at_end TIDE_STATUS_FORMAT "bad footer";
  if negb (file_length =? fr_crc_end frame) ||
     (negb (index_directory_offset =? 0) &&
      ((index_directory_offset <? TIDE_HEADER_SIZE) || (index_directory_offset >=? fr_offset frame)))
  then c_reject TIDE_STATUS_FORMAT "bad footer"
  else if negb (bool_decide (digest = digest32 before)) then c_reject TIDE_STATUS_INTEGRITY "footer digest mismatch"
  else mret tt.

Definition c_simple (limits : tide_limits) (tracks : list tide_track_snapshot) (before : list byte)
    (frame : tide_record_frame) : checker unit :=
  if fr_type frame =? TIDE_RECORD_PACKET_TABLE then c_packet_table limits tracks
  else if fr_type frame =? TIDE_RECORD_EDIT_LIST then c_edit_list limits tracks
  else if fr_type frame =? TIDE_RECORD_DISCONTINUITY then c_discontinuity tracks
  else if fr_type frame =? TIDE_RECORD_SEEK_INDEX then c_seek_index tracks (fr_offset frame)
  else if fr_type frame =? TIDE_RECORD_CHECKPOINT then c_checkpoint limits tracks (fr_offset frame)
  else if fr_type frame =? TIDE_RECORD_INDEX_DIRECTORY then c_index_directory (fr_offset frame)
  else if fr_type frame =? TIDE_RECORD_FOOTER then c_footer before frame
  else mret tt.

(** ** The bodies refine their checkers *)

Lemma produces_le n z : 0 <= n -> produces (p_le n) z -> 0 <= z < 2 ^ (8 * n).
Proof. intros Hn (bs & cs & H). apply p_le_range in H; [tauto|assumption]. Qed.

Lemma produces_i64 z : produces p_i64 z -> is_i64 z.
Proof.
  intros (bs & cs & H). unfold p_i64, mbind, parser_bind, mret, parser_ret in H.
  destruct (p_le 8 bs) as [[a ds]|] eqn:E; [|discriminate]. injection H as <- _.
  apply p_le_range in E as [E _]; [|lia]. apply u64_to_i64_range. exact E.
Qed.

Lemma produces_uleb z : produces p_uleb z -> is_u64 z.
Proof. intros (bs & cs & H). apply p_uleb_inv in H as [H _]. exact H. Qed.

Lemma produces_size n z : produces p_uleb n -> produces (p_option (tide_checked_u64_to_size n)) z -> 0 <= z.
Proof.
  intros Hn (bs & cs & H). apply produces_uleb in Hn. unfold p_option, tide_checked_u64_to_size in H.
  destruct (n >? SIZE_MAX); [discriminate|]. injection H as <- _. ranges. lia.
Qed.

(** Walk down a chain of reads, keeping what each read may return. *)
Ltac refine_chain :=
  repeat first
    [ apply refines_bind_out; [solve [apply _ | apply refines_read_bytes; eauto using produces_size]|intros ? ?]
    | apply refines_guard_bind; intros ?
    | solve [apply _] ].

#[export] Instance refines_stream : refines read_stream p_stream.
Proof. unfold read_stream, p_stream. refine_chain. Qed.

#[export] Instance refines_packet : refines read_packet p_packet.
Proof. unfold read_packet, p_packet. refine_chain. Qed.

#[export] Instance refines_packet_table_entry i previous :
  refines (packet_table_entry i previous) (p_packet_table_entry i previous).
Proof. unfold packet_table_entry, p_packet_table_entry. refine_chain. Qed.

#[export] Instance refines_index_directory_entry offset i previous :
  refines (index_directory_entry offset i previous) (p_index_directory_entry offset i previous).
Proof. unfold index_directory_entry, p_index_directory_entry. refine_chain. Qed.

(** A computation known to return [a] in the middle of a chain. *)
Lemma refines_lift_bind {A B} (o : outcome A) a (f : A -> reader_m B) (p : parser B) :
  o = Done a -> refines (f a) p -> refines (reader_lift o ≫= f) p.
Proof. intros -> Hf r Hr. exact (Hf r Hr). Qed.

Lemma typed_rational num den :
  produces (p_le 4) num -> produces (p_le 4) den -> rational_typed (mk_rational num den).
Proof. intros Hn Hd. apply produces_le in Hn, Hd; [|lia..]. split; assumption. Qed.

Lemma produces_bind {A B} (p : parser A) (f : A -> parser B) b :
  produces (p ≫= f) b -> exists a, produces p a /\ produces (f a) b.
Proof.
  intros (bs & cs & H). unfold mbind, parser_bind in H.
  destruct (p bs) as [[a ds]|] eqn:E; [|discriminate].
  exists a. split; [exists bs, ds; exact E|exists ds, cs; exact H].
Qed.
Lemma produces_ret {A} (a b : A) : produces (mret a : parser A) b -> b = a.
Proof. intros (bs & cs & [= -> _]). reflexivity. Qed.
Lemma produces_guard b (u : unit) : produces (p_guard b) u -> b = true.
Proof. intros (bs & cs & H). unfold p_guard in H. destruct b; [reflexivity|discriminate]. Qed.
Lemma produces_size_u64 n z : produces (p_option (tide_checked_u64_to_size n)) z -> z = n.
Proof.
  intros (bs & cs & H). unfold p_option, tide_checked_u64_to_size in H.
  destruct (n >? SIZE_MAX); [discriminate|]. injection H as <- _. reflexivity.
Qed.

Lemma produces_bytes n bs : produces (p_bytes n) bs -> 0 <= n -> zlen bs = n.
Proof. intros (xs & cs & H) Hn. exact (proj2 (p_bytes_zlen _ _ _ _ Hn H)). Qed.

(** What a chain of reads may return, from what each read may return. *)
Ltac produced H :=
  repeat (apply produces_bind in H; destruct H as (? & ? & H)); apply produces_ret in H;
  repeat match goal with
  | E : produces (p_option (tide_checked_u64_to_size _)) _ |- _ => apply produces_size_u64 in E
  | E : produces (p_le _) _ |- _ => apply produces_le in E; [|lia]
  | E : produces p_i64 _ |- _ => apply produces_i64 in E
  | E : produces p_uleb _ |- _ => apply produces_uleb in E
  | E : produces (p_guard _) _ |- _ => apply produces_guard in E
  end.

Lemma p_stream_typed stream : produces p_stream stream -> stream_typed stream.
Proof.
  unfold p_stream. intros H. produced H. subst. unfold stream_typed, rational_typed. cbn. ranges.
  repeat split; lia.
Qed.

Lemma p_packet_typed packet : produces p_packet packet -> packet_typed packet.
Proof.
  unfold p_packet. intros H. produced H. subst. unfold packet_typed. cbn. ranges. repeat split; lia.
Qed.

(** The bytes a chain of reads hands out are among those it is given. *)
Lemma bind_within {A B} (p : parser A) `{!exact p} (f : A -> parser B) bs b cs :
  (p ≫= f) bs = Some (b, cs) -> exists a ds, f a ds = Some (b, cs) /\ zlen ds <= zlen bs /\ p bs = Some (a, ds).
Proof.
  unfold mbind, parser_bind. destruct (p bs) as [[a ds]|] eqn:E; [|discriminate]. intros H. exists a, ds.
  split; [exact H|]. split; [exact (exact_zlen p bs a ds E)|reflexivity].
Qed.

Lemma bytes_within n bs xs cs : p_bytes n bs = Some (xs, cs) -> n <= zlen bs.
Proof. unfold p_bytes. destruct (Z.leb_spec n (zlen bs)); [auto|discriminate]. Qed.

Ltac within H :=
  repeat (apply bind_within in H; [|apply _]; destruct H as (? & ? & H & ? & ?)); injection H as <- _;
  match goal with E : p_bytes _ _ = Some _ |- _ => apply bytes_within in E end.

Lemma p_stream_size bs s cs : p_stream bs = Some (s, cs) -> si_config_size s <= zlen bs.
Proof. unfold p_stream. intros H. within H. cbn. lia. Qed.

Lemma p_packet_size bs p cs : p_packet bs = Some (p, cs) -> pv_size (pk_payload p) <= zlen bs.
Proof. unfold p_packet. intros H. within H. cbn. lia. Qed.

(** What the decoder makes of a descriptor and of a packet: well-typed fields
    and exactly the bytes of the configuration or payload, without a lease. *)
Definition parsed_stream (s : tide_stream_info) : Prop :=
  stream_typed s /\ reduced (si_time_base s) = true /\
  exists config, si_config s = Some config /\ si_config_size s = zlen config.
Definition parsed_packet (p : tide_packet_info) : Prop :=
  packet_typed p /\ 0 <= pk_duration p /\
  exists payload, pk_payload p = mk_payload_view (Some payload) (zlen payload) None.

Lemma p_stream_parsed stream : produces p_stream stream -> reduced (si_time_base stream) = true -> parsed_stream stream.
Proof.
  intros Hp Hr. split; [apply p_stream_typed, Hp|]. split; [exact Hr|]. revert Hp. unfold p_stream. intros H. produced H. subst.
  match goal with E : produces (p_bytes _) _ |- _ => apply produces_bytes in E; [|zlia] end. cbn. eauto.
Qed.

Lemma p_packet_parsed packet : produces p_packet packet -> 0 <= pk_duration packet -> parsed_packet packet.
Proof.
  intros Hp Hd. split; [apply p_packet_typed, Hp|]. split; [exact Hd|]. revert Hp. unfold p_packet. intros H. produced H. subst.
  match goal with E : produces (p_bytes _) _ |- _ => apply produces_bytes in E; [rewrite <- E|zlia] end. cbn. eauto.
Qed.

#[export] Instance refines_edit_list_entry :
  refines (output_start ← tide_reader_read_i64;
           output_duration ← tide_reader_read_i64;
           _ ← tide_reader_read_i64;
           num ← tide_reader_read_u32;
           den ← tide_reader_read_u32;
           _ ← reader_guard (negb (output_duration <? 0));
           _ ← reader_guard (negb (output_start >? INT64_MAX - output_duration));
           ok ← reader_lift (tide_rational_is_valid (mk_rational num den));
           _ ← reader_guard ok;
           output_end ← reader_lift (i64 (output_start + output_duration));
           mret (output_start, output_end)) p_edit_list_entry.
Proof.
  unfold p_edit_list_entry. refine_chain.
  eapply refines_lift_bind; [apply is_valid_spec, typed_rational; assumption|].
  apply refines_guard_bind. intros _. eapply refines_lift_bind; [|apply _].
  apply i64_done. apply produces_i64 in H, H0. apply produces_guard in H4, H5. bool_props. ranges. lia.
Qed.

#[export] Instance checks_edit_list_entry size i previous :
  checks size (edit_list_entry i previous) (c_edit_list_entry i previous).
Proof. unfold edit_list_entry, c_edit_list_entry. apply _. Qed.

#[export] Instance checks_seek_index_entry size tracks offset i previous :
  checks size (seek_index_entry tracks offset i previous) (c_seek_index_entry tracks offset i previous).
Proof. unfold seek_index_entry, c_seek_index_entry. apply _. Qed.

(** ** Every round of a loop reads something *)

(** A chain that starts with a fixed-size field. *)
Lemma shrinks_bind {A} n (f : Z -> parser A) bs a cs :
  0 < n -> (forall z, exact (f z)) -> (p_le n ≫= f) bs = Some (a, cs) -> zlen cs < zlen bs.
Proof.
  intros Hn Hf H. unfold mbind, parser_bind in H.
  destruct (p_le n bs) as [[z ds]|] eqn:E; [|discriminate].
  apply p_le_zlen in E as [E _]; [|lia]. pose proof (exact_zlen (f z) ds a cs H). lia.
Qed.

Lemma shrinks_bind_i64 {A} (f : Z -> parser A) bs a cs :
  (forall z, exact (f z)) -> (p_i64 ≫= f) bs = Some (a, cs) -> zlen cs < zlen bs.
Proof.
  intros Hf H. unfold p_i64, mbind, parser_bind, mret, parser_ret in H.
  destruct (p_le 8 bs) as [[z ds]|] eqn:E; [|discriminate].
  apply p_le_zlen in E as [E _]; [|lia]. pose proof (exact_zlen (f _) ds a cs H). lia.
Qed.

Lemma consumes_or_fail {A} (p : parser A) st msg :
  (forall bs a cs, p bs = Some (a, cs) -> zlen cs < zlen bs) -> consumes (c_or_fail p st msg).
Proof.
  intros H bs a cs Hc. unfold c_or_fail in Hc. destruct (p bs) as [[b ds]|] eqn:E; [|discriminate].
  injection Hc as <- <-. eauto.
Qed.

(** A read followed by a test that reads nothing. *)
Lemma consumes_then {A B} (c : checker A) (f : A -> checker B) :
  consumes c -> (forall a bs b cs, f a bs = inr (b, cs) -> cs = bs) -> consumes (c ≫= f).
Proof.
  intros Hc Hf bs b cs H. unfold mbind, checker_bind in H.
  destruct (c bs) as [e|[a ds]] eqn:E; [discriminate|]. apply Hc in E. apply Hf in H. subst. exact E.
Qed.

Lemma consumes_packet_table i previous st msg : consumes (c_or_fail (p_packet_table_entry i previous) st msg).
Proof. apply consumes_or_fail. intros bs a cs. apply shrinks_bind; [lia|]. intros. apply _. Qed.

Lemma consumes_index_directory o i previous st msg : consumes (c_or_fail (p_index_directory_entry o i previous) st msg).
Proof. apply consumes_or_fail. intros bs a cs. apply shrinks_bind; [lia|]. intros. apply _. Qed.

Lemma consumes_edit_list i previous : consumes (c_edit_list_entry i previous).
Proof.
  apply consumes_then.
  - apply consumes_or_fail. intros bs a cs. apply shrinks_bind_i64. intros. apply _.
  - intros [os oe] bs b cs. destruct (negb (i =? 0) && (os <? previous)); [discriminate|]. intros [= _ ->]. reflexivity.
Qed.

Lemma consumes_seek_index tracks o i previous : consumes (c_seek_index_entry tracks o i previous).
Proof.
  apply consumes_then.
  - apply consumes_or_fail. intros bs a cs. apply shrinks_bind; [lia|]. intros. apply _.
  - intros k bs b cs. destruct (negb (i =? 0) && (k <? previous)); [discriminate|]. intros [= _ ->]. reflexivity.
Qed.

Lemma consumes_checkpoint tracks st msg :
  consumes (c_or_fail (track_id ← p_le 4; generation ← p_le 4; p_guard (known tracks track_id generation)) st msg).
Proof. apply consumes_or_fail. intros bs a cs. apply shrinks_bind; [lia|]. intros. apply _. Qed.

(** ** Whole bodies *)

Lemma checks_or_fail_bind size {A B} (m : reader_m A) p st msg (f : A -> check_m B) (g : A -> checker B) :
  refines m p -> (forall a, produces p a -> checks size (f a) (g a)) ->
  checks size (or_fail m st msg ≫= f) (c_or_fail p st msg ≫= g).
Proof.
  intros Hm Hf r Hr Hs. destruct (Hm r Hr) as (r1 & Hr1 & H1).
  unfold mbind, checker_bind, check_bind, or_fail, c_or_fail.
  destruct (p (rest r)) as [[a bs]|] eqn:E.
  - destruct H1 as [-> <-]. pose proof Hr1 as (Hw1 & _ & Hs1 & _). rewrite bind_done.
    assert (Ha : produces p a) by (exists (rest r), (rest r1); exact E).
    destruct (Hf a Ha r1 Hw1) as (r2 & Hr2 & H2); [congruence|].
    exists r2. split; [eapply moved_trans; eauto|exact H2].
  - rewrite H1. exists r1. split; [exact Hr1|reflexivity].
Qed.

(** A loop between its head and the end of the body. *)
Lemma checks_table size {A B} (m : reader_m Z) p st msg (body : Z -> A -> check_m A) c (a : A)
    (f : check_m B) (g : checker B) :
  refines m p -> (forall n, produces p n -> n < 2 ^ 64) ->
  (forall i a, checks size (body i a) (c i a)) -> (forall i a, consumes (c i a)) -> checks size f g ->
  checks size (count ← or_fail m st msg; _ ← check_for (body_fuel size) 0 count body a; f)
    (count ← c_or_fail p st msg; _ ← c_for (Z.to_nat count) 0 c a; g).
Proof.
  intros Hm Hn Hb Hc Hf. apply checks_or_fail_bind; [exact Hm|]. intros n Hp.
  apply checks_bind; [apply checks_for_0; auto|]. intros _. exact Hf.
Qed.

Lemma table_head_u64 limit tracks n : produces (p_table_head limit tracks) n -> n < 2 ^ 64.
Proof. unfold p_table_head. intros H. produced H. subst. ranges. lia. Qed.

#[export] Instance checks_stream size : checks size (parse_stream size) c_stream.
Proof.
  unfold parse_stream, c_stream. apply checks_or_fail_bind; [apply _|]. intros stream Hs.
  apply p_stream_typed in Hs as (_ & _ & _ & _ & Hr & _).
  apply checks_bind; [apply _|]. intros _. apply checks_or_fail_bind.
  - eapply refines_lift_bind; [apply is_valid_spec, Hr|apply _].
  - intros. apply _.
Qed.

#[export] Instance checks_packet size tracks : checks size (parse_packet tracks size) (c_packet tracks).
Proof. unfold parse_packet, c_packet. apply _. Qed.

#[export] Instance checks_packet_table size limits tracks :
  checks size (check_packet_table limits tracks size) (c_packet_table limits tracks).
Proof.
  apply checks_table; try (intros; apply _).
  - apply table_head_u64.
  - intros. apply consumes_packet_table.
Qed.

#[export] Instance checks_edit_list size limits tracks :
  checks size (check_edit_list limits tracks size) (c_edit_list limits tracks).
Proof.
  apply checks_table; try (intros; apply _).
  - apply table_head_u64.
  - apply consumes_edit_list.
Qed.

#[export] Instance checks_discontinuity size tracks :
  checks size (check_discontinuity tracks size) (c_discontinuity tracks).
Proof. unfold check_discontinuity, c_discontinuity. apply _. Qed.

#[export] Instance checks_seek_index size tracks offset :
  checks size (check_seek_index tracks offset size) (c_seek_index tracks offset).
Proof.
  apply checks_table; try (intros; apply _).
  - intros n H. apply produces_bind in H as (? & _ & H). apply produces_uleb in H. ranges. lia.
  - apply consumes_seek_index.
Qed.

#[export] Instance checks_checkpoint size limits tracks offset :
  checks size (check_checkpoint limits tracks offset size) (c_checkpoint limits tracks offset).
Proof.
  apply checks_table; try (intros; apply _).
  - unfold TIDE_DIGEST_SIZE. apply _.
  - intros n H. produced H. subst. ranges. lia.
  - intros. apply consumes_checkpoint.
Qed.

#[export] Instance checks_index_directory size offset :
  checks size (check_index_directory offset size) (c_index_directory offset).
Proof.
  apply checks_table; try (intros; apply _).
  - intros n H. apply produces_uleb in H. ranges. lia.
  - intros. apply consumes_index_directory.
Qed.

Lemma checks_footer size file_data frame :
  0 <= fr_offset frame <= zlen file_data ->
  checks size (check_footer file_data frame size) (c_footer (slice file_data 0 (fr_offset frame)) frame).
Proof.
  intros Ho. unfold check_footer, c_footer.
  apply checks_or_fail_bind; [unfold TIDE_DIGEST_SIZE; apply _|]. intros [[n d] digest] _.
  apply checks_bind; [apply _|]. intros _. apply checks_if; [apply _|].
  intros r Hr Hs. exists r. split; [apply moved_refl, Hr|].
  unfold mbind, check_bind, tide_digest_adapter32. rewrite span_done by lia. rewrite !bind_done.
  destruct (bool_decide _); [split|]; reflexivity.
Qed.

Lemma checks_simple size limits tracks file_data frame :
  0 <= fr_offset frame <= zlen file_data ->
  checks size (simple_body limits tracks file_data size frame)
    (c_simple limits tracks (slice file_data 0 (fr_offset frame)) frame).
Proof.
  intros Ho. unfold simple_body, c_simple.
  repeat (apply checks_if; [solve [apply _ | apply checks_footer, Ho]|]). apply _.
Qed.

(** Running a body on its payload. *)
Lemma with_body_eq {U A} (body : check_m A) (c : checker A) bs n frame (k : A -> parse_m U tide_status) s :
  checks n body c -> zlen bs = n -> n < 2 ^ 64 ->
  with_body body bs n frame k s =
    match c bs with
    | inr (a, _) => k a s
    | inl (st, msg) => fail_with st (fr_payload_offset frame) (fr_type frame) (fr_depth frame) msg s
    end.
Proof.
  intros Hc Hl Hn. pose proof (zlen_nonneg bs).
  destruct (Hc (tide_reader_init bs n)) as (r' & _ & H').
  { unfold reader_wf. simpl. lia. }
  { reflexivity. }
  change (rest (tide_reader_init bs n)) with bs in H'. unfold with_body.
  destruct (c bs) as [[st msg]|[a cs]].
  - erewrite run_lift by exact H'. reflexivity.
  - destruct H' as [H' _]. erewrite run_lift by exact H'. reflexivity.
Qed.

(** What acceptance of the two delivered bodies means. *)
Lemma c_stream_inv bs stream cs :
  c_stream bs = inr (stream, cs) ->
  p_stream bs = Some (stream, []) /\ cs = [] /\ reduced (si_time_base stream) = true.
Proof.
  unfold c_stream, c_or_fail, c_at_end, p_guard, mbind, checker_bind, mret, checker_ret.
  destruct (p_stream bs) as [[st ds]|]; [|discriminate]. destruct ds; [|discriminate].
  destruct (reduced (si_time_base st)) eqn:Er; [|discriminate]. intros [= <- <-]. auto.
Qed.

Lemma c_packet_inv tracks bs packet cs :
  c_packet tracks bs = inr (packet, cs) ->
  p_packet bs = Some (packet, []) /\ cs = [] /\ 0 <= pk_duration packet /\
  known tracks (pk_track_id packet) (pk_generation packet) = true.
Proof.
  unfold c_packet, c_or_fail, c_at_end, c_reject, mbind, checker_bind, mret, checker_ret.
  destruct (p_packet bs) as [[pk ds]|]; [|discriminate]. destruct ds; [|discriminate].
  destruct (Z.ltb_spec (pk_duration pk) 0); [discriminate|].
  destruct (known tracks _ _) eqn:Ek; [|discriminate]. intros [= <- <-]. auto.
Qed.

(** ** The statuses of rejected bodies *)

(** Neither success nor one of the statuses of an incomplete input. *)
Definition is_failure (st : tide_status) : Prop :=
  st <> TIDE_STATUS_OK /\ st <> TIDE_STATUS_PARTIAL /\ st <> TIDE_STATUS_TRUNCATED.

Class honest {A} (c : checker A) : Prop :=
  honest_spec : forall bs st msg, c bs = inl (st, msg) -> is_failure st.

#[export] Instance honest_ret {A} (a : A) : honest (mret a).
Proof. discriminate. Qed.
Lemma honest_reject {A} st msg : is_failure st -> honest (@c_reject A st msg).
Proof. intros H bs st' msg' [= <- _]. exact H. Qed.
Lemma honest_or_fail {A} (p : parser A) st msg : is_failure st -> honest (c_or_fail p st msg).
Proof. intros H bs st' msg'. unfold c_or_fail. destruct (p bs) as [[? ?]|]; [discriminate|]. intros [= <- _]. exact H. Qed.
Lemma honest_at_end st msg : is_failure st -> honest (c_at_end st msg).
Proof. intros H bs st' msg'. unfold c_at_end. destruct bs; [discriminate|]. intros [= <- _]. exact H. Qed.
#[export] Hint Extern 1 (honest _) =>
  first [apply honest_reject | apply honest_or_fail | apply honest_at_end];
  repeat split; discriminate : typeclass_instances.

#[export] Instance honest_bind {A B} (c : checker A) (f : A -> checker B) :
  honest c -> (forall a, honest (f a)) -> honest (c ≫= f).
Proof.
  intros Hc Hf bs st msg. unfold mbind, checker_bind.
  destruct (c bs) as [[st' msg']|[a ds]] eqn:E; [|apply Hf]. intros [= <- <-]. apply (Hc _ _ _ E).
Qed.
#[export] Instance honest_if {A} (b : bool) (c d : checker A) : honest c -> honest d -> honest (if b then c else d).
Proof. destruct b; auto. Qed.
#[export] Instance honest_pair {A B C} (x : A * B) (f : A -> B -> checker C) :
  (forall a b, honest (f a b)) -> honest (let (a, b) := x in f a b).
Proof. destruct x. auto. Qed.
#[export] Instance honest_for {A} n i (body : Z -> A -> checker A) a :
  (forall i a, honest (body i a)) -> honest (c_for n i body a).
Proof. intros H. revert i a. induction n as [|n IH]; intros i a; cbn [c_for]; [apply _|]. apply honest_bind; auto. Qed.

#[export] Instance honest_stream : honest c_stream.
Proof. unfold c_stream. apply _. Qed.
#[export] Instance honest_packet tracks : honest (c_packet tracks).
Proof. unfold c_packet. apply _. Qed.
#[export] Instance honest_simple limits tracks before frame : honest (c_simple limits tracks before frame).
Proof.
  unfold c_simple, c_packet_table, c_edit_list, c_edit_list_entry, c_discontinuity, c_seek_index, c_seek_index_entry,
    c_checkpoint, c_index_directory, c_footer. apply _.
Qed.
