(* ===== verification/Bodies.v ===== *)
(** * The tables a file may carry

    Which payloads the decoder accepts for the record types that hold tables:
    exactly the encodings of well-formed ones. *)

From S2P Require Import Prelude Status Checked Crc Reader Rational Edit Model Frame Validate.
From Stdlib Require Import Sorting.Sorted.

(** ** Parsers as grammars *)

(** [p] reads a value [a] from exactly the byte strings that [R a] describes. *)
Class matches {A} (p : parser A) (R : A -> list byte -> Prop) : Prop :=
  matches_spec : forall bs a cs, p bs = Some (a, cs) <-> exists u, R a u /\ bs = u ++ cs.

#[export] Instance matches_ret {A} (a : A) : matches (mret a) (fun x u => x = a /\ u = []).
Proof.
  intros bs x cs. split; [intros [= -> ->]; exists []; auto|]. intros (u & (-> & ->) & ->). reflexivity.
Qed.

#[export] Instance matches_bind {A B} (p : parser A) (f : A -> parser B) R Rf :
  matches p R -> (forall a, matches (f a) (Rf a)) ->
  matches (p ≫= f) (fun b w => exists a u v, R a u /\ Rf a b v /\ w = u ++ v) | 10.
Proof.
  intros Hp Hf bs b cs. unfold mbind, parser_bind. split.
  - destruct (p bs) as [[a ds]|] eqn:E; [|discriminate]. intros Eb. apply Hp in E as (u & Hu & ->). apply Hf in Eb as (v & Hv & ->).
    exists (u ++ v). split; [eauto 7|apply app_assoc].
  - intros (w & (a & u & v & Hu & Hv & ->) & ->). rewrite <- app_assoc.
    assert (E : p (u ++ v ++ cs) = Some (a, v ++ cs)) by (apply Hp; eauto). rewrite E. apply Hf. eauto.
Qed.

#[export] Instance matches_guard_bind {B} b (f : unit -> parser B) Rf :
  matches (f tt) Rf -> matches (p_guard b ≫= f) (fun x w => b = true /\ Rf x w) | 0.
Proof.
  intros Hf bs x cs. unfold mbind, parser_bind, p_guard. destruct b.
  - rewrite (matches_spec (p := f tt)). split; [intros (u & Hu & ->); eauto|intros (u & (_ & Hu) & ->); eauto].
  - split; [discriminate|intros (u & ([=] & _) & _)].
Qed.

#[export] Instance matches_option_bind {A B} (o : option A) (f : A -> parser B) Rf :
  (forall a, matches (f a) (Rf a)) -> matches (p_option o ≫= f) (fun x w => exists a, o = Some a /\ Rf a x w) | 0.
Proof.
  intros Hf bs x cs. unfold mbind, parser_bind, p_option. destruct o as [a|]; cbn.
  - rewrite (matches_spec (p := f a)). split; [intros (u & Hu & ->); eauto|intros (u & (b & [= <-] & Hu) & ->); eauto].
  - split; [discriminate|intros (u & (b & [=] & _) & _)].
Qed.

Lemma matches_ext {A} (p : parser A) R R' : matches p R -> (forall a u, R a u <-> R' a u) -> matches p R'.
Proof.
  intros Hp He bs a cs. rewrite (matches_spec (p := p)). split; intros (u & Hu & ->); exists u; (split; [apply He, Hu|reflexivity]).
Qed.

Lemma matches_le n m : m = Z.of_nat n -> matches (p_le m) (fun z u => 0 <= z < 2 ^ (8 * m) /\ u = le_bytes n z).
Proof.
  intros -> bs z cs. split.
  - intros H. exists (le_bytes n z). split; [split; [|reflexivity]|apply p_le_inv, H]. apply p_le_range in H as [H _]; [exact H|lia].
  - intros (u & [Hz ->] & ->). apply p_le_bytes, Hz.
Qed.
#[export] Instance matches_le4 : matches (p_le 4) (fun z u => is_u32 z /\ u = le_bytes 4 z) := matches_le 4 4 eq_refl.
#[export] Instance matches_le8 : matches (p_le 8) (fun z u => is_u64 z /\ u = le_bytes 8 z) := matches_le 8 8 eq_refl.

#[export] Instance matches_i64 : matches p_i64 (fun z u => is_i64 z /\ u = tide_write_i64 z).
Proof.
  intros bs z cs. split.
  - unfold p_i64, mbind, parser_bind, mret, parser_ret. destruct (p_le 8 bs) as [[a ds]|] eqn:E; [|discriminate]. intros [= <- ->].
    apply matches_spec in E as (u & [Ha ->] & ->). exists (le_bytes 8 a). split; [|reflexivity]. split; [apply u64_to_i64_range, Ha|].
    unfold tide_write_i64. rewrite i64_u64_inverse by exact Ha. symmetry. apply write_u64_le.
  - intros (u & [Hz ->] & ->). apply p_i64_bytes, Hz.
Qed.

#[export] Instance matches_uleb : matches p_uleb (fun z u => is_u64 z /\ u = uleb_bytes z).
Proof.
  intros bs z cs. split.
  - intros H. apply p_uleb_inv in H as [Hz ->]. eauto.
  - intros (u & [Hz ->] & ->). apply p_uleb_enc, Hz.
Qed.

Lemma or_fail_matches {A} (p : parser A) R `{!matches p R} st msg bs a cs :
  c_or_fail p st msg bs = inr (a, cs) <-> exists u, R a u /\ bs = u ++ cs.
Proof.
  rewrite <- (matches_spec (p := p)). unfold c_or_fail. destruct (p bs) as [[b ds]|]; split; congruence.
Qed.

Lemma at_end_accepts st msg bs cs : c_at_end st msg bs = inr (tt, cs) <-> bs = [] /\ cs = [].
Proof. unfold c_at_end. destruct bs; split; [intros [= <-]; auto|intros [_ ->]; reflexivity|discriminate|intros [H _]; discriminate H]. Qed.

Lemma bind_accepts {A B} (c : checker A) (f : A -> checker B) bs b cs :
  (c ≫= f) bs = inr (b, cs) <-> exists a ds, c bs = inr (a, ds) /\ f a ds = inr (b, cs).
Proof.
  unfold mbind, checker_bind. split.
  - destruct (c bs) as [|[a ds]]; [discriminate|eauto].
  - intros (a & ds & -> & H). exact H.
Qed.

(** ** Loops over entries *)

Section table.
Context {E A : Type} (c : Z -> A -> checker A) (enc : E -> list byte) (ok : E -> Prop) (out : E -> A) (follows : E -> E -> Prop) (a0 : A).
Context (first : forall bs b cs, c 0 a0 bs = inr (b, cs) <-> exists e, ok e /\ bs = enc e ++ cs /\ b = out e).
Context (next : forall i x bs b cs, 0 < i -> ok x ->
          c i (out x) bs = inr (b, cs) <-> exists e, (ok e /\ follows x e) /\ bs = enc e ++ cs /\ b = out e).

Definition table_bytes (es : list E) : list byte := concat (map enc es).
Definition table_ok (es : list E) : Prop := Forall ok es /\ Sorted follows es.

Lemma rest_accepts n : forall i x bs cs, 0 < i -> ok x ->
  (exists b, c_for n i c (out x) bs = inr (b, cs)) <->
  exists es, length es = n /\ table_ok es /\ HdRel follows x es /\ bs = table_bytes es ++ cs.
Proof.
  induction n as [|n IH]; intros i x bs cs Hi Hx.
  - cbn [c_for]. split.
    + intros (b & [= <- ->]). exists []. repeat split; constructor.
    + intros (es & Hl & _ & _ & ->). destruct es; [|discriminate]. eexists. reflexivity.
  - cbn [c_for]. split.
    + intros (b & H). apply bind_accepts in H as (a & ds & H1 & H2). apply next in H1 as (e & [He Hf] & -> & ->); [|exact Hi|exact Hx].
      destruct (proj1 (IH (i + 1) e ds cs ltac:(lia) He) (ex_intro _ b H2)) as (es & <- & [Ho Hs] & Hh & ->).
      exists (e :: es). split; [reflexivity|]. split; [split; constructor; assumption|]. split; [constructor; exact Hf|].
      unfold table_bytes. cbn. apply app_assoc.
    + intros (es & Hl & [Ho Hs] & Hh & ->). destruct es as [|e es]; [discriminate|]. injection Hl as Hl.
      inversion Ho; subst. inversion Hs; subst. inversion Hh; subst.
      destruct (proj2 (IH (i + 1) e (table_bytes es ++ cs) cs ltac:(lia) ltac:(assumption))) as (b & Hb).
      { exists es. repeat split; assumption. }
      exists b. apply bind_accepts. exists (out e), (table_bytes es ++ cs). split; [|exact Hb]. apply next; [exact Hi|exact Hx|].
      exists e. repeat split; try assumption. symmetry. apply app_assoc.
Qed.

Lemma table_accepts n bs cs :
  (exists b, c_for n 0 c a0 bs = inr (b, cs)) <-> exists es, length es = n /\ table_ok es /\ bs = table_bytes es ++ cs.
Proof.
  destruct n as [|n]; cbn [c_for].
  - split.
    + intros (b & [= <- ->]). exists []. repeat split; constructor.
    + intros (es & Hl & _ & ->). destruct es; [|discriminate]. eexists. reflexivity.
  - split.
    + intros (b & H). apply bind_accepts in H as (a & ds & H1 & H2). apply first in H1 as (e & He & -> & ->).
      destruct (proj1 (rest_accepts n 1 e ds cs ltac:(lia) He) (ex_intro _ b H2)) as (es & <- & [Ho Hs] & Hh & ->).
      exists (e :: es). split; [reflexivity|]. split; [split; constructor; assumption|]. unfold table_bytes. cbn. apply app_assoc.
    + intros (es & Hl & [Ho Hs] & ->). destruct es as [|e es]; [discriminate|]. injection Hl as Hl. inversion Ho; subst. inversion Hs; subst.
      destruct (proj2 (rest_accepts (length es) 1 e (table_bytes es ++ cs) cs ltac:(lia) ltac:(assumption))) as (b & Hb).
      { exists es. repeat split; assumption. }
      exists b. apply bind_accepts. exists (out e), (table_bytes es ++ cs). split; [|exact Hb]. apply first.
      exists e. repeat split; try assumption. symmetry. apply app_assoc.
Qed.

(** A head that gives the count, the entries, and nothing behind. *)
Lemma body_accepts (p : parser Z) (H : Z -> list byte -> Prop) `{!matches p H} st1 msg1 st2 msg2 bs :
  (forall n u, H n u -> 0 <= n) ->
  (exists cs, (count ← c_or_fail p st1 msg1; _ ← c_for (Z.to_nat count) 0 c a0; c_at_end st2 msg2) bs = inr (tt, cs)) <->
  exists u es, H (zlen es) u /\ table_ok es /\ bs = u ++ table_bytes es.
Proof.
  intros Hpos. split.
  - intros (cs & Hb). apply bind_accepts in Hb as (n & ds & H1 & H2). apply (or_fail_matches p H) in H1 as (u & Hu & ->).
    apply bind_accepts in H2 as (b & ds' & H2 & H3). apply at_end_accepts in H3 as [-> ->].
    destruct (proj1 (table_accepts _ _ _) (ex_intro _ b H2)) as (es & Hl & Hok & ->). exists u, es. rewrite app_nil_r.
    replace (zlen es) with n by (unfold zlen; rewrite Hl, Z2Nat.id by (eapply Hpos, Hu); reflexivity). auto.
  - intros (u & es & Hu & Hok & ->). exists []. apply bind_accepts. exists (zlen es), (table_bytes es). split.
    + apply (or_fail_matches p H). eauto.
    + destruct (proj2 (table_accepts (Z.to_nat (zlen es)) (table_bytes es) [])) as (b & Hb).
      { exists es. split; [unfold zlen; lia|]. split; [exact Hok|]. symmetry. apply app_nil_r. }
      apply bind_accepts. exists b, []. split; [exact Hb|reflexivity].
Qed.
End table.

(** Take a description apart, and put one together from the shape of the bytes. *)
Ltac described :=
  repeat match goal with
  | H : exists _, _ |- _ => destruct H
  | H : _ /\ _ |- _ => destruct H
  end; subst.
Ltac describe :=
  repeat match goal with
  | |- exists (_ : Z) (_ _ : list byte), _ => eexists _, _, _; split; [split; [|reflexivity]|split; [|reflexivity]]
  | |- _ /\ _ => split
  end; eauto.

(** A bound from the guard that checked it. *)
Ltac guarded := match goal with H : negb (?a <? ?b) = true |- ?b <= ?a => apply negb_true_iff, Z.ltb_ge in H; exact H end.

(** ** Packet tables *)

Record table_entry : Set := mk_table_entry {
  te_packet_seq : Z;
  te_dts : Z;
  te_pts : Z;
  te_duration : Z;
  te_flags : Z;
  te_offset : Z;
  te_size : Z
}.
Definition table_entry_bytes (e : table_entry) : list byte :=
  le_bytes 8 (te_packet_seq e) ++ tide_write_i64 (te_dts e) ++ tide_write_i64 (te_pts e) ++ tide_write_i64 (te_duration e) ++
  le_bytes 4 (te_flags e) ++ le_bytes 8 (te_offset e) ++ le_bytes 8 (te_size e).
(** Fields in range, no negative duration, a byte range that does not wrap. *)
Definition table_entry_ok (e : table_entry) : Prop :=
  is_u64 (te_packet_seq e) /\ is_i64 (te_dts e) /\ is_i64 (te_pts e) /\ is_i64 (te_duration e) /\ is_u32 (te_flags e) /\
  is_u64 (te_offset e) /\ is_u64 (te_size e) /\ 0 <= te_duration e /\ te_offset e + te_size e <= UINT64_MAX.
(** In order of packet sequence, with byte ranges that do not overlap. *)
Definition table_entry_follows (x e : table_entry) : Prop :=
  te_packet_seq x < te_packet_seq e /\ te_offset x + te_size x <= te_offset e.
Definition table_entry_out (e : table_entry) : Z * Z := (te_packet_seq e, te_offset e + te_size e).

#[export] Instance matches_table_entry i previous :
  matches (p_packet_table_entry i previous) (fun a u => exists e, table_entry_ok e /\
    negb (negb (i =? 0) && (te_packet_seq e <=? previous.1)) = true /\ negb (te_offset e <? previous.2) = true /\
    a = table_entry_out e /\ u = table_entry_bytes e).
Proof.
  eapply matches_ext; [unfold p_packet_table_entry; apply _|]. intros a u. cbv beta. split.
  - intros H. described.
    match goal with H : tide_checked_add_u64 ?o ?z = Some _ |- _ => rewrite checked_add_spec in H by assumption;
      destruct (Z.leb_spec (o + z) UINT64_MAX); [injection H as <-|discriminate H] end.
    match goal with |- context [le_bytes 8 ?sq ++ tide_write_i64 ?d ++ tide_write_i64 ?p ++ tide_write_i64 ?n ++ le_bytes 4 ?f ++ le_bytes 8 ?o ++ le_bytes 8 ?z ++ []] =>
      exists (mk_table_entry sq d p n f o z) end.
    unfold table_entry_ok, table_entry_out, table_entry_bytes.
    cbn [te_packet_seq te_dts te_pts te_duration te_flags te_offset te_size]. rewrite app_nil_r. repeat (split; [solve [assumption | reflexivity | guarded | split_and!; (assumption || guarded)]|]). reflexivity.
  - intros (e & (H1 & H2 & H3 & H4 & H5 & H6 & H7 & H8 & H9) & Hs & Ho & -> & ->). rewrite <- (app_nil_r (table_entry_bytes e)).
    unfold table_entry_bytes. rewrite <- !app_assoc. describe; [apply negb_true_iff, Z.ltb_ge, H8|].
    exists (te_offset e + te_size e). split; [rewrite checked_add_spec by assumption; rewrite (proj2 (Z.leb_le _ _)) by exact H9; reflexivity|]. auto.
Qed.

(** ** What [tide_emit_simple_record] accepts *)

(** Nothing changes but, on a failure, the error, which names the record. *)
Definition body_reported {U} (frame : tide_record_frame) (st : tide_status) (s s' : pstate U) : Prop :=
  (st = TIDE_STATUS_OK /\ s' = s) \/
  (is_failure st /\ exists msg, s' = set_error (tide_error_set (ps_error s) st TIDE_SEVERITY_ERROR (fr_payload_offset frame) (fr_type frame)
     (fr_depth frame) (Some "decoder"%string) (Some msg)) s).

Lemma simple_record_accepts {U} limits file payload frame (s : pstate U) :
  0 <= fr_offset frame <= zlen file -> zlen payload < 2 ^ 64 ->
  exists st s', tide_emit_simple_record limits file payload (zlen payload) frame s = Done (st, s') /\
    body_reported frame st s s' /\
    (st = TIDE_STATUS_OK <-> exists cs, c_simple limits (ps_tracks s) (slice file 0 (fr_offset frame)) frame payload = inr (tt, cs)).
Proof.
  intros Ho Hm. unfold tide_emit_simple_record.
  rewrite (with_body_eq _ _ payload (zlen payload) frame _ s (checks_simple (zlen payload) limits (ps_tracks s) file frame Ho) eq_refl Hm).
  destruct (c_simple _ _ _ _ payload) as [[st msg]|[[] cs]] eqn:E.
  - rewrite fail_with_done. eexists _, _. split; [reflexivity|]. apply honest_spec in E as Hst.
    split; [right; eauto|]. destruct Hst as (Hst & _). split; [contradiction|intros (cs & [=])].
  - exists TIDE_STATUS_OK, s. split; [reflexivity|]. split; [left; auto|]. split; [eauto|reflexivity].
Qed.

(** The head of a table of a known track. *)
Definition table_head (limit : Z) (tracks : list tide_track_snapshot) (n : Z) (u : list byte) : Prop :=
  exists track_id generation, is_u32 track_id /\ is_u32 generation /\ is_u64 n /\
    n <= limit /\ known tracks track_id generation = true /\ u = le_bytes 4 track_id ++ le_bytes 4 generation ++ uleb_bytes n.

#[export] Instance matches_table_head limit tracks : matches (p_table_head limit tracks) (table_head limit tracks).
Proof.
  unfold table_head. eapply matches_ext; [unfold p_table_head; apply _|]. intros n u. cbv beta. split.
  - intros H. described. rewrite app_nil_r. match goal with H : negb (?n >? ?l) = true |- _ => rewrite Z.gtb_ltb in H; apply negb_true_iff, Z.ltb_ge in H end.
    match goal with |- context [le_bytes 4 ?t ++ le_bytes 4 ?g ++ _] => exists t, g end. repeat (split; [assumption|]). reflexivity.
  - intros (t & g & H1 & H2 & H3 & H4 & H5 & ->). rewrite <- (app_nil_r (uleb_bytes n)). describe.
    rewrite Z.gtb_ltb. apply negb_true_iff, Z.ltb_ge, H4.
Qed.

(** The payload of a table of [es] for a track. *)
Definition table_payload {E} (enc : E -> list byte) (track_id generation : Z) (es : list E) : list byte :=
  le_bytes 4 track_id ++ le_bytes 4 generation ++ uleb_bytes (zlen es) ++ table_bytes enc es.

Lemma table_payload_count {E} (enc : E -> list byte) track_id generation es : (forall e, enc e <> []) ->
  zlen (table_payload enc track_id generation es) < 2 ^ 64 -> is_u64 (zlen es).
Proof.
  intros He Hm. assert (H : zlen es <= zlen (table_bytes enc es)).
  { clear Hm. induction es as [|e es IH]; [reflexivity|]. unfold table_bytes in *. cbn [map concat]. rewrite zlen_app.
    specialize (He e). destruct (enc e); [contradiction|]. unfold zlen in *. cbn [length]. lia. }
  unfold table_payload in Hm. rewrite !zlen_app in Hm. pose proof (zlen_nonneg es).
  match goal with |- _ => pose proof (zlen_nonneg (le_bytes 4 track_id)); pose proof (zlen_nonneg (le_bytes 4 generation)); pose proof (zlen_nonneg (uleb_bytes (zlen es))) end.
  zlia.
Qed.

(** A table behind a [p_table_head]. *)
Lemma headed_accepts {E A} (c : Z -> A -> checker A) enc (ok : E -> Prop) out follows a0 limit tracks st1 msg1 st2 msg2 payload :
  (forall bs b cs, c 0 a0 bs = inr (b, cs) <-> exists e, ok e /\ bs = enc e ++ cs /\ b = out e) ->
  (forall i x bs b cs, 0 < i -> ok x -> c i (out x) bs = inr (b, cs) <-> exists e, (ok e /\ follows x e) /\ bs = enc e ++ cs /\ b = out e) ->
  (forall e, enc e <> []) -> zlen payload < 2 ^ 64 ->
  (exists cs, (count ← c_or_fail (p_table_head limit tracks) st1 msg1; _ ← c_for (Z.to_nat count) 0 c a0; c_at_end st2 msg2) payload = inr (tt, cs)) <->
  exists track_id generation es, payload = table_payload enc track_id generation es /\ is_u32 track_id /\ is_u32 generation /\
    known tracks track_id generation = true /\ zlen es <= limit /\ table_ok ok follows es.
Proof.
  intros Hfirst Hnext Henc Hm. rewrite (body_accepts c enc ok out follows a0 Hfirst Hnext (p_table_head limit tracks) (table_head limit tracks)).
  - split.
    + intros (u & es & (t & g & H1 & H2 & H3 & H4 & H5 & ->) & Hok & ->). exists t, g, es. unfold table_payload. rewrite <- !app_assoc.
      repeat (split; [assumption || reflexivity|]). exact Hok.
    + intros (t & g & es & -> & H1 & H2 & H3 & H4 & Hok). eexists _, es. split; [|split; [exact Hok|]].
      * exists t, g. pose proof (table_payload_count enc t g es Henc Hm). repeat (split; [eassumption|]). reflexivity.
      * unfold table_payload. rewrite <- !app_assoc. reflexivity.
  - intros n u (t & g & _ & _ & Hn & _). zlia.
Qed.

(** Entries for a track that was described. *)
Definition packet_table_ok (limits : tide_limits) (tracks : list tide_track_snapshot) (payload : list byte) : Prop :=
  exists track_id generation es,
    payload = table_payload table_entry_bytes track_id generation es /\ is_u32 track_id /\ is_u32 generation /\
    known tracks track_id generation = true /\ zlen es <= max_packet_table_entries limits /\ table_ok table_entry_ok table_entry_follows es.

Lemma packet_table_accepts limits tracks payload : zlen payload < 2 ^ 64 ->
  (exists cs, c_packet_table limits tracks payload = inr (tt, cs)) <-> packet_table_ok limits tracks payload.
Proof.
  intros Hm. unfold c_packet_table.
  apply (headed_accepts _ table_entry_bytes table_entry_ok table_entry_out table_entry_follows (0, 0)); [| |discriminate|exact Hm].
  - intros bs b cs. rewrite (or_fail_matches (p_packet_table_entry 0 (0, 0)) _). split.
    + intros (u & (e & He & _ & _ & -> & ->) & ->). eauto.
    + intros (e & He & -> & ->). exists (table_entry_bytes e). split; [|reflexivity]. exists e. split; [exact He|]. split; [reflexivity|].
      split; [|auto]. apply negb_true_iff, Z.ltb_ge. unfold table_entry_ok in He. cbn. zlia.
  - intros i x bs b cs Hi Hx. rewrite (or_fail_matches (p_packet_table_entry i (table_entry_out x)) _).
    assert (Hf : forall e, table_entry_follows x e <-> negb (negb (i =? 0) && (te_packet_seq e <=? (table_entry_out x).1)) = true /\
      negb (te_offset e <? (table_entry_out x).2) = true).
    { intros e. rewrite (proj2 (Z.eqb_neq i 0)) by lia. cbn. rewrite !negb_true_iff, Z.leb_gt, Z.ltb_ge. reflexivity. }
    split.
    + intros (u & (e & He & Hs1 & Hs2 & -> & ->) & ->). exists e. rewrite Hf. auto.
    + intros (e & (He & Hfo) & -> & ->). apply Hf in Hfo as [Hs1 Hs2]. eauto 10.
Qed.

(** A one-byte-range table, for the witnesses. *)
Definition sample_table : list table_entry := [mk_table_entry 1 (-5) 0 10 0 100 20; mk_table_entry 3 5 10 10 1 120 0].
Definition sample_tracks : list tide_track_snapshot := [mk_track_snapshot 7 0 1 0x61 (mk_rational 1 1000)].
Definition body_frame (type : Z) : tide_record_frame := mk_frame type 0 12 3 200 9 400 412 612 616 620 0.

(** ** Edit lists *)

Definition edit_entry_bytes (e : tide_edit_entry) : list byte :=
  tide_write_i64 (output_start e) ++ tide_write_i64 (output_duration e) ++ tide_write_i64 (source_start e) ++
  le_bytes 4 (numerator (rate e)) ++ le_bytes 4 (denominator (rate e)).
(** Fields in range, a valid rate, a window of output time that does not overflow. *)
Definition edit_entry_ok (e : tide_edit_entry) : Prop :=
  edit_typed e /\ 0 <= output_duration e /\ output_start e + output_duration e <= INT64_MAX /\ reduced (rate e) = true.
(** The windows follow each other. *)
Definition edit_entry_follows (x e : tide_edit_entry) : Prop := output_start x + output_duration x <= output_start e.
Definition edit_entry_out (e : tide_edit_entry) : Z := output_start e + output_duration e.

#[export] Instance matches_edit_entry :
  matches p_edit_list_entry (fun a u => exists e, edit_entry_ok e /\ a = (output_start e, edit_entry_out e) /\ u = edit_entry_bytes e).
Proof.
  eapply matches_ext; [unfold p_edit_list_entry; apply _|]. intros a u. cbv beta. split.
  - intros H. described. rewrite app_nil_r.
    match goal with |- context [tide_write_i64 ?o ++ tide_write_i64 ?d ++ tide_write_i64 ?s ++ le_bytes 4 ?n ++ le_bytes 4 ?m] =>
      exists (mk_edit o d s (mk_rational n m)) end.
    unfold edit_entry_ok, edit_typed, rational_typed, edit_entry_out, edit_entry_bytes.
    cbn [output_start output_duration source_start rate numerator denominator]. rewrite Z.gtb_ltb in *. split; [|split; reflexivity].
    split; [split_and!; assumption|]. split; [guarded|]. split; [|assumption].
    match goal with H : negb (INT64_MAX - ?d <? ?o) = true |- _ => apply negb_true_iff, Z.ltb_ge in H; lia end.
  - intros (e & ((H1 & H2 & H3 & H4 & H5) & H6 & H7 & H8) & -> & ->). rewrite <- (app_nil_r (edit_entry_bytes e)).
    unfold edit_entry_bytes. rewrite <- !app_assoc. describe.
    + apply negb_true_iff, Z.ltb_ge, H6.
    + rewrite Z.gtb_ltb. apply negb_true_iff, Z.ltb_ge. lia.
Qed.

Lemma edit_entry_accepts i previous bs b cs :
  c_edit_list_entry i previous bs = inr (b, cs) <->
  exists e, (edit_entry_ok e /\ (i <> 0 -> previous <= output_start e)) /\ bs = edit_entry_bytes e ++ cs /\ b = edit_entry_out e.
Proof.
  unfold c_edit_list_entry. rewrite bind_accepts. split.
  - intros ([st en] & ds & H1 & H2). apply (or_fail_matches p_edit_list_entry _) in H1 as (u & (e & He & [= -> ->] & ->) & ->).
    destruct (Z.eqb_spec i 0) as [Hi|Hi]; cbn [negb andb] in H2; [injection H2 as <- <-; exists e; split; [split; [exact He|intros Hne; contradiction]|auto]|].
    destruct (Z.ltb_spec (output_start e) previous); [discriminate|]. injection H2 as <- <-. exists e. auto.
  - intros (e & [He Hp] & -> & ->). exists (output_start e, edit_entry_out e), cs. split.
    + apply (or_fail_matches p_edit_list_entry _). exists (edit_entry_bytes e). eauto.
    + destruct (Z.eqb_spec i 0); cbn [negb andb]; [reflexivity|]. rewrite (proj2 (Z.ltb_ge _ _)) by auto. reflexivity.
Qed.

Definition edit_list_ok (limits : tide_limits) (tracks : list tide_track_snapshot) (payload : list byte) : Prop :=
  exists track_id generation es,
    payload = table_payload edit_entry_bytes track_id generation es /\ is_u32 track_id /\ is_u32 generation /\
    known tracks track_id generation = true /\ zlen es <= max_edit_entries limits /\ table_ok edit_entry_ok edit_entry_follows es.

Lemma edit_list_accepts limits tracks payload : zlen payload < 2 ^ 64 ->
  (exists cs, c_edit_list limits tracks payload = inr (tt, cs)) <-> edit_list_ok limits tracks payload.
Proof.
  intros Hm. unfold c_edit_list.
  apply (headed_accepts _ edit_entry_bytes edit_entry_ok edit_entry_out edit_entry_follows INT64_MIN); [| |discriminate|exact Hm].
  - intros bs b cs. rewrite edit_entry_accepts. split; intros (e & H & H'); exists e; (split; [|exact H']); tauto.
  - intros i x bs b cs Hi Hx. rewrite edit_entry_accepts. unfold edit_entry_follows, edit_entry_out.
    split; intros (e & (He & Hf) & H'); exists e; (split; [split; [exact He|]|exact H']); [apply Hf; lia|auto].
Qed.

Definition sample_edits : list tide_edit_entry :=
  [mk_edit (-10) 10 0 (mk_rational 1 1); mk_edit 0 5 100 (mk_rational 3 2)].

(** ** Index directories *)

Record directory_entry : Set := mk_directory_entry {
  de_generation : Z;
  de_start_time : Z;
  de_end_time : Z;
  de_offset : Z
}.
Definition directory_entry_bytes (e : directory_entry) : list byte :=
  le_bytes 8 (de_generation e) ++ tide_write_i64 (de_start_time e) ++ tide_write_i64 (de_end_time e) ++ le_bytes 8 (de_offset e).
(** Fields in range, a time interval, and an index that lies behind the header
    and before the directory. *)
Definition directory_entry_ok (before : Z) (e : directory_entry) : Prop :=
  is_u64 (de_generation e) /\ is_i64 (de_start_time e) /\ is_i64 (de_end_time e) /\ is_u64 (de_offset e) /\
  0 <= de_start_time e <= de_end_time e /\ TIDE_HEADER_SIZE <= de_offset e < before.
(** In order of generation and of time. *)
Definition directory_entry_follows (x e : directory_entry) : Prop :=
  de_generation x < de_generation e /\ de_end_time x <= de_start_time e.
Definition directory_entry_out (e : directory_entry) : Z * Z := (de_generation e, i64_to_u64 (de_end_time e)).

Lemma i64_to_u64_nonneg z : 0 <= z -> is_i64 z -> i64_to_u64 z = z.
Proof. intros. unfold i64_to_u64. apply wrap64_small. zlia. Qed.

#[export] Instance matches_directory_entry before i previous :
  matches (p_index_directory_entry before i previous) (fun a u => exists e, directory_entry_ok before e /\
    negb (negb (i =? 0) && (de_generation e <=? previous.1)) = true /\ negb (negb (i =? 0) && (de_start_time e <? previous.2)) = true /\
    a = directory_entry_out e /\ u = directory_entry_bytes e).
Proof.
  eapply matches_ext; [unfold p_index_directory_entry; apply _|]. intros a u. cbv beta. split.
  - intros H. described. rewrite app_nil_r.
    match goal with |- context [le_bytes 8 ?g ++ tide_write_i64 ?s ++ tide_write_i64 ?n ++ le_bytes 8 ?o] =>
      exists (mk_directory_entry g s n o) end.
    unfold directory_entry_ok, directory_entry_out, directory_entry_bytes. cbn [de_generation de_start_time de_end_time de_offset].
    match goal with H : negb (?s <? 0) = true |- _ => apply negb_true_iff, Z.ltb_ge in H; rewrite (i64_to_u64_nonneg s) in * by assumption end.
    rewrite Z.geb_leb in *. repeat match goal with H : negb (_ <? ?t) = true |- _ => apply negb_true_iff, Z.ltb_ge in H end.
    match goal with H : negb (before <=? _) = true |- _ => apply negb_true_iff, Z.leb_gt in H end.
    split; [split_and!; assumption|]. auto.
  - intros (e & (H1 & H2 & H3 & H4 & [H5 H6] & [H7 H8]) & Hg & Hs & -> & ->). rewrite <- (app_nil_r (directory_entry_bytes e)).
    unfold directory_entry_bytes. rewrite <- !app_assoc. describe.
    + apply negb_true_iff, Z.ltb_ge, H5.
    + apply negb_true_iff, Z.ltb_ge, H6.
    + apply negb_true_iff, Z.ltb_ge, H7.
    + rewrite Z.geb_leb. apply negb_true_iff, Z.leb_gt, H8.
    + rewrite i64_to_u64_nonneg by assumption. exact Hs.
Qed.

Definition index_directory_ok (before : Z) (payload : list byte) : Prop :=
  exists es, payload = uleb_bytes (zlen es) ++ table_bytes directory_entry_bytes es /\ is_u64 (zlen es) /\
    table_ok (directory_entry_ok before) directory_entry_follows es.

Lemma index_directory_accepts before payload :
  (exists cs, c_index_directory before payload = inr (tt, cs)) <-> index_directory_ok before payload.
Proof.
  unfold c_index_directory.
  set (entry := fun i previous => c_or_fail (p_index_directory_entry before i previous) TIDE_STATUS_INDEX "bad index directory entry").
  assert (Hfirst : forall bs b cs, entry 0 (0, 0) bs = inr (b, cs) <->
    exists e, directory_entry_ok before e /\ bs = directory_entry_bytes e ++ cs /\ b = directory_entry_out e).
  { intros bs b cs. unfold entry. rewrite (or_fail_matches (p_index_directory_entry _ 0 (0, 0)) _). split.
    - intros (u & (e & He & _ & _ & -> & ->) & ->). eauto.
    - intros (e & He & -> & ->). exists (directory_entry_bytes e). split; [|reflexivity]. exists e. auto. }
  assert (Hnext : forall i x bs b cs, 0 < i -> directory_entry_ok before x -> entry i (directory_entry_out x) bs = inr (b, cs) <->
    exists e, (directory_entry_ok before e /\ directory_entry_follows x e) /\ bs = directory_entry_bytes e ++ cs /\ b = directory_entry_out e).
  { intros i x bs b cs Hi (_ & _ & Hx & _ & Hx' & _). unfold entry. rewrite (or_fail_matches (p_index_directory_entry _ i (directory_entry_out x)) _).
    assert (Hf : forall e, directory_entry_follows x e <-> negb (negb (i =? 0) && (de_generation e <=? (directory_entry_out x).1)) = true /\
      negb (negb (i =? 0) && (de_start_time e <? (directory_entry_out x).2)) = true).
    { intros e. rewrite (proj2 (Z.eqb_neq i 0)) by lia. cbn [negb andb directory_entry_out fst snd]. rewrite i64_to_u64_nonneg by (assumption || lia).
      rewrite !negb_true_iff, Z.leb_gt, Z.ltb_ge. reflexivity. }
    split.
    - intros (u & (e & He & Hs1 & Hs2 & -> & ->) & ->). exists e. rewrite Hf. auto.
    - intros (e & (He & Hfo) & -> & ->). apply Hf in Hfo as [Hs1 Hs2]. eauto 10. }
  rewrite (body_accepts entry directory_entry_bytes _ directory_entry_out directory_entry_follows (0, 0) Hfirst Hnext
    p_uleb (fun z u => is_u64 z /\ u = uleb_bytes z)); [|intros n u [Hn _]; zlia]. split.
  - intros (u & es & [Hn ->] & [Hok Hso] & ->). exists es. split; [reflexivity|]. split; [exact Hn|split; assumption].
  - intros (es & -> & Hn & [Hok Hso]). exists (uleb_bytes (zlen es)), es. split; [auto|]. split; [split; assumption|reflexivity].
Qed.

Definition sample_directory : list directory_entry := [mk_directory_entry 1 0 100 80; mk_directory_entry 4 100 100 72].

(** The sort key of the seek index is not the order of presentation: from
    2^32 on, the time reaches into the bits of the track. *)
Example seek_sort_key_mixes : 5 < 2 ^ 32 /\ seek_sort_key 1 (2 ^ 32) < seek_sort_key 1 5.
Proof. vm_compute. split; reflexivity. Qed.
