(* ===== verification/Records.v ===== *)
(** * Every record body

    Discontinuities, seek indexes, checkpoints and footers as grammars, and what
    [tide_emit_simple_record] accepts for each record type. *)

From S2P Require Import Prelude Status Checked Crc Reader Rational Edit Model Frame Validate Bodies.
From Stdlib Require Import Sorting.Sorted.

#[export] Instance matches_bytes n : matches (p_bytes n) (fun a u => n <= zlen a /\ zlen a = Z.max 0 n /\ u = a).
Proof.
  intros bs a cs. split.
  - intros H. exists a. unfold p_bytes in H. destruct (Z.leb_spec n (zlen bs)) as [Hn|]; [|discriminate]. injection H as <- <-.
    assert (Hz : zlen (take (Z.to_nat n) bs) = Z.max 0 n) by (unfold zlen in *; rewrite length_take; lia).
    split; [split; [lia|split; [exact Hz|reflexivity]]|]. symmetry. apply take_drop.
  - intros (u & (Hn & Hz & ->) & ->). unfold p_bytes. rewrite (proj2 (Z.leb_le _ _)) by (rewrite zlen_app; pose proof (zlen_nonneg cs); lia).
    assert (Hl : Z.to_nat n = length a) by (unfold zlen in Hz; lia). rewrite Hl, take_app_length, drop_app_length. reflexivity.
Qed.

Lemma zlen_digest (a : list byte) : TIDE_DIGEST_SIZE <= zlen a /\ zlen a = Z.max 0 TIDE_DIGEST_SIZE <-> zlen a = TIDE_DIGEST_SIZE.
Proof. unfold TIDE_DIGEST_SIZE. lia. Qed.

(** ** Discontinuities *)

(** An epoch that is not 0, for all tracks (0) or for one that was described. *)
Definition discontinuity_ok (tracks : list tide_track_snapshot) (payload : list byte) : Prop :=
  exists track_id generation epoch reason,
    payload = le_bytes 4 track_id ++ le_bytes 4 generation ++ le_bytes 8 epoch ++ le_bytes 4 reason /\
    is_u32 track_id /\ is_u32 generation /\ is_u64 epoch /\ is_u32 reason /\ epoch <> 0 /\
    (track_id = 0 \/ known tracks track_id generation = true).

Lemma discontinuity_accepts tracks payload :
  (exists cs, c_discontinuity tracks payload = inr (tt, cs)) <-> discontinuity_ok tracks payload.
Proof.
  unfold c_discontinuity. split.
  - intros (cs & H). apply bind_accepts in H as ([t g] & ds & H1 & H). apply (or_fail_matches _ _) in H1 as (u & H1 & ->). cbv beta in H1. described.
    match goal with H : (_, _) = (_, _) |- _ => injection H as <- <- end.
    apply bind_accepts in H as ([] & ds' & H2 & H). apply at_end_accepts in H2 as [-> ->]. rewrite !app_nil_r.
    match goal with |- discontinuity_ok _ (_ ++ _ ++ le_bytes 8 ?e ++ le_bytes 4 ?r) => exists t, g, e, r end.
    split; [reflexivity|]. repeat (split; [assumption|]). split.
    + match goal with H : negb (_ =? 0) = true |- _ => apply negb_true_iff, Z.eqb_neq in H; exact H end.
    + destruct (Z.eqb_spec t 0); [auto|right]. cbn [negb andb] in H. destruct (known tracks t g); [reflexivity|discriminate].
  - intros (t & g & e & r & -> & H1 & H2 & H3 & H4 & H5 & H6). exists []. apply bind_accepts. exists (t, g), []. split.
    + apply (or_fail_matches _ _). eexists. split; [|symmetry; apply app_nil_r]. rewrite <- (app_nil_r (le_bytes 4 r)). describe.
      apply negb_true_iff, Z.eqb_neq, H5.
    + apply bind_accepts. exists tt, []. split; [reflexivity|].
      destruct H6 as [-> | ->]; [reflexivity|]. rewrite andb_false_r. reflexivity.
Qed.

(** ** Seek indexes *)

Record seek_entry : Set := mk_seek_entry {
  se_track_id : Z;
  se_generation : Z;
  se_packet_seq : Z;
  se_pts : Z;
  se_group_offset : Z;
  se_record_offset : Z
}.
Definition seek_entry_bytes (e : seek_entry) : list byte :=
  le_bytes 4 (se_track_id e) ++ le_bytes 4 (se_generation e) ++ le_bytes 8 (se_packet_seq e) ++ tide_write_i64 (se_pts e) ++
  le_bytes 8 (se_group_offset e) ++ le_bytes 8 (se_record_offset e).
(** A track that was described, and a record in a group, both between the
    header and the index. *)
Definition seek_entry_ok (tracks : list tide_track_snapshot) (before : Z) (e : seek_entry) : Prop :=
  is_u32 (se_track_id e) /\ is_u32 (se_generation e) /\ is_u64 (se_packet_seq e) /\ is_i64 (se_pts e) /\
  is_u64 (se_group_offset e) /\ is_u64 (se_record_offset e) /\ known tracks (se_track_id e) (se_generation e) = true /\
  TIDE_HEADER_SIZE <= se_group_offset e <= se_record_offset e /\ se_record_offset e < before.
Definition seek_entry_out (e : seek_entry) : Z := seek_sort_key (se_track_id e) (se_pts e).
(** In the order of the code's sort key. *)
Definition seek_key_follows (x e : seek_entry) : Prop := seek_entry_out x <= seek_entry_out e.
(** In the order a reader searches by: of track, then of time. *)
Definition seek_entry_follows (x e : seek_entry) : Prop :=
  se_track_id x < se_track_id e \/ se_track_id x = se_track_id e /\ se_pts x <= se_pts e.

Lemma seek_entry_accepts tracks before i previous bs b cs :
  c_seek_index_entry tracks before i previous bs = inr (b, cs) <->
  exists e, (seek_entry_ok tracks before e /\ (i <> 0 -> previous <= seek_entry_out e)) /\ bs = seek_entry_bytes e ++ cs /\ b = seek_entry_out e.
Proof.
  unfold c_seek_index_entry. rewrite bind_accepts. split.
  - intros (key & ds & H1 & H2). apply (or_fail_matches _ _) in H1 as (u & H1 & ->). cbv beta in H1. described. rewrite app_nil_r.
    match goal with |- context [(le_bytes 4 ?t ++ le_bytes 4 ?g ++ le_bytes 8 ?q ++ tide_write_i64 ?p ++ le_bytes 8 ?o ++ le_bytes 8 ?r) ++ _] =>
      exists (mk_seek_entry t g q p o r) end.
    unfold seek_entry_ok, seek_entry_out, seek_entry_bytes.
    cbn [se_track_id se_generation se_packet_seq se_pts se_group_offset se_record_offset]. rewrite Z.geb_leb in *.
    match goal with H : negb (before <=? _) = true |- _ => apply negb_true_iff, Z.leb_gt in H end.
    destruct (Z.eqb_spec i 0) as [Hi|Hi]; cbn [negb andb] in H2.
    + injection H2 as <- <-. split; [|auto]. split; [|contradiction]. split_and!; (assumption || guarded).
    + match type of H2 with context [?k <? previous] => destruct (Z.ltb_spec k previous); [discriminate|] end. injection H2 as <- <-. split; [|auto]. split; [|auto].
      split_and!; (assumption || guarded).
  - intros (e & [(H1 & H2 & H3 & H4 & H5 & H6 & H7 & [H8 H9] & H10) Hp] & -> & ->). exists (seek_entry_out e), cs. split.
    + apply (or_fail_matches _ _). exists (seek_entry_bytes e). split; [|reflexivity]. rewrite <- (app_nil_r (seek_entry_bytes e)).
      unfold seek_entry_bytes. rewrite <- !app_assoc. describe.
      * apply negb_true_iff, Z.ltb_ge, H8.
      * apply negb_true_iff, Z.ltb_ge, H9.
      * rewrite Z.geb_leb. apply negb_true_iff, Z.leb_gt, H10.
    + destruct (Z.eqb_spec i 0); cbn [negb andb]; [reflexivity|]. rewrite (proj2 (Z.ltb_ge _ _)) by auto. reflexivity.
Qed.

(** The number of an index, and entries each of which follows the one before. *)
Definition seek_payload (index_generation : Z) (es : list seek_entry) : list byte :=
  le_bytes 8 index_generation ++ uleb_bytes (zlen es) ++ table_bytes seek_entry_bytes es.
Definition seek_index_by (follows : seek_entry -> seek_entry -> Prop) (tracks : list tide_track_snapshot) (before : Z) (payload : list byte) : Prop :=
  exists index_generation es, payload = seek_payload index_generation es /\
    is_u64 index_generation /\ is_u64 (zlen es) /\ table_ok (seek_entry_ok tracks before) follows es.
Definition seek_index_ok : list tide_track_snapshot -> Z -> list byte -> Prop := seek_index_by seek_entry_follows.

(** The code accepts the order of its key. *)
Lemma seek_index_accepts tracks before payload :
  (exists cs, c_seek_index tracks before payload = inr (tt, cs)) <-> seek_index_by seek_key_follows tracks before payload.
Proof.
  unfold c_seek_index.
  rewrite (body_accepts (c_seek_index_entry tracks before) seek_entry_bytes (seek_entry_ok tracks before) seek_entry_out seek_key_follows 0) with
    (H := fun z u => is_u64 z /\ exists g, is_u64 g /\ u = le_bytes 8 g ++ uleb_bytes z).
  - split.
    + intros (u & es & (Hz & g & Hg & ->) & Hok & ->). exists g, es. unfold seek_payload. rewrite <- app_assoc. auto.
    + intros (g & es & -> & Hg & Hz & Hok). eexists _, es. split; [split; [exact Hz|]; exists g; split; [exact Hg|reflexivity]|]. split; [exact Hok|apply app_assoc].
  - intros bs b cs. rewrite seek_entry_accepts. split; intros (e & H & H'); exists e; (split; [|exact H']); tauto.
  - intros i x bs b cs Hi Hx. rewrite seek_entry_accepts. unfold seek_key_follows.
    split; intros (e & (He & Hf) & H'); exists e; (split; [split; [exact He|]|exact H']); [apply Hf; lia|auto].
  - eapply matches_ext; [apply _|]. intros z u. cbv beta. split.
    + intros H. described. eauto.
    + intros (Hz & g & Hg & ->). describe.
  - intros n u [Hn _]. zlia.
Qed.

(** A time below 2^32, which the key keeps apart from the track. *)
Definition short_time (e : seek_entry) : Prop := 0 <= se_pts e < 2 ^ 32.

Lemma short_key track_id pts : is_u32 track_id -> 0 <= pts < 2 ^ 32 -> seek_sort_key track_id pts = track_id * 2 ^ 32 + pts.
Proof.
  intros Ht Hp. unfold seek_sort_key. rewrite (proj2 (Z.ltb_ge pts 0)) by lia.
  rewrite wrap64_small by (rewrite Z.shiftl_mul_pow2 by lia; zlia). rewrite Z.lxor_comm, lxor_shiftl_add by lia. lia.
Qed.

(** Between entries with short times the key is the order of track and time. *)
Lemma short_follows tracks before x e : seek_entry_ok tracks before x -> seek_entry_ok tracks before e -> short_time x -> short_time e ->
  seek_key_follows x e <-> seek_entry_follows x e.
Proof.
  intros (Hx & _) (He & _) Hsx Hse. unfold seek_key_follows, seek_entry_out, seek_entry_follows.
  rewrite !short_key by assumption. unfold short_time in *. lia.
Qed.

Lemma Sorted_impl {A} (P : A -> Prop) (R S : A -> A -> Prop) (l : list A) :
  (forall x y, P x -> P y -> R x y -> S x y) -> Forall P l -> Sorted R l -> Sorted S l.
Proof.
  intros HRS HP. induction 1 as [|x l Hs IH Hd]; [constructor|]. inversion HP as [|? ? Hx Hl]; subst. constructor; [auto|].
  destruct Hd as [|y l Hxy]; constructor. inversion Hl; subst. auto.
Qed.

(** Every way to read the payload as an index has short times. *)
Definition short_times (tracks : list tide_track_snapshot) (before : Z) (payload : list byte) : Prop :=
  forall g es, payload = seek_payload g es -> is_u64 g -> is_u64 (zlen es) -> Forall (seek_entry_ok tracks before) es -> Forall short_time es.

(** Bytes are read as one entry only, and as one index only. *)
Definition p_seek_entry : parser seek_entry :=
  t ← p_le 4; g ← p_le 4; q ← p_le 8; p ← p_i64; o ← p_le 8; r ← p_le 8; mret (mk_seek_entry t g q p o r).

Lemma p_seek_entry_bytes tracks before e bs : seek_entry_ok tracks before e -> p_seek_entry (seek_entry_bytes e ++ bs) = Some (e, bs).
Proof.
  intros (H1 & H2 & H3 & H4 & H5 & H6 & _). unfold p_seek_entry, seek_entry_bytes. rewrite <- !app_assoc. unfold mbind, parser_bind.
  rewrite !(p_le_bytes 4), !(p_le_bytes 8), p_i64_bytes, !(p_le_bytes 8) by assumption. destruct e. reflexivity.
Qed.

Lemma seek_entries_inj tracks before es : forall es', length es = length es' -> Forall (seek_entry_ok tracks before) es ->
  Forall (seek_entry_ok tracks before) es' -> table_bytes seek_entry_bytes es = table_bytes seek_entry_bytes es' -> es = es'.
Proof.
  induction es as [|e es IH]; intros [|e' es'] Hl H1 H2 Heq; try discriminate; [reflexivity|].
  inversion H1 as [|? ? He Hes]; inversion H2 as [|? ? He' Hes']; subst. unfold table_bytes in *. cbn [map concat] in Heq.
  apply (f_equal p_seek_entry) in Heq. rewrite !(p_seek_entry_bytes tracks before) in Heq by assumption. injection Heq as -> Heq.
  f_equal. apply IH; auto.
Qed.

Lemma seek_payload_inj tracks before g es g' es' : is_u64 g -> is_u64 g' -> is_u64 (zlen es) -> is_u64 (zlen es') ->
  Forall (seek_entry_ok tracks before) es -> Forall (seek_entry_ok tracks before) es' ->
  seek_payload g es = seek_payload g' es' -> es = es'.
Proof.
  intros Hg Hg' Hz Hz' H1 H2 Heq. unfold seek_payload in Heq. apply (f_equal (fun bs => p_le 8 bs)) in Heq. cbv beta in Heq.
  rewrite !(p_le_bytes 8) in Heq by assumption. injection Heq as _ Heq. apply (f_equal p_uleb) in Heq. rewrite !p_uleb_enc in Heq by assumption.
  injection Heq as Hlen Heq. apply (seek_entries_inj tracks before); try assumption. unfold zlen in Hlen. lia.
Qed.

Lemma short_times_intro tracks before g es : is_u64 g -> is_u64 (zlen es) -> Forall (seek_entry_ok tracks before) es -> Forall short_time es ->
  short_times tracks before (seek_payload g es).
Proof.
  intros Hg Hz Hok Hs g' es' Heq Hg' Hz' Hok'. rewrite <- (seek_payload_inj tracks before g es g' es') by assumption. exact Hs.
Qed.

Lemma seek_index_short tracks before payload : short_times tracks before payload ->
  seek_index_by seek_key_follows tracks before payload <-> seek_index_ok tracks before payload.
Proof.
  intros Hshort. split; intros (g & es & Hp & Hg & Hz & Hok & Hs); exists g, es;
    (split; [exact Hp|]; split; [exact Hg|]; split; [exact Hz|]; split; [exact Hok|]);
    refine (Sorted_impl (fun e => seek_entry_ok tracks before e /\ short_time e) _ _ es _ _ Hs);
    try (apply Forall_and; split; [exact Hok|exact (Hshort g es Hp Hg Hz Hok)]);
    intros x e [H1 H2] [H3 H4]; apply (short_follows tracks before); assumption.
Qed.

Lemma seek_index_entries (R : seek_entry -> seek_entry -> Prop) tracks before payload :
  seek_index_by R tracks before payload -> seek_index_by (fun _ _ => True) tracks before payload.
Proof.
  intros (g & es & Hp & Hg & Hz & Hok & Hs). exists g, es. repeat (split; [assumption|]).
  refine (Sorted_impl (fun _ => True) _ _ es _ _ Hs); [auto|]. apply Forall_forall. auto.
Qed.

(** ** Checkpoints *)

Definition descriptor_bytes (d : Z * Z) : list byte := le_bytes 4 d.1 ++ le_bytes 4 d.2.
Definition descriptor_ok (tracks : list tide_track_snapshot) (d : Z * Z) : Prop :=
  is_u32 d.1 /\ is_u32 d.2 /\ known tracks d.1 d.2 = true.

(** A prefix that ends before the checkpoint, a digest (which the code does not
    compare) and at most [max_tracks] tracks that were described. *)
Definition checkpoint_ok (limits : tide_limits) (tracks : list tide_track_snapshot) (before : Z) (payload : list byte) : Prop :=
  exists group_sequence prefix_offset digest ds,
    payload = le_bytes 8 group_sequence ++ le_bytes 8 prefix_offset ++ digest ++ uleb_bytes (zlen ds) ++ table_bytes descriptor_bytes ds /\
    is_u64 group_sequence /\ is_u64 prefix_offset /\ prefix_offset <= before /\ zlen digest = TIDE_DIGEST_SIZE /\
    is_u64 (zlen ds) /\ zlen ds <= max_tracks limits /\ Forall (descriptor_ok tracks) ds.

#[export] Instance matches_guard b : matches (p_guard b) (fun _ u => b = true /\ u = []).
Proof.
  intros bs [] cs. unfold p_guard. destruct b; split; [intros [= ->]; exists []; auto|intros (u & [_ ->] & ->); reflexivity|discriminate|intros (u & [[=] _] & _)].
Qed.

#[export] Instance matches_descriptor tracks :
  matches (track_id ← p_le 4; generation ← p_le 4; p_guard (known tracks track_id generation))
    (fun _ u => exists d, descriptor_ok tracks d /\ u = descriptor_bytes d) | 0.
Proof.
  eapply matches_ext; [apply _|]. intros [] u. cbv beta. split.
  - intros H. described. rewrite app_nil_r.
    match goal with |- context [le_bytes 4 ?t ++ le_bytes 4 ?g] => exists (t, g) end. repeat split; try assumption; apply H || apply H0.
  - intros ([t g] & (H1 & H2 & H3) & ->). unfold descriptor_bytes. rewrite <- (app_nil_r (le_bytes 4 (t, g).2)). describe.
Qed.

(** The head of a checkpoint of [n] descriptors. *)
Definition checkpoint_head (limits : tide_limits) (before n : Z) (u : list byte) : Prop :=
  exists group_sequence prefix_offset digest, u = le_bytes 8 group_sequence ++ le_bytes 8 prefix_offset ++ digest ++ uleb_bytes n /\
    is_u64 group_sequence /\ is_u64 prefix_offset /\ prefix_offset <= before /\ zlen digest = TIDE_DIGEST_SIZE /\
    is_u64 n /\ n <= max_tracks limits.

#[export] Instance matches_checkpoint_head limits before :
  matches (_ ← p_le 8; prefix_offset ← p_le 8; _ ← p_bytes TIDE_DIGEST_SIZE; count ← p_uleb;
           _ ← p_guard (negb (prefix_offset >? before)); _ ← p_guard (negb (count >? max_tracks limits)); mret count)
    (checkpoint_head limits before) | 0.
Proof.
  eapply matches_ext; [apply _|]. intros n u. cbv beta. unfold checkpoint_head. split.
  - intros H. described. rewrite app_nil_r, !Z.gtb_ltb in *.
    match goal with |- context [le_bytes 8 ?g ++ le_bytes 8 ?o ++ ?d ++ uleb_bytes _] => exists g, o, d end.
    split; [reflexivity|]. repeat (split; [assumption || guarded || (apply zlen_digest; auto)|]). guarded.
  - intros (g & o & d & -> & H1 & H2 & H3 & H4 & H5 & H6). rewrite <- (app_nil_r (uleb_bytes n)). apply zlen_digest in H4 as [H4 H4'].
    exists g, (le_bytes 8 g), (le_bytes 8 o ++ d ++ uleb_bytes n ++ []). split; [auto|]. split; [|reflexivity].
    exists o, (le_bytes 8 o), (d ++ uleb_bytes n ++ []). split; [auto|]. split; [|reflexivity].
    exists d, d, (uleb_bytes n ++ []). split; [auto|]. split; [|reflexivity].
    exists n, (uleb_bytes n), []. split; [auto|]. split; [|reflexivity]. rewrite !Z.gtb_ltb.
    split; [apply negb_true_iff, Z.ltb_ge, H3|]. split; [apply negb_true_iff, Z.ltb_ge, H6|]. auto.
Qed.

(** Nothing is asked of the order of descriptors. *)
Lemma Sorted_true {A} (l : list A) : Sorted (fun _ _ => True) l.
Proof. induction l as [|x l IH]; constructor; [exact IH|]. destruct l; constructor. exact I. Qed.

Lemma checkpoint_accepts limits tracks before payload :
  (exists cs, c_checkpoint limits tracks before payload = inr (tt, cs)) <-> checkpoint_ok limits tracks before payload.
Proof.
  unfold c_checkpoint.
  match goal with |- context [c_for _ 0 ?c tt] => set (entry := c) end.
  assert (Hentry : forall i x bs b cs, entry i x bs = inr (b, cs) <-> exists d, descriptor_ok tracks d /\ bs = descriptor_bytes d ++ cs /\ b = tt).
  { intros i x bs [] cs. unfold entry. rewrite (or_fail_matches _ _). split; [intros (u & (d & Hd & ->) & ->); eauto|intros (d & Hd & -> & _); eauto]. }
  rewrite (body_accepts entry descriptor_bytes (descriptor_ok tracks) (fun _ => tt) (fun _ _ => True) tt) with (H := checkpoint_head limits before).
  - unfold checkpoint_ok, checkpoint_head. split.
    + intros (u & ds & (g & o & d & -> & H) & [Hok _] & ->). exists g, o, d, ds. rewrite <- !app_assoc. tauto.
    + intros (g & o & d & ds & -> & H). eexists _, ds. split; [exists g, o, d; split; [reflexivity|tauto]|]. split; [split; [tauto|apply Sorted_true]|].
      rewrite <- !app_assoc. reflexivity.
  - intros bs b cs. apply Hentry.
  - intros i x bs b cs _ _. rewrite Hentry. split; intros (d & Hd & H'); exists d; tauto.
  - apply _.
  - intros n u (g & o & d & _ & _ & _ & _ & _ & Hn & _). zlia.
Qed.

(** ** Footers *)

(** The length of the file with the footer, no index directory or one between
    header and footer, and the digest of everything before the footer. *)
Definition footer_ok (before : list byte) (frame : tide_record_frame) (payload : list byte) : Prop :=
  exists file_length index_directory_offset last_checkpoint_sequence,
    payload = le_bytes 8 file_length ++ le_bytes 8 index_directory_offset ++ uleb_bytes last_checkpoint_sequence ++ digest32 before /\
    is_u64 file_length /\ is_u64 index_directory_offset /\ is_u64 last_checkpoint_sequence /\ file_length = fr_crc_end frame /\
    (index_directory_offset = 0 \/ TIDE_HEADER_SIZE <= index_directory_offset < fr_offset frame).

Lemma footer_guard n i frame :
  negb (n =? fr_crc_end frame) || (negb (i =? 0) && ((i <? TIDE_HEADER_SIZE) || (i >=? fr_offset frame))) = false <->
  n = fr_crc_end frame /\ (i = 0 \/ TIDE_HEADER_SIZE <= i < fr_offset frame).
Proof.
  rewrite Z.geb_leb, orb_false_iff, negb_false_iff, Z.eqb_eq. destruct (Z.eqb_spec i 0) as [->|Hi]; cbn [negb andb]; [tauto|].
  rewrite orb_false_iff, Z.ltb_ge, Z.leb_gt. tauto.
Qed.

Lemma footer_accepts before frame payload :
  (exists cs, c_footer before frame payload = inr (tt, cs)) <-> footer_ok before frame payload.
Proof.
  unfold c_footer. split.
  - intros (cs & H). apply bind_accepts in H as ([[n i] d] & ds & H1 & H). apply (or_fail_matches _ _) in H1 as (u & H1 & ->). cbv beta in H1. described.
    match goal with H : (_, _, _) = (_, _, _) |- _ => injection H as <- <- <- end.
    apply bind_accepts in H as ([] & ds' & H2 & H). apply at_end_accepts in H2 as [-> ->]. rewrite !app_nil_r.
    destruct (_ || _) eqn:Eg in H; [discriminate|]. apply footer_guard in Eg as [Hn Hi]. case_bool_decide as Ed; [|discriminate]. subst d.
    match goal with |- context [uleb_bytes ?q] => exists n, i, q end. auto 8.
  - intros (n & i & q & -> & H1 & H2 & H3 & H4 & H5). exists []. apply bind_accepts. exists (n, i, digest32 before), []. split.
    + apply (or_fail_matches _ _). eexists. split; [|symmetry; apply app_nil_r].
      exists n, (le_bytes 8 n), (le_bytes 8 i ++ uleb_bytes q ++ digest32 before ++ []). split; [auto|]. split; [|rewrite app_nil_r; reflexivity].
      exists i, (le_bytes 8 i), (uleb_bytes q ++ digest32 before ++ []). split; [auto|]. split; [|reflexivity].
      exists q, (uleb_bytes q), (digest32 before ++ []). split; [auto|]. split; [|reflexivity].
      exists (digest32 before), (digest32 before), []. split; [|split; [auto|reflexivity]]. pose proof (length_digest32 before).
      split; [|split; [|reflexivity]]; apply zlen_digest; unfold zlen, TIDE_DIGEST_SIZE; lia.
    + apply bind_accepts. exists tt, []. split; [reflexivity|]. rewrite (proj2 (footer_guard n i frame) (conj H4 H5)), bool_decide_eq_true_2 by reflexivity.
      reflexivity.
Qed.

(** ** All of them *)

(** What is asked of a payload: the constraints of docs/TIDE_FORMAT.md on the record
    type, and entries of a seek index in order of track and time.  They are on
    the payload, the frame, the bytes before the record and the descriptors seen.
    The record types with a body of their own ([GROUP], [STREAM_DESC] and [PACKET])
    and unknown types are not looked into here. *)
Definition body_ok (limits : tide_limits) (tracks : list tide_track_snapshot) (file : list byte) (frame : tide_record_frame)
    (payload : list byte) : Prop :=
  if fr_type frame =? TIDE_RECORD_PACKET_TABLE then packet_table_ok limits tracks payload
  else if fr_type frame =? TIDE_RECORD_EDIT_LIST then edit_list_ok limits tracks payload
  else if fr_type frame =? TIDE_RECORD_DISCONTINUITY then discontinuity_ok tracks payload
  else if fr_type frame =? TIDE_RECORD_SEEK_INDEX then seek_index_ok tracks (fr_offset frame) payload
  else if fr_type frame =? TIDE_RECORD_CHECKPOINT then checkpoint_ok limits tracks (fr_offset frame) payload
  else if fr_type frame =? TIDE_RECORD_INDEX_DIRECTORY then index_directory_ok (fr_offset frame) payload
  else if fr_type frame =? TIDE_RECORD_FOOTER then footer_ok (slice file 0 (fr_offset frame)) frame payload
  else True.

Lemma record_accepts {U} limits file payload frame (s : pstate U) (c : checker unit) (ok : Prop) :
  0 <= fr_offset frame <= zlen file -> zlen payload < 2 ^ 64 ->
  c_simple limits (ps_tracks s) (slice file 0 (fr_offset frame)) frame = c ->
  ((exists cs, c payload = inr (tt, cs)) <-> ok) ->
  exists st s', tide_emit_simple_record limits file payload (zlen payload) frame s = Done (st, s') /\
    body_reported frame st s s' /\ (st = TIDE_STATUS_OK <-> ok).
Proof.
  intros Ho Hm <- Hok. destruct (simple_record_accepts limits file payload frame s Ho Hm) as (st & s' & Hrun & Hs & Hst).
  exists st, s'. split; [exact Hrun|]. split; [exact Hs|]. rewrite Hst. exact Hok.
Qed.

Section tables.
Context {U : Type} (limits : tide_limits) (file payload : list byte) (frame : tide_record_frame) (s : pstate U).
Context (Ho : 0 <= fr_offset frame <= zlen file) (Hm : zlen payload < 2 ^ 64).

Corollary packet_table_accepted : fr_type frame = TIDE_RECORD_PACKET_TABLE ->
  exists st s', tide_emit_simple_record limits file payload (zlen payload) frame s = Done (st, s') /\
    body_reported frame st s s' /\ (st = TIDE_STATUS_OK <-> packet_table_ok limits (ps_tracks s) payload).
Proof. intros Ht. eapply record_accepts; [exact Ho|exact Hm|unfold c_simple; rewrite Ht; reflexivity|apply packet_table_accepts, Hm]. Qed.

Corollary edit_list_accepted : fr_type frame = TIDE_RECORD_EDIT_LIST ->
  exists st s', tide_emit_simple_record limits file payload (zlen payload) frame s = Done (st, s') /\
    body_reported frame st s s' /\ (st = TIDE_STATUS_OK <-> edit_list_ok limits (ps_tracks s) payload).
Proof. intros Ht. eapply record_accepts; [exact Ho|exact Hm|unfold c_simple; rewrite Ht; reflexivity|apply edit_list_accepts, Hm]. Qed.

Corollary index_directory_accepted : fr_type frame = TIDE_RECORD_INDEX_DIRECTORY ->
  exists st s', tide_emit_simple_record limits file payload (zlen payload) frame s = Done (st, s') /\
    body_reported frame st s s' /\ (st = TIDE_STATUS_OK <-> index_directory_ok (fr_offset frame) payload).
Proof. intros Ht. eapply record_accepts; [exact Ho|exact Hm|unfold c_simple; rewrite Ht; reflexivity|apply index_directory_accepts]. Qed.
End tables.

(** The order of the code, in place of that of track and time. *)
Definition body_accepted (limits : tide_limits) (tracks : list tide_track_snapshot) (file : list byte) (frame : tide_record_frame)
    (payload : list byte) : Prop :=
  if fr_type frame =? TIDE_RECORD_SEEK_INDEX then seek_index_by seek_key_follows tracks (fr_offset frame) payload
  else body_ok limits tracks file frame payload.

Lemma simple_accepts limits tracks file frame payload : zlen payload < 2 ^ 64 ->
  (exists cs, c_simple limits tracks (slice file 0 (fr_offset frame)) frame payload = inr (tt, cs)) <->
  body_accepted limits tracks file frame payload.
Proof.
  intros Hm. unfold c_simple, body_accepted, body_ok. destruct (Z.eqb_spec (fr_type frame) TIDE_RECORD_SEEK_INDEX) as [E|E].
  { rewrite E. cbn [Z.eqb Pos.eqb TIDE_RECORD_PACKET_TABLE TIDE_RECORD_EDIT_LIST TIDE_RECORD_DISCONTINUITY TIDE_RECORD_SEEK_INDEX]. apply seek_index_accepts. }
  repeat case_if; auto using packet_table_accepts, edit_list_accepts, discontinuity_accepts, checkpoint_accepts,
    index_directory_accepts, footer_accepts. split; [auto|eauto].
Qed.

Lemma body_accepted_ok limits tracks file frame payload :
  (fr_type frame = TIDE_RECORD_SEEK_INDEX -> short_times tracks (fr_offset frame) payload) ->
  body_accepted limits tracks file frame payload <-> body_ok limits tracks file frame payload.
Proof.
  intros Hshort. unfold body_accepted, body_ok. destruct (Z.eqb_spec (fr_type frame) TIDE_RECORD_SEEK_INDEX) as [E|E]; [|reflexivity].
  rewrite E. apply seek_index_short, Hshort, E.
Qed.

(** C27: a record body is accepted exactly when it satisfies what docs/TIDE_FORMAT.md asks of
    a record of its type.  It encodes a packet table, an edit list, a
    discontinuity, a seek index, a checkpoint, an index directory or a footer, with
    nothing behind it and every field in range; its entries increase and do not
    overlap; it is for tracks that were described, within the limits, and its offsets
    lie behind the header and before the record.  For a seek index that is
    so, with its entries in order of track and time, when the times are from 0 to
    2^32 - 1; beyond that the code's sort key mixes track and time, and what holds is that the
    entries of an accepted index are valid one by one.  Any other payload is rejected with an
    error, and neither changes more than the error.  Not asked for by the
    code, nor here: the conditions of 04_tide_streaming_media_container.md that span records (a seek
    entry names the start of a packet, epochs increase, the directory of a footer and
    the checkpoints named exist). *)
Theorem simple_record_accepted {U} (limits : tide_limits) (file payload : list byte) (frame : tide_record_frame) (s : pstate U) :
  0 <= fr_offset frame <= zlen file -> zlen payload < 2 ^ 64 ->
  exists st s', tide_emit_simple_record limits file payload (zlen payload) frame s = Done (st, s') /\
    body_reported frame st s s' /\
    ((fr_type frame = TIDE_RECORD_SEEK_INDEX -> short_times (ps_tracks s) (fr_offset frame) payload) ->
     (st = TIDE_STATUS_OK <-> body_ok limits (ps_tracks s) file frame payload)) /\
    (fr_type frame = TIDE_RECORD_SEEK_INDEX -> st = TIDE_STATUS_OK ->
     seek_index_by (fun _ _ => True) (ps_tracks s) (fr_offset frame) payload).
Proof.
  intros Ho Hm. destruct (record_accepts limits file payload frame s _ _ Ho Hm eq_refl (simple_accepts limits (ps_tracks s) file frame payload Hm))
    as (st & s' & Hrun & Hrep & Hst).
  exists st, s'. split; [exact Hrun|]. split; [exact Hrep|]. split.
  - intros Hshort. rewrite Hst. apply body_accepted_ok, Hshort.
  - intros E H. apply Hst in H. unfold body_accepted in H. rewrite E, Z.eqb_refl in H. exact (seek_index_entries _ _ _ _ H).
Qed.

(** Two entries of a track in order of time, and the same in an order that only the
    code's key has. *)
Definition sample_seeks : list seek_entry := [mk_seek_entry 7 0 1 5 72 100; mk_seek_entry 7 0 2 9 72 140].
Definition mixed_seeks : list seek_entry := [mk_seek_entry 7 0 1 (2 ^ 32) 72 100; mk_seek_entry 7 0 2 9 72 140].

(** Witnesses: a table, edits, a seek index and a directory, each in its record. *)
Lemma simple_record_accepted_witness :
  let s := mk_pstate sample_tracks 8 (Some zero_error) (Some 0) tt [] in
  let accepted type payload := exists s',
    tide_emit_simple_record tide_limits_default (replicate 620 x00) payload (zlen payload) (body_frame type) s = Done (TIDE_STATUS_OK, s') /\ s' = s in
  accepted TIDE_RECORD_PACKET_TABLE (table_payload table_entry_bytes 7 0 sample_table) /\
  accepted TIDE_RECORD_EDIT_LIST (table_payload edit_entry_bytes 7 0 sample_edits) /\
  accepted TIDE_RECORD_SEEK_INDEX (seek_payload 1 sample_seeks) /\
  accepted TIDE_RECORD_INDEX_DIRECTORY (uleb_bytes 2 ++ table_bytes directory_entry_bytes sample_directory).
Proof.
  intros s accepted.
  assert (H : forall type payload, zlen payload < 2 ^ 64 ->
    (type = TIDE_RECORD_SEEK_INDEX -> short_times sample_tracks 400 payload) ->
    body_ok tide_limits_default sample_tracks (replicate 620 x00) (body_frame type) payload -> accepted type payload).
  { intros type payload Hm Hshort Hok. destruct (simple_record_accepted tide_limits_default (replicate 620 x00) payload (body_frame type) s)
      as (st & s' & Hrun & Hs & Hst & _); [vm_compute; split; discriminate|exact Hm|].
    assert (E : st = TIDE_STATUS_OK) by (apply Hst; [exact Hshort|exact Hok]). exists s'. rewrite E in *. split; [exact Hrun|].
    destruct Hs as [[_ Hs]|[[[] _] _]]; [exact Hs|reflexivity]. }
  split; [|split; [|split]]; (apply H; [vm_compute; reflexivity|try discriminate|]).
  - exists 7, 0, sample_table. split; [reflexivity|]. split; [zlia|]. split; [zlia|]. split; [reflexivity|].
    split; [discriminate|]. split; repeat constructor; cbn; (lia || discriminate).
  - exists 7, 0, sample_edits. split; [reflexivity|]. split; [zlia|]. split; [zlia|]. split; [reflexivity|].
    split; [discriminate|]. split; repeat constructor; cbn; (lia || discriminate).
  - intros _. apply short_times_intro; [zlia|vm_compute; split; discriminate || reflexivity|..]; repeat constructor; cbn; (lia || discriminate).
  - exists 1, sample_seeks. split; [reflexivity|]. split; [zlia|]. split; [vm_compute; split; discriminate || reflexivity|].
    split; [repeat constructor; cbn; (lia || discriminate)|].
    apply Sorted_cons; [apply Sorted_cons; [apply Sorted_nil|apply HdRel_nil]|apply HdRel_cons; right; cbn; lia].
  - exists sample_directory. split; [reflexivity|]. split; [vm_compute; split; discriminate || reflexivity|]. split; repeat constructor; cbn; (lia || discriminate).
Defined.
