(* ===== verification/Header.v ===== *)
(** * The file header

    [tide_validate_header] of [src/format/decoder.c]: the first 72 bytes of a
    file. *)

From S2P Require Import Prelude Status Checked Crc Reader Rational Model Frame Validate.

Definition tide_magic_bytes : list byte := map byte_of_Z [0x54; 0x49; 0x44; 0x45; 0x31; 0x0D; 0x0A; 0x1A].

(** The fields after the magic: major version, identifier, movie time base,
    required features, record hint, CRC. *)
Definition read_header : reader_m (Z * list byte * tide_rational * Z * Z * Z) :=
  major ← tide_reader_read_u16;
  _minor ← tide_reader_read_u16;
  uuid ← tide_reader_read_bytes TIDE_UUID_SIZE;
  movie_base_numerator ← tide_reader_read_u32;
  movie_base_denominator ← tide_reader_read_u32;
  required_features ← tide_reader_read_u64;
  _optional_features ← tide_reader_read_u64;
  max_record_hint ← tide_reader_read_u64;
  _first_checkpoint_offset ← tide_reader_read_u64;
  stored_crc ← tide_reader_read_u32;
  mret (major, uuid, mk_rational movie_base_numerator movie_base_denominator, required_features,
        max_record_hint, stored_crc).

Definition tide_validate_header {U} (data : option (list byte)) (size : Z) (limits : tide_limits)
    : parse_m U tide_status :=
  if size <? TIDE_HEADER_SIZE then fail_with TIDE_STATUS_TRUNCATED size 0 0 "incomplete header"
  else
    data ← lift (deref data);
    magic ← lift (span data 0 8);
    if negb (bool_decide (magic = tide_magic_bytes)) then fail_with TIDE_STATUS_FORMAT 0 0 0 "bad magic"
    else
      fields ← lift (span data 8 (TIDE_HEADER_SIZE - 8));
      '(res, _) ← lift (read_header (tide_reader_init fields (TIDE_HEADER_SIZE - 8)));
      match res with
      | None => fail_with TIDE_STATUS_INTERNAL 0 0 0 "header reader failed"
      | Some (major, uuid, movie_base, required_features, max_record_hint, stored_crc) =>
        if negb (major =? 1) then fail_with TIDE_STATUS_UNSUPPORTED 8 0 0 "unsupported major version"
        else if bool_decide (uuid = replicate (Z.to_nat TIDE_UUID_SIZE) x00) then
          fail_with TIDE_STATUS_FORMAT 12 0 0 "zero file uuid"
        else
          valid ← lift (tide_rational_is_valid movie_base);
          if negb valid then fail_with TIDE_STATUS_TIMELINE 28 0 0 "invalid movie time base"
          else if negb (required_features =? 0) then
            fail_with TIDE_STATUS_UNSUPPORTED 36 0 0 "unknown required feature"
          else if max_record_hint >? max_record_size limits then
            fail_with TIDE_STATUS_RESOURCE 52 0 0 "record hint exceeds policy"
          else
            actual_crc ← lift (tide_crc32c data (TIDE_HEADER_SIZE - 4));
            if negb (stored_crc =? actual_crc) then fail_with TIDE_STATUS_INTEGRITY 68 0 0 "header crc mismatch"
            else mret TIDE_STATUS_OK
      end.

(** ** The header as a function of its bytes *)

Definition p_header : parser (Z * list byte * tide_rational * Z * Z * Z) :=
  major ← p_le 2; _ ← p_le 2; uuid ← p_bytes TIDE_UUID_SIZE; num ← p_le 4; den ← p_le 4;
  required ← p_le 8; _ ← p_le 8; hint ← p_le 8; _ ← p_le 8; crc ← p_le 4;
  mret (major, uuid, mk_rational num den, required, hint, crc).

(** Status, offset and message of the error of the 72 bytes [h], [None] when
    they are a header. *)
Definition header_verdict (limits : tide_limits) (h : list byte) : option (tide_status * Z * string) :=
  if negb (bool_decide (slice h 0 8 = tide_magic_bytes)) then Some (TIDE_STATUS_FORMAT, 0, "bad magic"%string)
  else
    match p_header (slice h 8 64) with
    | None => Some (TIDE_STATUS_INTERNAL, 0, "header reader failed"%string)
    | Some ((major, uuid, base, required, hint, crc), _) =>
      if negb (major =? 1) then Some (TIDE_STATUS_UNSUPPORTED, 8, "unsupported major version"%string)
      else if bool_decide (uuid = replicate 16 x00) then Some (TIDE_STATUS_FORMAT, 12, "zero file uuid"%string)
      else if negb (reduced base) then Some (TIDE_STATUS_TIMELINE, 28, "invalid movie time base"%string)
      else if negb (required =? 0) then Some (TIDE_STATUS_UNSUPPORTED, 36, "unknown required feature"%string)
      else if hint >? max_record_size limits then Some (TIDE_STATUS_RESOURCE, 52, "record hint exceeds policy"%string)
      else if negb (crc =? crc32c (slice h 0 68)) then Some (TIDE_STATUS_INTEGRITY, 68, "header crc mismatch"%string)
      else None
    end.

#[export] Instance refines_header : refines read_header p_header.
Proof. unfold read_header, p_header, TIDE_UUID_SIZE. apply _. Qed.

Lemma p_header_typed bs major uuid base required hint crc cs :
  p_header bs = Some ((major, uuid, base, required, hint, crc), cs) -> rational_typed base.
Proof.
  intros H. assert (Hp : produces p_header (major, uuid, base, required, hint, crc)) by (exists bs, cs; exact H).
  unfold p_header, TIDE_UUID_SIZE in Hp. produced Hp. injection Hp; intros; subst.
  split; cbn; ranges; lia.
Qed.

Lemma header_short {U} data size limits (s : pstate U) :
  size < TIDE_HEADER_SIZE ->
  tide_validate_header data size limits s =
    fail_with TIDE_STATUS_TRUNCATED size 0 0 "incomplete header" s.
Proof. intros H. unfold tide_validate_header. rewrite (proj2 (Z.ltb_lt _ _)) by exact H. reflexivity. Qed.

Lemma header_eq {U} data size limits (s : pstate U) :
  TIDE_HEADER_SIZE <= size <= zlen data ->
  tide_validate_header (Some data) size limits s =
    match header_verdict limits (slice data 0 TIDE_HEADER_SIZE) with
    | None => Done (TIDE_STATUS_OK, s)
    | Some (st, off, msg) => fail_with st off 0 0 msg s
    end.
Proof.
  unfold TIDE_HEADER_SIZE. intros H. unfold tide_validate_header, header_verdict, TIDE_HEADER_SIZE.
  rewrite (proj2 (Z.ltb_ge _ _)) by lia. rewrite (run_lift _ _ _ data) by reflexivity.
  erewrite run_lift by (apply span_done; lia).
  rewrite !slice_slice by lia. rewrite !Z.add_0_l.
  destruct (negb (bool_decide _)); [reflexivity|].
  erewrite run_lift by (apply span_done; lia). change (72 - 8) with 64.
  destruct (run_init read_header p_header (slice data 8 64) 64) as (r & _ & Hr); [apply zlen_slice; lia|lia|].
  destruct (p_header (slice data 8 64)) as [[[[[[[major uuid] base] required] hint] crc] cs]|] eqn:Ep.
  2: { erewrite run_lift by exact Hr. reflexivity. }
  destruct Hr as (Hr & _). erewrite run_lift by exact Hr. cbv beta iota.
  destruct (negb (major =? 1)); [reflexivity|]. change (Z.to_nat TIDE_UUID_SIZE) with 16%nat.
  destruct (bool_decide (uuid = _)); [reflexivity|].
  erewrite run_lift by (eapply is_valid_spec, p_header_typed, Ep).
  destruct (negb (reduced base)); [reflexivity|]. destruct (negb (required =? 0)); [reflexivity|].
  destruct (hint >? max_record_size limits); [reflexivity|]. change (72 - 4) with 68.
  assert (Hc : tide_crc32c data 68 = Done (crc32c (slice data 0 68))).
  { unfold tide_crc32c. rewrite span_done by lia. reflexivity. }
  rewrite (run_lift _ _ _ _ Hc).
  destruct (negb (crc =? _)); reflexivity.
Qed.
