(* ===== verification/Decoder.v ===== *)
(** * The record parser

    The recursive descent of [src/format/decoder.c]: [tide_process_record],
    [tide_parse_records] and the one-shot entry [tide_parse_tide_bytes]. *)

From S2P Require Import Prelude Status Checked Crc Reader Rational Model Frame Validate Header.

Section decoder.
Context {U : Type} (limits : tide_limits) (callbacks : tide_callbacks U).

Definition record_event (frame : tide_record_frame) : tide_record_event :=
  mk_record_event (fr_type frame) (fr_flags frame) (fr_offset frame) (fr_payload_offset frame)
    (fr_payload_size frame) (fr_sequence frame) (fr_depth frame)
    (negb (Z.land (fr_type frame) TIDE_RECORD_SKIPPABLE_BIT =? 0)).

(** The header of a group: the length of its children. *)
Definition read_group : reader_m Z :=
  _group_kind ← tide_reader_read_u16;
  _ ← tide_reader_skip 2;
  child_bytes ← tide_reader_read_u64;
  _group_sequence ← tide_reader_read_u64;
  mret child_bytes.

(** The [TIDE_RECORD_GROUP] case; [parse_records] is the recursive call. *)
Definition process_group (parse_records : list byte -> Z -> Z -> Z -> parse_m U tide_status)
    (data payload : list byte) (payload_size : Z) (frame : tide_record_frame) : parse_m U tide_status :=
  if payload_size <? TIDE_GROUP_META_SIZE then
    fail_with TIDE_STATUS_FORMAT (fr_payload_offset frame) (fr_type frame) (fr_depth frame) "short group"
  else
    '(res, _) ← lift ((child_bytes ← read_group;
                       _ ← reader_guard (child_bytes =? payload_size -u TIDE_GROUP_META_SIZE);
                       mret child_bytes) (tide_reader_init payload payload_size));
    match res with
    | None =>
      fail_with TIDE_STATUS_FORMAT (fr_payload_offset frame) (fr_type frame) (fr_depth frame) "bad group child length"
    | Some _ =>
      if fr_depth frame >=? max_depth limits then
        fail_with TIDE_STATUS_RESOURCE (fr_offset frame) (fr_type frame) (fr_depth frame) "group depth limit"
      else
        let child_begin := fr_payload_offset frame +u TIDE_GROUP_META_SIZE in
        let child_end := fr_payload_end frame in
        status ← parse_records data child_begin child_end (wrap8 (fr_depth frame + 1));
        if bool_decide (status = TIDE_STATUS_TRUNCATED) then
          fail_with TIDE_STATUS_FORMAT child_begin (fr_type frame) (fr_depth frame)
            "complete group contains incomplete child"
        else mret status
    end.

Definition is_simple (type : Z) : bool :=
  (type =? TIDE_RECORD_PACKET_TABLE) || (type =? TIDE_RECORD_EDIT_LIST) ||
  (type =? TIDE_RECORD_DISCONTINUITY) || (type =? TIDE_RECORD_SEEK_INDEX) ||
  (type =? TIDE_RECORD_CHECKPOINT) || (type =? TIDE_RECORD_INDEX_DIRECTORY) ||
  (type =? TIDE_RECORD_FOOTER).

Definition tide_process_record (parse_records : list byte -> Z -> Z -> Z -> parse_m U tide_status)
    (data : list byte) (frame : tide_record_frame) : parse_m U tide_status :=
  let payload_size := fr_payload_end frame -u fr_payload_offset frame in
  payload ← lift (span data (fr_payload_offset frame) payload_size);
  let event := record_event frame in
  if negb (Z.land (fr_type frame) TIDE_RECORD_SKIPPABLE_BIT =? 0) then call (on_record callbacks) event
  else
    status ← call (on_record callbacks) event;
    if negb (bool_decide (status = TIDE_STATUS_OK)) then mret status
    else if fr_type frame =? TIDE_RECORD_GROUP then process_group parse_records data payload payload_size frame
    else if fr_type frame =? TIDE_RECORD_STREAM_DESC then
      tide_emit_stream limits callbacks payload payload_size frame
    else if fr_type frame =? TIDE_RECORD_PACKET then tide_emit_packet callbacks payload payload_size frame
    else if is_simple (fr_type frame) then tide_emit_simple_record limits data payload payload_size frame
    else
      fail_with TIDE_STATUS_UNSUPPORTED (fr_offset frame) (fr_type frame) (fr_depth frame)
        "unknown required record".

(** The loop from [cursor = begin]. *)
Fixpoint tide_parse_records (fuel : nat) (data : list byte) (cursor end_ depth : Z) : parse_m U tide_status :=
  match fuel with
  | O => fun _ => NoFuel
  | S fuel =>
    if cursor <? end_ then
      prefix ← tide_decode_record_prefix data end_ cursor depth;
      match prefix with
      | inl TIDE_STATUS_TRUNCATED => _ ← write_valid_prefix cursor; mret TIDE_STATUS_TRUNCATED
      | inl status => mret status
      | inr frame =>
        if (fr_payload_size frame >? max_payload_size limits) ||
           (fr_crc_end frame -u fr_offset frame >? max_record_size limits) then
          fail_with TIDE_STATUS_RESOURCE cursor (fr_type frame) depth "record exceeds limit"
        else
          status ← tide_validate_record_integrity data frame;
          if negb (bool_decide (status = TIDE_STATUS_OK)) then mret status
          else
            status ← tide_process_record (tide_parse_records fuel) data frame;
            if negb (bool_decide (status = TIDE_STATUS_OK)) then mret status
            else
              _ ← write_valid_prefix (fr_crc_end frame);
              tide_parse_records fuel data (fr_crc_end frame) end_ depth
      end
    else if negb (cursor =? end_) then
      fail_with TIDE_STATUS_FORMAT cursor 0 depth "record boundary mismatch"
    else mret TIDE_STATUS_OK
  end.
End decoder.

(** Records take at least 14 bytes, so the loops never run a round per byte. *)
Definition parse_fuel (size : Z) : nat := S (Z.to_nat size).

(** [impl] is zeroed, [user] and the allocator are the caller's; the result
    has the caller's cells in the final state. *)
Definition initial_state {U} (user : U) (error : option tide_error) (valid_prefix : option Z) (h : heap) : pstate U :=
  mk_pstate [] 0 error valid_prefix user h.

Definition tide_parse_tide_bytes {U} (data : option (list byte)) (size : Z) (end_ : bool)
    (limits : option tide_limits) (callbacks : option (tide_callbacks U)) (user : U)
    (error : option tide_error) (valid_prefix : option Z) (h : heap) : outcome (tide_status * pstate U) :=
  let effective_limits := default tide_limits_default limits in
  if is_null data && negb (size =? 0) then
    Done (TIDE_STATUS_INVALID_ARGUMENT, initial_state user error valid_prefix h)
  else
    let effective_callbacks := default no_callbacks callbacks in
    let s := initial_state user (tide_error_clear error) (match valid_prefix with None => None | Some _ => Some 0 end) h in
    '(status, s) ← tide_validate_header data size effective_limits s;
    if negb (bool_decide (status = TIDE_STATUS_OK)) then
      Done (if bool_decide (status = TIDE_STATUS_TRUNCATED) && end_ then TIDE_STATUS_PARTIAL else status, s)
    else
      let s := match ps_valid_prefix s with None => s | Some _ => set_prefix TIDE_HEADER_SIZE s end in
      bytes ← deref data;
      '(status, s) ← tide_parse_records effective_limits effective_callbacks (parse_fuel size) bytes
                       TIDE_HEADER_SIZE size 0 s;
      Done (if bool_decide (status = TIDE_STATUS_TRUNCATED) && end_ then TIDE_STATUS_PARTIAL else status, s).
