(* ===== verification/Parse.v ===== *)
(** * What the record parser does, record by record

    A record with an intact frame calls for one action, a function of the
    bytes and of the track table ([action_of]); [parse_step] and [process_eq]
    give the parser in those terms, without readers and bounds checks.  The
    invariant rule at the end is the induction principle the properties of the
    decoder use. *)

From S2P Require Import Prelude Status Checked Crc Reader Rational Model Frame Validate Header Decoder.

Inductive action : Type :=
  | Reject (status : tide_status) (offset : Z) (message : string)
  | Descend (child_begin child_end : Z)
  | Describe (stream : tide_stream_info)
  | Deliver (packet : tide_packet_info)
  | Accept.

Definition is_skippable (f : tide_record_frame) : bool :=
  negb (Z.land (fr_type f) TIDE_RECORD_SKIPPABLE_BIT =? 0).

Definition payload_of (data : list byte) (f : tide_record_frame) : list byte :=
  slice data (fr_payload_offset f) (fr_payload_size f).

Definition p_group : parser Z :=
  _ ← p_le 2; _ ← p_skip 2; child_bytes ← p_le 8; _ ← p_le 8; mret child_bytes.

Definition body_action {A} (f : tide_record_frame) (v : (tide_status * string) + (A * list byte)) (k : A -> action) : action :=
  match v with
  | inl (st, msg) => Reject st (fr_payload_offset f) msg
  | inr (a, _) => k a
  end.

(** What a record that is not skippable calls for. *)
Definition action_of (limits : tide_limits) (tracks : list tide_track_snapshot) (data : list byte)
    (f : tide_record_frame) : action :=
  let payload := payload_of data f in
  if fr_type f =? TIDE_RECORD_GROUP then
    if fr_payload_size f <? TIDE_GROUP_META_SIZE then
      Reject TIDE_STATUS_FORMAT (fr_payload_offset f) "short group"
    else
      match p_group payload with
      | Some (child_bytes, _) =>
        if negb (child_bytes =? fr_payload_size f - TIDE_GROUP_META_SIZE) then
          Reject TIDE_STATUS_FORMAT (fr_payload_offset f) "bad group child length"
        else if max_depth limits <=? fr_depth f then
          Reject TIDE_STATUS_RESOURCE (fr_offset f) "group depth limit"
        else Descend (fr_payload_offset f + TIDE_GROUP_META_SIZE) (fr_payload_end f)
      | None => Reject TIDE_STATUS_FORMAT (fr_payload_offset f) "bad group child length"
      end
  else if fr_type f =? TIDE_RECORD_STREAM_DESC then body_action f (c_stream payload) Describe
  else if fr_type f =? TIDE_RECORD_PACKET then body_action f (c_packet tracks payload) Deliver
  else if is_simple (fr_type f) then
    body_action f (c_simple limits tracks (slice data 0 (fr_offset f)) f payload) (fun _ => Accept)
  else Reject TIDE_STATUS_UNSUPPORTED (fr_offset f) "unknown required record".

Lemma body_honest {A} f (c : checker A) bs (k : A -> action) st off msg :
  honest c -> (forall a, match k a with Reject _ _ _ => False | _ => True end) ->
  body_action f (c bs) k = Reject st off msg -> is_failure st.
Proof.
  intros Hc Hk. unfold body_action. destruct (c bs) as [[st' msg']|[a cs]] eqn:E.
  - intros [= <- _ _]. exact (honest_spec _ _ _ E).
  - intros H. specialize (Hk a). rewrite H in Hk. contradiction.
Qed.

Lemma action_honest limits tracks data f st off msg :
  action_of limits tracks data f = Reject st off msg -> is_failure st.
Proof.
  unfold action_of. destruct (fr_type f =? TIDE_RECORD_GROUP).
  { repeat case_match; intros [= <- _ _] || discriminate; repeat split; discriminate. }
  destruct (fr_type f =? TIDE_RECORD_STREAM_DESC); [apply body_honest; [apply _|intros; exact I]|].
  destruct (fr_type f =? TIDE_RECORD_PACKET); [apply body_honest; [apply _|intros; exact I]|].
  destruct (is_simple (fr_type f)); [apply body_honest; [apply _|intros; exact I]|].
  intros [= <- _ _]. repeat split; discriminate.
Qed.

(** Limits, padding and CRC. *)
Definition record_error (limits : tide_limits) (data : list byte) (f : tide_record_frame)
    : option (tide_status * Z * string) :=
  if (max_payload_size limits <? fr_payload_size f) || (max_record_size limits <? fr_crc_end f - fr_offset f) then
    Some (TIDE_STATUS_RESOURCE, fr_offset f, "record exceeds limit"%string)
  else integrity_of data f.

Section parse.
Context {U : Type} (limits : tide_limits) (callbacks : tide_callbacks U).

Implicit Types (pr : list byte -> Z -> Z -> Z -> parse_m U tide_status) (s : pstate U).

Definition perform pr (data : list byte) (f : tide_record_frame) (a : action) : parse_m U tide_status :=
  match a with
  | Reject st off msg => fail_with st off (fr_type f) (fr_depth f) msg
  | Descend b e =>
    st ← pr data b e (wrap8 (fr_depth f + 1));
    if bool_decide (st = TIDE_STATUS_TRUNCATED) then
      fail_with TIDE_STATUS_FORMAT b (fr_type f) (fr_depth f) "complete group contains incomplete child"
    else mret st
  | Describe stream =>
    st ← tide_add_track limits stream (fr_offset f);
    if negb (bool_decide (st = TIDE_STATUS_OK)) then error_code else call (on_stream callbacks) stream
  | Deliver packet => call (on_packet callbacks) packet
  | Accept => mret TIDE_STATUS_OK
  end.

Definition act pr (data : list byte) (f : tide_record_frame) : parse_m U tide_status := fun s =>
  perform pr data f (action_of limits (ps_tracks s) data f) s.

Definition process pr (data : list byte) (f : tide_record_frame) : parse_m U tide_status :=
  if is_skippable f then call (on_record callbacks) (record_event f)
  else
    st ← call (on_record callbacks) (record_event f);
    if negb (bool_decide (st = TIDE_STATUS_OK)) then mret st
    else act pr data f.

#[local] Instance refines_group : refines read_group p_group.
Proof. unfold read_group, p_group. apply _. Qed.

Lemma process_group_eq pr data f s n :
  frame_wf f n -> n <= zlen data -> zlen data < 2 ^ 64 -> fr_type f = TIDE_RECORD_GROUP ->
  process_group limits pr data (payload_of data f) (fr_payload_size f) f s =
    perform pr data f (action_of limits (ps_tracks s) data f) s.
Proof.
  intros (H0 & Hh & Hpo & _ & _ & _ & _ & Hps & Hpe & Hpad & Hb & Hce & Hsz) Hn Hm Ht.
  unfold process_group, action_of. rewrite Ht, Z.eqb_refl. unfold TIDE_GROUP_META_SIZE.
  destruct (Z.ltb_spec (fr_payload_size f) 20); [cbn [perform]; rewrite Ht; reflexivity|].
  rewrite !wrap64_small by zlia.
  assert (Hl : zlen (payload_of data f) = fr_payload_size f) by (apply zlen_slice; lia).
  set (p := child_bytes ← p_group; _ ← p_guard (child_bytes =? fr_payload_size f - 20); mret child_bytes).
  edestruct (run_init _ p (payload_of data f) (fr_payload_size f) Hl ltac:(lia)) as (r & _ & Hr).
  assert (Hp : p (payload_of data f) =
    match p_group (payload_of data f) with
    | Some (c, cs) => if c =? fr_payload_size f - 20 then Some (c, cs) else None
    | None => None
    end).
  { unfold p, mbind, parser_bind, p_guard, mret, parser_ret.
    destruct (p_group _) as [[c cs]|]; [|reflexivity]. destruct (c =? _); reflexivity. }
  rewrite Hp in Hr. destruct (p_group (payload_of data f)) as [[c cs]|].
  2: { erewrite run_lift by exact Hr. cbn [perform]. rewrite Ht. reflexivity. }
  destruct (c =? fr_payload_size f - 20).
  2: { erewrite run_lift by exact Hr. cbn [perform negb]. rewrite Ht. reflexivity. }
  destruct Hr as (Hr & _). erewrite run_lift by exact Hr. cbn [negb]. rewrite Z.geb_leb.
  destruct (max_depth limits <=? fr_depth f); cbn [perform]; rewrite ?Ht; reflexivity.
Qed.

(** [tide_process_record] performs the action of the record. *)
Lemma process_eq pr data f s n :
  frame_wf f n -> n <= zlen data -> zlen data < 2 ^ 64 ->
  tide_process_record limits callbacks pr data f s = process pr data f s.
Proof.
  intros Hw Hn Hm. pose proof Hw as (H0 & Hh & Hpo & _ & _ & _ & _ & Hps & Hpe & Hpad & Hb & Hce & Hsz).
  unfold tide_process_record, process. replace (fr_payload_end f - fr_payload_offset f) with (fr_payload_size f) by lia.
  rewrite wrap64_small by zlia. erewrite run_lift by (apply span_done; lia). fold (payload_of data f).
  fold (is_skippable f). destruct (is_skippable f); [reflexivity|].
  unfold mbind, parse_bind. destruct (call _ _ s) as [[st s1]| |]; try reflexivity.
  destruct (negb (bool_decide _)); [reflexivity|]. unfold act.
  assert (Hl : zlen (payload_of data f) = fr_payload_size f) by (apply zlen_slice; lia).
  destruct (Z.eqb_spec (fr_type f) TIDE_RECORD_GROUP) as [Ht|Ht]; [eapply process_group_eq; eassumption|].
  unfold action_of. rewrite (proj2 (Z.eqb_neq _ _) Ht).
  destruct (fr_type f =? TIDE_RECORD_STREAM_DESC).
  { unfold tide_emit_stream. rewrite (with_body_eq _ c_stream) by (apply _ || lia).
    destruct (c_stream _) as [[? ?]|[? ?]]; reflexivity. }
  destruct (fr_type f =? TIDE_RECORD_PACKET).
  { unfold tide_emit_packet. rewrite (with_body_eq _ (c_packet (ps_tracks s1))) by (apply _ || lia).
    destruct (c_packet _ _) as [[? ?]|[? ?]]; reflexivity. }
  destruct (is_simple (fr_type f)); [|reflexivity].
  unfold tide_emit_simple_record. erewrite with_body_eq by (apply checks_simple || lia; lia).
  destruct (c_simple _ _ _ _ _) as [[? ?]|[? ?]]; reflexivity.
Qed.

Lemma frame_of_malformed bs size offset depth st ty msg :
  frame_of bs size offset depth = Malformed st ty msg -> st = TIDE_STATUS_FORMAT \/ st = TIDE_STATUS_RESOURCE.
Proof.
  unfold frame_of. destruct (p_prefix bs) as [[[[[[? ?] ?] ?] [? ?]] ?]|]; [|discriminate].
  case_match; [intros [= <- _ _]; auto|]. case_match; [|intros [= <- _ _]; auto].
  destruct p as [[? ?] ?]. case_match; discriminate.
Qed.

(** One round of the loop. *)
Definition round pr (next : list byte -> Z -> Z -> Z -> parse_m U tide_status)
    (data : list byte) (cursor end_ depth : Z) : parse_m U tide_status :=
  match frame_of (slice data cursor (end_ - cursor)) end_ cursor depth with
  | Incomplete => _ ← write_valid_prefix cursor; mret TIDE_STATUS_TRUNCATED
  | Malformed st type msg => fail_with st cursor type depth msg
  | Framed f =>
    match record_error limits data f with
    | Some (st, off, msg) => fail_with st off (fr_type f) depth msg
    | None =>
      st ← process pr data f;
      if negb (bool_decide (st = TIDE_STATUS_OK)) then mret st
      else _ ← write_valid_prefix (fr_crc_end f); next data (fr_crc_end f) end_ depth
    end
  end.

Lemma parse_step fuel data cursor end_ depth s :
  0 <= cursor < end_ -> end_ <= zlen data -> zlen data < 2 ^ 64 ->
  tide_parse_records limits callbacks (S fuel) data cursor end_ depth s =
    round (tide_parse_records limits callbacks fuel) (tide_parse_records limits callbacks fuel)
      data cursor end_ depth s.
Proof.
  intros Hc He Hm. cbn [tide_parse_records]. rewrite (proj2 (Z.ltb_lt _ _)) by lia.
  unfold round. unfold mbind at 1, parse_bind at 1. rewrite decode_prefix_eq by lia.
  destruct (frame_of _ end_ cursor depth) as [|st ty msg|f] eqn:Ef.
  - reflexivity.
  - apply frame_of_malformed in Ef as [-> | ->]; reflexivity.
  - apply frame_of_wf in Ef as (Hw & Hoff & Hd); [|zlia]. cbv beta iota.
    pose proof Hw as (H0 & Hh & Hpo & _ & _ & _ & _ & Hps & Hpe & Hpad & Hb & Hce & Hsz).
    unfold record_error. rewrite !Z.gtb_ltb. rewrite wrap64_small by zlia.
    destruct (_ || _); [rewrite <- Hoff; reflexivity|].
    unfold mbind at 1, parse_bind at 1. erewrite validate_integrity_eq by (eassumption || lia).
    destruct (integrity_of data f) as [[[st off] msg]|] eqn:Ei.
    + rewrite Hd. assert (Hst : st <> TIDE_STATUS_OK).
      { revert Ei. unfold integrity_of. case_match; [intros [= <- _ _]; discriminate|].
        case_match; intros [= <- _ _]; discriminate. }
      unfold fail_with, mbind, parse_bind. cbn. rewrite bool_decide_eq_false_2 by exact Hst. reflexivity.
    + rewrite bool_decide_eq_true_2 by reflexivity. cbn [negb].
      unfold mbind, parse_bind. rewrite (process_eq _ data f s end_) by (assumption || lia). reflexivity.
Qed.

Lemma parse_done fuel data cursor depth s :
  tide_parse_records limits callbacks (S fuel) data cursor cursor depth s = Done (TIDE_STATUS_OK, s).
Proof. cbn [tide_parse_records]. rewrite Z.ltb_irrefl, Z.eqb_refl. reflexivity. Qed.
End parse.
