(* ===== verification/ParseRule.v ===== *)
(** * The invariant rule of the record parser

    Termination and definedness of [tide_parse_records], together with any
    invariant of its state that the steps preserve. *)

From S2P Require Import Prelude Status Checked Crc Reader Rational Model Frame Validate Header Decoder Parse.

(** The state after calling a callback that may be missing. *)
Definition after {U X} (callback : option (X -> U -> tide_status * U)) (x : X) (s : pstate U) : pstate U :=
  match callback with
  | None => s
  | Some f => set_user (f x (ps_user s)).2 s
  end.

Definition snapshot (stream : tide_stream_info) : tide_track_snapshot :=
  mk_track_snapshot (si_track_id stream) (si_generation stream) (si_media_kind stream)
    (si_codec_tag stream) (si_time_base stream).

(** Cells to write to, and a track table within its allocation. *)
Definition ready {U} (limits : tide_limits) (s : pstate U) : Prop :=
  is_Some (ps_error s) /\ is_Some (ps_valid_prefix s) /\
  zlen (ps_tracks s) <= ps_track_capacity s /\
  ps_track_capacity s <= Z.max 8 (2 * max_tracks limits).

(** [f] is the frame of an intact record of [data] within the limits. *)
Definition intact (limits : tide_limits) (data : list byte) (f : tide_record_frame) : Prop :=
  0 <= fr_offset f <= zlen data /\
  frame_of (slice data (fr_offset f) (zlen data - fr_offset f)) (zlen data) (fr_offset f) (fr_depth f) = Framed f /\
  record_error limits data f = None /\ 0 <= fr_depth f <= max_depth limits.

Lemma call_after {U X} (cb : option (X -> U -> tide_status * U)) x s : exists st, call cb x s = Done (st, after cb x s).
Proof.
  unfold call, after. destruct cb as [f|]; [|eauto]. destruct (f x (ps_user s)) as [st u]. eauto.
Qed.

Section rule.
Context {U : Type} (limits : tide_limits) (callbacks : tide_callbacks U).
Context (data : list byte) (Hdata : zlen data < 2 ^ 64) (Hlim : is_u32 (max_tracks limits)).
(** The invariant may depend on the position: the bytes before it were used up
    by the deliveries so far, at least one each: the event of a record and what
    its body gives are two deliveries, a record has more than two bytes. *)
Context (Inv : Z -> pstate U -> Prop).
Context (inv_mono : forall n m s, n <= m -> Inv n s -> Inv m s).
Context (inv_error : forall n e s, Inv n s -> Inv n (set_error e s)).
(** The valid prefix is only ever moved to the position. *)
Context (inv_prefix : forall n s, 0 <= n <= zlen data -> Inv n s -> Inv n (set_prefix n s)).
Context (inv_grow : forall n c s, Inv n s -> Inv n (set_tracks (ps_tracks s) c (alloc (ps_heap s)).2 s)).
Context (inv_record : forall n f s, intact limits data f -> Inv n s ->
           Inv (n + 1) (after (on_record callbacks) (record_event f) s)).
Context (inv_stream : forall n stream s, known (ps_tracks s) (si_track_id stream) (si_generation stream) = false ->
           zlen (ps_tracks s) < max_tracks limits -> parsed_stream stream -> si_config_size stream <= zlen data -> Inv n s ->
           Inv (n + 1) (after (on_stream callbacks) stream
                  (set_tracks (ps_tracks s ++ [snapshot stream]) (ps_track_capacity s) (ps_heap s) s))).
Context (inv_packet : forall n packet s, known (ps_tracks s) (pk_track_id packet) (pk_generation packet) = true ->
           parsed_packet packet -> pv_size (pk_payload packet) <= zlen data -> Inv n s -> Inv (n + 1) (after (on_packet callbacks) packet s)).

Implicit Type s : pstate U.

Definition fine (n : Z) (r : tide_status * pstate U) : Prop := ready limits r.2 /\ Inv n r.2.

Lemma fine_mono n m r : n <= m -> fine n r -> fine m r.
Proof. intros Hn [Hr Hi]. split; [exact Hr|exact (inv_mono n m _ Hn Hi)]. Qed.

Lemma fine_fail n st off ty d msg s : ready limits s -> Inv n s -> wp (fail_with st off ty d msg s) (fine n).
Proof.
  intros (H1 & H2 & H3) Hi. cbn. split; cbn; [|apply inv_error, Hi].
  destruct H1 as [e He]. unfold ready. cbn. rewrite He. repeat split; eauto; apply H3.
Qed.

Lemma ready_after {X} (cb : option (X -> U -> tide_status * U)) x s : ready limits s -> ready limits (after cb x s).
Proof. unfold ready, after. destruct cb; auto. Qed.

Lemma fine_call {X} n (cb : option (X -> U -> tide_status * U)) x s :
  ready limits s -> Inv n (after cb x s) -> wp (call cb x s) (fine n).
Proof. intros Hr Hi. destruct (call_after cb x s) as [st ->]. split; [apply ready_after, Hr|exact Hi]. Qed.

Lemma fine_error_code n s : ready limits s -> Inv n s -> wp (error_code s) (fine n).
Proof.
  intros Hr Hi. pose proof Hr as ([e He] & _). unfold error_code. rewrite He. cbn. split; assumption.
Qed.

Lemma fine_prefix n s :
  0 <= n <= zlen data -> ready limits s -> Inv n s ->
  write_valid_prefix n s = Done (tt, set_prefix n s) /\ ready limits (set_prefix n s) /\ Inv n (set_prefix n s).
Proof.
  intros Hv (H1 & [p Hp] & H3) Hi. unfold write_valid_prefix. rewrite Hp. split; [reflexivity|].
  split; [|apply inv_prefix; assumption]. unfold ready. cbn. eauto.
Qed.

(** Adding a track, then its callback. *)
Lemma fine_describe n stream off s :
  ready limits s -> Inv n s -> parsed_stream stream -> si_config_size stream <= zlen data ->
  wp ((st ← tide_add_track limits stream off;
       if negb (bool_decide (st = TIDE_STATUS_OK)) then error_code else call (on_stream callbacks) stream) s) (fine (n + 1)).
Proof.
  intros Hr Hi Ht Hsize. assert (Hi' : Inv (n + 1) s) by (apply (inv_mono n); [lia|exact Hi]). pose proof Hr as (He & Hp & Hc & Hcap).
  assert (Hfail : forall st off ty d msg, st <> TIDE_STATUS_OK -> wp ((st ← fail_with st off ty d msg;
      if negb (bool_decide (st = TIDE_STATUS_OK)) then error_code else call (on_stream callbacks) stream) s) (fine (n + 1))).
  { intros st off' ty d msg Hst. pose proof (fine_fail _ st off' ty d msg s Hr Hi') as Hf.
    rewrite fail_with_done in Hf. unfold mbind, parse_bind. rewrite fail_with_done.
    rewrite bool_decide_eq_false_2 by exact Hst. apply fine_error_code; apply Hf. }
  assert (Hstore : forall c h, zlen (ps_tracks s) < c <= Z.max 8 (2 * max_tracks limits) ->
    known (ps_tracks s) (si_track_id stream) (si_generation stream) = false ->
    zlen (ps_tracks s) < max_tracks limits -> Inv n (set_tracks (ps_tracks s) c h s) ->
    wp ((st ← store_track stream; if negb (bool_decide (st = TIDE_STATUS_OK)) then error_code
         else call (on_stream callbacks) stream) (set_tracks (ps_tracks s) c h s)) (fine (n + 1))).
  { intros c h Hch Hk Hmax Hi2. unfold mbind, parse_bind, store_track, assert_def.
    cbn [ps_tracks ps_track_capacity set_tracks]. rewrite (proj2 (Z.ltb_lt _ _)) by lia.
    rewrite bind_done. cbv beta iota. rewrite bool_decide_eq_true_2 by reflexivity. cbn [negb].
    apply fine_call; [|apply (inv_stream n stream (set_tracks (ps_tracks s) c h s)); auto]. unfold ready. cbn. unfold zlen in *.
    rewrite length_app. cbn [length]. repeat split; auto; lia. }
  unfold tide_add_track. unfold mbind, parse_bind in Hfail, Hstore |- *.
  destruct (known _ _ _) eqn:Hk; [apply Hfail; discriminate|]. rewrite Z.geb_leb.
  destruct (Z.leb_spec (max_tracks limits) (zlen (ps_tracks s))); [apply Hfail; discriminate|].
  destruct (Z.eqb_spec (zlen (ps_tracks s)) (ps_track_capacity s)) as [Hfull|Hfull].
  2: { specialize (Hstore (ps_track_capacity s) (ps_heap s)). destruct s; apply Hstore; auto. cbn in *. lia. }
  pose proof (zlen_nonneg (ps_tracks s)).
  set (next := if ps_track_capacity s =? 0 then 8 else ps_track_capacity s *u 2).
  assert (Hnext : zlen (ps_tracks s) < next <= Z.max 8 (2 * max_tracks limits)).
  { unfold next. destruct (Z.eqb_spec (ps_track_capacity s) 0); [lia|]. rewrite wrap64_small by zlia. lia. }
  unfold assert_def, TRACK_SNAPSHOT_SIZE. rewrite (proj2 (Z.leb_le _ _)) by zlia. rewrite bind_done. cbv beta.
  pose proof (inv_grow n next s Hi) as Hg. pose proof (inv_grow (n + 1) (ps_track_capacity s) s Hi') as Hg'.
  destruct (alloc (ps_heap s)) as [[] h]; cbn [negb snd] in *; [apply Hstore; auto|].
  rewrite bool_decide_eq_false_2 by discriminate. cbn [negb]. apply fine_error_code; [|exact Hg'].
  unfold ready. cbn. auto.
Qed.

(** The rule for one record, given the rule for the records inside it. *)
Lemma fine_process pr f s :
  (forall b e d s, 0 <= b <= e -> fr_offset f < b -> e < fr_crc_end f -> is_u8 d -> d <= max_depth limits ->
     ready limits s -> Inv b s -> wp (pr data b e d s) (fine e)) ->
  is_u8 (fr_depth f) -> intact limits data f -> ready limits s -> Inv (fr_offset f) s ->
  wp (process limits callbacks pr data f s) (fine (fr_crc_end f)).
Proof.
  intros Hpr Hd8 Hf Hr Hi. unfold process.
  destruct (call_after (on_record callbacks) (record_event f) s) as [st Hcall].
  assert (Hr1 : ready limits (after (on_record callbacks) (record_event f) s)) by (apply ready_after, Hr).
  assert (Hi1 : Inv (fr_offset f + 1) (after (on_record callbacks) (record_event f) s)) by (apply inv_record; assumption).
  destruct Hf as (Ho & Hf & _ & Hd). apply frame_of_wf in Hf as (Hw & _ & _); [|zlia].
  pose proof Hw as (H0 & Hh & Hpo & _ & _ & _ & _ & Hps & Hpe & Hpad & Hb & Hce & Hsz).
  assert (Hend : forall s, Inv (fr_offset f + 1) s -> Inv (fr_crc_end f) s) by (intros s'; apply inv_mono; lia).
  destruct (is_skippable f); [rewrite Hcall; split; auto|].
  unfold mbind, parse_bind. rewrite Hcall.
  destruct (negb (bool_decide _)); [split; auto|]. revert Hr1 Hi1.
  generalize (after (on_record callbacks) (record_event f) s). clear s Hr Hi Hcall. intros s Hr Hi0. pose proof (Hend s Hi0) as Hi.
  assert (Hpl : zlen (payload_of data f) <= zlen data) by (unfold payload_of, slice, zlen; rewrite length_take, length_drop; lia).
  unfold act, action_of.
  destruct (fr_type f =? TIDE_RECORD_GROUP).
  { destruct (Z.ltb_spec (fr_payload_size f) TIDE_GROUP_META_SIZE) as [|Hlen]; [apply fine_fail; assumption|].
    destruct (p_group _) as [[c cs]|]; [|apply fine_fail; assumption].
    destruct (negb _); [apply fine_fail; assumption|].
    destruct (Z.leb_spec (max_depth limits) (fr_depth f)); [apply fine_fail; assumption|].
    cbn [perform]. unfold TIDE_GROUP_META_SIZE in *.
    assert (Hdep : 0 <= wrap8 (fr_depth f + 1) <= max_depth limits).
    { destruct (Z.eq_dec (fr_depth f) 255) as [-> | Hne]; [change (wrap8 (255 + 1)) with 0; lia|].
      rewrite wrap8_small by zlia. lia. }
    assert (Hib : Inv (fr_payload_offset f + 20) s) by (apply (inv_mono (fr_offset f + 1)); [lia|exact Hi0]).
    assert (Hch := Hpr (fr_payload_offset f + 20) (fr_payload_end f) _ s ltac:(lia) ltac:(lia) ltac:(lia) (wrap8_range _) (proj2 Hdep) Hr Hib).
    apply wp_inv in Hch as ([st1 s1] & Heq & Hr' & Hi'). cbn [fst snd] in *.
    apply (inv_mono _ (fr_crc_end f)) in Hi'; [|lia].
    unfold mbind, parse_bind. rewrite Heq.
    destruct (bool_decide _); [apply fine_fail; assumption|split; assumption]. }
  destruct (fr_type f =? TIDE_RECORD_STREAM_DESC).
  { destruct (c_stream _) as [[st1 msg]|[stream cs]] eqn:Ec; [apply fine_fail; assumption|].
    apply c_stream_inv in Ec as (Hs & _ & Hred). cbn [body_action perform].
    eapply wp_mono; [apply (fine_describe (fr_offset f + 1)); [exact Hr|exact Hi0| |]|intros r; apply fine_mono; lia].
    - apply p_stream_parsed; [|exact Hred]. eexists _, _. exact Hs.
    - apply p_stream_size in Hs. lia. }
  destruct (fr_type f =? TIDE_RECORD_PACKET).
  { destruct (c_packet _ _) as [[st1 msg]|[packet cs]] eqn:Ec; [apply fine_fail; assumption|].
    apply c_packet_inv in Ec as (Hp & _ & Hdur & Hk). cbn [body_action perform].
    apply fine_call; [exact Hr|]. apply (inv_mono (fr_offset f + 1 + 1)); [lia|]. apply inv_packet; auto.
    - apply p_packet_parsed; [|exact Hdur]. eexists _, _. exact Hp.
    - apply p_packet_size in Hp. lia. }
  destruct (is_simple (fr_type f)); [|apply fine_fail; assumption].
  destruct (c_simple _ _ _ _ _) as [[st1 msg]|[[] cs]]; [apply fine_fail; assumption|split; assumption].
Qed.

Lemma parse_rule fuel cursor end_ depth s :
  0 <= cursor <= end_ -> end_ <= zlen data -> end_ - cursor < Z.of_nat fuel ->
  is_u8 depth -> depth <= max_depth limits -> ready limits s -> Inv cursor s ->
  wp (tide_parse_records limits callbacks fuel data cursor end_ depth s) (fine end_).
Proof.
  revert cursor end_ depth s. induction fuel as [|fuel IH]; intros cursor end_ depth s Hc He Hf Hd8 Hd Hr Hi; [lia|].
  pose proof (inv_mono _ end_ s (proj2 Hc) Hi) as Hie.
  destruct (Z.eq_dec cursor end_) as [->|Hne]; [rewrite parse_done; split; assumption|].
  rewrite parse_step by lia. unfold round.
  destruct (frame_of _ end_ cursor depth) as [|st ty msg|f] eqn:Ef.
  - destruct (fine_prefix cursor s) as (Hp & Hr' & Hi'); [lia|assumption..|].
    unfold mbind, parse_bind. rewrite Hp. split; [assumption|apply (inv_mono cursor); [lia|assumption]].
  - apply fine_fail; assumption.
  - pose proof Ef as Hfr. apply frame_of_wf in Hfr as (Hw & Hoff & Hdep); [|zlia].
    pose proof Hw as (H0 & Hh & Hpo & _ & _ & _ & _ & Hps & Hpe & Hpad & Hb & Hce & Hsz).
    destruct (record_error limits data f) as [[[st off] msg]|] eqn:Ere; [apply fine_fail; assumption|].
    assert (Hint : intact limits data f).
    { unfold intact. rewrite Hoff, Hdep. repeat split; try zlia; [|assumption].
      rewrite <- Ef. apply (frame_of_agree data data end_ (zlen data)); try lia; [reflexivity|congruence]. }
    assert (Hproc : wp (process limits callbacks (tide_parse_records limits callbacks fuel) data f s) (fine (fr_crc_end f))).
    { apply fine_process; auto; [|unfold is_u8 in *; lia|rewrite Hoff; exact Hi].
      intros b e d s' Hb' Hb1 He1 Hd1 Hd2 Hr' Hi'. apply IH; auto; lia. }
    apply wp_inv in Hproc as ([st1 s1] & Heq & Hr1 & Hi1).
    unfold mbind, parse_bind. rewrite Heq. destruct (negb _); [split; [assumption|apply (inv_mono (fr_crc_end f)); [lia|assumption]]|].
    destruct (fine_prefix (fr_crc_end f) s1) as (-> & Hr2 & Hi2); [lia|assumption..|].
    apply IH; auto; lia.
Qed.

(** The rule for a record of the loop. *)
Lemma process_rule fuel f s :
  fr_crc_end f - fr_offset f <= Z.of_nat fuel ->
  is_u8 (fr_depth f) -> intact limits data f -> ready limits s -> Inv (fr_offset f) s ->
  wp (process limits callbacks (tide_parse_records limits callbacks fuel) data f s) (fine (fr_crc_end f)).
Proof.
  intros Hf Hd8 Hint Hr Hi. pose proof Hint as (Ho & Hfr & _ & _).
  apply frame_of_wf in Hfr as (Hw & _ & _); [|zlia].
  pose proof Hw as (H0 & Hh & Hpo & _ & _ & _ & _ & Hps & Hpe & Hpad & Hb & Hce & Hsz).
  apply fine_process; auto. intros b e d s' Hb' Hb1 He1 Hd1 Hd2 Hr' Hi'. apply parse_rule; auto; lia.
Qed.
End rule.

(** ** The one-shot entry *)

(** The arguments that the library's own callers pass: an object of [size] bytes
    and cells for the results.  The entry itself tests [valid_prefix] for null
    and clears a null error; what it needs of them is [call_args] of
    [Delivery]. *)
Definition parse_args (data : option (list byte)) (size : Z) (limits : tide_limits)
    (error : option tide_error) (valid_prefix : option Z) : Prop :=
  zlen (default [] data) = size /\ size < 2 ^ 64 /\ limits_typed limits /\ is_Some error /\ is_Some valid_prefix.

(** The state after a valid header. *)
Definition start_state {U} (user : U) (h : heap) : pstate U :=
  mk_pstate [] 0 (Some zero_error) (Some TIDE_HEADER_SIZE) user h.

Lemma header_verdict_failure limits h st off msg : header_verdict limits h = Some (st, off, msg) -> is_failure st.
Proof. unfold header_verdict. repeat case_match; try discriminate; intros [= <- _ _]; repeat split; discriminate. Qed.

Section entry.
Context {U : Type} (limits : option tide_limits) (callbacks : option (tide_callbacks U)).
Let lim : tide_limits := default tide_limits_default limits.
Let cb : tide_callbacks U := default no_callbacks callbacks.

(** With a complete header the outcome depends on the header's verdict. *)
Lemma parse_bytes_header bytes size end_ user e0 v0 h :
  TIDE_HEADER_SIZE <= size <= zlen bytes ->
  tide_parse_tide_bytes (Some bytes) size end_ limits callbacks user (Some e0) (Some v0) h =
    match header_verdict lim (slice bytes 0 TIDE_HEADER_SIZE) with
    | None =>
      '(st, s) ← tide_parse_records lim cb (parse_fuel size) bytes TIDE_HEADER_SIZE size 0 (start_state user h);
      Done (if bool_decide (st = TIDE_STATUS_TRUNCATED) && end_ then TIDE_STATUS_PARTIAL else st, s)
    | Some (st, off, msg) =>
      Done (st, initial_state user (tide_error_set (Some zero_error) st TIDE_SEVERITY_ERROR off 0 0
                                      (Some "decoder"%string) (Some msg)) (Some 0) h)
    end.
Proof.
  intros Hsz. unfold tide_parse_tide_bytes. fold lim cb. cbn [is_null andb tide_error_clear]. rewrite header_eq by exact Hsz.
  destruct (header_verdict lim (slice bytes 0 TIDE_HEADER_SIZE)) as [[[st off] msg]|] eqn:Ev.
  - apply header_verdict_failure in Ev as (Hok & _ & Htr). rewrite fail_with_done, bind_done. cbv beta iota.
    rewrite (bool_decide_eq_false_2 (st = TIDE_STATUS_OK)) by exact Hok.
    rewrite (bool_decide_eq_false_2 (st = TIDE_STATUS_TRUNCATED)) by exact Htr. reflexivity.
  - rewrite bind_done. cbv beta iota. rewrite bool_decide_eq_true_2 by reflexivity. reflexivity.
Qed.

(** The header failed, or the records were parsed from a state that still
    has the caller's state. *)
Lemma parse_bytes_cases (data : option (list byte)) size end_ user error valid_prefix h :
  parse_args data size lim error valid_prefix ->
  (exists st s, tide_parse_tide_bytes data size end_ limits callbacks user error valid_prefix h = Done (st, s) /\
     st <> TIDE_STATUS_OK /\ ps_user s = user /\ ps_valid_prefix s = Some 0 /\ is_Some (ps_error s)) \/
  (exists bytes, data = Some bytes /\ TIDE_HEADER_SIZE <= size /\
     tide_parse_tide_bytes data size end_ limits callbacks user error valid_prefix h =
       '(st, s) ← tide_parse_records lim cb (parse_fuel size) bytes TIDE_HEADER_SIZE size 0 (start_state user h);
       Done (if bool_decide (st = TIDE_STATUS_TRUNCATED) && end_ then TIDE_STATUS_PARTIAL else st, s)).
Proof.
  intros (Hsize & Hmax & Hlim & [e ->] & [v ->]).
  destruct (Z_lt_le_dec size TIDE_HEADER_SIZE) as [Hshort|Hlong].
  - left. unfold tide_parse_tide_bytes. fold lim cb. replace (is_null data && negb (size =? 0)) with false.
    2: { destruct data; [reflexivity|]. subst size. reflexivity. }
    rewrite header_short by exact Hshort. rewrite fail_with_done, bind_done. cbv beta iota.
    rewrite bool_decide_eq_false_2 by discriminate. eexists _, _. split; [reflexivity|].
    cbn. repeat split; eauto. destruct end_; discriminate.
  - destruct data as [bytes|]; [|unfold zlen, TIDE_HEADER_SIZE in *; cbn in Hsize; lia].
    change (zlen bytes = size) in Hsize. rewrite parse_bytes_header by lia.
    destruct (header_verdict lim (slice bytes 0 TIDE_HEADER_SIZE)) as [[[st off] msg]|] eqn:Ev.
    + left. apply header_verdict_failure in Ev as [Hok _]. eexists _, _. split; [reflexivity|].
      cbn. repeat split; eauto.
    + right. exists bytes. auto.
Qed.
End entry.

(** Where every parse of records is run from and to. *)
Definition parse_range (limits : tide_limits) (data : list byte) (fuel : nat) (cursor end_ depth : Z) : Prop :=
  zlen data < 2 ^ 64 /\ limits_typed limits /\ 0 <= cursor <= end_ /\ end_ <= zlen data /\
  end_ - cursor < Z.of_nat fuel /\ is_u8 depth /\ depth <= max_depth limits.

Lemma start_ready {U} limits (user : U) h : ready limits (start_state user h).
Proof. unfold ready. cbn. unfold zlen. cbn. repeat split; eauto; lia. Qed.

Lemma start_prefix {U} (user : U) h n :
  TIDE_HEADER_SIZE <= n -> exists v, ps_valid_prefix (start_state user h) = Some v /\ 0 <= v <= n.
Proof. intros. exists TIDE_HEADER_SIZE. split; [reflexivity|]. unfold TIDE_HEADER_SIZE in *. lia. Qed.

Lemma start_range limits data size :
  limits_typed limits -> zlen data = size -> TIDE_HEADER_SIZE <= size -> size < 2 ^ 64 ->
  parse_range limits data (parse_fuel size) TIDE_HEADER_SIZE size 0.
Proof.
  unfold parse_range, parse_fuel, TIDE_HEADER_SIZE, is_u8. intros Hl Hs Hsz Hm. repeat split; try apply Hl; lia.
Qed.

Lemma parse_defined {U} (callbacks : tide_callbacks U) limits data fuel cursor end_ depth s :
  parse_range limits data fuel cursor end_ depth -> ready limits s ->
  (exists v, ps_valid_prefix s = Some v /\ 0 <= v <= zlen data) ->
  wp (tide_parse_records limits callbacks fuel data cursor end_ depth s)
    (fun r => ready limits r.2 /\ exists v, ps_valid_prefix r.2 = Some v /\ 0 <= v <= zlen data).
Proof.
  intros (Hd & Hl & Hc & He & Hf & Hd8 & Hdep) Hr Hp.
  apply (parse_rule limits callbacks data Hd ltac:(apply Hl)
    (fun _ s => exists v, ps_valid_prefix s = Some v /\ 0 <= v <= zlen data)); auto.
  - intros n s' Hn _. exists n. auto.
  - intros _ f s' _ Hi. unfold after. destruct (on_record callbacks); exact Hi.
  - intros _ stream s' _ _ _ _ Hi. unfold after. destruct (on_stream callbacks); exact Hi.
  - intros _ packet s' _ _ _ Hi. unfold after. destruct (on_packet callbacks); exact Hi.
Qed.

(** Parsing only moves the valid prefix forward, up to the end. *)
Lemma parse_advances {U} (callbacks : tide_callbacks U) limits data fuel cursor end_ depth s v :
  parse_range limits data fuel cursor end_ depth -> ready limits s -> ps_valid_prefix s = Some v -> v <= cursor ->
  wp (tide_parse_records limits callbacks fuel data cursor end_ depth s)
    (fun r => ready limits r.2 /\ exists v', ps_valid_prefix r.2 = Some v' /\ v <= v' <= end_).
Proof.
  intros (Hd & Hl & Hc & He & Hf & Hd8 & Hdep) Hr Hp Hv.
  set (Inv := fun (n : Z) (s : pstate U) => v <= n /\ exists v', ps_valid_prefix s = Some v' /\ v <= v' <= n).
  enough (H : wp (tide_parse_records limits callbacks fuel data cursor end_ depth s) (fine limits Inv end_)).
  { eapply wp_mono; [exact H|]. intros r (H1 & _ & H2). auto. }
  apply (parse_rule limits callbacks data Hd ltac:(apply Hl) Inv); unfold Inv; auto.
  - intros n m s' Hn (H1 & v' & H2 & H3). split; [lia|]. exists v'. split; [exact H2|lia].
  - intros n s' Hn (H1 & _). split; [exact H1|]. exists n. split; [reflexivity|lia].
  - intros n f s' _ (H1 & v' & H2 & H3). split; [lia|]. exists v'. unfold after. destruct (on_record callbacks); (split; [exact H2|lia]).
  - intros n stream s' _ _ _ _ (H1 & v' & H2 & H3). split; [lia|]. exists v'. unfold after. destruct (on_stream callbacks); (split; [exact H2|lia]).
  - intros n packet s' _ _ _ (H1 & v' & H2 & H3). split; [lia|]. exists v'. unfold after. destruct (on_packet callbacks); (split; [exact H2|lia]).
  - split; [exact Hv|]. exists v. split; [exact Hp|lia].
Qed.
