(* ===== verification/Delivery.v ===== *)
(** * What the decoder delivers

    The callbacks of a caller are a function of what was delivered so far, so
    callbacks that log and answer as [verdict] says stand for all of them.  The
    log of a run, accepted or not, is related to the file: every record event
    comes from an intact record, packets follow their descriptor, and
    descriptors are unique and within the track limit. *)

From S2P Require Import Prelude Status Checked Crc Reader Rational Model Frame Validate Header Decoder Parse ParseRule Samples.

Inductive delivery : Set :=
  | Record_event (event : tide_record_event)
  | Stream_info (stream : tide_stream_info)
  | Packet_info (packet : tide_packet_info).

(** Callbacks that append what they get to the log. *)
Definition logging (verdict : delivery -> list delivery -> tide_status) : tide_callbacks (list delivery) :=
  mk_callbacks (Some (fun e log => (verdict (Record_event e) log, log ++ [Record_event e])))
    (Some (fun s log => (verdict (Stream_info s) log, log ++ [Stream_info s])))
    (Some (fun p log => (verdict (Packet_info p) log, log ++ [Packet_info p])))
    None.

Definition streams (log : list delivery) : list tide_stream_info :=
  omap (fun d => match d with Stream_info s => Some s | _ => None end) log.

Definition stream_key (s : tide_stream_info) : Z * Z := (si_track_id s, si_generation s).
Definition packet_key (p : tide_packet_info) : Z * Z := (pk_track_id p, pk_generation p).
Definition track_key (t : tide_track_snapshot) : Z * Z := (tr_track_id t, tr_generation t).

(** What one delivery [d] after [before] guarantees. *)
Definition delivery_ok (limits : tide_limits) (data : list byte) (before : list delivery) (d : delivery) : Prop :=
  match d with
  | Record_event e => exists f, intact limits data f /\ e = record_event f
  | Stream_info s =>
      parsed_stream s /\ si_config_size s <= zlen data /\ ~ (stream_key s ∈ map stream_key (streams before)) /\ zlen (streams before) < max_tracks limits
  | Packet_info p =>
      parsed_packet p /\ pv_size (pk_payload p) <= zlen data /\ packet_key p ∈ map stream_key (streams before)
  end.

(** Every delivery is justified by what came before it. *)
Inductive log_ok (limits : tide_limits) (data : list byte) : list delivery -> Prop :=
  | log_ok_nil : log_ok limits data []
  | log_ok_snoc log d : log_ok limits data log -> delivery_ok limits data log d -> log_ok limits data (log ++ [d]).

Lemma known_spec tracks id gen : known tracks id gen = bool_decide ((id, gen) ∈ map track_key tracks).
Proof.
  unfold known. induction tracks as [|t tracks IH]; [reflexivity|]. cbn [tide_find_track map].
  destruct (Z.eqb_spec (tr_track_id t) id) as [Hi|Hi]; destruct (Z.eqb_spec (tr_generation t) gen) as [Hg|Hg]; cbn [andb].
  1: { symmetry. apply bool_decide_eq_true_2. unfold track_key. rewrite Hi, Hg. left. }
  all: rewrite IH; apply bool_decide_ext; rewrite elem_of_cons; unfold track_key; split; [auto|];
    intros [E|E]; [injection E; congruence|exact E].
Qed.

Lemma streams_app log d : streams (log ++ [d]) = streams log ++ match d with Stream_info s => [s] | _ => [] end.
Proof. unfold streams. rewrite omap_app. destruct d; reflexivity. Qed.

Lemma track_key_snapshot ss : map track_key (map snapshot ss) = map stream_key ss.
Proof. rewrite map_map. reflexivity. Qed.

Definition packets (log : list delivery) : list tide_packet_info :=
  omap (fun d => match d with Packet_info p => Some p | _ => None end) log.

Lemma packets_app log d : packets (log ++ [d]) = packets log ++ match d with Packet_info p => [p] | _ => [] end.
Proof. unfold packets. rewrite omap_app. destruct d; reflexivity. Qed.

(** The invariant of a run at position [n]: the log is justified, the track
    table holds the snapshots of the logged descriptors, in order, and there is
    a byte for each descriptor and packet. *)
Definition log_inv (limits : tide_limits) (data : list byte) (n : Z) (s : pstate (list delivery)) : Prop :=
  log_ok limits data (ps_user s) /\ ps_tracks s = map snapshot (streams (ps_user s)) /\
  zlen (streams (ps_user s)) + zlen (packets (ps_user s)) <= n.

Lemma parse_log verdict limits data fuel cursor end_ depth s :
  parse_range limits data fuel cursor end_ depth -> ready limits s -> log_inv limits data cursor s ->
  wp (tide_parse_records limits (logging verdict) fuel data cursor end_ depth s)
    (fun r => ready limits r.2 /\ log_inv limits data end_ r.2).
Proof.
  intros (Hd & Hl & Hc & He & Hf & Hd8 & Hdep) Hr Hi.
  apply (parse_rule limits (logging verdict) data Hd ltac:(apply Hl) (log_inv limits data)); auto.
  - intros n m s' Hn (H1 & H2 & H3). split; [exact H1|]. split; [exact H2|lia].
  - intros n f s' Hf' (H1 & H2 & H3). unfold log_inv. cbn [after logging on_record set_user ps_user ps_tracks snd].
    rewrite streams_app, packets_app, !app_nil_r. split; [|split; [exact H2|lia]]. apply log_ok_snoc; [exact H1|]. exists f. auto.
  - intros n stream s' Hk Hm Ht Hz (H1 & H2 & H3). unfold log_inv. cbn [after logging on_stream set_user ps_user ps_tracks set_tracks snd].
    rewrite streams_app, packets_app, map_app, app_nil_r, zlen_app. change (zlen [stream]) with 1.
    split; [|split; [f_equal; exact H2|lia]]. apply log_ok_snoc; [exact H1|]. split; [exact Ht|]. split; [exact Hz|]. split.
    + rewrite known_spec, H2, track_key_snapshot in Hk. apply bool_decide_eq_false in Hk. exact Hk.
    + rewrite H2 in Hm. unfold zlen in *. rewrite length_map in Hm. exact Hm.
  - intros n packet s' Hk Ht Hz (H1 & H2 & H3). unfold log_inv. cbn [after logging on_packet set_user ps_user ps_tracks snd].
    rewrite streams_app, packets_app, app_nil_r, zlen_app. change (zlen [packet]) with 1. split; [|split; [exact H2|lia]].
    apply log_ok_snoc; [exact H1|]. split; [exact Ht|]. split; [exact Hz|].
    rewrite known_spec, H2, track_key_snapshot in Hk. apply bool_decide_eq_true in Hk. exact Hk.
Qed.

(** ** The properties *)

(** The bytes get as far as the records: the header is complete and accepted, and
    something follows it. *)
Definition reaches_records (data : option (list byte)) (size : Z) (limits : tide_limits) : Prop :=
  exists bytes, data = Some bytes /\ TIDE_HEADER_SIZE < size /\ header_verdict limits (slice bytes 0 TIDE_HEADER_SIZE) = None.

(** What a caller owes: [size] readable bytes unless the pointer is null, and,
    for a run that reaches the records, an error and a valid prefix to write to. *)
Definition call_args (data : option (list byte)) (size : Z) (limits : tide_limits)
    (error : option tide_error) (valid_prefix : option Z) : Prop :=
  match data with None => 0 <= size | Some bytes => zlen bytes = size end /\ size < 2 ^ 64 /\ limits_typed limits /\
  (reaches_records data size limits -> is_Some error /\ is_Some valid_prefix).

(** What a call leaves: its own cells where the caller gave some, the valid prefix
    inside the data. *)
Definition cells_kept {U} (size : Z) (error : option tide_error) (valid_prefix : option Z) (s : pstate U) : Prop :=
  (is_Some (ps_error s) <-> is_Some error) /\ (is_Some (ps_valid_prefix s) <-> is_Some valid_prefix) /\
  (forall v, ps_valid_prefix s = Some v -> 0 <= v <= size).

Lemma cells_failed {U} (s : pstate U) st off msg size error valid_prefix : 0 <= size ->
  ps_error s = tide_error_clear error -> ps_valid_prefix s = (match valid_prefix with None => None | Some _ => Some 0 end) ->
  cells_kept size error valid_prefix (set_error (tide_error_set (ps_error s) st TIDE_SEVERITY_ERROR off 0 0 (Some "decoder"%string) (Some msg)) s).
Proof.
  intros Hs -> Hv. unfold cells_kept. cbn [ps_error ps_valid_prefix set_error]. rewrite Hv.
  split; [destruct error; cbn; split; intros [? [=]]; eauto|]. destruct valid_prefix; (split; [split; intros [? [=]]; eauto|]); intros v [= <-]; lia.
Qed.

(** Calls that do not reach the records touch no cell that is not there. *)
Lemma header_only_defined {U} (data : option (list byte)) size end_ limits (callbacks : option (tide_callbacks U)) user error valid_prefix h :
  is_null data && negb (size =? 0) = false -> zlen (default [] data) = size ->
  ~ reaches_records data size (default tide_limits_default limits) ->
  exists st s, tide_parse_tide_bytes data size end_ limits callbacks user error valid_prefix h = Done (st, s) /\ cells_kept size error valid_prefix s.
Proof.
  intros Hnull Hsize Hno. unfold tide_parse_tide_bytes. rewrite Hnull. assert (Hpos : 0 <= size) by (rewrite <- Hsize; apply zlen_nonneg).
  set (s0 := initial_state user (tide_error_clear error) (match valid_prefix with None => None | Some _ => Some 0 end) h).
  destruct (Z_lt_le_dec size TIDE_HEADER_SIZE) as [Hshort|Hlong].
  { rewrite header_short, fail_with_done, bind_done by exact Hshort. cbv beta iota. rewrite bool_decide_eq_false_2 by discriminate.
    eexists _, _. split; [reflexivity|]. apply cells_failed; [lia|reflexivity|reflexivity]. }
  destruct data as [bytes|]; [|unfold zlen, TIDE_HEADER_SIZE in *; cbn in Hsize; lia]. change (zlen bytes = size) in Hsize. rewrite header_eq by lia.
  destruct (header_verdict _ _) as [[[st off] msg]|] eqn:Ev.
  { apply header_verdict_failure in Ev as (Hok & _ & _). rewrite fail_with_done, bind_done. cbv beta iota.
    rewrite (bool_decide_eq_false_2 _ Hok). eexists _, _. split; [reflexivity|]. apply cells_failed; [lia|reflexivity|reflexivity]. }
  destruct (Z.eq_dec size TIDE_HEADER_SIZE) as [Heq|Hne]; [|exfalso; apply Hno; exists bytes; split; [reflexivity|split; [lia|exact Ev]]].
  rewrite bind_done. cbv beta iota. rewrite bool_decide_eq_true_2 by reflexivity. cbn [negb deref]. rewrite bind_done, Heq. unfold parse_fuel.
  cbn [tide_parse_records]. rewrite Z.ltb_irrefl, Z.eqb_refl. eexists _, _. split; [reflexivity|]. unfold cells_kept, s0, initial_state.
  destruct error, valid_prefix; cbn; (split; [split; intros [? [=]]; eauto|]); (split; [split; intros [? [=]]; eauto|]); intros v [= <-]; unfold TIDE_HEADER_SIZE; lia.
Qed.

(** With both cells there. *)
Lemma given_cells_defined {U} (data : option (list byte)) size end_ limits (callbacks : option (tide_callbacks U)) user error valid_prefix h :
  parse_args data size (default tide_limits_default limits) error valid_prefix ->
  exists st s, tide_parse_tide_bytes data size end_ limits callbacks user error valid_prefix h = Done (st, s) /\ cells_kept size error valid_prefix s.
Proof.
  intros Ha. pose proof Ha as (Hs & Hm & Hl & He0 & Hv0). pose proof (zlen_nonneg (default [] data)).
  destruct (parse_bytes_cases limits callbacks data size end_ user error valid_prefix h Ha)
    as [(st & s & H' & _ & _ & Hp & He)|(bytes & -> & Hsz & ->)].
  { exists st, s. split; [exact H'|]. split; [tauto|]. rewrite Hp. split; [split; eauto|]. intros v [= <-]. lia. }
  change (zlen bytes = size) in Hs.
  destruct (wp_inv _ _ (parse_defined (default no_callbacks callbacks) _ bytes _ _ _ _ _
    (start_range _ bytes size Hl Hs Hsz Hm) (start_ready _ user h) (start_prefix user h (zlen bytes) ltac:(lia))))
    as ([st s] & -> & Hr & v & Hv & Hb).
  eexists _, s. split; [reflexivity|]. cbn [snd] in *. split; [split; [intros _; exact He0|intros _; apply Hr]|]. rewrite Hv.
  split; [split; eauto|]. intros v' [= <-]. lia.
Qed.

(** C13: on every input of less than 2^64 bytes, with every limits and every callbacks,
    the one-shot decoder returns: it runs no loop for ever, reads no byte outside
    the file, overruns no allocation, and writes through no null pointer, provided that
    the caller gives an error and a valid prefix to write to when the input gets as far as
    the records.  (It gets there with an accepted header and bytes behind it; the code has
    no tests for null there, and the library's callers always give both.)
    On any other input both may be null.  A null pointer to more than no bytes is
    refused with nothing written; otherwise the error and the valid prefix are
    written exactly where the caller gave them, and the valid prefix lies inside
    the file. *)
Theorem tide_parse_tide_bytes_defined {U} (data : option (list byte)) (size : Z) (end_ : bool)
    (limits : option tide_limits) (callbacks : option (tide_callbacks U)) (user : U)
    (error : option tide_error) (valid_prefix : option Z) (h : heap) :
  call_args data size (default tide_limits_default limits) error valid_prefix ->
  exists st s, tide_parse_tide_bytes data size end_ limits callbacks user error valid_prefix h = Done (st, s) /\
    if is_null data && negb (size =? 0) then st = TIDE_STATUS_INVALID_ARGUMENT /\ s = initial_state user error valid_prefix h
    else cells_kept size error valid_prefix s.
Proof.
  intros (Hs & Hm & Hl & Hcells). destruct (is_null data && negb (size =? 0)) eqn:Hnull.
  { unfold tide_parse_tide_bytes. rewrite Hnull. eauto 10. }
  assert (Hsize : zlen (default [] data) = size).
  { destruct data; [exact Hs|]. cbn [is_null andb] in Hnull. destruct (Z.eqb_spec size 0) as [->|]; [reflexivity|discriminate]. }
  assert (Hor : is_Some error /\ is_Some valid_prefix \/ ~ reaches_records data size (default tide_limits_default limits)).
  { destruct error, valid_prefix; eauto; right; intros Hr; destruct (Hcells Hr) as [[? [=]] [? [=]]]. }
  destruct Hor as [[He Hv]|Hno]; [|apply header_only_defined; assumption].
  apply given_cells_defined. split; [exact Hsize|auto].
Qed.

Lemma sample_args : parse_args (Some sample_file) 212 tide_limits_default (Some zero_error) (Some 0).
Proof.
  split; [reflexivity|]. split; [reflexivity|]. split; [apply limits_default_typed|]. split; eexists; reflexivity.
Qed.

(** Witness: the sample file, and, with null cells, its header alone and a
    file cut inside it. *)
Lemma tide_parse_tide_bytes_defined_witness :
  let parse data size := tide_parse_tide_bytes (Some data) size true None (Some (logging (fun _ _ => TIDE_STATUS_OK))) [] in
  (exists st s, parse sample_file 212 (Some zero_error) (Some 0) [] = Done (st, s) /\ cells_kept 212 (Some zero_error) (Some 0) s) /\
  (exists st s, parse (take 72 sample_file) 72 None None [] = Done (st, s) /\ cells_kept 72 None None s) /\
  (exists st s, parse (take 30 sample_file) 30 None None [] = Done (st, s) /\ cells_kept 30 None None s).
Proof.
  intros parse. split; [|split].
  - destruct (tide_parse_tide_bytes_defined (Some sample_file) 212 true None (Some (logging (fun _ _ => TIDE_STATUS_OK))) [] (Some zero_error) (Some 0) []) as (st & s & H1 & H2).
    + split; [reflexivity|]. split; [reflexivity|]. split; [apply limits_default_typed|]. intros _. split; eauto.
    + exists st, s. split; [exact H1|exact H2].
  - destruct (tide_parse_tide_bytes_defined (Some (take 72 sample_file)) 72 true None (Some (logging (fun _ _ => TIDE_STATUS_OK))) [] None None []) as (st & s & H1 & H2).
    + split; [reflexivity|]. split; [reflexivity|]. split; [apply limits_default_typed|]. intros (? & _ & [=] & _).
    + exists st, s. split; [exact H1|exact H2].
  - destruct (tide_parse_tide_bytes_defined (Some (take 30 sample_file)) 30 true None (Some (logging (fun _ _ => TIDE_STATUS_OK))) [] None None []) as (st & s & H1 & H2).
    + split; [reflexivity|]. split; [reflexivity|]. split; [apply limits_default_typed|]. intros (? & _ & [=] & _).
    + exists st, s. split; [exact H1|exact H2].
Defined.

(** C14: whatever the callbacks answer, what they were given is justified by the
    file: each record event describes a record of the file that lies inside it,
    respects the limits and the depth policy, has zero padding and the right
    CRC; descriptors are well typed, with a valid time base and all the bytes of
    their configuration, their (track, generation) pairs distinct and no
    more than the track limit; each packet is well typed, with a nonnegative
    duration and all the bytes of its payload, and comes after the descriptor of its track and generation. *)
Theorem tide_parse_tide_bytes_justified (data : list byte) (end_ : bool) (limits : tide_limits)
    (verdict : delivery -> list delivery -> tide_status) (error : option tide_error) (valid_prefix : option Z)
    (h : heap) (st : tide_status) (s : pstate (list delivery)) :
  parse_args (Some data) (zlen data) limits error valid_prefix ->
  tide_parse_tide_bytes (Some data) (zlen data) end_ (Some limits) (Some (logging verdict)) [] error valid_prefix h
    = Done (st, s) ->
  log_ok limits data (ps_user s).
Proof.
  intros Ha. pose proof Ha as (_ & Hm & Hl & _).
  destruct (parse_bytes_cases (Some limits) (Some (logging verdict)) (Some data) (zlen data) end_ [] error valid_prefix h Ha)
    as [(st' & s' & -> & _ & Hu & _)|(bytes & [= <-] & Hsz & ->)].
  { intros [= -> ->]. rewrite Hu. constructor. }
  assert (Hi : log_inv limits data TIDE_HEADER_SIZE (start_state [] h)) by (split; [constructor|split; [reflexivity|discriminate]]).
  destruct (wp_inv _ _ (parse_log verdict limits data _ _ _ _ _
    (start_range limits data (zlen data) Hl eq_refl Hsz Hm) (start_ready _ [] h) Hi)) as ([st' s'] & Hrun & _ & Hlog & _).
  change (default tide_limits_default (Some limits)) with limits.
  change (default no_callbacks (Some (logging verdict))) with (logging verdict). rewrite Hrun. intros [= _ <-]. exact Hlog.
Qed.

Lemma tide_parse_tide_bytes_justified_witness :
  exists s, tide_parse_tide_bytes (Some sample_file) (zlen sample_file) true (Some tide_limits_default)
              (Some (logging (fun _ _ => TIDE_STATUS_OK))) [] (Some zero_error) (Some 0) [] = Done (TIDE_STATUS_OK, s) /\
    length (ps_user s) = 5%nat /\ log_ok tide_limits_default sample_file (ps_user s).
Proof.
  eexists. split; [vm_compute; reflexivity|]. split; [reflexivity|].
  eapply (tide_parse_tide_bytes_justified sample_file true tide_limits_default (fun _ _ => TIDE_STATUS_OK)
           (Some zero_error) (Some 0) [] TIDE_STATUS_OK _ sample_args).
  vm_compute. reflexivity.
Defined.
