(* ===== verification/Replay.v ===== *)
(** * Any callbacks, as a replay of the log

    The decoder uses its callbacks' answers and nothing else of the caller's
    state.  So a run with any callbacks is the run with logging callbacks that
    give the same answers, and leaves the state that results from replaying the
    log.  What [Delivery] says of logs holds for every caller, and a client's
    state can be computed from the log alone.  A callback that refuses ends the run:
    its answer is the status, and nothing is delivered after it. *)

From S2P Require Import Prelude Status Checked Crc Reader Rational Model Frame Validate Header Decoder Parse ParseRule Samples Delivery.

Definition with_user {U V} (u : V) (s : pstate U) : pstate V :=
  mk_pstate (ps_tracks s) (ps_track_capacity s) (ps_error s) (ps_valid_prefix s) u (ps_heap s).

Section replay.
Context {U : Type} (callbacks : tide_callbacks U) (user0 : U).

(** The callback for [d], with the state [u]. *)
Definition give (u : U) (d : delivery) : tide_status * U :=
  match d with
  | Record_event e => match on_record callbacks with None => (TIDE_STATUS_OK, u) | Some f => f e u end
  | Stream_info s => match on_stream callbacks with None => (TIDE_STATUS_OK, u) | Some f => f s u end
  | Packet_info p => match on_packet callbacks with None => (TIDE_STATUS_OK, u) | Some f => f p u end
  end.

Definition replay (log : list delivery) : U := fold_left (fun u d => (give u d).2) log user0.

Lemma replay_snoc log d : replay (log ++ [d]) = (give (replay log) d).2.
Proof. apply fold_left_app. Qed.

(** The answers the callbacks give along a log. *)
Definition answer (d : delivery) (before : list delivery) : tide_status := (give (replay before) d).1.

(** [verdict] gives the same answers along [log]. *)
Definition agrees (verdict : delivery -> list delivery -> tide_status) (log : list delivery) : Prop :=
  forall before d, before ++ [d] `prefix_of` log -> answer d before = verdict d before.

Lemma agrees_prefix verdict log log' : log `prefix_of` log' -> agrees verdict log' -> agrees verdict log.
Proof. intros Hp Ha before d Hd. apply Ha. etransitivity; eassumption. Qed.

Definition replayed (s : pstate (list delivery)) : pstate U := with_user (replay (ps_user s)) s.

Context (verdict : delivery -> list delivery -> tide_status).

(** A run of [m'] with logging callbacks is one of [m] with the caller's. *)
Class follows {A} (m : parse_m U A) (m' : parse_m (list delivery) A) : Prop :=
  follows_spec s a s' : m' s = Done (a, s') ->
    ps_user s `prefix_of` ps_user s' /\ (agrees verdict (ps_user s') -> m (replayed s) = Done (a, replayed s')).

#[local] Instance follows_ret {A} (a : A) : follows (mret a) (mret a).
Proof. intros s b s' [= <- <-]. split; [reflexivity|auto]. Qed.

#[local] Instance follows_bind {A B} (m : parse_m U A) m' (f : A -> parse_m U B) f' :
  follows m m' -> (forall a, follows (f a) (f' a)) -> follows (m ≫= f) (m' ≫= f').
Proof.
  intros Hm Hf s b s'. unfold mbind, parse_bind. destruct (m' s) as [[a s1]| |] eqn:E; try discriminate. intros E2.
  destruct (Hm s a s1 E) as [P1 H1]. destruct (Hf a s1 b s' E2) as [P2 H2]. split; [etransitivity; eassumption|].
  intros Ha. rewrite (H1 (agrees_prefix _ _ _ P2 Ha)). apply H2, Ha.
Qed.

#[local] Instance follows_lift {A} (o : outcome A) : follows (lift o) (lift o).
Proof. intros s a s'. unfold lift. destruct o; try discriminate. intros [= <- <-]. split; [reflexivity|auto]. Qed.

#[local] Instance follows_if {A} (b : bool) (m1 m2 : parse_m U A) m1' m2' :
  follows m1 m1' -> follows m2 m2' -> follows (if b then m1 else m2) (if b then m1' else m2').
Proof. destruct b; auto. Qed.

#[local] Instance follows_option {A B} (o : option A) (m : parse_m U B) m' f f' :
  follows m m' -> (forall a, follows (f a) (f' a)) ->
  follows (match o with None => m | Some a => f a end) (match o with None => m' | Some a => f' a end).
Proof. destruct o; auto. Qed.

#[local] Instance follows_sum {A B C} (o : A + B) (f : A -> parse_m U C) f' g g' :
  (forall a, follows (f a) (f' a)) -> (forall b, follows (g b) (g' b)) ->
  follows (match o with inl a => f a | inr b => g b end) (match o with inl a => f' a | inr b => g' b end).
Proof. destruct o; auto. Qed.

#[local] Instance follows_pair {A B C} (x : A * B) (f : A -> B -> parse_m U C) f' :
  (forall a b, follows (f a b) (f' a b)) -> follows (let (a, b) := x in f a b) (let (a, b) := x in f' a b).
Proof. destruct x; auto. Qed.

(** Code that looks at the tracks. *)
Lemma follows_tracks {A} (m : list tide_track_snapshot -> parse_m U A) m' :
  (forall tracks, follows (m tracks) (m' tracks)) -> follows (fun s => m (ps_tracks s) s) (fun s => m' (ps_tracks s) s).
Proof. intros H s a s' E. exact (H _ s a s' E). Qed.

(** Code that leaves the caller's state alone. *)
Lemma follows_quiet {A} (m : parse_m U A) (m' : parse_m (list delivery) A) :
  (forall s a s', m' s = Done (a, s') -> ps_user s' = ps_user s /\ m (replayed s) = Done (a, replayed s')) -> follows m m'.
Proof. intros H s a s' E. destruct (H s a s' E) as [Hu Hm]. rewrite Hu. split; [reflexivity|auto]. Qed.

#[local] Instance follows_set_error st off ty d msg : follows (tide_set_parse_error st off ty d msg) (tide_set_parse_error st off ty d msg).
Proof. apply follows_quiet. intros s a s' [= <- <-]. split; reflexivity. Qed.

#[local] Instance follows_fail st off ty d msg : follows (fail_with st off ty d msg) (fail_with st off ty d msg).
Proof. unfold fail_with. apply _. Qed.

#[local] Instance follows_error_code : follows error_code error_code.
Proof.
  apply follows_quiet. intros s a s'. unfold error_code. cbn [ps_error replayed with_user].
  destruct (ps_error s); [|discriminate]. intros [= <- <-]. split; reflexivity.
Qed.

#[local] Instance follows_valid_prefix v : follows (write_valid_prefix v) (write_valid_prefix v).
Proof.
  apply follows_quiet. intros s a s'. unfold write_valid_prefix. cbn [ps_valid_prefix replayed with_user].
  destruct (ps_valid_prefix s); [|discriminate]. intros [= <- <-]. split; reflexivity.
Qed.

Lemma store_track_quiet stream s a s' : store_track stream s = Done (a, s') ->
  ps_user s' = ps_user s /\ store_track stream (replayed s) = Done (a, replayed s').
Proof.
  unfold store_track. cbn [ps_tracks ps_track_capacity replayed with_user].
  destruct (assert_def _); try discriminate. intros [= <- <-]. split; reflexivity.
Qed.

#[local] Instance follows_add_track limits stream off : follows (tide_add_track limits stream off) (tide_add_track limits stream off).
Proof.
  intros s a s'. unfold tide_add_track. cbn [ps_tracks ps_track_capacity ps_heap replayed with_user].
  destruct (known _ _ _); [apply follows_fail|]. destruct (zlen (ps_tracks s) >=? max_tracks limits); [apply follows_fail|].
  assert (Hstore : forall s, store_track stream s = Done (a, s') -> ps_user s `prefix_of` ps_user s' /\
      (agrees verdict (ps_user s') -> store_track stream (replayed s) = Done (a, replayed s'))).
  { intros s1 E. destruct (store_track_quiet _ _ _ _ E) as [-> Hs]. split; [reflexivity|auto]. }
  destruct (zlen (ps_tracks s) =? ps_track_capacity s); [|apply Hstore].
  destruct (assert_def _); try discriminate. cbn [mbind outcome_bind].
  destruct (alloc (ps_heap s)) as [[] h]; cbn [negb]; [apply Hstore|]. intros [= <- <-]. split; [reflexivity|auto].
Qed.

(** A call of a callback. *)
Lemma follows_give {X} (cb : option (X -> U -> tide_status * U)) (con : X -> delivery) x :
  (forall u, give u (con x) = match cb with None => (TIDE_STATUS_OK, u) | Some f => f x u end) ->
  follows (call cb x) (call (Some (fun x log => (verdict (con x) log, log ++ [con x]))) x).
Proof.
  intros Hg s a s' [= <- <-]. cbn [ps_user set_user]. split; [exists [con x]; reflexivity|]. intros Ha.
  specialize (Ha (ps_user s) (con x) ltac:(reflexivity)). unfold answer in Ha. unfold replayed at 2. cbn [ps_user set_user].
  rewrite replay_snoc, <- Ha, Hg. unfold call. cbn [ps_user replayed with_user]. destruct cb as [f|]; [|reflexivity].
  destruct (f x (replay (ps_user s))). reflexivity.
Qed.

#[local] Instance follows_record e : follows (call (on_record callbacks) e) (call (on_record (logging verdict)) e).
Proof. apply (follows_give _ Record_event). reflexivity. Qed.
#[local] Instance follows_stream s : follows (call (on_stream callbacks) s) (call (on_stream (logging verdict)) s).
Proof. apply (follows_give _ Stream_info). reflexivity. Qed.
#[local] Instance follows_packet p : follows (call (on_packet callbacks) p) (call (on_packet (logging verdict)) p).
Proof. apply (follows_give _ Packet_info). reflexivity. Qed.

(** ** The functions of the decoder *)

#[local] Instance follows_prefix data size offset depth :
  follows (tide_decode_record_prefix data size offset depth) (tide_decode_record_prefix data size offset depth).
Proof. unfold tide_decode_record_prefix. apply _. Qed.

#[local] Instance follows_integrity data frame :
  follows (tide_validate_record_integrity data frame) (tide_validate_record_integrity data frame).
Proof. unfold tide_validate_record_integrity. apply _. Qed.

#[local] Instance follows_body {A} (body : check_m A) payload size frame (k : A -> parse_m U tide_status) k' :
  (forall a, follows (k a) (k' a)) -> follows (with_body body payload size frame k) (with_body body payload size frame k').
Proof. intros Hk. unfold with_body. apply _. Qed.

#[local] Instance follows_process limits pr pr' data frame :
  (forall d b e n, follows (pr d b e n) (pr' d b e n)) ->
  follows (tide_process_record limits callbacks pr data frame) (tide_process_record limits (logging verdict) pr' data frame).
Proof.
  intros Hpr. unfold tide_process_record, process_group, tide_emit_stream.
  assert (Hp : forall payload size, follows (tide_emit_packet callbacks payload size frame) (tide_emit_packet (logging verdict) payload size frame)).
  { intros payload size. apply (follows_tracks (fun tracks => with_body (parse_packet tracks size) payload size frame (fun packet => call (on_packet callbacks) packet))
      (fun tracks => with_body (parse_packet tracks size) payload size frame (fun packet => call (on_packet (logging verdict)) packet))). apply _. }
  assert (Hs : forall payload size, follows (tide_emit_simple_record limits data payload size frame) (tide_emit_simple_record limits data payload size frame)).
  { intros payload size. apply (follows_tracks (fun tracks => with_body (simple_body limits tracks data size frame) payload size frame (fun _ => mret TIDE_STATUS_OK))
      (fun tracks => with_body (simple_body limits tracks data size frame) payload size frame (fun _ => mret TIDE_STATUS_OK))). apply _. }
  apply _.
Qed.

#[local] Instance follows_parse limits fuel : forall data cursor end_ depth,
  follows (tide_parse_records limits callbacks fuel data cursor end_ depth)
    (tide_parse_records limits (logging verdict) fuel data cursor end_ depth).
Proof.
  induction fuel as [|fuel IH]; intros data cursor end_ depth; cbn [tide_parse_records]; [intros s a s'; discriminate|].
  apply follows_if; [|apply _]. apply follows_bind; [apply _|]. intros [st|frame]; [|apply _]. destruct st; apply _.
Qed.
End replay.

(** ** Runs that end well

    A run that ends with [OK], or for want of input, met no refusal on the way. *)

Definition accepted (verdict : delivery -> list delivery -> tide_status) (log : list delivery) : Prop :=
  forall before d, before ++ [d] `prefix_of` log -> verdict d before = TIDE_STATUS_OK.

Lemma accepted_snoc verdict log d : accepted verdict log -> verdict d log = TIDE_STATUS_OK -> accepted verdict (log ++ [d]).
Proof.
  intros Ha Hv before d' [tl E]. destruct tl as [|x tl _] using rev_ind.
  - rewrite app_nil_r in E. apply app_inj_tail in E as [<- <-]. exact Hv.
  - rewrite app_assoc in E. apply app_inj_tail in E as [E _]. apply Ha. exists tl. exact E.
Qed.

(** The last delivery of the log, and no other, was refused, with [st]. *)
Definition refused_last (verdict : delivery -> list delivery -> tide_status) (log : list delivery) (st : tide_status) : Prop :=
  exists before d, log = before ++ [d] /\ accepted verdict before /\ verdict d before = st /\ is_failure st.

Section accepted.
Context (verdict : delivery -> list delivery -> tide_status).
Context (Hverdict : forall d log, verdict d log = TIDE_STATUS_OK \/ is_failure (verdict d log)).

Class quiet {A} (m : parse_m (list delivery) A) : Prop :=
  quiet_spec s a s' : m s = Done (a, s') -> ps_user s' = ps_user s.

Class obeys (m : parse_m (list delivery) tide_status) : Prop :=
  obeys_spec s st s' : m s = Done (st, s') -> accepted verdict (ps_user s) ->
    accepted verdict (ps_user s') \/ refused_last verdict (ps_user s') st.

#[local] Instance quiet_ret {A} (a : A) : quiet (mret a).
Proof. intros s b s' [= _ <-]. reflexivity. Qed.
#[local] Instance quiet_lift {A} (o : outcome A) : quiet (lift o).
Proof. intros s a s'. unfold lift. destruct o; try discriminate. intros [= _ <-]. reflexivity. Qed.
#[local] Instance quiet_bind {A B} (m : parse_m (list delivery) A) (f : A -> parse_m _ B) :
  quiet m -> (forall a, quiet (f a)) -> quiet (m ≫= f).
Proof.
  intros Hm Hf s b s'. unfold mbind, parse_bind. destruct (m s) as [[a s1]| |] eqn:E; try discriminate.
  intros E2. rewrite (Hf a s1 b s' E2). exact (Hm s a s1 E).
Qed.
#[local] Instance quiet_if {A} (b : bool) (m1 m2 : parse_m (list delivery) A) : quiet m1 -> quiet m2 -> quiet (if b then m1 else m2).
Proof. destruct b; auto. Qed.
#[local] Instance quiet_option {A B} (o : option A) (m : parse_m (list delivery) B) f :
  quiet m -> (forall a, quiet (f a)) -> quiet (match o with None => m | Some a => f a end).
Proof. destruct o; auto. Qed.
#[local] Instance quiet_sum {A B C} (o : A + B) (f : A -> parse_m (list delivery) C) g :
  (forall a, quiet (f a)) -> (forall b, quiet (g b)) -> quiet (match o with inl a => f a | inr b => g b end).
Proof. destruct o; auto. Qed.
#[local] Instance quiet_pair {A B C} (x : A * B) (f : A -> B -> parse_m (list delivery) C) :
  (forall a b, quiet (f a b)) -> quiet (let (a, b) := x in f a b).
Proof. destruct x; auto. Qed.
#[local] Instance quiet_set_error st off ty d msg : quiet (tide_set_parse_error st off ty d msg).
Proof. intros s a s' [= _ <-]. reflexivity. Qed.
#[local] Instance quiet_fail st off ty d msg : quiet (fail_with st off ty d msg).
Proof. unfold fail_with. apply _. Qed.
#[local] Instance quiet_error_code : quiet error_code.
Proof. intros s a s'. unfold error_code. destruct (ps_error s); [|discriminate]. intros [= _ <-]. reflexivity. Qed.
#[local] Instance quiet_valid_prefix v : quiet (write_valid_prefix v).
Proof. intros s a s'. unfold write_valid_prefix. destruct (ps_valid_prefix s); [|discriminate]. intros [= _ <-]. reflexivity. Qed.
#[local] Instance quiet_add_track limits stream off : quiet (tide_add_track limits stream off).
Proof.
  intros s a s'. unfold tide_add_track, store_track. repeat case_match; try (intros E; exact (quiet_fail _ _ _ _ _ _ _ _ E));
    repeat (destruct (assert_def _); try discriminate; cbn [mbind outcome_bind]); repeat case_match;
    try (destruct (assert_def _); try discriminate; cbn [mbind outcome_bind]); intros [= _ <-]; reflexivity.
Qed.
#[local] Instance quiet_prefix data size offset depth : quiet (tide_decode_record_prefix data size offset depth).
Proof. unfold tide_decode_record_prefix. apply _. Qed.
#[local] Instance quiet_integrity data frame : quiet (tide_validate_record_integrity data frame).
Proof. unfold tide_validate_record_integrity. apply _. Qed.

#[local] Instance obeys_quiet m : quiet m -> obeys m | 10.
Proof. intros H s st s' E Ha. left. rewrite (H s st s' E). exact Ha. Qed.
#[local] Instance obeys_bind {A} (m : parse_m (list delivery) A) f : quiet m -> (forall a, obeys (f a)) -> obeys (m ≫= f) | 5.
Proof.
  intros Hm Hf s b s'. unfold mbind, parse_bind. destruct (m s) as [[a s1]| |] eqn:E; try discriminate.
  intros E2 Ha. apply (Hf a s1 b s' E2). rewrite (Hm s a s1 E). exact Ha.
Qed.
#[local] Instance obeys_then m k : obeys m -> obeys k ->
  obeys (st ← m; if negb (bool_decide (st = TIDE_STATUS_OK)) then mret st else k) | 1.
Proof.
  intros Hm Hk s st s'. unfold mbind, parse_bind. destruct (m s) as [[st1 s1]| |] eqn:E; try discriminate. intros E2 Ha.
  pose proof (Hm s st1 s1 E Ha) as Hm1. destruct (bool_decide_reflect (st1 = TIDE_STATUS_OK)) as [->|Hne]; cbn [negb] in E2.
  - destruct Hm1 as [Hm1|(_ & _ & _ & _ & _ & ? & _)]; [|contradiction]. exact (Hk s1 st s' E2 Hm1).
  - injection E2 as <- <-. exact Hm1.
Qed.
#[local] Instance obeys_child m off ty d msg : obeys m ->
  obeys (st ← m; if bool_decide (st = TIDE_STATUS_TRUNCATED) then fail_with TIDE_STATUS_FORMAT off ty d msg else mret st) | 1.
Proof.
  intros Hm s st s'. unfold mbind, parse_bind. destruct (m s) as [[st1 s1]| |] eqn:E; try discriminate. intros E2 Ha.
  pose proof (Hm s st1 s1 E Ha) as Hm1. destruct (bool_decide_reflect (st1 = TIDE_STATUS_TRUNCATED)) as [->|Hne].
  - destruct Hm1 as [Hm1|(_ & _ & _ & _ & _ & _ & _ & ?)]; [|contradiction]. left. rewrite (quiet_fail _ _ _ _ _ _ _ _ E2). exact Hm1.
  - injection E2 as <- <-. exact Hm1.
Qed.
#[local] Instance obeys_if (b : bool) m1 m2 : obeys m1 -> obeys m2 -> obeys (if b then m1 else m2).
Proof. destruct b; auto. Qed.
#[local] Instance obeys_option {A} (o : option A) m f : obeys m -> (forall a, obeys (f a)) -> obeys (match o with None => m | Some a => f a end).
Proof. destruct o; auto. Qed.
#[local] Instance obeys_sum {A B} (o : A + B) f g :
  (forall a, obeys (f a)) -> (forall b, obeys (g b)) -> obeys (match o with inl a => f a | inr b => g b end).
Proof. destruct o; auto. Qed.
#[local] Instance obeys_pair {A B} (x : A * B) f : (forall a b, obeys (f a b)) -> obeys (let (a, b) := x in f a b).
Proof. destruct x; auto. Qed.
Lemma obeys_tracks m : (forall tracks, obeys (m tracks)) -> obeys (fun s => m (ps_tracks s) s).
Proof. intros H s st s' E. exact (H _ s st s' E). Qed.

#[local] Instance obeys_call {X} (con : X -> delivery) x :
  obeys (call (Some (fun x log => (verdict (con x) log, log ++ [con x]))) x).
Proof.
  intros s st s' [= <- <-] Ha. cbn [ps_user set_user].
  destruct (Hverdict (con x) (ps_user s)) as [E|E]; [left; apply accepted_snoc; assumption|right].
  exists (ps_user s), (con x). auto.
Qed.
#[local] Instance obeys_record e : obeys (call (on_record (logging verdict)) e).
Proof. exact (obeys_call Record_event e). Qed.
#[local] Instance obeys_stream x : obeys (call (on_stream (logging verdict)) x).
Proof. exact (obeys_call Stream_info x). Qed.
#[local] Instance obeys_packet p : obeys (call (on_packet (logging verdict)) p).
Proof. exact (obeys_call Packet_info p). Qed.

#[local] Instance obeys_process limits pr data frame : (forall d b e n, obeys (pr d b e n)) ->
  obeys (tide_process_record limits (logging verdict) pr data frame).
Proof.
  intros Hpr. unfold tide_process_record, process_group, tide_emit_stream, with_body.
  assert (Hp : forall payload size, obeys (tide_emit_packet (logging verdict) payload size frame)).
  { intros payload size. apply (obeys_tracks (fun tracks => with_body (parse_packet tracks size) payload size frame (fun packet => call (on_packet (logging verdict)) packet))).
    intros tracks. unfold with_body. apply _. }
  assert (Hs : forall payload size, obeys (tide_emit_simple_record limits data payload size frame)).
  { intros payload size. apply (obeys_tracks (fun tracks => with_body (simple_body limits tracks data size frame) payload size frame (fun _ => mret TIDE_STATUS_OK))).
    intros tracks. unfold with_body. apply _. }
  apply _.
Qed.

Lemma obeys_parse limits fuel : forall data cursor end_ depth,
  obeys (tide_parse_records limits (logging verdict) fuel data cursor end_ depth).
Proof.
  induction fuel as [|fuel IH]; intros data cursor end_ depth; cbn [tide_parse_records]; [intros s a s'; discriminate|].
  apply obeys_if; [|apply _]. apply obeys_bind; [apply _|]. intros [st|frame]; [|apply _]. destruct st; apply _.
Qed.

Lemma parse_bytes_obeys data size end_ limits error valid_prefix h st s :
  parse_args data size (default tide_limits_default limits) error valid_prefix ->
  tide_parse_tide_bytes data size end_ limits (Some (logging verdict)) [] error valid_prefix h = Done (st, s) ->
  accepted verdict (ps_user s) \/ refused_last verdict (ps_user s) st.
Proof.
  intros Ha Hrun. assert (H0 : accepted verdict []) by (intros before d [? E]; destruct before; discriminate).
  destruct (parse_bytes_cases limits (Some (logging verdict)) data size end_ [] error valid_prefix h Ha)
    as [(st1 & s1 & Hrun1 & _ & Hu & _)|(bytes & -> & Hsz & Hrun1)]; rewrite Hrun1 in Hrun; clear Hrun1.
  { injection Hrun as <- <-. rewrite Hu. left. exact H0. }
  destruct (tide_parse_records _ _ _ _ _ _ _ _) as [[st1 s1]| |] eqn:E; try discriminate. rewrite bind_done in Hrun. injection Hrun as Hst1 <-.
  destruct (obeys_parse _ _ _ _ _ _ _ _ _ E H0) as [H|H]; [left; exact H|right].
  destruct H as (before & d & Hlog & Hacc & Hv & H1 & H2 & H3). rewrite (bool_decide_eq_false_2 _ H3) in Hst1. cbn [andb] in Hst1. subst st1.
  exists before, d. unfold is_failure. auto 10.
Qed.

Lemma parse_bytes_accepted data size end_ limits error valid_prefix h st s :
  parse_args data size (default tide_limits_default limits) error valid_prefix ->
  tide_parse_tide_bytes data size end_ limits (Some (logging verdict)) [] error valid_prefix h = Done (st, s) ->
  st = TIDE_STATUS_OK \/ st = TIDE_STATUS_PARTIAL \/ st = TIDE_STATUS_TRUNCATED -> accepted verdict (ps_user s).
Proof.
  intros Ha Hrun Hst. destruct (parse_bytes_obeys _ _ _ _ _ _ _ _ _ Ha Hrun) as [H|(_ & _ & _ & _ & _ & H1 & H2 & H3)]; [exact H|].
  exfalso. intuition congruence.
Qed.
End accepted.

(** ** The one-shot entry *)

Section entry.
Context {U : Type} (callbacks : tide_callbacks U) (user0 : U).

(** A run with logging callbacks, as a run with the caller's. *)
Lemma parse_bytes_replay verdict data size end_ limits error valid_prefix h st s :
  tide_parse_tide_bytes data size end_ limits (Some (logging verdict)) [] error valid_prefix h = Done (st, s) ->
  agrees callbacks user0 verdict (ps_user s) -> parse_args data size (default tide_limits_default limits) error valid_prefix ->
  tide_parse_tide_bytes data size end_ limits (Some callbacks) user0 error valid_prefix h = Done (st, replayed callbacks user0 s).
Proof.
  intros Hrun Hag Ha. pose proof Ha as (Hsize & Hmax & _ & [e ->] & [v ->]).
  destruct (Z_lt_le_dec size TIDE_HEADER_SIZE) as [Hshort|Hlong].
  { revert Hrun. unfold tide_parse_tide_bytes. destruct (is_null data && negb (size =? 0)); [intros [= <- <-]; reflexivity|].
    rewrite !header_short, !fail_with_done, !bind_done by exact Hshort. cbv beta iota.
    rewrite bool_decide_eq_false_2 by discriminate. intros [= <- <-]. reflexivity. }
  destruct data as [bytes|]; [|unfold zlen, TIDE_HEADER_SIZE in *; cbn in Hsize; lia]. cbn [default] in Hsize. unfold id in Hsize.
  revert Hrun. rewrite !parse_bytes_header by lia.
  destruct (header_verdict _ _) as [[[st1 off] msg]|]; [intros [= <- <-]; reflexivity|].
  change (default no_callbacks (Some callbacks)) with callbacks.
  change (default no_callbacks (Some (logging verdict))) with (logging verdict).
  destruct (tide_parse_records _ (logging verdict) _ _ _ _ _ _) as [[st1 s1]| |] eqn:E; try discriminate.
  rewrite bind_done. cbv beta iota. intros [= <- <-].
  destruct (follows_parse callbacks user0 verdict _ _ _ _ _ _ _ _ _ E) as [_ H].
  change (start_state user0 h) with (replayed callbacks user0 (start_state [] h)). rewrite (H Hag), bind_done. reflexivity.
Qed.

(** What is known of the log of any run. *)
Lemma parse_bytes_log verdict data size limits end_ error valid_prefix h :
  parse_args data size limits error valid_prefix ->
  exists st s, tide_parse_tide_bytes data size end_ (Some limits) (Some (logging verdict)) [] error valid_prefix h = Done (st, s) /\
    log_ok limits (default [] data) (ps_user s) /\ zlen (streams (ps_user s)) + zlen (packets (ps_user s)) <= size /\
    is_Some (ps_error s) /\ exists v, ps_valid_prefix s = Some v /\ 0 <= v <= size.
Proof.
  intros Ha. pose proof Ha as (Hs & Hm & Hl & _).
  destruct (parse_bytes_cases (Some limits) (Some (logging verdict)) data size end_ [] error valid_prefix h Ha)
    as [(st & s & -> & _ & Hu & Hp & He)|(bytes & -> & Hsz & ->)].
  { exists st, s. split; [reflexivity|]. rewrite Hu, Hp. split; [constructor|].
    pose proof (zlen_nonneg (default [] data)). split; [change (0 <= size); lia|]. split; [exact He|]. exists 0. split; [reflexivity|lia]. }
  change (zlen bytes = size) in Hs.
  pose proof (start_range limits bytes size Hl Hs Hsz Hm) as Hrange.
  assert (Hi : log_inv limits bytes TIDE_HEADER_SIZE (start_state [] h)) by (split; [constructor|split; [reflexivity|discriminate]]).
  destruct (wp_inv _ _ (parse_log verdict limits bytes _ _ _ _ _ Hrange (start_ready _ [] h) Hi)) as ([st s] & Hrun & (He & _) & Hlog & _ & Hn).
  pose proof (parse_defined (logging verdict) _ _ _ _ _ _ _ Hrange (start_ready _ [] h) (start_prefix [] h (zlen bytes) ltac:(lia))) as Hp.
  rewrite Hrun in Hp. destruct Hp as (_ & v & Hp & Hv). cbn [snd] in Hp.
  change (default tide_limits_default (Some limits)) with limits.
  change (default no_callbacks (Some (logging verdict))) with (logging verdict). rewrite Hrun, bind_done. cbv beta iota.
  eexists _, s. split; [reflexivity|]. rewrite Hs in Hv. eauto 6.
Qed.
End entry.

(** C17: a callback that refuses ends the run.  Take callbacks over any state that answer
    [OK] or a failure (any status but [TRUNCATED] and [PARTIAL], which stand for the end of the
    input).  Of the deliveries of the run, in order, either all were answered with [OK]; or all but
    the last were, nothing is delivered after it, and the status of the whole run is the
    answer it got, however deep in groups it was.  In
    particular a run that ends with [OK], or for want of input, met no refusal.
    The caller's state is what its callbacks make of these deliveries. *)
Theorem refusal_ends_decoding {U} (callbacks : tide_callbacks U) (user : U) (data : list byte) (end_ : bool)
    (limits : tide_limits) (error : option tide_error) (valid_prefix : option Z) (h : heap) :
  parse_args (Some data) (zlen data) limits error valid_prefix ->
  (forall d u, (give callbacks u d).1 = TIDE_STATUS_OK \/ is_failure (give callbacks u d).1) ->
  exists st s log,
    tide_parse_tide_bytes (Some data) (zlen data) end_ (Some limits) (Some callbacks) user error valid_prefix h = Done (st, s) /\
    ps_user s = replay callbacks user log /\ log_ok limits data log /\
    (accepted (answer callbacks user) log \/ refused_last (answer callbacks user) log st) /\
    (st = TIDE_STATUS_OK \/ st = TIDE_STATUS_PARTIAL \/ st = TIDE_STATUS_TRUNCATED -> accepted (answer callbacks user) log).
Proof.
  intros Ha Hans. destruct (parse_bytes_log (answer callbacks user) (Some data) (zlen data) limits end_ error valid_prefix h Ha) as (st & s & Hrun & Hlog & _).
  assert (Hverdict : forall d log, answer callbacks user d log = TIDE_STATUS_OK \/ is_failure (answer callbacks user d log)) by (intros d log; apply Hans).
  exists st, (replayed callbacks user s), (ps_user s). split; [|split; [reflexivity|split; [exact Hlog|split]]].
  - apply (parse_bytes_replay callbacks user (answer callbacks user)); [exact Hrun| |exact Ha]. intros before d _. reflexivity.
  - exact (parse_bytes_obeys _ Hverdict _ _ _ (Some limits) _ _ _ _ _ Ha Hrun).
  - exact (parse_bytes_accepted _ Hverdict _ _ _ (Some limits) _ _ _ _ _ Ha Hrun).
Qed.

(** Callbacks that count deliveries and refuse packets, which in the sample file are
    in a group. *)
Definition choosy : tide_callbacks Z :=
  mk_callbacks (Some (fun _ n => (TIDE_STATUS_OK, n + 1))) (Some (fun _ n => (TIDE_STATUS_OK, n + 1)))
    (Some (fun _ n => (TIDE_STATUS_CANCELLED, n + 1))) None.

Lemma refusal_ends_decoding_witness :
  exists s log,
    tide_parse_tide_bytes (Some sample_file) (zlen sample_file) true (Some tide_limits_default) (Some choosy) 0
      (Some zero_error) (Some 0) [] = Done (TIDE_STATUS_CANCELLED, s) /\ ps_user s = 5 /\ ps_user s = replay choosy 0 log /\
    (accepted (answer choosy 0) log \/ refused_last (answer choosy 0) log TIDE_STATUS_CANCELLED).
Proof.
  destruct (refusal_ends_decoding choosy 0 sample_file true tide_limits_default (Some zero_error) (Some 0) [] sample_args)
    as (st & s & log & Hrun & Hu & _ & Hor & _).
  { intros [e|x|p] u; [left; reflexivity|left; reflexivity|right]. split; [|split]; discriminate. }
  assert (Hrun' := Hrun). vm_compute in Hrun'. injection Hrun' as <- Hs.
  exists s, log. split; [exact Hrun|]. split; [rewrite <- Hs; reflexivity|]. split; [exact Hu|exact Hor].
Defined.
