(* ===== verification/ParseSplit.v ===== *)
(** * Parsing in pieces

    The parser looks at no byte past the records it accepts, so a parse of a
    longer input goes through the same states: the facts behind incremental
    feeding and behind the valid prefix of a truncated file. *)

From S2P Require Import Prelude Status Checked Crc Reader Rational Model Frame Validate Header Decoder Parse ParseRule Samples.

(** ** A frame is found by any input that has the record *)

Lemma frame_of_framed d1 d2 e1 e2 offset depth f :
  0 <= offset <= e1 -> e1 <= zlen d1 -> zlen d1 < 2 ^ 64 ->
  frame_of (slice d1 offset (e1 - offset)) e1 offset depth = Framed f ->
  agree (fr_crc_end f) d1 d2 -> fr_crc_end f <= e2 -> e2 <= zlen d2 ->
  frame_of (slice d2 offset (e2 - offset)) e2 offset depth = Framed f.
Proof.
  intros Ho He1 Hm Hf Ha He2 Hz2. pose proof Hf as Hw. apply frame_of_wf in Hw as (Hw & Hoff & _); [|zlia].
  pose proof Hw as (H0 & Hh & Hpo & _ & _ & _ & _ & Hps & Hpe & Hpad & Hb & Hce & Hsz).
  unfold frame_of in *.
  destruct (p_prefix (slice d1 offset (e1 - offset))) as [[[[[[type flags] hs] al] [ps sq]] cs]|] eqn:Ep; [|discriminate].
  apply exact_spec in Ep as (used & Hused & Hrun).
  assert (Hlen : zlen used = zlen (slice d1 offset (e1 - offset)) - zlen cs) by (rewrite Hused, zlen_app; lia).
  rewrite <- Hlen in Hf. destruct (negb (hs =? zlen used) || (4 <? al)) eqn:Ec; [discriminate|].
  destruct (record_ends offset hs ps (2 ^ al)) as [[[pe pad] ce]|] eqn:Ere; [|discriminate].
  destruct (e1 <? ce) eqn:Ece; [discriminate|]. injection Hf as Hf.
  assert (Hfields : fr_header_size f = hs /\ fr_crc_end f = ce) by (subst f; auto).
  destruct Hfields as [Hhs Hcef]. apply orb_false_iff in Ec as [Ec Eal].
  pose proof Ec as Ec'. apply negb_false_iff, Z.eqb_eq in Ec'.
  assert (Hsplit : slice d2 offset (e2 - offset) =
                   used ++ slice d2 (offset + hs) (e2 - offset - hs)).
  { replace (e2 - offset) with (hs + (e2 - offset - hs)) at 1 by lia. rewrite slice_split by lia. f_equal.
    rewrite <- (agree_slice _ d1 d2) by (eassumption || lia).
    replace (e1 - offset) with (hs + (e1 - offset - hs)) in Hused by lia. rewrite slice_split in Hused by lia.
    apply (f_equal (take (Z.to_nat hs))) in Hused. rewrite !take_app_length' in Hused; [exact Hused| |].
    - unfold zlen in *. lia.
    - assert (zlen (slice d1 offset hs) = hs) by (apply zlen_slice; lia). unfold zlen in *. lia. }
  rewrite Hsplit, Hrun, zlen_app.
  replace (zlen used + zlen (slice d2 (offset + hs) (e2 - offset - hs)) -
           zlen (slice d2 (offset + hs) (e2 - offset - hs))) with (zlen used) by lia.
  rewrite Ec, Eal. cbn [orb]. rewrite Ere. rewrite (proj2 (Z.ltb_ge e2 ce)) by lia. f_equal. exact Hf.
Qed.

Lemma record_error_agree limits n d1 d2 f :
  frame_wf f n -> agree n d1 d2 -> record_error limits d1 f = record_error limits d2 f.
Proof. intros Hw Ha. unfold record_error. rewrite (integrity_agree n d1 d2) by assumption. reflexivity. Qed.

Lemma action_agree limits tracks n d1 d2 f :
  frame_wf f n -> agree n d1 d2 -> action_of limits tracks d1 f = action_of limits tracks d2 f.
Proof.
  intros (H0 & Hh & Hpo & _ & _ & _ & _ & Hps & Hpe & Hpad & Hb & Hce & Hsz) Ha.
  unfold action_of, payload_of.
  rewrite (agree_slice n d1 d2 (fr_payload_offset f)) by (assumption || lia).
  rewrite (agree_slice n d1 d2 0) by (assumption || lia). reflexivity.
Qed.

Lemma frame_wf_crc_end f n : frame_wf f n -> frame_wf f (fr_crc_end f).
Proof. unfold frame_wf. intuition lia. Qed.

Section split.
Context {U : Type} (limits : tide_limits) (callbacks : tide_callbacks U).
Implicit Type s : pstate U.
Let parse := tide_parse_records limits callbacks.

Lemma process_ext pr1 pr2 d1 d2 f n s :
  frame_wf f n -> agree n d1 d2 ->
  (forall b e d s, 0 <= b <= e -> fr_offset f < b -> e < fr_crc_end f -> pr1 d1 b e d s = pr2 d2 b e d s) ->
  process limits callbacks pr1 d1 f s = process limits callbacks pr2 d2 f s.
Proof.
  intros Hw Ha Hpr. unfold process. destruct (is_skippable f); [reflexivity|].
  unfold mbind, parse_bind. destruct (call _ _ s) as [[st s1]| |]; try reflexivity.
  destruct (negb _); [reflexivity|]. unfold act. rewrite (action_agree _ _ n d1 d2) by assumption.
  destruct (action_of _ _ d2 f) as [| b e| | |] eqn:Ea; try reflexivity. cbn [perform].
  unfold mbind, parse_bind. rewrite Hpr; [reflexivity|..];
    destruct Hw as (H0 & Hh & Hpo & _ & _ & _ & _ & Hps & Hpe & Hpad & Hb & Hce & Hsz);
    revert Ea; unfold action_of, body_action, TIDE_GROUP_META_SIZE; repeat case_match; try discriminate; bool_props;
    intros [= <- <-]; lia.
Qed.

(** More fuel, other bytes past the end: same parse. *)
Lemma parse_ext fuel1 fuel2 d1 d2 cursor end_ depth s :
  0 <= cursor <= end_ -> end_ <= zlen d1 -> end_ <= zlen d2 -> zlen d1 < 2 ^ 64 -> zlen d2 < 2 ^ 64 ->
  agree end_ d1 d2 -> end_ - cursor < Z.of_nat fuel1 -> end_ - cursor < Z.of_nat fuel2 ->
  parse fuel1 d1 cursor end_ depth s = parse fuel2 d2 cursor end_ depth s.
Proof.
  revert fuel2 cursor end_ depth s. induction fuel1 as [|fuel1 IH]; intros fuel2 cursor end_ depth s Hc He1 He2 Hm1 Hm2 Ha Hf1 Hf2; [lia|].
  destruct fuel2 as [|fuel2]; [lia|]. unfold parse in *.
  destruct (Z.eq_dec cursor end_) as [->|Hne]; [rewrite !parse_done; reflexivity|].
  rewrite !parse_step by lia. unfold round. rewrite (agree_slice end_ d1 d2) by (assumption || lia).
  destruct (frame_of _ end_ cursor depth) as [| |f] eqn:Ef; try reflexivity.
  apply frame_of_wf in Ef as (Hw & Hoff & _); [|zlia].
  pose proof Hw as (H0 & Hh & Hpo & _ & _ & _ & _ & Hps & Hpe & Hpad & Hb & Hce & Hsz).
  rewrite (record_error_agree limits end_ d1 d2) by assumption.
  destruct (record_error limits d2 f) as [[[? ?] ?]|]; [reflexivity|].
  unfold mbind, parse_bind.
  rewrite (process_ext (tide_parse_records limits callbacks fuel1) (tide_parse_records limits callbacks fuel2) d1 d2 f end_ s Hw Ha).
  2: { intros b e d s' Hb1 Hb2 He. apply IH; try lia. apply (agree_le end_); [exact Ha|lia]. }
  destruct (process _ _ _ d2 f s) as [[st s1]| |]; try reflexivity.
  destruct (negb _); [reflexivity|]. destruct (write_valid_prefix _ s1) as [[[] s2]| |]; try reflexivity.
  apply IH; auto; lia.
Qed.

(** ** Runs that stop for want of bytes *)

(** No callback answers that its input is truncated. *)
Definition never_truncated : Prop :=
  (forall f e u, on_record callbacks = Some f -> (f e u).1 <> TIDE_STATUS_TRUNCATED) /\
  (forall f x u, on_stream callbacks = Some f -> (f x u).1 <> TIDE_STATUS_TRUNCATED) /\
  (forall f p u, on_packet callbacks = Some f -> (f p u).1 <> TIDE_STATUS_TRUNCATED).

(** Ready, and the allocations to come succeed. *)
Definition stable (s : pstate U) : Prop := ready limits s /\ ps_heap s = [].

Context (Hcb : never_truncated) (Hlim : limits_typed limits).

Lemma call_not_truncated {X} (cb : option (X -> U -> tide_status * U)) x s s' :
  (forall f x u, cb = Some f -> (f x u).1 <> TIDE_STATUS_TRUNCATED) -> call cb x s <> Done (TIDE_STATUS_TRUNCATED, s').
Proof.
  intros H. unfold call. destruct cb as [f|]; [|congruence].
  specialize (H f x (ps_user s) eq_refl). destruct (f x (ps_user s)) as [st u]. cbn in H. congruence.
Qed.

Lemma describe_not_truncated stream off s s' :
  stable s ->
  (st ← tide_add_track limits stream off;
   if negb (bool_decide (st = TIDE_STATUS_OK)) then error_code else call (on_stream callbacks) stream) s
  <> Done (TIDE_STATUS_TRUNCATED, s').
Proof.
  intros [([e He] & _) Hh] H. unfold tide_add_track in H.
  assert (Hfail : forall st off ty d msg, st <> TIDE_STATUS_OK -> st <> TIDE_STATUS_TRUNCATED ->
      (st ← fail_with st off ty d msg;
       if negb (bool_decide (st = TIDE_STATUS_OK)) then error_code else call (on_stream callbacks) stream) s
      <> Done (TIDE_STATUS_TRUNCATED, s')).
  { intros st off' ty d msg Hst Htr. unfold mbind, parse_bind. rewrite fail_with_done.
    rewrite bool_decide_eq_false_2 by exact Hst. unfold error_code. cbn. rewrite He. cbn. congruence. }
  assert (Hstore : forall s1, (st ← store_track stream;
       if negb (bool_decide (st = TIDE_STATUS_OK)) then error_code else call (on_stream callbacks) stream) s1
      <> Done (TIDE_STATUS_TRUNCATED, s')).
  { intros s1. unfold mbind, parse_bind, store_track, assert_def. destruct (_ <? _); [|discriminate].
    rewrite bind_done. cbv beta iota. rewrite bool_decide_eq_true_2 by reflexivity. cbn [negb].
    apply call_not_truncated, Hcb. }
  unfold mbind, parse_bind in H, Hfail, Hstore.
  destruct (known _ _ _); [eapply Hfail in H; [exact H|discriminate..]|].
  destruct (_ >=? _); [eapply Hfail in H; [exact H|discriminate..]|].
  destruct (_ =? _); [|eapply Hstore, H]. rewrite Hh in H. cbn [alloc negb] in H.
  unfold assert_def in H. destruct (_ <=? SIZE_MAX); [|discriminate]. rewrite bind_done in H. eapply Hstore, H.
Qed.

Lemma process_not_truncated pr data f s s' :
  stable s -> process limits callbacks pr data f s <> Done (TIDE_STATUS_TRUNCATED, s').
Proof.
  intros Hs. unfold process.
  pose proof (fun s' => call_not_truncated (on_record callbacks) (record_event f) s s' ltac:(apply Hcb)) as Hcall.
  destruct (is_skippable f); [apply Hcall|]. unfold mbind, parse_bind.
  destruct (call_after (on_record callbacks) (record_event f) s) as [st Hc]. rewrite Hc in Hcall |- *.
  destruct (negb _); [apply Hcall|].
  assert (Hs1 : stable (after (on_record callbacks) (record_event f) s)).
  { destruct Hs as [Hr Hh]. split; [apply ready_after, Hr|]. unfold after. destruct (on_record callbacks); exact Hh. }
  revert Hs1. generalize (after (on_record callbacks) (record_event f) s). intros s1 Hs1.
  unfold act. destruct (action_of _ _ data f) as [st' off msg|b e|stream|packet|] eqn:Ea; cbn [perform].
  - rewrite fail_with_done. apply action_honest in Ea as (_ & _ & Ht). congruence.
  - unfold mbind, parse_bind. destruct (pr data b e _ s1) as [[st' s2]| |]; try discriminate.
    case_bool_decide; [rewrite fail_with_done; congruence|]. unfold mret, parse_ret. congruence.
  - apply describe_not_truncated, Hs1.
  - apply call_not_truncated, Hcb.
  - discriminate.
Qed.

Lemma process_stable data fuel f s :
  zlen data < 2 ^ 64 -> fr_crc_end f - fr_offset f <= Z.of_nat fuel -> is_u8 (fr_depth f) ->
  intact limits data f -> stable s ->
  exists st s', process limits callbacks (parse fuel) data f s = Done (st, s') /\ stable s' /\ st <> TIDE_STATUS_TRUNCATED.
Proof.
  intros Hm Hf Hd Hint [Hr Hh].
  destruct (wp_inv _ _ (process_rule limits callbacks data Hm ltac:(apply Hlim) (fun _ s => ps_heap s = [])
    ltac:(auto) ltac:(auto) ltac:(auto) ltac:(intros n c s1 ->; reflexivity)
    ltac:(intros n f1 s1 _ Hi; unfold after; destruct (on_record callbacks); exact Hi)
    ltac:(intros n x s1 _ _ _ _ Hi; unfold after; destruct (on_stream callbacks); exact Hi)
    ltac:(intros n x s1 _ _ _ Hi; unfold after; destruct (on_packet callbacks); exact Hi)
    fuel f s Hf Hd Hint Hr Hh)) as ([st s'] & Hp & Hr' & Hh').
  exists st, s'. split; [exact Hp|]. split; [split; assumption|]. intros ->.
  eapply process_not_truncated; [|exact Hp]. split; assumption.
Qed.

Lemma frame_of_intact d c e depth f :
  0 <= c <= e -> e <= zlen d -> zlen d < 2 ^ 64 -> is_u8 depth -> depth <= max_depth limits ->
  frame_of (slice d c (e - c)) e c depth = Framed f -> record_error limits d f = None -> intact limits d f.
Proof.
  intros Hc He Hm Hd8 Hd Ef Hre. pose proof Ef as Hw. apply frame_of_wf in Hw as (Hw & Hoff & Hdep); [|zlia].
  unfold intact. rewrite Hoff, Hdep. repeat split; try zlia; [|assumption].
  rewrite <- Ef. apply (frame_of_agree d d e (zlen d)); try lia; [reflexivity|congruence].
Qed.

Lemma record_error_failure d f st off msg : record_error limits d f = Some (st, off, msg) -> is_failure st.
Proof.
  unfold record_error, integrity_of. repeat case_match; try discriminate; intros [= <- _ _]; repeat split; discriminate.
Qed.

Lemma set_prefix_same v s : ps_valid_prefix s = Some v -> set_prefix v s = s.
Proof. destruct s. cbn. intros ->. reflexivity. Qed.

Lemma write_prefix v s : stable s -> write_valid_prefix v s = Done (tt, set_prefix v s) /\ stable (set_prefix v s).
Proof.
  intros [(He & [p Hp] & H) Hh]. unfold write_valid_prefix. rewrite Hp. split; [reflexivity|].
  split; [|exact Hh]. unfold ready. cbn. eauto.
Qed.

(** One round on an intact record. *)
Lemma parse_framed fuel d c e depth s f :
  parse_range limits d (S fuel) c e depth -> c < e -> stable s ->
  frame_of (slice d c (e - c)) e c depth = Framed f -> record_error limits d f = None ->
  exists st s1, process limits callbacks (parse fuel) d f s = Done (st, s1) /\ stable s1 /\ st <> TIDE_STATUS_TRUNCATED /\
    parse (S fuel) d c e depth s =
      if negb (bool_decide (st = TIDE_STATUS_OK)) then Done (st, s1)
      else parse fuel d (fr_crc_end f) e depth (set_prefix (fr_crc_end f) s1).
Proof.
  intros (Hm & _ & Hc & He & Hf & Hd8 & Hd) Hlt Hs Ef Hre. pose proof Ef as Hw.
  apply frame_of_wf in Hw as (Hw & Hoff & Hdep); [|zlia].
  pose proof Hw as (H0 & Hh & Hpo & _ & _ & _ & _ & Hps & Hpe & Hpad & Hb & Hce & Hsz).
  destruct (process_stable d fuel f s) as (st & s1 & Hp & Hs1 & Ht); try assumption; try lia.
  { rewrite Hdep. exact Hd8. }
  { eapply frame_of_intact; eassumption || lia. }
  exists st, s1. repeat split; try assumption; try apply Hs1.
  unfold parse in *. rewrite parse_step by lia. unfold round. rewrite Ef, Hre.
  unfold mbind, parse_bind. rewrite Hp. destruct (negb _); [reflexivity|].
  destruct (write_prefix (fr_crc_end f) s1 Hs1) as [-> _]. reflexivity.
Qed.

Lemma parse_range_change d fuel c e depth d' fuel' c' e' :
  parse_range limits d fuel c e depth -> zlen d' < 2 ^ 64 -> 0 <= c' <= e' -> e' <= zlen d' ->
  e' - c' < Z.of_nat fuel' -> parse_range limits d' fuel' c' e' depth.
Proof. unfold parse_range. tauto. Qed.

(** What was parsed when the input ran out is a complete sequence of records
    that parses again from the same bytes. *)
Lemma parse_complete fuel d c e depth s st s1 :
  parse_range limits d fuel c e depth -> stable s -> ps_valid_prefix s = Some c ->
  parse fuel d c e depth s = Done (st, s1) -> st = TIDE_STATUS_OK \/ st = TIDE_STATUS_TRUNCATED ->
  exists v, ps_valid_prefix s1 = Some v /\ c <= v <= e /\ (st = TIDE_STATUS_OK -> v = e) /\ stable s1 /\
    forall d' fuel', agree v d d' -> v <= zlen d' -> zlen d' < 2 ^ 64 -> v - c < Z.of_nat fuel' ->
      parse fuel' d' c v depth s = Done (TIDE_STATUS_OK, s1).
Proof.
  revert c s. induction fuel as [|fuel IH]; intros c s Hrange Hs Hp Hrun Hst;
    pose proof Hrange as (Hm & _ & Hc & He & Hf & Hd8 & Hd); [lia|].
  assert (Hdone : forall d' fuel', c - c < Z.of_nat fuel' -> parse fuel' d' c c depth s = Done (TIDE_STATUS_OK, s)).
  { intros d' [|fuel'] Hf'; [lia|]. apply parse_done. }
  destruct (Z.eq_dec c e) as [->|Hne].
  { unfold parse in Hrun. rewrite parse_done in Hrun. injection Hrun as <- <-.
    exists e. repeat split; try assumption; try lia; try apply Hs. intros. apply Hdone. assumption. }
  destruct (frame_of (slice d c (e - c)) e c depth) as [|st' ty msg|f] eqn:Ef.
  - unfold parse in Hrun. rewrite parse_step in Hrun by lia. unfold round in Hrun. rewrite Ef in Hrun.
    unfold mbind, parse_bind in Hrun. rewrite (proj1 (write_prefix c s Hs)) in Hrun. injection Hrun as <- <-.
    rewrite (set_prefix_same c s Hp). exists c. repeat split; try assumption; try lia; try apply Hs; [discriminate|].
    intros. apply Hdone. assumption.
  - unfold parse in Hrun. rewrite parse_step in Hrun by lia. unfold round in Hrun. rewrite Ef, fail_with_done in Hrun.
    injection Hrun as <- _. apply frame_of_malformed in Ef. exfalso. intuition congruence.
  - destruct (record_error limits d f) as [[[st' off] msg]|] eqn:Ere.
    { unfold parse in Hrun. rewrite parse_step in Hrun by lia. unfold round in Hrun. rewrite Ef, Ere, fail_with_done in Hrun.
      injection Hrun as <- _. apply record_error_failure in Ere as (? & ? & ?). exfalso. intuition congruence. }
    destruct (parse_framed fuel d c e depth s f Hrange ltac:(lia) Hs Ef Ere) as (st' & s' & Hpr & Hs' & Ht & Heq).
    rewrite Heq in Hrun. destruct (bool_decide_reflect (st' = TIDE_STATUS_OK)) as [->|Hok]; cbn [negb] in Hrun.
    2: { injection Hrun as <- _. exfalso. intuition congruence. }
    pose proof Ef as Hw. apply frame_of_wf in Hw as (Hw & Hoff & Hdep); [|zlia].
    pose proof Hw as (H0 & Hh & Hpo & _ & _ & _ & _ & Hps & Hpe & Hpad & Hb & Hce & Hsz).
    destruct (IH (fr_crc_end f) (set_prefix (fr_crc_end f) s')) as (v & Hv & Hvb & Hve & Hs1 & Hagain);
      [apply (parse_range_change _ _ _ _ _ _ _ _ _ Hrange); lia|apply write_prefix, Hs'|reflexivity|exact Hrun|exact Hst|].
    exists v. repeat split; try assumption; try lia; try apply Hs1.
    intros d' fuel' Ha Hd' Hm' Hf'. destruct fuel' as [|fuel']; [lia|].
    assert (Ha' : agree (fr_crc_end f) d d') by (apply (agree_le v); [exact Ha|lia]).
    assert (Ef' : frame_of (slice d' c (v - c)) v c depth = Framed f).
    { apply (frame_of_framed d d' e v); try assumption; lia. }
    destruct (parse_framed fuel' d' c v depth s f) as (st2 & s2 & Hpr2 & Hs2 & Ht2 & ->); try assumption.
    { apply (parse_range_change _ _ _ _ _ _ _ _ _ Hrange); lia. }
    { lia. }
    { rewrite <- (record_error_agree limits _ d d' f (frame_wf_crc_end f e Hw) Ha'). exact Ere. }
    rewrite <- (process_ext (parse fuel) (parse fuel') d d' f _ s (frame_wf_crc_end f e Hw) Ha'), Hpr in Hpr2.
    2: { intros b e' dep s3 Hb1 Hb2 He'. apply parse_ext; try lia. apply (agree_le (fr_crc_end f)); [exact Ha'|lia]. }
    injection Hpr2 as <- <-. rewrite bool_decide_eq_true_2 by reflexivity. cbn [negb].
    apply Hagain; try assumption; lia.
Qed.

(** Go on from the valid prefix after a parse that ran out of input. *)
Definition resume (fuel : nat) (d : list byte) (e depth : Z) (r : outcome (tide_status * pstate U))
    : outcome (tide_status * pstate U) :=
  '(st, s) ← r;
  if bool_decide (st = TIDE_STATUS_OK) || bool_decide (st = TIDE_STATUS_TRUNCATED) then
    v ← deref (ps_valid_prefix s); parse fuel d v e depth s
  else Done (st, s).

Lemma resume_failure fuel d e depth st s :
  st <> TIDE_STATUS_OK -> st <> TIDE_STATUS_TRUNCATED -> resume fuel d e depth (Done (st, s)) = Done (st, s).
Proof.
  intros H1 H2. unfold resume. rewrite bind_done. cbv beta iota. rewrite !bool_decide_eq_false_2 by assumption. reflexivity.
Qed.

(** A longer input is parsed by parsing a prefix of it and going on. *)
Lemma parse_resume fuel d c e depth s d2 e2 fuel2 :
  parse_range limits d fuel c e depth -> parse_range limits d2 fuel2 c e2 depth -> e <= e2 ->
  agree e d d2 -> stable s -> ps_valid_prefix s = Some c ->
  parse fuel2 d2 c e2 depth s = resume fuel2 d2 e2 depth (parse fuel d c e depth s).
Proof.
  intros Hrange Hrange2 He2 Ha. revert c s fuel2 Hrange Hrange2.
  induction fuel as [|fuel IH]; intros c s fuel2 Hrange Hrange2 Hs Hp;
    pose proof Hrange as (Hm & _ & Hc & He & Hf & Hd8 & Hd); pose proof Hrange2 as (Hm2 & _ & Hc2 & Hez2 & Hf2 & _ & _); [lia|].
  assert (Hend : forall st, st = TIDE_STATUS_OK \/ st = TIDE_STATUS_TRUNCATED ->
      parse fuel2 d2 c e2 depth s = resume fuel2 d2 e2 depth (Done (st, s))).
  { intros st Hst. unfold resume. rewrite bind_done. cbv beta iota. rewrite Hp.
    destruct Hst as [-> | ->]; reflexivity. }
  destruct (Z.eq_dec c e) as [->|Hne]; [unfold parse at 2; rewrite parse_done; apply Hend; auto|].
  destruct fuel2 as [|fuel2]; [lia|].
  destruct (frame_of (slice d c (e - c)) e c depth) as [|st ty msg|f] eqn:Ef.
  - unfold parse at 2. rewrite parse_step by lia. unfold round. rewrite Ef.
    unfold mbind at 1, parse_bind at 1. rewrite (proj1 (write_prefix c s Hs)), (set_prefix_same c s Hp). apply Hend. auto.
  - assert (Ef2 : frame_of (slice d2 c (e2 - c)) e2 c depth = Malformed st ty msg).
    { rewrite <- Ef. apply frame_of_agree; try lia; [exact Ha|congruence]. }
    unfold parse at 1 2. rewrite !parse_step by lia. unfold round. rewrite Ef, Ef2, fail_with_done.
    symmetry. apply frame_of_malformed in Ef as [-> | ->]; reflexivity.
  - pose proof Ef as Hw. apply frame_of_wf in Hw as (Hw & Hoff & Hdep); [|zlia].
    pose proof Hw as (H0 & Hh & Hpo & _ & _ & _ & _ & Hps & Hpe & Hpad & Hb & Hce & Hsz).
    assert (Ha' : agree (fr_crc_end f) d d2) by (apply (agree_le e); [exact Ha|lia]).
    assert (Ef2 : frame_of (slice d2 c (e2 - c)) e2 c depth = Framed f).
    { rewrite <- Ef. apply frame_of_agree; try lia; [exact Ha|congruence]. }
    pose proof (record_error_agree limits _ d d2 f (frame_wf_crc_end f e Hw) Ha') as Hre.
    destruct (record_error limits d f) as [[[st off] msg]|] eqn:Ere.
    { unfold parse at 1 2. rewrite !parse_step by lia. unfold round. rewrite Ef, Ef2, Ere, <- Hre, fail_with_done.
      apply record_error_failure in Ere as Hfail. symmetry. apply resume_failure; apply Hfail. }
    destruct (parse_framed fuel d c e depth s f Hrange ltac:(lia) Hs Ef Ere) as (st & s1 & Hpr & Hs1 & Ht & ->).
    destruct (parse_framed fuel2 d2 c e2 depth s f Hrange2 ltac:(lia) Hs Ef2 (eq_sym Hre)) as (st2 & s2 & Hpr2 & _ & _ & ->).
    rewrite <- (process_ext (parse fuel) (parse fuel2) d d2 f _ s (frame_wf_crc_end f e Hw) Ha'), Hpr in Hpr2.
    2: { intros b e' dep s3 Hb1 Hb2 He'. apply parse_ext; try lia. apply (agree_le (fr_crc_end f)); [exact Ha'|lia]. }
    injection Hpr2 as <- <-.
    destruct (bool_decide_reflect (st = TIDE_STATUS_OK)) as [Hok|Hok]; cbn [negb].
    2: { symmetry. apply resume_failure; assumption. }
    rewrite (IH (fr_crc_end f) (set_prefix (fr_crc_end f) s1) fuel2); [| | |apply write_prefix, Hs1|reflexivity].
    2: { apply (parse_range_change _ _ _ _ _ _ _ _ _ Hrange); lia. }
    2: { apply (parse_range_change _ _ _ _ _ _ _ _ _ Hrange2); lia. }
    destruct (parse fuel d (fr_crc_end f) e depth (set_prefix (fr_crc_end f) s1)) as [[st3 s3]| |] eqn:Er; try reflexivity.
    unfold resume. rewrite !bind_done. cbv beta iota.
    destruct (bool_decide (st3 = TIDE_STATUS_OK) || bool_decide (st3 = TIDE_STATUS_TRUNCATED)) eqn:Est; [|reflexivity].
    assert (Hst3 : st3 = TIDE_STATUS_OK \/ st3 = TIDE_STATUS_TRUNCATED) by (bool_props; destruct Est; bool_props; auto).
    destruct (parse_complete fuel d (fr_crc_end f) e depth (set_prefix (fr_crc_end f) s1) st3 s3)
      as (v & Hv & Hvb & _); [|apply write_prefix, Hs1|reflexivity|exact Er|exact Hst3|].
    { apply (parse_range_change _ _ _ _ _ _ _ _ _ Hrange); lia. }
    rewrite Hv. cbn [deref]. rewrite !bind_done. apply parse_ext; lia || reflexivity.
Qed.
End split.

(** ** The valid prefix of a truncated file *)

Lemma start_stable {U} limits (user : U) : stable limits (start_state user []).
Proof. split; [apply start_ready|reflexivity]. Qed.

(** C18: when a file with a complete header ends inside a record, the decoder
    answers [PARTIAL] ([TRUNCATED] when more input may come), and the valid
    prefix it reports is itself a valid file: decoding those bytes alone
    succeeds and leaves the same tracks, the same user state, so the same
    deliveries, and the same error cell. *)
Theorem tide_parse_tide_bytes_valid_prefix {U} (data : list byte) (limits : tide_limits)
    (callbacks : tide_callbacks U) (user : U) (e0 : tide_error) (v0 : Z) (s : pstate U) :
  limits_typed limits -> never_truncated callbacks -> TIDE_HEADER_SIZE <= zlen data < 2 ^ 64 ->
  tide_parse_tide_bytes (Some data) (zlen data) false (Some limits) (Some callbacks) user (Some e0) (Some v0) []
    = Done (TIDE_STATUS_TRUNCATED, s) ->
  exists v, ps_valid_prefix s = Some v /\ TIDE_HEADER_SIZE <= v <= zlen data /\
    tide_parse_tide_bytes (Some data) (zlen data) true (Some limits) (Some callbacks) user (Some e0) (Some v0) []
      = Done (TIDE_STATUS_PARTIAL, s) /\
    tide_parse_tide_bytes (Some (take (Z.to_nat v) data)) v true (Some limits) (Some callbacks) user (Some e0) (Some v0) []
      = Done (TIDE_STATUS_OK, s).
Proof.
  intros Hl Hcb Hsz. rewrite !parse_bytes_header by lia.
  change (default tide_limits_default (Some limits)) with limits. change (default no_callbacks (Some callbacks)) with callbacks.
  destruct (header_verdict limits (slice data 0 TIDE_HEADER_SIZE)) as [[[st off] msg]|] eqn:Ev.
  { intros [= -> _]. apply header_verdict_failure in Ev as (_ & _ & Ht). congruence. }
  assert (Hrange := start_range limits data (zlen data) Hl eq_refl ltac:(lia) ltac:(lia)).
  destruct (tide_parse_records _ _ _ _ _ _ _ _) as [[st s']| |] eqn:Erun; try discriminate.
  rewrite !bind_done. cbv beta iota. rewrite andb_false_r. intros [= -> ->].
  destruct (parse_complete limits callbacks Hcb Hl _ _ _ _ _ _ _ _ Hrange (start_stable limits user) eq_refl Erun ltac:(auto))
    as (v & Hv & Hvb & _ & _ & Hagain).
  exists v. split; [exact Hv|]. split; [lia|]. rewrite bool_decide_eq_true_2 by reflexivity. split; [reflexivity|].
  assert (Hv0 : 0 <= v) by (unfold TIDE_HEADER_SIZE in *; lia).
  assert (Hlen : zlen (take (Z.to_nat v) data) = v) by (unfold zlen in *; rewrite length_take; lia).
  rewrite parse_bytes_header by lia. change (default tide_limits_default (Some limits)) with limits.
  rewrite slice_take by (unfold TIDE_HEADER_SIZE in *; lia). rewrite Ev.
  change (default no_callbacks (Some callbacks)) with callbacks.
  rewrite (Hagain (take (Z.to_nat v) data) (parse_fuel v)); [reflexivity| |lia|lia|unfold parse_fuel, TIDE_HEADER_SIZE; lia].
  unfold agree. rewrite take_take. f_equal. lia.
Qed.

(** Callbacks that count what they are given. *)
Definition counting : tide_callbacks Z :=
  mk_callbacks (Some (fun _ n => (TIDE_STATUS_OK, n + 1))) (Some (fun _ n => (TIDE_STATUS_OK, n + 1)))
    (Some (fun _ n => (TIDE_STATUS_OK, n + 1))) None.

Lemma counting_never_truncated : never_truncated counting.
Proof. split; [|split]; intros f x u [= <-]; discriminate. Qed.

(** The sample file cut inside its last record. *)
Definition cut_file : list byte := take 200 sample_file.

Lemma tide_parse_tide_bytes_valid_prefix_witness :
  exists s v, ps_valid_prefix s = Some v /\ v = zlen (sample_header ++ sample_stream_record) /\ ps_user s = 2 /\
    tide_parse_tide_bytes (Some cut_file) (zlen cut_file) true (Some tide_limits_default) (Some counting) 0
      (Some zero_error) (Some 0) [] = Done (TIDE_STATUS_PARTIAL, s) /\
    tide_parse_tide_bytes (Some (take (Z.to_nat v) cut_file)) v true (Some tide_limits_default) (Some counting) 0
      (Some zero_error) (Some 0) [] = Done (TIDE_STATUS_OK, s).
Proof.
  edestruct (tide_parse_tide_bytes_valid_prefix cut_file tide_limits_default counting 0 zero_error 0)
    as (v & Hv & _ & H1 & H2).
  - apply limits_default_typed.
  - apply counting_never_truncated.
  - vm_compute. split; [discriminate|reflexivity].
  - vm_compute. reflexivity.
  - eexists _, v. split; [exact Hv|]. injection Hv as <-.
    split; [reflexivity|]. split; [reflexivity|]. split; [exact H1|exact H2].
Defined.
