(* ===== verification/Feed.v ===== *)
(** * The incremental decoder

    [tide_decoder_init], [tide_decoder_feed], [tide_decoder_cancel],
    [tide_decoder_destroy] and the accessors of [src/format/decoder.c].  The
    [impl] pointer of a [tide_decoder] is an option; a callback that reenters
    the decoder is not modelled. *)

From S2P Require Import Prelude Status Buffer Crc Reader Rational Model Frame Validate Header Decoder Parse ParseRule ParseSplit Samples.

Record tide_decoder_impl (U : Type) : Type := mk_decoder {
  d_limits : tide_limits;
  d_callbacks : tide_callbacks U;
  d_buffer : tide_buffer;
  d_valid_prefix : Z;
  d_parse_offset : Z;
  d_cancelled : bool;
  d_terminal : bool;
  d_header_validated : bool;
  d_error : tide_error;
  d_tracks : list tide_track_snapshot;
  d_track_capacity : Z
}.
Arguments mk_decoder {U}.
Arguments d_limits {U}.
Arguments d_callbacks {U}.
Arguments d_buffer {U}.
Arguments d_valid_prefix {U}.
Arguments d_parse_offset {U}.
Arguments d_cancelled {U}.
Arguments d_terminal {U}.
Arguments d_header_validated {U}.
Arguments d_error {U}.
Arguments d_tracks {U}.
Arguments d_track_capacity {U}.

Section feed.
Context {U : Type}.
Implicit Types (impl : tide_decoder_impl U) (user : U) (h : heap).

Definition set_buffer (b : tide_buffer) impl : tide_decoder_impl U :=
  mk_decoder (d_limits impl) (d_callbacks impl) b (d_valid_prefix impl) (d_parse_offset impl) (d_cancelled impl)
    (d_terminal impl) (d_header_validated impl) (d_error impl) (d_tracks impl) (d_track_capacity impl).
Definition set_offset (o : Z) impl : tide_decoder_impl U :=
  mk_decoder (d_limits impl) (d_callbacks impl) (d_buffer impl) (d_valid_prefix impl) o (d_cancelled impl)
    (d_terminal impl) (d_header_validated impl) (d_error impl) (d_tracks impl) (d_track_capacity impl).
Definition set_cancelled impl : tide_decoder_impl U :=
  mk_decoder (d_limits impl) (d_callbacks impl) (d_buffer impl) (d_valid_prefix impl) (d_parse_offset impl) true
    (d_terminal impl) (d_header_validated impl) (d_error impl) (d_tracks impl) (d_track_capacity impl).
Definition set_terminal impl : tide_decoder_impl U :=
  mk_decoder (d_limits impl) (d_callbacks impl) (d_buffer impl) (d_valid_prefix impl) (d_parse_offset impl)
    (d_cancelled impl) true (d_header_validated impl) (d_error impl) (d_tracks impl) (d_track_capacity impl).
(** [header_validated = 1; parse_offset = valid_prefix = TIDE_HEADER_SIZE]. *)
Definition accept_header impl : tide_decoder_impl U :=
  mk_decoder (d_limits impl) (d_callbacks impl) (d_buffer impl) TIDE_HEADER_SIZE TIDE_HEADER_SIZE (d_cancelled impl)
    (d_terminal impl) true (d_error impl) (d_tracks impl) (d_track_capacity impl).

(** The cells of [impl] that parsing works on, and back. *)
Definition parse_state impl user h : pstate U :=
  mk_pstate (d_tracks impl) (d_track_capacity impl) (Some (d_error impl)) (Some (d_valid_prefix impl)) user h.
Definition parsed_by impl (s : pstate U) : outcome (tide_decoder_impl U) :=
  e ← deref (ps_error s); v ← deref (ps_valid_prefix s);
  Done (mk_decoder (d_limits impl) (d_callbacks impl) (d_buffer impl) v (d_parse_offset impl) (d_cancelled impl)
          (d_terminal impl) (d_header_validated impl) e (ps_tracks s) (ps_track_capacity s)).
Definition run_parse {A} (m : parse_m U A) impl user h : outcome (A * tide_decoder_impl U * U * heap) :=
  '(a, s) ← m (parse_state impl user h); impl ← parsed_by impl s; Done (a, impl, ps_user s, ps_heap s).

Definition call_error impl user : U :=
  match on_error (d_callbacks impl) with None => user | Some f => f (d_error impl) user end.

(** What a call leaves: status, decoder, the callbacks' state, the allocator. *)
Definition reply : Type := tide_status * tide_decoder_impl U * U * heap.

Definition validate impl user h : outcome reply :=
  run_parse (tide_validate_header (Some (buf_data (d_buffer impl))) (buf_size (d_buffer impl)) (d_limits impl)) impl user h.
Definition parse_buffer impl user h : outcome reply :=
  run_parse (tide_parse_records (d_limits impl) (d_callbacks impl) (parse_fuel (buf_size (d_buffer impl)))
               (buf_data (d_buffer impl)) (d_parse_offset impl) (buf_size (d_buffer impl)) 0) impl user h.

(** The part of [tide_decoder_feed] after the bytes are buffered, [!end]. *)
Definition feed_records impl user h : outcome reply :=
  '(status, impl, user, h) ← parse_buffer impl user h;
  if bool_decide (status = TIDE_STATUS_TRUNCATED) then
    Done (TIDE_STATUS_OK, set_offset (d_valid_prefix impl) impl, user, h)
  else if negb (bool_decide (status = TIDE_STATUS_OK)) then
    Done (status, set_terminal impl, call_error impl user, h)
  else Done (TIDE_STATUS_OK, set_offset (buf_size (d_buffer impl)) impl, user, h).

Definition feed_more impl user h : outcome reply :=
  if negb (d_header_validated impl) then
    if buf_size (d_buffer impl) <? TIDE_HEADER_SIZE then Done (TIDE_STATUS_OK, impl, user, h)
    else
      '(status, impl, user, h) ← validate impl user h;
      if negb (bool_decide (status = TIDE_STATUS_OK)) then
        Done (status, set_terminal impl, call_error impl user, h)
      else feed_records (accept_header impl) user h
  else feed_records impl user h.

(** The same with [end]. *)
Definition last_records impl user h : outcome reply :=
  '(status, impl, user, h) ← parse_buffer impl user h;
  let '(status, impl) :=
    if bool_decide (status = TIDE_STATUS_TRUNCATED) then (TIDE_STATUS_PARTIAL, impl)
    else if bool_decide (status = TIDE_STATUS_OK) then (status, set_offset (buf_size (d_buffer impl)) impl)
    else (status, impl) in
  let user :=
    if negb (bool_decide (status = TIDE_STATUS_OK)) && negb (bool_decide (status = TIDE_STATUS_PARTIAL))
    then call_error impl user else user in
  Done (status, set_terminal impl, user, h).

Definition feed_last impl user h : outcome reply :=
  if negb (d_header_validated impl) then
    '(status, impl, user, h) ← validate impl user h;
    if negb (bool_decide (status = TIDE_STATUS_OK)) then
      Done (if bool_decide (status = TIDE_STATUS_TRUNCATED) then TIDE_STATUS_PARTIAL else status,
            set_terminal impl, user, h)
    else last_records (accept_header impl) user h
  else last_records impl user h.

Definition feed_buffered (end_ : bool) impl user h : outcome reply :=
  if negb end_ then feed_more impl user h else feed_last impl user h.

(** [decoder] is [None] for a null pointer, [Some None] for a null [impl];
    [consumed] is the cell behind the pointer. *)
Definition tide_decoder_feed (decoder : option (option (tide_decoder_impl U))) (data : option (list byte)) (size : Z)
    (end_ : bool) (consumed : option Z) user h
    : outcome (tide_status * option (option (tide_decoder_impl U)) * option Z * U * heap) :=
  let consumed := option_map (fun _ => 0) consumed in
  match decoder with
  | Some (Some impl) =>
    if is_null data && negb (size =? 0) then Done (TIDE_STATUS_INVALID_ARGUMENT, decoder, consumed, user, h)
    else if d_cancelled impl then Done (TIDE_STATUS_CANCELLED, decoder, consumed, user, h)
    else if d_terminal impl then Done (TIDE_STATUS_INVALID_ARGUMENT, decoder, consumed, user, h)
    else
      '(status, b, h) ← tide_buffer_append (Some (d_buffer impl)) data size h;
      b ← deref b;
      let impl := set_buffer b impl in
      if negb (bool_decide (status = TIDE_STATUS_OK)) then Done (status, Some (Some impl), consumed, user, h)
      else
        let consumed := option_map (fun _ => size) consumed in
        '(status, impl, user, h) ← feed_buffered end_ impl user h;
        Done (status, Some (Some impl), consumed, user, h)
  | _ => Done (TIDE_STATUS_INVALID_ARGUMENT, decoder, consumed, user, h)
  end.

(** [calloc], then the fields that are not zero. *)
Definition new_decoder (limits : option tide_limits) (callbacks : option (tide_callbacks U)) : tide_decoder_impl U :=
  let limits := default tide_limits_default limits in
  mk_decoder limits (default no_callbacks callbacks) (empty_buffer (max_aggregate_alloc limits)) 0 0 false false false
    zero_error [] 0.

Definition tide_decoder_init (decoder : option (option (tide_decoder_impl U))) (limits : option tide_limits)
    (callbacks : option (tide_callbacks U)) h : tide_status * option (option (tide_decoder_impl U)) * heap :=
  match decoder with
  | None => (TIDE_STATUS_INVALID_ARGUMENT, None, h)
  | Some _ =>
    let (ok, h) := alloc h in
    if negb ok then (TIDE_STATUS_RESOURCE, Some None, h) else (TIDE_STATUS_OK, Some (Some (new_decoder limits callbacks)), h)
  end.

Definition tide_decoder_cancel (decoder : option (option (tide_decoder_impl U))) : option (option (tide_decoder_impl U)) :=
  match decoder with Some (Some impl) => Some (Some (set_cancelled impl)) | _ => decoder end.

Definition tide_decoder_destroy (decoder : option (option (tide_decoder_impl U))) : option (option (tide_decoder_impl U)) :=
  match decoder with Some (Some _) => Some None | _ => decoder end.

Definition tide_decoder_last_error (decoder : option (option (tide_decoder_impl U))) : option tide_error :=
  match decoder with Some (Some impl) => Some (d_error impl) | _ => None end.

Definition tide_decoder_valid_prefix (decoder : option (option (tide_decoder_impl U))) : Z :=
  match decoder with Some (Some impl) => d_valid_prefix impl | _ => 0 end.
End feed.

(** ** The invariant of a decoder *)

Section feed_invariant.
Context {U : Type}.
Implicit Types (impl : tide_decoder_impl U) (user : U) (h : heap).

Definition decoder_wf impl : Prop :=
  limits_typed (d_limits impl) /\ buffer_wf (d_buffer impl) /\
  buf_aggregate_limit (d_buffer impl) = max_aggregate_alloc (d_limits impl) /\
  zlen (d_tracks impl) <= d_track_capacity impl /\
  d_track_capacity impl <= Z.max 8 (2 * max_tracks (d_limits impl)) /\
  0 <= d_valid_prefix impl <= buf_size (d_buffer impl) /\ 0 <= d_parse_offset impl <= buf_size (d_buffer impl).

Lemma new_decoder_wf (limits : option tide_limits) (callbacks : option (tide_callbacks U)) :
  limits_typed (default tide_limits_default limits) -> decoder_wf (new_decoder limits callbacks).
Proof.
  intros Hl. unfold decoder_wf. cbn. split; [exact Hl|].
  destruct Hl as (? & ? & ? & ? & ? & ? & ? & ?). ranges.
  split; [apply empty_buffer_wf; lia|]. unfold zlen. cbn. lia.
Qed.

Lemma run_parse_done {A} (m : parse_m U A) impl user h a s e v :
  m (parse_state impl user h) = Done (a, s) -> ps_error s = Some e -> ps_valid_prefix s = Some v ->
  run_parse m impl user h = Done (a, mk_decoder (d_limits impl) (d_callbacks impl) (d_buffer impl) v (d_parse_offset impl)
    (d_cancelled impl) (d_terminal impl) (d_header_validated impl) e (ps_tracks s) (ps_track_capacity s), ps_user s, ps_heap s).
Proof. intros Hm He Hv. unfold run_parse. rewrite Hm, bind_done. unfold parsed_by. rewrite He, Hv. reflexivity. Qed.

Lemma parse_state_ready impl user h : decoder_wf impl -> ready (d_limits impl) (parse_state impl user h).
Proof. intros (_ & _ & _ & H1 & H2 & _). unfold ready. cbn. eauto. Qed.

Lemma buffer_range impl : decoder_wf impl ->
  zlen (buf_data (d_buffer impl)) = buf_size (d_buffer impl) /\
  parse_range (d_limits impl) (buf_data (d_buffer impl)) (parse_fuel (buf_size (d_buffer impl)))
    (d_parse_offset impl) (buf_size (d_buffer impl)) 0.
Proof.
  intros (Hl & (Hs & Hc & _) & _ & _ & _ & _ & Ho). split; [lia|]. unfold parse_range, parse_fuel, is_u8.
  pose proof Hl as (_ & _ & _ & _ & _ & Hd & _). ranges. repeat split; try apply Hl; lia.
Qed.

(** A result that is a well-formed decoder over the same buffer. *)
Definition same_buffer impl (r : @reply U) : Prop :=
  match r with (_, impl', _, _) => decoder_wf impl' /\ d_buffer impl' = d_buffer impl end.

Lemma parse_buffer_wf impl user h : decoder_wf impl -> wp (parse_buffer impl user h) (same_buffer impl).
Proof.
  intros Hw. destruct (buffer_range impl Hw) as [Hz Hr]. pose proof Hw as (Hl & Hb & Ha & Hc1 & Hc2 & Hv & Ho).
  destruct (wp_inv _ _ (parse_defined (d_callbacks impl) (d_limits impl) _ _ _ _ _ (parse_state impl user h) Hr
    (parse_state_ready impl user h Hw) ltac:(eexists; split; [reflexivity|]; rewrite Hz; exact Hv)))
    as ([st s] & Hrun & (([e He] & _ & Hc1' & Hc2') & v & Hv' & Hvb)). cbn [snd] in *.
  unfold parse_buffer. erewrite run_parse_done by eassumption. cbn. split; [|reflexivity].
  unfold decoder_wf. cbn. rewrite Hz in Hvb. tauto.
Qed.

Lemma validate_wf impl user h : decoder_wf impl -> wp (validate impl user h) (same_buffer impl).
Proof.
  intros Hw. destruct (buffer_range impl Hw) as [Hz _]. unfold validate.
  assert (Hrun : exists st e, tide_validate_header (Some (buf_data (d_buffer impl))) (buf_size (d_buffer impl))
      (d_limits impl) (parse_state impl user h) = Done (st, set_error (Some e) (parse_state impl user h))).
  { destruct (Z_lt_le_dec (buf_size (d_buffer impl)) TIDE_HEADER_SIZE).
    - rewrite header_short by assumption. rewrite fail_with_done. eexists _, _. reflexivity.
    - rewrite header_eq by lia. destruct (header_verdict _ _) as [[[st off] msg]|]; eexists _, _; reflexivity. }
  destruct Hrun as (st & e & Hrun). erewrite run_parse_done by (exact Hrun || reflexivity).
  cbn. split; [exact Hw|reflexivity].
Qed.

Lemma accept_header_wf impl : decoder_wf impl -> TIDE_HEADER_SIZE <= buf_size (d_buffer impl) -> decoder_wf (accept_header impl).
Proof.
  intros (H1 & H2 & H3 & H4 & H5 & H6 & H7) H. unfold decoder_wf. cbn. unfold TIDE_HEADER_SIZE in *.
  repeat (split; [assumption || lia|]). lia.
Qed.

Lemma set_offset_wf o impl : decoder_wf impl -> 0 <= o <= buf_size (d_buffer impl) -> decoder_wf (set_offset o impl).
Proof. intros (H1 & H2 & H3 & H4 & H5 & H6 & H7) H. unfold decoder_wf. cbn. tauto. Qed.

Lemma feed_records_wf impl user h : decoder_wf impl -> wp (feed_records impl user h) (same_buffer impl).
Proof.
  intros Hw. unfold feed_records. apply wp_bind. eapply wp_mono; [apply parse_buffer_wf, Hw|].
  intros [[[st impl'] user'] h'] [Hw' Hb]. case_bool_decide; [|case_bool_decide]; cbn; split; auto;
    apply set_offset_wf || idtac; auto; destruct Hw' as (_ & (Hz & _) & _ & _ & _ & Hv & _);
    pose proof (zlen_nonneg (buf_data (d_buffer impl'))); lia.
Qed.

Lemma last_records_wf impl user h : decoder_wf impl -> wp (last_records impl user h) (same_buffer impl).
Proof.
  intros Hw. unfold last_records. apply wp_bind. eapply wp_mono; [apply parse_buffer_wf, Hw|].
  intros [[[st impl'] user'] h'] [Hw' Hb]. case_bool_decide; [|case_bool_decide]; cbn; split; auto;
    try apply (set_offset_wf _ impl'); auto; destruct Hw' as (_ & (Hz & _) & _ & _ & _ & Hv & _);
    pose proof (zlen_nonneg (buf_data (d_buffer impl'))); lia.
Qed.

(** A validation that says [OK] saw a whole header. *)
Lemma validate_ok_size impl user h impl' user' h' :
  validate impl user h = Done (TIDE_STATUS_OK, impl', user', h') -> TIDE_HEADER_SIZE <= buf_size (d_buffer impl).
Proof.
  intros H. destruct (Z_lt_le_dec (buf_size (d_buffer impl)) TIDE_HEADER_SIZE) as [Hlt|]; [exfalso|assumption].
  unfold validate, run_parse in H. rewrite header_short in H by assumption. discriminate.
Qed.

Lemma feed_step_wf impl user h (end_ : bool) :
  decoder_wf impl -> wp (feed_buffered end_ impl user h) (same_buffer impl).
Proof.
  intros Hw. unfold feed_buffered. destruct end_; cbn [negb]; unfold feed_more, feed_last;
    (destruct (d_header_validated impl); cbn [negb]; [apply feed_records_wf || apply last_records_wf; exact Hw|]).
  2: destruct (_ <? _); [cbn; auto|].
  all: apply wp_bind; destruct (wp_inv _ _ (validate_wf impl user h Hw)) as ([[[st impl'] user'] h'] & Hv & Hw' & Hb);
    rewrite Hv; cbn [wp]; case_bool_decide as Hst; cbn [negb]; [|split; assumption].
  all: subst st; apply validate_ok_size in Hv; rewrite <- Hb in Hv;
    (eapply wp_mono; [apply last_records_wf || apply feed_records_wf; apply accept_header_wf; assumption|]);
    intros [[[st impl2] user2] h2] [Hw2 Hb2]; split; [exact Hw2|exact (eq_trans Hb2 Hb)].
Qed.

Lemma set_buffer_wf impl data b :
  decoder_wf impl -> buf_data b = buf_data (d_buffer impl) ++ data /\
  buf_aggregate_limit b = buf_aggregate_limit (d_buffer impl) /\ buffer_wf b -> decoder_wf (set_buffer b impl).
Proof.
  intros (H1 & (H2 & _) & H3 & H4 & H5 & H6 & H7) (Hd & Hl & Hb). unfold decoder_wf. cbn. rewrite Hl.
  pose proof Hb as (Hbs & _). rewrite Hd, zlen_app in Hbs. pose proof (zlen_nonneg data).
  repeat (split; [assumption || lia || (split; lia)|]). lia.
Qed.

(** C20: feeding a well-formed decoder is defined and ends, whatever the
    bytes, the callbacks and the allocator do; the decoder stays well formed
    (bytes within the buffer, buffer within the aggregate limit, parse offset
    and valid prefix within the bytes, tracks within their allocation) and
    keeps exactly the bytes fed so far: those of before when the call is
    refused, those and the new ones when it consumes them. *)
Theorem tide_decoder_feed_defined impl (data : list byte) (end_ : bool) (consumed : Z) user h :
  decoder_wf impl -> zlen data < 2 ^ 64 ->
  exists st impl' n user' h',
    tide_decoder_feed (Some (Some impl)) (Some data) (zlen data) end_ (Some consumed) user h
      = Done (st, Some (Some impl'), Some n, user', h') /\
    decoder_wf impl' /\
    ((n = 0 /\ st <> TIDE_STATUS_OK /\ buf_data (d_buffer impl') = buf_data (d_buffer impl)) \/
     (n = zlen data /\ buf_data (d_buffer impl') = buf_data (d_buffer impl) ++ data)).
Proof.
  intros Hw Hm. unfold tide_decoder_feed. cbn [is_null andb option_map].
  destruct (d_cancelled impl); [eexists _, _, _, _, _; split; [reflexivity|]; split; [exact Hw|]; left; repeat split; discriminate|].
  destruct (d_terminal impl); [eexists _, _, _, _, _; split; [reflexivity|]; split; [exact Hw|]; left; repeat split; discriminate|].
  pose proof (zlen_nonneg data).
  destruct (append_spec (d_buffer impl) data (zlen data) h) as (st & b & h1 & -> & Hst & _); [apply Hw|lia|lia|].
  rewrite slice_full in Hst. rewrite bind_done. cbv beta iota. cbn [deref]. rewrite bind_done. cbv zeta.
  destruct Hst as [(-> & (Hd & Hl & Hb & _) & Hr)|[-> ->]].
  2: { rewrite bool_decide_eq_false_2 by discriminate. cbn [negb]. eexists _, _, _, _, _; split; [reflexivity|].
       split; [destruct impl; exact Hw|]. left; repeat split; discriminate. }
  rewrite bool_decide_eq_true_2 by reflexivity. change (negb true) with false. cbv iota.
  assert (Hw' : decoder_wf (set_buffer b impl)) 
    by (apply (set_buffer_wf impl data); [exact Hw|]; split; [exact Hd|]; split; assumption).
  destruct (wp_inv _ _ (feed_step_wf (set_buffer b impl) user h1 end_ Hw')) as ([[[st' impl'] user'] h'] & -> & Hwf & Hbuf).
  rewrite bind_done. cbv beta iota. eexists _, _, _, _, _; split; [reflexivity|].
  split; [exact Hwf|]. right. split; [reflexivity|]. rewrite Hbuf. exact Hd.
Qed.
End feed_invariant.

Lemma tide_decoder_feed_defined_witness :
  decoder_wf (new_decoder (U := unit) None None) /\
  exists st impl' n user' h',
    tide_decoder_feed (Some (Some (new_decoder None None))) (Some sample_file) (zlen sample_file) true (Some 7) tt [true; false]
      = Done (st, Some (Some impl'), Some n, user', h') /\
    decoder_wf impl' /\
    ((n = 0 /\ st <> TIDE_STATUS_OK /\ buf_data (d_buffer impl') = []) \/
     (n = zlen sample_file /\ buf_data (d_buffer impl') = sample_file)).
Proof.
  assert (Hw : decoder_wf (new_decoder (U := unit) None None)).
  { apply new_decoder_wf, limits_default_typed. }
  split; [exact Hw|].
  exact (tide_decoder_feed_defined (new_decoder None None) sample_file true 7 tt [true; false] Hw ltac:(vm_compute; reflexivity)).
Defined.
