(* ===== verification/Session.v ===== *)
(** * The life of an incremental decoder

    A decoder reads until a feed that is the last one or that fails, or until
    it is cancelled, and never reads again. *)

From S2P Require Import Prelude Status Buffer Crc Reader Rational Model Frame Validate Header Decoder Parse ParseRule ParseSplit Samples Delivery Feed.

Inductive decoder_phase : Set := Reading | Ended | Cancelled.

Section session.
Context {U : Type}.
Implicit Types (impl : tide_decoder_impl U) (user : U) (h : heap).

Definition phase impl : decoder_phase :=
  if d_cancelled impl then Cancelled else if d_terminal impl then Ended else Reading.

(** What a caller can do with a decoder: feed it, whatever the allocator
    answers, and cancel it. *)
Inductive decoder_step : tide_decoder_impl U * U -> tide_decoder_impl U * U -> Prop :=
  | step_feed impl user data end_ consumed h st impl' n user' h' : zlen data < 2 ^ 64 ->
      tide_decoder_feed (Some (Some impl)) (Some data) (zlen data) end_ consumed user h = Done (st, Some (Some impl'), n, user', h') ->
      decoder_step (impl, user) (impl', user')
  | step_cancel impl user impl' : tide_decoder_cancel (Some (Some impl)) = Some (Some impl') -> decoder_step (impl, user) (impl', user).

(** While it reads, the bytes before the parse offset are behind it. *)
Definition decoder_ok impl : Prop :=
  decoder_wf impl /\
  (phase impl = Reading -> d_valid_prefix impl <= d_parse_offset impl /\ (d_header_validated impl = false -> d_valid_prefix impl = 0)).

Lemma new_decoder_ok limits (callbacks : option (tide_callbacks U)) :
  limits_typed (default tide_limits_default limits) -> decoder_ok (new_decoder limits callbacks).
Proof. intros Hl. split; [apply new_decoder_wf, Hl|]. cbn. lia. Qed.

(** A decoder after parsing: only the table, the error and the valid prefix changed. *)
Definition advanced impl impl' : Prop :=
  decoder_wf impl' /\ d_buffer impl' = d_buffer impl /\ d_valid_prefix impl <= d_valid_prefix impl' /\
  d_parse_offset impl' = d_parse_offset impl /\ d_cancelled impl' = d_cancelled impl /\ d_terminal impl' = d_terminal impl /\
  d_header_validated impl' = d_header_validated impl.

Lemma parse_buffer_advances impl user h : decoder_wf impl -> d_valid_prefix impl <= d_parse_offset impl ->
  wp (parse_buffer impl user h) (fun r => match r with (_, impl', _, _) => advanced impl impl' end).
Proof.
  intros Hw Ho. destruct (buffer_range impl Hw) as [Hz Hr]. pose proof Hw as (Hl & Hb & Ha & _ & _ & Hv & Hof).
  destruct (wp_inv _ _ (parse_advances (d_callbacks impl) (d_limits impl) _ _ _ _ _ (parse_state impl user h) _ Hr
    (parse_state_ready impl user h Hw) eq_refl Ho)) as ([st s] & Hrun & (([e He] & _ & Hc1 & Hc2) & v & Hv' & Hvb)). cbn [snd] in *.
  unfold parse_buffer. erewrite run_parse_done by eassumption. cbn. unfold advanced, decoder_wf. cbn.
  split; [repeat (split; [assumption || lia|]); lia|]. repeat (split; [lia || reflexivity|]). reflexivity.
Qed.

Lemma validate_advances impl user h : decoder_wf impl ->
  exists st impl', validate impl user h = Done (st, impl', user, h) /\ advanced impl impl' /\ d_valid_prefix impl' = d_valid_prefix impl.
Proof.
  intros Hw. destruct (buffer_range impl Hw) as [Hz _]. unfold validate.
  assert (Hrun : exists st e, tide_validate_header (Some (buf_data (d_buffer impl))) (buf_size (d_buffer impl))
      (d_limits impl) (parse_state impl user h) = Done (st, set_error (Some e) (parse_state impl user h))).
  { destruct (Z_lt_le_dec (buf_size (d_buffer impl)) TIDE_HEADER_SIZE).
    - rewrite header_short by assumption. rewrite fail_with_done. eexists _, _. reflexivity.
    - rewrite header_eq by lia. destruct (header_verdict _ _) as [[[st off] msg]|]; eexists _, _; reflexivity. }
  destruct Hrun as (st & e & Hrun). erewrite run_parse_done by (exact Hrun || reflexivity). eexists _, _. split; [reflexivity|].
  split; [|reflexivity]. split; [exact Hw|]. cbn. repeat split; lia || reflexivity.
Qed.

(** What a feed that consumed its bytes leaves. *)
Definition fed (end_ : bool) impl (r : @reply U) : Prop :=
  match r with (st, impl', _, _) =>
    decoder_ok impl' /\ d_valid_prefix impl <= d_valid_prefix impl' /\
    phase impl' = if end_ || negb (bool_decide (st = TIDE_STATUS_OK)) then Ended else Reading
  end.

Lemma set_terminal_ok impl : decoder_wf impl -> decoder_ok (set_terminal impl).
Proof. intros Hw. split; [exact Hw|]. unfold phase. cbn. destruct (d_cancelled impl); discriminate. Qed.

Lemma phase_reading impl : phase impl = Reading <-> d_cancelled impl = false /\ d_terminal impl = false.
Proof. unfold phase. destruct (d_cancelled impl), (d_terminal impl); intuition discriminate. Qed.

Lemma phase_terminal impl : d_cancelled impl = false -> phase (set_terminal impl) = Ended.
Proof. unfold phase. cbn. intros ->. reflexivity. Qed.

Lemma set_offset_reading o impl : decoder_wf impl -> d_header_validated impl = true -> d_valid_prefix impl <= o <= buf_size (d_buffer impl) ->
  decoder_ok (set_offset o impl).
Proof.
  intros Hw Hh Ho. pose proof Hw as (_ & _ & _ & _ & _ & Hv & _). split; [apply set_offset_wf; [exact Hw|lia]|]. intros _. cbn. rewrite Hh. split; [lia|discriminate].
Qed.

Lemma feed_records_fed impl user h : decoder_wf impl -> d_header_validated impl = true -> d_valid_prefix impl <= d_parse_offset impl ->
  phase impl = Reading -> wp (feed_records impl user h) (fed false impl).
Proof.
  intros Hw Hh Ho Hp. unfold feed_records. apply wp_bind. eapply wp_mono; [apply parse_buffer_advances; assumption|].
  intros [[[st impl'] user'] h'] (Hw' & _ & Hv & _ & Hc & Ht & Hh'). rewrite Hh in Hh'.
  assert (Hp' : phase impl' = Reading) by (apply phase_reading; rewrite Hc, Ht; apply phase_reading, Hp).
  pose proof (proj1 (phase_reading impl') Hp') as [Hc' _]. pose proof Hw' as (_ & _ & _ & _ & _ & Hvb & _).
  case_bool_decide; [|case_bool_decide as Hst]; cbn [negb].
  - split; [apply set_offset_reading; auto; lia|]. split; [exact Hv|exact Hp'].
  - split; [apply set_offset_reading; auto; lia|]. split; [exact Hv|exact Hp'].
  - split; [apply set_terminal_ok, Hw'|]. split; [exact Hv|]. rewrite (bool_decide_eq_false_2 _ Hst). apply phase_terminal, Hc'.
Qed.

Lemma last_records_fed impl user h : decoder_wf impl -> d_valid_prefix impl <= d_parse_offset impl ->
  phase impl = Reading -> wp (last_records impl user h) (fed true impl).
Proof.
  intros Hw Ho Hp. unfold last_records. apply wp_bind. eapply wp_mono; [apply parse_buffer_advances; assumption|].
  intros [[[st impl'] user'] h'] (Hw' & _ & Hv & _ & Hc & _). apply phase_reading in Hp as [Hc0 _]. rewrite Hc0 in Hc.
  pose proof Hw' as (_ & (Hz & _) & _). pose proof (zlen_nonneg (buf_data (d_buffer impl'))).
  case_bool_decide; [|case_bool_decide]; (split; [apply set_terminal_ok; first [exact Hw'|apply set_offset_wf; [exact Hw'|lia]]|]);
    (split; [exact Hv|apply phase_terminal, Hc]).
Qed.

Lemma feed_buffered_fed end_ impl user h : decoder_ok impl -> phase impl = Reading -> wp (feed_buffered end_ impl user h) (fed end_ impl).
Proof.
  intros [Hw Hr] Hp. destruct (Hr Hp) as [Ho Hz]. unfold feed_buffered, feed_more, feed_last.
  destruct (d_header_validated impl) eqn:Hh; cbn [negb].
  { destruct end_; cbn [negb]; [apply last_records_fed|apply feed_records_fed]; auto. }
  specialize (Hz eq_refl). pose proof (proj1 (phase_reading impl) Hp) as [Hc Ht].
  destruct (validate_advances impl user h Hw) as (st & impl' & Hval & (Hw' & Hb & _ & _ & Hc' & Ht' & _) & Hv').
  rewrite Hc in Hc'. rewrite Ht in Ht'. rewrite Hz in Hv'.
  assert (Hend : forall (e : bool) st', e || negb (bool_decide (st' = TIDE_STATUS_OK)) = true -> fed e impl (st', set_terminal impl', user, h)).
  { intros e st' E. split; [apply set_terminal_ok, Hw'|]. split; [cbn; lia|]. rewrite E. apply phase_terminal, Hc'. }
  assert (Hgo : st = TIDE_STATUS_OK -> decoder_wf (accept_header impl') /\ phase (accept_header impl') = Reading /\
      forall e : bool, wp (if e then last_records (accept_header impl') user h else feed_records (accept_header impl') user h) (fed e impl)).
  { intros ->. apply validate_ok_size in Hval. rewrite <- Hb in Hval. pose proof (accept_header_wf impl' Hw' Hval) as Hwa.
    assert (Hpa : phase (accept_header impl') = Reading) by (apply phase_reading; auto). split; [exact Hwa|]. split; [exact Hpa|].
    intros e. apply (wp_mono _ (fed e (accept_header impl'))).
    - destruct e; [apply last_records_fed|apply feed_records_fed]; auto; reflexivity.
    - intros [[[st2 impl2] u2] h2] (H1 & H2 & H3). split; [exact H1|]. split; [|exact H3]. cbn in H2. unfold TIDE_HEADER_SIZE in H2. lia. }
  destruct end_; cbn [negb]; [|destruct (_ <? _)].
  - rewrite Hval, bind_done. cbv beta iota. destruct (bool_decide_reflect (st = TIDE_STATUS_OK)) as [E|E]; cbn [negb]; [exact (proj2 (proj2 (Hgo E)) true)|].
    apply Hend. reflexivity.
  - split; [split; [assumption|intros _; split; [assumption|auto]]|]. split; [lia|exact Hp].
  - rewrite Hval, bind_done. cbv beta iota. destruct (bool_decide_reflect (st = TIDE_STATUS_OK)) as [E|E]; cbn [negb]; [exact (proj2 (proj2 (Hgo E)) false)|].
    apply Hend. rewrite (bool_decide_eq_false_2 _ E). reflexivity.
Qed.

(** One feed, from any phase. *)
Definition feed_effect (end_ : bool) (data : list byte) impl user (st : tide_status) impl' (n : Z) user' : Prop :=
  match phase impl with
  | Reading =>
      (st = TIDE_STATUS_RESOURCE /\ n = 0 /\ impl' = impl /\ user' = user) \/
      (n = zlen data /\ d_valid_prefix impl <= d_valid_prefix impl' /\
       phase impl' = if end_ || negb (bool_decide (st = TIDE_STATUS_OK)) then Ended else Reading)
  | Ended => st = TIDE_STATUS_INVALID_ARGUMENT /\ n = 0 /\ impl' = impl /\ user' = user
  | Cancelled => st = TIDE_STATUS_CANCELLED /\ n = 0 /\ impl' = impl /\ user' = user
  end.

Lemma feed_spec impl data end_ consumed user h : decoder_ok impl -> zlen data < 2 ^ 64 ->
  exists st impl' n user' h', tide_decoder_feed (Some (Some impl)) (Some data) (zlen data) end_ consumed user h
      = Done (st, Some (Some impl'), option_map (fun _ => n) consumed, user', h') /\
    decoder_ok impl' /\ feed_effect end_ data impl user st impl' n user'.
Proof.
  intros Hok Hm. unfold tide_decoder_feed, feed_effect. cbn [is_null andb].
  destruct (phase impl) eqn:Hp; pose proof Hp as Hp'; unfold phase in Hp'; destruct (d_cancelled impl) eqn:Hc; try discriminate Hp'.
  3: { eexists _, impl, 0, _, _. split; [destruct consumed; reflexivity|]. auto. }
  all: destruct (d_terminal impl) eqn:Ht; try discriminate Hp'.
  2: { eexists _, impl, 0, _, _. split; [destruct consumed; reflexivity|]. auto. }
  pose proof Hok as [Hw Hr]. destruct (append_spec (d_buffer impl) data (zlen data) h) as (st & b & h1 & -> & Hst & _);
    [apply Hw|pose proof (zlen_nonneg data); lia|exact Hm|].
  rewrite slice_full in Hst. rewrite bind_done. cbv beta iota. cbn [deref]. rewrite bind_done. cbv zeta.
  destruct Hst as [(-> & (Hd & Hl & Hb & _) & _)|[-> ->]].
  2: { rewrite bool_decide_eq_false_2 by discriminate. cbn [negb]. eexists _, impl, 0, _, _. split; [destruct consumed, impl; reflexivity|]. split; [exact Hok|left; auto]. }
  rewrite bool_decide_eq_true_2 by reflexivity. cbn [negb].
  assert (Hok' : decoder_ok (set_buffer b impl)).
  { split; [apply (set_buffer_wf impl data); auto|exact Hr]. }
  destruct (wp_inv _ _ (feed_buffered_fed end_ (set_buffer b impl) user h1 Hok' Hp)) as ([[[st' impl'] user'] h'] & -> & H1 & H2 & H3).
  rewrite bind_done. cbv beta iota. eexists st', impl', (zlen data), user', h'. split; [destruct consumed; reflexivity|]. auto.
Qed.

Lemma step_ok p p' : decoder_step p p' -> decoder_ok p.1 -> decoder_ok p'.1.
Proof.
  intros [impl user data end_ consumed h st impl' n user' h' Hm Hrun|impl user impl' Hc] Hok; cbn [fst snd] in *.
  - destruct (feed_spec impl data end_ consumed user h Hok Hm) as (st2 & impl2 & n2 & user2 & h2 & Hrun2 & Hok2 & _).
    rewrite Hrun in Hrun2. injection Hrun2 as _ -> _ _ _. exact Hok2.
  - injection Hc as <-. destruct Hok as [Hw _]. split; [exact Hw|discriminate].
Qed.

Lemma steps_ok p p' : rtc decoder_step p p' -> decoder_ok p.1 -> decoder_ok p'.1.
Proof. induction 1 as [|p1 p2 p3 H _ IH]; [auto|]. intros Hok. apply IH, (step_ok _ _ H Hok). Qed.

(** Outside [Reading] nothing changes but that the decoder may be cancelled. *)
Lemma stopped_step p p' : decoder_step p p' -> decoder_ok p.1 -> phase p.1 <> Reading ->
  p'.2 = p.2 /\ (p'.1 = p.1 \/ p'.1 = set_cancelled p.1) /\ phase p'.1 <> Reading.
Proof.
  intros [impl user data end_ consumed h st impl' n user' h' Hm Hrun|impl user impl' Hc] Hok Hp; cbn [fst snd] in *.
  - destruct (feed_spec impl data end_ consumed user h Hok Hm) as (st2 & impl2 & n2 & user2 & h2 & Hrun2 & _ & He).
    rewrite Hrun in Hrun2. injection Hrun2 as _ -> _ -> _. unfold feed_effect in He.
    destruct (phase impl) eqn:Hphase; [contradiction|..]; destruct He as (_ & _ & -> & ->); rewrite Hphase; auto.
  - injection Hc as <-. split; [reflexivity|]. split; [auto|discriminate].
Qed.

Lemma stopped_steps p p' : rtc decoder_step p p' -> decoder_ok p.1 -> phase p.1 <> Reading ->
  p'.2 = p.2 /\ (p'.1 = p.1 \/ p'.1 = set_cancelled p.1).
Proof.
  induction 1 as [|p1 p2 p3 H _ IH]; intros Hok Hp; [auto|]. destruct (stopped_step _ _ H Hok Hp) as (E1 & E2 & Hp2).
  destruct (IH (step_ok _ _ H Hok) Hp2) as [F1 F2]. split; [congruence|].
  destruct E2 as [E2|E2], F2 as [F2|F2]; rewrite F2, E2; auto.
Qed.

(** C16: errors and cancellation are final: in every state a decoder can reach by
    feeding and cancelling, a feed is defined.  While it reads, a feed either
    is refused with [RESOURCE] and changes nothing, so that it can be tried
    again, or consumes all its bytes, never moves the valid prefix back, and
    ends the decoder when it was the last or did not answer [OK].  An ended
    decoder answers [INVALID_ARGUMENT], a cancelled one [CANCELLED]; they consume
    nothing and call no callback, and whatever is done, their bytes,
    tracks, error and valid prefix stay as they are. *)
Theorem decoder_lifecycle (limits : option tide_limits) (callbacks : option (tide_callbacks U)) user0
    impl user (data : list byte) (end_ : bool) h :
  limits_typed (default tide_limits_default limits) -> rtc decoder_step (new_decoder limits callbacks, user0) (impl, user) ->
  zlen data < 2 ^ 64 ->
  (exists st impl' n user' h', tide_decoder_feed (Some (Some impl)) (Some data) (zlen data) end_ (Some 0) user h
      = Done (st, Some (Some impl'), Some n, user', h') /\ feed_effect end_ data impl user st impl' n user') /\
  phase (set_cancelled impl) = Cancelled /\
  (phase impl <> Reading -> forall impl2 user2, rtc decoder_step (impl, user) (impl2, user2) ->
     user2 = user /\ (impl2 = impl \/ impl2 = set_cancelled impl)).
Proof.
  intros Hl Hsteps Hm. pose proof (steps_ok _ _ Hsteps (new_decoder_ok limits callbacks Hl)) as Hok. cbn in Hok. split; [|split].
  - destruct (feed_spec impl data end_ (Some 0) user h Hok Hm) as (st & impl' & n & user' & h' & Hrun & _ & He).
    exists st, impl', n, user', h'. auto.
  - reflexivity.
  - intros Hp impl2 user2 H2. exact (stopped_steps _ _ H2 Hok Hp).
Qed.
End session.

(** Witness: the sample file is fed whole and last; the decoder then refuses more. *)
Lemma decoder_lifecycle_witness :
  exists impl, rtc decoder_step (new_decoder None (Some counting), 0) (impl, 5) /\ phase impl = Ended /\
    exists st impl' n user' h', tide_decoder_feed (Some (Some impl)) (Some [x00]) 1 true (Some 0) 5 []
      = Done (st, Some (Some impl'), Some n, user', h') /\ st = TIDE_STATUS_INVALID_ARGUMENT /\ n = 0 /\ impl' = impl /\ user' = 5.
Proof.
  destruct (tide_decoder_feed (Some (Some (new_decoder None (Some counting)))) (Some sample_file) (zlen sample_file) true None 0 [])
    as [[[[[st [[impl|]|]] n] u] h]| |] eqn:E; try (exfalso; vm_compute in E; discriminate E).
  assert (u = 5) as -> by (vm_compute in E; injection E; intros; subst; reflexivity).
  assert (Hphase : phase impl = Ended) by (vm_compute in E; injection E; intros; subst; reflexivity).
  assert (Hstep : rtc decoder_step (new_decoder None (Some counting), 0) (impl, 5)).
  { apply rtc_once. refine (step_feed _ _ _ _ _ _ _ _ _ _ _ _ E). reflexivity. }
  exists impl. split; [exact Hstep|]. split; [exact Hphase|].
  destruct (decoder_lifecycle None (Some counting) 0 impl 5 [x00] true [] limits_default_typed Hstep eq_refl)
    as ((st' & impl' & n' & user' & h' & Hrun & He) & _).
  unfold feed_effect in He. rewrite Hphase in He. exists st', impl', n', user', h'. split; [exact Hrun|exact He].
Defined.
