(* ===== verification/Chunks.v ===== *)
(** * Chunked feeding

    However a file is cut into chunks, feeding them one after the other gives
    what the one-shot parser gives on the whole file, and tells [on_error] of a
    failure, which the one-shot parser does not. *)

From S2P Require Import Prelude Status Buffer Crc Reader Rational Model Frame Validate Header Decoder Parse ParseRule ParseSplit Samples Feed.

Section chunks.
Context {U : Type} (limits : tide_limits) (callbacks : tide_callbacks U) (user0 : U).
Context (Hlim : limits_typed limits) (Hcb : never_truncated callbacks).
Implicit Types (impl : tide_decoder_impl U) (user : U).

(** A caller that feeds chunk after chunk, the last one with [end], and stops
    at the first status that is not [OK]. *)
Fixpoint feed_chunks (decoder : option (option (tide_decoder_impl U))) (chunks : list (list byte)) (last : list byte)
    user (h : heap) : outcome (tide_status * option (option (tide_decoder_impl U)) * U * heap) :=
  match chunks with
  | [] =>
    '(st, decoder, _, user, h) ← tide_decoder_feed decoder (Some last) (zlen last) true None user h;
    Done (st, decoder, user, h)
  | c :: chunks =>
    '(st, decoder, _, user, h) ← tide_decoder_feed decoder (Some c) (zlen c) false None user h;
    if negb (bool_decide (st = TIDE_STATUS_OK)) then Done (st, decoder, user, h)
    else feed_chunks decoder chunks last user h
  end.

Let parse := tide_parse_records limits callbacks.

(** The parse of all of [d]. *)
Definition full (d : list byte) : outcome (tide_status * pstate U) :=
  parse (parse_fuel (zlen d)) d TIDE_HEADER_SIZE (zlen d) 0 (start_state user0 []).

Definition extends_to (data d : list byte) : Prop :=
  agree (zlen data) data d /\ zlen data <= zlen d < 2 ^ 64.

(** Going on from where [impl] is gives the full parse, on every extension of
    what it has seen. *)
Definition caught_up impl user (data : list byte) : Prop :=
  forall d, extends_to data d ->
    parse (parse_fuel (zlen d)) d (d_parse_offset impl) (zlen d) 0 (parse_state impl user []) = full d.

Lemma extends_to_refl data : zlen data < 2 ^ 64 -> extends_to data data.
Proof. intros. split; [reflexivity|lia]. Qed.

Lemma extends_to_trans a b c : extends_to a b -> extends_to b c -> extends_to a c.
Proof.
  intros [H1 H2] [H3 H4]. split; [|lia]. pose proof (zlen_nonneg a).
  unfold agree in *. rewrite H1. apply (agree_le (zlen b)); [exact H3|lia].
Qed.

Lemma full_range d : TIDE_HEADER_SIZE <= zlen d < 2 ^ 64 -> parse_range limits d (parse_fuel (zlen d)) TIDE_HEADER_SIZE (zlen d) 0.
Proof. intros. apply start_range; auto; lia. Qed.

Lemma full_heap d : TIDE_HEADER_SIZE <= zlen d < 2 ^ 64 ->
  exists st s, full d = Done (st, s) /\ ready limits s /\ ps_heap s = [].
Proof.
  intros Hd. destruct (full_range d Hd) as (Hm & _ & Hc & He & Hf & Hd8 & Hdep).
  destruct (wp_inv _ _ (parse_rule limits callbacks d Hm ltac:(apply Hlim) (fun _ s => ps_heap s = [])
    ltac:(auto) ltac:(auto) ltac:(auto) ltac:(intros n c s1 ->; reflexivity)
    ltac:(intros n f1 s1 _ Hi; unfold after; destruct (on_record callbacks); exact Hi)
    ltac:(intros n x s1 _ _ _ _ Hi; unfold after; destruct (on_stream callbacks); exact Hi)
    ltac:(intros n x s1 _ _ _ Hi; unfold after; destruct (on_packet callbacks); exact Hi)
    _ _ _ _ _ Hc He Hf Hd8 Hdep (start_ready limits user0 []) eq_refl)) as ([st s] & Hp & Hr & Hh).
  exists st, s. auto.
Qed.

(** [full] on an extension, from [full] on what was seen. *)
Lemma full_resume data d : TIDE_HEADER_SIZE <= zlen data -> extends_to data d ->
  full d = resume limits callbacks (parse_fuel (zlen d)) d (zlen d) 0 (full data).
Proof.
  intros Hd [Ha Hz]. unfold full, parse.
  apply (parse_resume limits callbacks Hcb Hlim); try (apply full_range; lia); try lia; [exact Ha|apply start_stable|reflexivity].
Qed.

Lemma full_prefix data st s : TIDE_HEADER_SIZE <= zlen data < 2 ^ 64 -> full data = Done (st, s) ->
  st = TIDE_STATUS_OK \/ st = TIDE_STATUS_TRUNCATED ->
  exists v, ps_valid_prefix s = Some v /\ (st = TIDE_STATUS_OK -> v = zlen data).
Proof.
  intros Hd Hf Hst.
  destruct (parse_complete limits callbacks Hcb Hlim _ _ _ _ _ _ _ _ (full_range data Hd) (start_stable limits user0)
    eq_refl Hf Hst) as (v & Hv & _ & He & _). eauto.
Qed.

(** What [impl] has when its records are up to date. *)
Definition in_records impl user (data : list byte) : Prop :=
  decoder_wf impl /\ d_limits impl = limits /\ d_callbacks impl = callbacks /\ buf_data (d_buffer impl) = data /\
  d_cancelled impl = false /\ d_terminal impl = false /\ d_header_validated impl = true /\
  TIDE_HEADER_SIZE <= zlen data < 2 ^ 64 /\ caught_up impl user data.

(** The outcome of a parse of the buffer. *)
Lemma parse_buffer_full impl user data : in_records impl user data ->
  exists st s e v, full data = Done (st, s) /\ ps_error s = Some e /\ ps_valid_prefix s = Some v /\ ps_heap s = [] /\
    parse_buffer impl user [] = Done (st, mk_decoder limits callbacks (d_buffer impl) v (d_parse_offset impl) false false true
      e (ps_tracks s) (ps_track_capacity s), ps_user s, []).
Proof.
  intros (Hw & Hl & Hc & Hd & Hcan & Hter & Hval & Hsz & Hup).
  destruct (full_heap data Hsz) as (st & s & Hf & ([e He] & [v Hv] & _) & Hh).
  exists st, s, e, v. repeat split; try assumption.
  destruct (buffer_range impl Hw) as [Hz _]. rewrite Hd in Hz.
  unfold parse_buffer. rewrite Hl, Hc, Hd, <- Hz. specialize (Hup data (extends_to_refl data ltac:(lia))).
  erewrite run_parse_done; [rewrite Hl, Hc, Hcan, Hter, Hval, Hh; reflexivity| |exact He|exact Hv].
  rewrite <- Hf. exact Hup.
Qed.

Lemma caught_up_after data st s e v impl : TIDE_HEADER_SIZE <= zlen data < 2 ^ 64 -> full data = Done (st, s) ->
  st = TIDE_STATUS_OK \/ st = TIDE_STATUS_TRUNCATED -> ps_error s = Some e -> ps_valid_prefix s = Some v -> ps_heap s = [] ->
  d_parse_offset impl = v -> parse_state impl (ps_user s) [] = s -> caught_up impl (ps_user s) data.
Proof.
  intros Hsz Hf Hst He Hv Hh Ho Hs d Hd. rewrite (full_resume data d) by (assumption || lia). rewrite Hf.
  unfold resume. rewrite bind_done. cbv beta iota. rewrite Hv, Ho, Hs. destruct Hst as [-> | ->]; reflexivity.
Qed.

Lemma parse_state_of impl s e v :
  ps_error s = Some e -> ps_valid_prefix s = Some v -> ps_heap s = [] -> d_tracks impl = ps_tracks s ->
  d_track_capacity impl = ps_track_capacity s -> d_error impl = e -> d_valid_prefix impl = v ->
  parse_state impl (ps_user s) [] = s.
Proof. intros He Hv Hh H1 H2 H3 H4. unfold parse_state. rewrite H1, H2, H3, H4, <- Hh. destruct s. cbn in *. congruence. Qed.

(** [on_error], if the caller gave one. *)
Definition report (e : tide_error) user : U :=
  match on_error callbacks with None => user | Some f => f e user end.

(** The caller's state behind a call that [told] it of the decoder's error. *)
Definition after_call (told : bool) impl user : U := if told then report (d_error impl) user else user.

Lemma call_error_report impl user : d_callbacks impl = callbacks -> call_error impl user = report (d_error impl) user.
Proof. intros H. unfold call_error, report. rewrite H. reflexivity. Qed.

Definition failed (st : tide_status) : bool := negb (bool_decide (st = TIDE_STATUS_OK)).

(** A call that is not the last. *)
Lemma feed_records_step impl user data : in_records impl user data ->
  exists st impl' user', feed_records impl user [] = Done (st, impl', after_call (failed st) impl' user', []) /\
    ((st = TIDE_STATUS_OK /\ in_records impl' user' data) \/
     (st <> TIDE_STATUS_OK /\ st <> TIDE_STATUS_TRUNCATED /\
      forall d, extends_to data d -> full d = Done (st, parse_state impl' user' []))).
Proof.
  intros Hin. pose proof Hin as (Hw & Hl & Hc & Hd & Hcan & Hter & Hval & Hsz & Hup).
  destruct (wp_inv _ _ (feed_records_wf impl user [] Hw)) as ([[[st' impl'] user'] h'] & Hrun & Hw' & Hb').
  destruct (parse_buffer_full impl user data Hin) as (st & s & e & v & Hf & He & Hv & Hh & Hp).
  destruct (buffer_range impl Hw) as [Hz _]. rewrite Hd in Hz.
  clear Hb'. exists st', impl', (ps_user s). unfold feed_records in Hrun |- *. rewrite Hp, bind_done in Hrun |- *. cbv beta iota in Hrun |- *.
  unfold after_call, failed.
  destruct (bool_decide_reflect (st = TIDE_STATUS_TRUNCATED)) as [->|Htr]; [|
    destruct (bool_decide_reflect (st = TIDE_STATUS_OK)) as [->|Hok]]; cbn [negb] in Hrun |- *; injection Hrun as <- <- <- <-.
  - split; [reflexivity|]. left. split; [reflexivity|]. unfold in_records. cbn. repeat (split; [assumption || reflexivity || (split; assumption)|]).
    apply (caught_up_after data _ s e v _ Hsz Hf); auto. apply (parse_state_of _ s e v); auto.
  - split; [reflexivity|]. left. split; [reflexivity|].
    destruct (full_prefix data _ _ Hsz Hf ltac:(auto)) as (v' & Hv' & Hend). specialize (Hend eq_refl).
    unfold in_records. cbn. repeat (split; [assumption || reflexivity || (split; assumption)|]).
    apply (caught_up_after data _ s e v _ Hsz Hf); auto; [cbn; congruence|]. apply (parse_state_of _ s e v); auto.
  - rewrite bool_decide_eq_false_2 by exact Hok. rewrite call_error_report by reflexivity. split; [reflexivity|]. right. repeat split; try assumption.
    intros d Hext. rewrite (full_resume data d) by (assumption || lia). rewrite Hf, resume_failure by assumption.
    do 2 f_equal. symmetry. apply (parse_state_of _ s e v); auto.
Qed.

(** The statuses the end of the input turns into. *)
Definition at_eof (st : tide_status) : tide_status :=
  if bool_decide (st = TIDE_STATUS_TRUNCATED) then TIDE_STATUS_PARTIAL else st.

(** Neither the end of the records nor of the bytes. *)
Definition refused (st : tide_status) : bool := failed st && negb (bool_decide (st = TIDE_STATUS_PARTIAL)).

(** The last call. *)
Lemma last_records_step impl user data : in_records impl user data ->
  exists st impl' user', last_records impl user [] = Done (at_eof st, impl', after_call (refused (at_eof st)) impl' user', []) /\
    full data = Done (st, parse_state impl' user' []).
Proof.
  intros Hin. pose proof Hin as (Hw & Hl & Hc & Hd & Hcan & Hter & Hval & Hsz & Hup).
  destruct (parse_buffer_full impl user data Hin) as (st & s & e & v & Hf & He & Hv & Hh & Hp).
  unfold last_records. rewrite Hp, bind_done. cbv beta iota. rewrite Hf. unfold at_eof.
  unfold after_call, refused, failed.
  exists st. case_bool_decide as Htr; [|case_bool_decide as Hok];
    match goal with |- context [set_terminal ?i] => exists (set_terminal i), (ps_user s) end;
    (split; [try rewrite (bool_decide_eq_false_2 _ Hok); rewrite ?Hok, ?call_error_report by reflexivity; reflexivity|]);
    do 2 f_equal; symmetry; apply (parse_state_of _ s e v); auto.
Qed.

(** ** The header, over whatever has arrived *)

(** What [impl] has before the header is complete. *)
Definition in_header impl user (data : list byte) : Prop :=
  decoder_wf impl /\ d_limits impl = limits /\ d_callbacks impl = callbacks /\ buf_data (d_buffer impl) = data /\
  d_cancelled impl = false /\ d_terminal impl = false /\ d_header_validated impl = false /\ zlen data < 2 ^ 64 /\
  parse_state impl user [] = initial_state user0 (Some zero_error) (Some 0) [].

Definition header_of (data : list byte) : option (tide_status * Z * string) :=
  header_verdict limits (slice data 0 TIDE_HEADER_SIZE).

(** The one-shot parse of [data], with [end]. *)
Definition one_shot (data : list byte) : outcome (tide_status * pstate U) :=
  tide_parse_tide_bytes (Some data) (zlen data) true (Some limits) (Some callbacks) user0 (Some zero_error) (Some 0) [].

Lemma one_shot_long data : TIDE_HEADER_SIZE <= zlen data ->
  one_shot data =
    match header_of data with
    | None => '(st, s) ← full data; Done (at_eof st, s)
    | Some (st, off, msg) =>
      Done (st, initial_state user0 (tide_error_set (Some zero_error) st TIDE_SEVERITY_ERROR off 0 0
                                      (Some "decoder"%string) (Some msg)) (Some 0) [])
    end.
Proof.
  intros H. unfold one_shot. rewrite parse_bytes_header by lia.
  change (default tide_limits_default (Some limits)) with limits.
  change (default no_callbacks (Some callbacks)) with callbacks. fold (header_of data).
  destruct (header_of data) as [[[? ?] ?]|]; [reflexivity|]. unfold full, parse, at_eof.
  destruct (tide_parse_records _ _ _ _ _ _ _ _) as [[st s]| |]; try reflexivity.
  rewrite !bind_done. cbv beta iota. rewrite andb_true_r. reflexivity.
Qed.

Lemma header_of_extends data d : TIDE_HEADER_SIZE <= zlen data -> extends_to data d -> header_of d = header_of data.
Proof.
  intros Hl [Ha _]. unfold header_of, TIDE_HEADER_SIZE in *. f_equal. symmetry. apply (agree_slice (zlen data)); try assumption; lia.
Qed.

Lemma accept_header_records impl user data : in_header impl user data -> TIDE_HEADER_SIZE <= zlen data ->
  in_records (accept_header impl) user data.
Proof.
  intros (Hw & Hl & Hc & Hd & Hcan & Hter & Hval & Hsz & Hs) Hlen.
  destruct (buffer_range impl Hw) as [Hz _]. rewrite Hd in Hz. unfold in_records. cbn.
  split; [apply accept_header_wf; [exact Hw|lia]|]. repeat (split; [assumption || reflexivity || (split; assumption)|]).
  intros d Hext. unfold full. f_equal. injection Hs as H1 H2 H3 H4 H5. unfold parse_state, start_state. cbn. congruence.
Qed.

(** Validating the header of the buffer. *)
Lemma validate_step impl user data : in_header impl user data -> TIDE_HEADER_SIZE <= zlen data ->
  match header_of data with
  | None => validate impl user [] = Done (TIDE_STATUS_OK, impl, user, [])
  | Some (st, off, msg) => exists impl' e, validate impl user [] = Done (st, impl', user, []) /\
      d_callbacks impl' = callbacks /\
      parse_state impl' user [] = initial_state user0 e (Some 0) [] /\
      e = tide_error_set (Some zero_error) st TIDE_SEVERITY_ERROR off 0 0 (Some "decoder"%string) (Some msg)
  end.
Proof.
  intros (Hw & Hl & Hc & Hd & Hcan & Hter & Hval & Hsz & Hs) Hlen.
  destruct (buffer_range impl Hw) as [Hz _]. rewrite Hd in Hz. unfold validate, run_parse. rewrite Hd, Hl.
  rewrite header_eq by lia. fold (header_of data). rewrite Hs.
  destruct (header_of data) as [[[st off] msg]|].
  - rewrite fail_with_done, bind_done. injection Hs as H1 H2 H3 H4 H5. subst user. eexists _, _. split; [reflexivity|].
    repeat split. exact Hc.
  - rewrite bind_done. cbn. destruct impl. cbn in *. injection Hs as H1 H2 H3 H4 H5. subst. reflexivity.
Qed.

(** ** One call *)

Definition in_feed impl user (data : list byte) : Prop :=
  in_header impl user data \/ (in_records impl user data /\ header_of data = None).

(** The header is not there yet, or it was accepted. *)
Definition settled (data : list byte) : Prop := zlen data < TIDE_HEADER_SIZE \/ header_of data = None.

(** After a call that is not the last: [OK], or the status of every one-shot
    parse of more bytes, of which the caller is told. *)
Definition fed_told (data : list byte) (o : outcome reply) : Prop :=
  exists st impl' user', o = Done (st, impl', after_call (failed st) impl' user', []) /\
    ((st = TIDE_STATUS_OK /\ in_feed impl' user' data /\ settled data) \/
     (st <> TIDE_STATUS_OK /\ TIDE_HEADER_SIZE <= zlen data /\
      forall d, extends_to data d -> one_shot d = Done (st, parse_state impl' user' []))).

Lemma fed_records impl user data : in_records impl user data -> header_of data = None -> fed_told data (feed_records impl user []).
Proof.
  intros Hin Hh. pose proof Hin as (_ & _ & _ & _ & _ & _ & _ & Hsz & _).
  destruct (feed_records_step impl user data Hin) as (st & i' & u' & Hrun & [[Hst Hin']|(Hok & Htr & Hfull)]);
    exists st, i', u'; (split; [exact Hrun|]); [left; split; [exact Hst|split; [right; split; assumption|right; exact Hh]]|].
  right. split; [exact Hok|]. split; [lia|]. intros d Hd. rewrite one_shot_long by (destruct Hd; lia).
  rewrite (header_of_extends data d), Hh by (assumption || lia). rewrite (Hfull d Hd), bind_done. cbv beta iota.
  unfold at_eof. rewrite bool_decide_eq_false_2 by exact Htr. reflexivity.
Qed.

Lemma feed_more_step impl user data : in_feed impl user data -> fed_told data (feed_more impl user []).
Proof.
  intros [Hin|[Hin Hh]]; unfold feed_more.
  2: { pose proof Hin as (_ & _ & _ & _ & _ & _ & -> & _). apply fed_records; assumption. }
  pose proof Hin as (Hw & _ & _ & Hd & _ & _ & -> & Hm & _). cbn [negb].
  destruct (buffer_range impl Hw) as [Hz _]. rewrite Hd in Hz.
  destruct (Z.ltb_spec (buf_size (d_buffer impl)) TIDE_HEADER_SIZE).
  { exists TIDE_STATUS_OK, impl, user. split; [reflexivity|]. left. split; [reflexivity|]. split; [left; exact Hin|left; lia]. }
  pose proof (validate_step impl user data Hin ltac:(lia)) as Hv. destruct (header_of data) as [[[st off] msg]|] eqn:Eh.
  2: { rewrite Hv, bind_done. cbv beta iota. rewrite bool_decide_eq_true_2 by reflexivity.
       apply fed_records; [apply accept_header_records; [exact Hin|lia]|exact Eh]. }
  destruct Hv as (impl' & e & -> & Hc & Hs & ->). rewrite bind_done. cbv beta iota.
  pose proof Eh as Hf. apply header_verdict_failure in Hf as (Hok & _ & _). unfold fed_told, after_call, failed.
  rewrite bool_decide_eq_false_2 by exact Hok. rewrite call_error_report by exact Hc. cbn [negb].
  exists st, (set_terminal impl'), user. rewrite bool_decide_eq_false_2 by exact Hok. split; [reflexivity|].
  right. split; [exact Hok|]. split; [lia|]. intros d Hext.
  rewrite one_shot_long by (destruct Hext; lia). rewrite (header_of_extends data d), Eh by (assumption || lia).
  rewrite <- Hs. reflexivity.
Qed.

(** Whether the last call tells of its status: not of a refused header. *)
Definition told_last (data : list byte) (st : tide_status) : bool := refused st && is_null (header_of data).

Lemma feed_last_step impl user data : in_feed impl user data ->
  exists st impl' user', feed_last impl user [] = Done (st, impl', after_call (told_last data st) impl' user', []) /\
    one_shot data = Done (st, parse_state impl' user' []).
Proof.
  assert (Hrec : forall impl, in_records impl user data -> header_of data = None ->
    exists st impl' user', last_records impl user [] = Done (st, impl', after_call (told_last data st) impl' user', []) /\
      one_shot data = Done (st, parse_state impl' user' [])).
  { intros i Hin Hh. destruct (last_records_step i user data Hin) as (st & i' & u' & Hrun & Hf).
    exists (at_eof st), i', u'. unfold told_last. rewrite Hh, andb_true_r. split; [exact Hrun|].
    rewrite one_shot_long by (destruct Hin as (_ & _ & _ & _ & _ & _ & _ & Hsz & _); lia). rewrite Hh, Hf. reflexivity. }
  intros [Hin|[Hin Hh]]; unfold feed_last.
  2: { pose proof Hin as (_ & _ & _ & _ & _ & _ & -> & _). apply Hrec; assumption. }
  pose proof Hin as (Hw & Hl & Hc & Hd & Hcan & Hter & -> & Hm & Hs). cbn [negb].
  destruct (buffer_range impl Hw) as [Hz _]. rewrite Hd in Hz.
  destruct (Z_lt_le_dec (zlen data) TIDE_HEADER_SIZE) as [Hshort|Hlong].
  { unfold validate, run_parse, one_shot, tide_parse_tide_bytes. rewrite Hd, <- Hz, !header_short by assumption.
    injection Hs as H1 H2 H3 H4 H5. subst user. eexists TIDE_STATUS_PARTIAL, _, _. split; [reflexivity|].
    unfold parse_state, initial_state. cbn. rewrite H1, H2, H4. reflexivity. }
  pose proof (validate_step impl user data Hin ltac:(lia)) as Hv. destruct (header_of data) as [[[st off] msg]|] eqn:Eh.
  2: { rewrite Hv, bind_done. cbv beta iota. rewrite bool_decide_eq_true_2 by reflexivity.
       apply Hrec; [apply accept_header_records; [exact Hin|lia]|reflexivity]. }
  destruct Hv as (impl' & e & -> & Hc' & Hs' & ->). rewrite bind_done. cbv beta iota.
  pose proof Eh as Hf. apply header_verdict_failure in Hf as (Hok & _ & Htr).
  rewrite !bool_decide_eq_false_2 by assumption. cbn [negb].
  exists st, (set_terminal impl'), user. unfold told_last. rewrite Eh, andb_false_r. split; [reflexivity|].
  rewrite one_shot_long, Eh, <- Hs' by lia. reflexivity.
Qed.

(** More bytes in the buffer. *)
Lemma in_feed_push impl user data c b : in_feed impl user data -> zlen data + zlen c < 2 ^ 64 ->
  buf_data b = buf_data (d_buffer impl) ++ c -> buf_aggregate_limit b = buf_aggregate_limit (d_buffer impl) ->
  buffer_wf b -> in_feed (set_buffer b impl) user (data ++ c).
Proof.
  intros Hin Hm Hd Hl Hb.
  assert (Hwf : decoder_wf impl -> decoder_wf (set_buffer b impl)) by (intros Hw; apply (set_buffer_wf impl c); auto).
  assert (Hext : extends_to data (data ++ c)).
  { split; [apply agree_app|]. rewrite zlen_app. pose proof (zlen_nonneg c). lia. }
  destruct Hin as [(Hw & H1 & H2 & H3 & H4 & H5 & H6 & H7 & H8)|[(Hw & H1 & H2 & H3 & H4 & H5 & H6 & H7 & H8) Hh]]; [left|right; split].
  - unfold in_header. cbn. rewrite Hd, H3, zlen_app. repeat (split; [auto; fail|]). exact H8.
  - unfold in_records. cbn. rewrite Hd, H3, zlen_app. pose proof (zlen_nonneg c).
    repeat (split; [auto; fail|]). split; [lia|]. intros d Hd'. apply H8. eapply extends_to_trans; eassumption.
  - rewrite (header_of_extends data) by (assumption || lia). exact Hh.
Qed.

Lemma in_feed_facts impl user data : in_feed impl user data ->
  d_cancelled impl = false /\ d_terminal impl = false /\ decoder_wf impl /\ d_limits impl = limits /\ buf_data (d_buffer impl) = data.
Proof. intros [(Hw & H1 & H2 & H3 & H4 & H5 & _)|[(Hw & H1 & H2 & H3 & H4 & H5 & _) _]]; auto. Qed.

(** There is room for [n] bytes in all. *)
Definition capacity_for (n : Z) : Prop :=
  n < 2 ^ 64 /\ (n <= max_aggregate_alloc limits \/ max_aggregate_alloc limits = 0).

Lemma feed_appends impl user data c (end_ : bool) (consumed : option Z) : in_feed impl user data -> capacity_for (zlen data + zlen c) ->
  exists impl', in_feed impl' user (data ++ c) /\
    tide_decoder_feed (Some (Some impl)) (Some c) (zlen c) end_ consumed user [] =
      '(status, impl, user, h) ← feed_buffered end_ impl' user [];
      Done (status, Some (Some impl), option_map (fun _ => zlen c) consumed, user, h).
Proof.
  intros Hin [Hm Hcap]. destruct (in_feed_facts impl user data Hin) as (Hcan & Hter & Hw & Hl & Hd).
  unfold tide_decoder_feed. cbn [is_null andb option_map]. rewrite Hcan, Hter.
  pose proof Hw as (_ & Hb & Ha & _). pose proof Hb as (Hs & _). pose proof (zlen_nonneg c). pose proof (zlen_nonneg data).
  destruct (append_spec (d_buffer impl) c (zlen c) [] Hb ltac:(lia) ltac:(lia)) as (st & b & h1 & -> & Hst & Hok).
  rewrite slice_full in *. destruct (Hok eq_refl) as [-> Hok'].
  assert (Hroom : room (d_buffer impl) (zlen c) = true).
  { unfold room. rewrite Hs, Hd, Ha, Hl. rewrite (proj2 (Z.leb_le _ SIZE_MAX)) by lia.
    destruct Hcap as [Hcap | ->]; [rewrite (proj2 (Z.leb_le _ _)) by lia; reflexivity|apply orb_true_r]. }
  specialize (Hok' Hroom). subst st. destruct Hst as [(_ & (Hd' & Hl' & Hb' & _) & _)|[? _]]; [|discriminate].
  exists (set_buffer b impl). split; [apply in_feed_push; auto|]. destruct consumed; reflexivity.
Qed.

(** Whether a run that fed [before] ahead of its last chunk told of [st]. *)
Definition told_of (before data : list byte) (st : tide_status) (told : bool) : Prop :=
  (st = TIDE_STATUS_OK -> told = false) /\
  (refused st = true -> told = is_null (header_of data) || (TIDE_HEADER_SIZE <=? zlen before)).

Lemma told_of_failed before data st : st <> TIDE_STATUS_OK -> TIDE_HEADER_SIZE <= zlen before -> told_of before data st (failed st).
Proof.
  intros Hok Hb. unfold told_of, refused, failed. rewrite (bool_decide_eq_false_2 _ Hok), (proj2 (Z.leb_le _ _)), orb_true_r by exact Hb.
  split; [contradiction|reflexivity].
Qed.

Lemma told_of_last before last st : settled before -> zlen (before ++ last) < 2 ^ 64 ->
  told_of before (before ++ last) st (told_last (before ++ last) st).
Proof.
  intros Hset Hm. unfold told_of, told_last, refused, failed. split; [intros ->; reflexivity|intros ->]. cbn [andb].
  destruct (Z.leb_spec TIDE_HEADER_SIZE (zlen before)) as [Hb|]; [|rewrite orb_false_r; reflexivity].
  destruct Hset as [?|Hset]; [lia|]. rewrite (header_of_extends before), Hset; [reflexivity|exact Hb|].
  split; [apply agree_app|]. rewrite zlen_app in *. pose proof (zlen_nonneg last). lia.
Qed.

Lemma feed_chunks_spec chunks last impl user data : in_feed impl user data -> settled data ->
  capacity_for (zlen (data ++ concat chunks ++ last)) ->
  exists st impl' user' told,
    feed_chunks (Some (Some impl)) chunks last user [] = Done (st, Some (Some impl'), after_call told impl' user', []) /\
    one_shot (data ++ concat chunks ++ last) = Done (st, parse_state impl' user' []) /\
    told_of (data ++ concat chunks) (data ++ concat chunks ++ last) st told.
Proof.
  revert impl user data. induction chunks as [|c chunks IH]; intros impl user data Hin Hset Hcap; cbn [feed_chunks concat] in *.
  - cbn [app] in *. destruct (feed_appends impl user data last true None Hin) as (impl1 & Hin1 & ->); [rewrite <- zlen_app; exact Hcap|].
    destruct (feed_last_step impl1 user _ Hin1) as (st & impl' & user' & Hrun & Hshot).
    unfold feed_buffered. cbn [negb]. rewrite Hrun, !bind_done. eexists st, impl', user', _. split; [reflexivity|]. split; [exact Hshot|].
    rewrite app_nil_r. apply told_of_last; [exact Hset|apply Hcap].
  - rewrite <- !app_assoc in *.
    assert (Hcap1 : capacity_for (zlen data + zlen c)).
    { destruct Hcap as [H1 H2]. rewrite !zlen_app in *. pose proof (zlen_nonneg (concat chunks)). pose proof (zlen_nonneg last).
      split; [lia|]. destruct H2; [left; lia|right; assumption]. }
    destruct (feed_appends impl user data c false None Hin Hcap1) as (impl1 & Hin1 & ->).
    destruct (feed_more_step impl1 user _ Hin1) as (st & impl' & user' & Hrun & [(-> & Hin' & Hset')|(Hok & Hlong & Hshot)]);
      unfold feed_buffered; cbn [negb]; rewrite Hrun, !bind_done; cbv beta iota.
    + rewrite bool_decide_eq_true_2 by reflexivity. cbn [negb]. rewrite !app_assoc. rewrite <- (app_assoc (data ++ c)).
      apply IH; [exact Hin'|exact Hset'|]. rewrite <- app_assoc. exact Hcap.
    + rewrite bool_decide_eq_false_2 by exact Hok. cbn [negb]. eexists st, impl', user', _. split; [reflexivity|]. split.
      * apply Hshot. rewrite app_assoc. split; [apply agree_app|]. destruct Hcap as [H1 _]. rewrite !zlen_app in *.
        pose proof (zlen_nonneg (concat chunks)). pose proof (zlen_nonneg last). lia.
      * apply told_of_failed; [exact Hok|]. rewrite !zlen_app in *. pose proof (zlen_nonneg (concat chunks)). lia.
Qed.

Lemma new_in_feed : in_feed (new_decoder (Some limits) (Some callbacks)) user0 [].
Proof. left. split; [apply new_decoder_wf, Hlim|]. repeat split. Qed.

(** ** Callers without [on_error] *)

Section quiet.
Context (Hquiet : on_error callbacks = None).

Lemma after_call_quiet told impl user : after_call told impl user = user.
Proof. unfold after_call, report. rewrite Hquiet. destruct told; reflexivity. Qed.

Lemma fed_more impl user data : in_feed impl user data ->
  exists st impl' user', feed_more impl user [] = Done (st, impl', user', []) /\
    ((st = TIDE_STATUS_OK /\ in_feed impl' user' data) \/
     (st <> TIDE_STATUS_OK /\ forall d, extends_to data d -> one_shot d = Done (st, parse_state impl' user' []))).
Proof.
  intros Hin. destruct (feed_more_step impl user data Hin) as (st & impl' & user' & -> & H).
  exists st, impl', user'. rewrite after_call_quiet. split; [reflexivity|]. tauto.
Qed.

Lemma fed_last impl user data : in_feed impl user data ->
  exists st impl' user', feed_last impl user [] = Done (st, impl', user', []) /\
    one_shot data = Done (st, parse_state impl' user' []).
Proof.
  intros Hin. destruct (feed_last_step impl user data Hin) as (st & impl' & user' & -> & H).
  exists st, impl', user'. rewrite after_call_quiet. auto.
Qed.

(** A first call that is also the last. *)
Lemma feed_whole data consumed : capacity_for (zlen data) ->
  exists st impl user, tide_decoder_feed (Some (Some (new_decoder (Some limits) (Some callbacks)))) (Some data) (zlen data) true
      consumed user0 [] = Done (st, Some (Some impl), option_map (fun _ => zlen data) consumed, user, []) /\
    one_shot data = Done (st, parse_state impl user []).
Proof.
  intros Hcap. destruct (feed_appends _ user0 [] data true consumed new_in_feed Hcap) as (impl1 & Hin & ->).
  destruct (fed_last impl1 user0 data Hin) as (st & impl & user & Hrun & Hshot).
  unfold feed_buffered. cbn [negb]. rewrite Hrun, bind_done. eauto 10.
Qed.

End quiet.

(** When the whole is accepted, its valid prefix is all of it. *)
Lemma one_shot_ok_prefix data s : zlen data < 2 ^ 64 -> one_shot data = Done (TIDE_STATUS_OK, s) -> ps_valid_prefix s = Some (zlen data).
Proof.
  intros Hm H. destruct (Z_lt_le_dec (zlen data) TIDE_HEADER_SIZE) as [Hshort|Hlong].
  { unfold one_shot, tide_parse_tide_bytes in H. rewrite header_short in H by exact Hshort. discriminate H. }
  rewrite one_shot_long in H by lia. destruct (header_of data) as [[[st off] msg]|] eqn:Eh.
  { injection H as H _. subst st. apply header_verdict_failure in Eh as (Hok & _). contradiction. }
  destruct (full_heap data ltac:(lia)) as (st & s' & Hf & _). rewrite Hf, bind_done in H. injection H as H1 ->.
  assert (st = TIDE_STATUS_OK) as -> by (unfold at_eof in H1; case_bool_decide; [discriminate|exact H1]).
  destruct (full_prefix data _ _ ltac:(lia) Hf ltac:(auto)) as (v & -> & Hv). f_equal. auto.
Qed.

End chunks.


(** Callbacks that count deliveries, and add a thousand for an error. *)
Definition telling : tide_callbacks Z :=
  mk_callbacks (on_record counting) (on_stream counting) (on_packet counting) (Some (fun _ n => n + 1000)).

