(* ===== verification/Harness.v ===== *)
(** * Test programs

    What the fuzz harnesses share: a program that calls [abort] has no
    result; and a decoder that is fed more than its buffer may hold refuses it. *)

From S2P Require Import Prelude Status Buffer Reader Rational Model Validate Header Decoder Parse ParseRule ParseSplit Samples Feed Chunks.

(** ** Programs that can abort *)

(** [Done None] after [abort()]. *)
Definition aborting (A : Type) : Type := outcome (option A).

#[export] Instance aborting_ret : MRet aborting := fun A a => Done (Some a).
#[export] Instance aborting_bind : MBind aborting := fun A B f m =>
  match m with Done (Some a) => f a | Done None => Done None | Undef => Undef | NoFuel => NoFuel end.

Definition c_abort {A} : aborting A := Done None.

(** A call of the library, which does not abort. *)
Definition calling {A} (m : outcome A) : aborting A := a ← m; Done (Some a).

Lemma calling_done {A B} (a : A) (f : A -> aborting B) : (calling (Done a) ≫= f) = f a.
Proof. reflexivity. Qed.

Lemma returned_bind {A B} (a : A) (f : A -> aborting B) : mbind (M := aborting) f (Done (Some a)) = f a.
Proof. reflexivity. Qed.

(** ** A decoder with the default limits *)

Definition aggregate_limit : Z := max_aggregate_alloc tide_limits_default.

Lemma within_capacity n : n <= aggregate_limit -> capacity_for tide_limits_default n.
Proof. unfold aggregate_limit, capacity_for. cbn. lia. Qed.

Section whole.
Context {U : Type} (callbacks : option (tide_callbacks U)) (user0 : U).
Let decoder := Some (Some (new_decoder None callbacks)).

(** More than the buffer may hold is refused. *)
Lemma feed_refused data (end_ : bool) : aggregate_limit < zlen data < 2 ^ 64 ->
  exists decoder' h, tide_decoder_feed decoder (Some data) (zlen data) end_ (Some 0) user0 [] = Done (TIDE_STATUS_RESOURCE, decoder', Some 0, user0, h).
Proof.
  intros Hn. unfold tide_decoder_feed, decoder. cbn [is_null andb option_map new_decoder d_cancelled d_terminal d_buffer].
  pose proof (zlen_nonneg data).
  destruct (append_spec (empty_buffer aggregate_limit) data (zlen data) [] (empty_buffer_wf aggregate_limit ltac:(vm_compute; discriminate)) ltac:(lia) ltac:(lia))
    as (st & b & h & Hrun & Hst & _). rewrite slice_full in Hst.
  change (max_aggregate_alloc (default tide_limits_default None)) with aggregate_limit. rewrite Hrun, bind_done.
  destruct Hst as [(_ & _ & Hroom)|[-> ->]]; [|eexists _, _; reflexivity].
  unfold room in Hroom. cbn in Hroom. unfold aggregate_limit in *. cbn in *. bool_props. lia.
Qed.
End whole.

Lemma no_callbacks_never_truncated {U} : never_truncated (no_callbacks (U := U)).
Proof. split; [|split]; intros f x u [=]. Qed.
