(* ===== verification/FuzzDecoder.v ===== *)
(** * The decoder harness

    [src/fuzz/fuzz_decoder.c]: feeds a decoder any bytes at once and calls
    [abort] unless all are consumed and, when they are accepted, all of them are
    the valid prefix. *)

From S2P Require Import Prelude Status Buffer Crc Reader Rational Model Source Frame Validate Header Decoder Parse ParseRule ParseSplit Samples Feed Chunks Harness.

Definition run_one (data : option (list byte)) (size : Z) (h : heap) : aborting (Z * heap) :=
  let '(status, decoder, h) := tide_decoder_init (U := unit) (Some None) None None h in
  if negb (bool_decide (status = TIDE_STATUS_OK)) then mret (0, h)
  else
    '(status, decoder, consumed, _, h) ← calling (tide_decoder_feed decoder data size true (Some 0) tt h);
    consumed ← calling (deref consumed);
    if negb (consumed =? size) then c_abort
    else if bool_decide (status = TIDE_STATUS_OK) && negb (tide_decoder_valid_prefix decoder =? size) then c_abort
    else
      let _ := tide_decoder_destroy decoder in
      mret (0, h).

Definition LLVMFuzzerTestOneInput (data : option (list byte)) (size : Z) (h : heap) : aborting (Z * heap) :=
  run_one data size h.

(** [files] answers for the paths; [fread] of no byte reads none, and
    [malloc(0)] may return a null pointer. *)
Definition main (argv : list string) (files : string -> input_file) (h : heap) : aborting (Z * heap) :=
  if negb (zlen argv =? 2) then mret (0, h)
  else
    let file := files (default ""%string (argv !! 1%nat)) in
    if negb (in_open file) then mret (1, h)
    else if negb (in_seek_end file) then mret (1, h)
    else
      let length := in_tell file in
      if (length <? 0) || negb (in_seek_set file) then mret (1, h)
      else
        let (ok, h) := alloc h in
        if negb ok && negb (length =? 0) then mret (1, h)
        else
          let bytes := file_bytes file in
          if negb (zlen bytes =? length) then mret (1, h)
          else
            '(_, h) ← run_one (if ok then Some bytes else None) length h;
            mret (0, h).

Example fuzz_decoder_sample : run_one (Some sample_file) 212 [] = Done (Some (0, [])).
Proof. vm_compute. reflexivity. Qed.

(** A failed allocation in the harness itself looks like a broken promise. *)
Example fuzz_decoder_aborts_without_memory : run_one (Some sample_file) 212 [true; false] = Done None.
Proof. vm_compute. reflexivity. Qed.

(** ** It never aborts *)

Lemma fuzz_decoder_spec (data : list byte) : zlen data < 2 ^ 64 ->
  run_one (Some data) (zlen data) [] = Done (if zlen data <=? aggregate_limit then Some (0, []) else None).
Proof.
  intros Hm. unfold run_one. cbn [tide_decoder_init alloc negb].
  rewrite bool_decide_eq_true_2 by reflexivity. cbn [negb]. destruct (Z.leb_spec (zlen data) aggregate_limit) as [Hle|Hgt].
  2: { destruct (feed_refused None tt data true ltac:(lia)) as (d & h & ->). rewrite !calling_done. cbn [deref].
       rewrite calling_done. destruct (Z.eqb_spec 0 (zlen data)); [|reflexivity]. unfold aggregate_limit in Hgt. cbn in Hgt. lia. }
  destruct (feed_whole tide_limits_default no_callbacks tt limits_default_typed eq_refl data (Some 0)
    (within_capacity _ Hle)) as (st & impl & [] & Hrun & Hshot).
  change (new_decoder (Some tide_limits_default) (Some no_callbacks)) with (new_decoder (U := unit) None None) in Hrun.
  rewrite Hrun, calling_done. cbn [option_map deref]. rewrite calling_done, Z.eqb_refl. cbn [negb].
  destruct (bool_decide_reflect (st = TIDE_STATUS_OK)) as [->|]; [|reflexivity].
  apply one_shot_ok_prefix in Hshot; [|exact limits_default_typed|exact no_callbacks_never_truncated|exact Hm].
  cbn [parse_state ps_valid_prefix] in Hshot. injection Hshot as Hv. cbn [tide_decoder_valid_prefix]. rewrite Hv, Z.eqb_refl. reflexivity.
Qed.

Lemma fuzz_decoder_main_spec argv files : zlen argv = 2 ->
  let file := files (default ""%string (argv !! 1%nat)) in
  in_tell file <= aggregate_limit ->
  main argv files [] = Done (Some (if bool_decide (file_status file = TIDE_STATUS_OK) then 0 else 1, [])).
Proof.
  intros Hargc file Ht. unfold main, file_status. rewrite Hargc, Z.eqb_refl. cbn [negb]. fold file.
  destruct (in_open file); [cbn [negb andb]|reflexivity]. destruct (in_seek_end file); [cbn [negb andb]|reflexivity].
  rewrite Z.leb_antisym. destruct (Z.ltb_spec (in_tell file) 0); [reflexivity|]. cbn [negb orb andb].
  destruct (in_seek_set file); [cbn [negb alloc andb]|reflexivity]. unfold file_bytes.
  assert (Hrun : forall bytes, zlen bytes = in_tell file ->
    ('(_, h) ← run_one (Some bytes) (in_tell file) []; mret (M := aborting) (0, h)) = Done (Some (0, []))).
  { intros bytes Hb. rewrite <- Hb in *. rewrite fuzz_decoder_spec by (unfold aggregate_limit in Ht; cbn in Ht; lia).
    rewrite (proj2 (Z.leb_le _ _)) by exact Ht. reflexivity. }
  destruct (Z.eqb_spec (in_tell file) 0) as [E|E]; cbn [orb].
  - rewrite E in *. exact (Hrun [] eq_refl).
  - destruct (Z.eqb_spec (zlen (in_read file (in_tell file))) (in_tell file)) as [E2|E2]; [exact (Hrun _ E2)|reflexivity].
Qed.
