(* ===== verification/FuzzChunks.v ===== *)
(** * The chunk harness

    [src/fuzz/fuzz_chunk_boundaries.c]: feeds a decoder any bytes, once at once
    and once cut in two, counts the callbacks in an [int] each (an overflow is
    undefined), and calls [abort] when the two ways differ. *)

From S2P Require Import Prelude Status Buffer Crc Reader Rational Model Source Frame Validate Header Decoder Parse ParseRule ParseSplit Samples Feed Chunks Harness FuzzDecoder.

Record event_count : Set := mk_events {
  records : Z;
  streams : Z;
  packets : Z
}.

Definition INT_MAX : Z := 2 ^ 31 - 1.

(** [+= 1] on an [int]. *)
Definition int_incr (n : Z) : outcome Z := _ ← assert_def (n <? INT_MAX); Done (n + 1).

(** The counters the callbacks share; [Undef] after an overflow. *)
Definition on_record (_ : tide_record_event) (count : outcome event_count) : tide_status * outcome event_count :=
  (TIDE_STATUS_OK, count ← count; n ← int_incr (records count); Done (mk_events n (streams count) (packets count))).
Definition on_stream (_ : tide_stream_info) (count : outcome event_count) : tide_status * outcome event_count :=
  (TIDE_STATUS_OK, count ← count; n ← int_incr (streams count); Done (mk_events (records count) n (packets count))).
Definition on_packet (_ : tide_packet_info) (count : outcome event_count) : tide_status * outcome event_count :=
  (TIDE_STATUS_OK, count ← count; n ← int_incr (packets count); Done (mk_events (records count) (streams count) n)).

Definition callbacks : tide_callbacks (outcome event_count) :=
  mk_callbacks (Some on_record) (Some on_stream) (Some on_packet) None.

Definition decoded : Type := tide_status * outcome event_count * heap.

Definition decode_once (data : option (list byte)) (size : Z) (events : outcome event_count) (h : heap) : aborting decoded :=
  let '(status, decoder, h) := tide_decoder_init (Some None) None (Some callbacks) h in
  if negb (bool_decide (status = TIDE_STATUS_OK)) then mret (status, events, h)
  else
    '(status, decoder, consumed, events, h) ← calling (tide_decoder_feed decoder data size true (Some 0) events h);
    consumed ← calling (deref consumed);
    if negb (consumed =? size) then c_abort
    else
      let _ := tide_decoder_destroy decoder in
      mret (status, events, h).

Definition decode_split (data : list byte) (size split : Z) (events : outcome event_count) (h : heap) : aborting decoded :=
  let '(status, decoder, h) := tide_decoder_init (Some None) None (Some callbacks) h in
  if negb (bool_decide (status = TIDE_STATUS_OK)) then mret (status, events, h)
  else
    first ← calling (span data 0 split);
    '(status, decoder, consumed, events, h) ← calling (tide_decoder_feed decoder (Some first) split false (Some 0) events h);
    consumed ← calling (deref consumed);
    if negb (bool_decide (status = TIDE_STATUS_OK)) || negb (consumed =? split) then
      let _ := tide_decoder_destroy decoder in
      mret (status, events, h)
    else
      rest ← calling (span data split (size -u split));
      '(status, decoder, consumed, events, h) ← calling (tide_decoder_feed decoder (Some rest) (size -u split) true (Some consumed) events h);
      consumed ← calling (deref consumed);
      if negb (consumed =? size -u split) then c_abort
      else
        let _ := tide_decoder_destroy decoder in
        mret (status, events, h).

Definition same_counts (a b : event_count) : bool :=
  (records a =? records b) && (streams a =? streams b) && (packets a =? packets b).

Definition run_one (data : list byte) (size : Z) (h : heap) : aborting (Z * heap) :=
  let zero := Done (mk_events 0 0 0) in
  if size <? 2 then mret (0, h)
  else
    rest ← calling (span data 1 (size -u 1));
    '(a, contiguous, h) ← decode_once (Some rest) (size -u 1) zero h;
    first ← calling (load data 0);
    '(b, chunked, h) ← decode_split rest (size -u 1) (first mod size) zero h;
    contiguous ← calling contiguous;
    chunked ← calling chunked;
    if negb (bool_decide (a = b)) || negb (same_counts contiguous chunked) then c_abort
    else mret (0, h).

Definition LLVMFuzzerTestOneInput (data : list byte) (size : Z) (h : heap) : aborting (Z * heap) := run_one data size h.

Definition main (h : heap) : aborting (Z * heap) := run_one [x00] 1 h.

(** A split in the middle of the descriptor. *)
Example fuzz_chunks_sample : run_one (x32 :: sample_file) 213 [] = Done (Some (0, [])).
Proof. vm_compute. reflexivity. Qed.
Example fuzz_chunks_counts : exists h, decode_split sample_file 212 50 (Done (mk_events 0 0 0)) []
  = Done (Some (TIDE_STATUS_OK, Done (mk_events 3 1 1), h)).
Proof. eexists. vm_compute. reflexivity. Qed.


(** ** The counters do not overflow *)

Definition total (c : event_count) : Z := records c + streams c + packets c.
Definition counts (c : event_count) : Prop := 0 <= records c /\ 0 <= streams c /\ 0 <= packets c.

(** At position [n] of a file whose bytes an [int] can count. *)
Definition counted (n : Z) (s : pstate (outcome event_count)) : Prop :=
  n <= INT_MAX -> exists c, ps_user s = Done c /\ counts c /\ total c <= n.

Lemma counted_after {X} (f : X -> outcome event_count -> tide_status * outcome event_count) x n s :
  (forall c, counts c -> total c < INT_MAX -> exists c', (f x (Done c)).2 = Done c' /\ counts c' /\ total c' = total c + 1) ->
  counted n s -> counted (n + 1) (after (Some f) x s).
Proof.
  intros Hf Hi Hn. destruct (Hi ltac:(lia)) as (c & E & Hc & Ht). destruct (Hf c Hc ltac:(lia)) as (c' & Hu & Hc' & Ht').
  exists c'. cbn [after set_user ps_user]. rewrite E. split; [exact Hu|]. split; [exact Hc'|lia].
Qed.

Ltac count_one :=
  intros [r t p] (H1 & H2 & H3) Ht; unfold total in *; cbn in *; unfold int_incr, assert_def;
  rewrite (proj2 (Z.ltb_lt _ _)) by lia; eexists; split; [reflexivity|]; unfold counts, total; cbn; lia.

Lemma parse_counts limits data fuel cursor end_ depth s :
  parse_range limits data fuel cursor end_ depth -> ready limits s -> counted cursor s ->
  wp (tide_parse_records limits callbacks fuel data cursor end_ depth s) (fun r => counted end_ r.2).
Proof.
  intros (Hd & Hl & Hc & He & Hf & Hd8 & Hdep) Hr Hi.
  eapply wp_mono; [apply (parse_rule limits callbacks data Hd ltac:(apply Hl) counted); auto|intros r H; apply H].
  - intros n m s' Hn H Hm. destruct (H ltac:(lia)) as (c & E & Hc' & Ht). exists c. split; [exact E|]. split; [exact Hc'|lia].
  - intros n f s' _. apply counted_after. count_one.
  - intros n x s' _ _ _ _ H. apply counted_after; [count_one|exact H].
  - intros n x s' _ _ _. apply counted_after. count_one.
Qed.

Lemma one_shot_counts data st s : zlen data <= INT_MAX ->
  one_shot tide_limits_default callbacks (Done (mk_events 0 0 0)) data = Done (st, s) ->
  exists c, ps_user s = Done c.
Proof.
  intros Hn. unfold one_shot. assert (Ha : parse_args (Some data) (zlen data) tide_limits_default (Some zero_error) (Some 0)).
  { split; [reflexivity|]. split; [unfold INT_MAX in Hn; lia|]. split; [apply limits_default_typed|]. split; eexists; reflexivity. }
  destruct (parse_bytes_cases (Some tide_limits_default) (Some callbacks) (Some data) (zlen data) true
    (Done (mk_events 0 0 0)) _ _ [] Ha) as [(st' & s' & -> & _ & Hu & _)|(bytes & [= <-] & Hsz & ->)].
  { intros [= _ <-]. eauto. }
  assert (Hi : counted TIDE_HEADER_SIZE (start_state (Done (mk_events 0 0 0)) [])).
  { intros _. eexists. split; [reflexivity|]. unfold counts, total, TIDE_HEADER_SIZE. cbn. lia. }
  pose proof Ha as (_ & Hm & Hl & _).
  destruct (wp_inv _ _ (parse_counts tide_limits_default data _ _ _ _ _ (start_range _ data _ Hl eq_refl Hsz Hm)
    (start_ready _ _ []) Hi)) as ([st' s'] & Hrun & Hc).
  change (default tide_limits_default (Some tide_limits_default)) with tide_limits_default.
  change (default no_callbacks (Some callbacks)) with callbacks. rewrite Hrun. intros [= _ <-].
  destruct (Hc Hn) as (c & E & _). eauto.
Qed.

(** ** Both ways of feeding *)

Lemma chunk_callbacks_never_truncated : never_truncated callbacks.
Proof. split; [|split]; intros f x u [= <-]; discriminate. Qed.

Section both.
Context (data : list byte) (Hle : zlen data <= aggregate_limit).
Let events0 : outcome event_count := Done (mk_events 0 0 0).

(** What feeding the whole gives, either way. *)
Definition decodes_to (r : decoded) : Prop :=
  exists st s, one_shot tide_limits_default callbacks events0 data = Done (st, s) /\ r = (st, ps_user s, []).

Lemma decode_once_spec : exists r, decode_once (Some data) (zlen data) events0 [] = Done (Some r) /\ decodes_to r.
Proof.
  unfold decode_once. cbn [tide_decoder_init alloc negb]. rewrite bool_decide_eq_true_2 by reflexivity. cbn [negb].
  destruct (feed_whole tide_limits_default callbacks events0 limits_default_typed eq_refl data (Some 0)
    (within_capacity _ Hle)) as (st & impl & user & Hrun & Hshot).
  change (new_decoder (Some tide_limits_default) (Some callbacks)) with (new_decoder None (Some callbacks)) in Hrun.
  rewrite Hrun, calling_done. cbn [option_map deref]. rewrite calling_done, Z.eqb_refl. cbn [negb].
  eexists. split; [reflexivity|]. eexists _, _. split; [exact Hshot|reflexivity].
Qed.

Lemma decode_split_spec split_ : 0 <= split_ <= zlen data ->
  exists r, decode_split data (zlen data) split_ events0 [] = Done (Some r) /\ decodes_to r.
Proof.
  intros Hs. unfold decode_split. cbn [tide_decoder_init alloc negb]. rewrite bool_decide_eq_true_2 by reflexivity. cbn [negb].
  assert (Hz : zlen data < 2 ^ 64) by (unfold aggregate_limit in Hle; cbn in Hle; lia).
  rewrite (wrap64_small (zlen data - split_)) by zlia. rewrite !span_done by lia. rewrite calling_done.
  set (a := slice data 0 split_). set (b := slice data split_ (zlen data - split_)).
  assert (Ha : zlen a = split_) by (apply zlen_slice; lia). assert (Hb : zlen b = zlen data - split_) by (apply zlen_slice; lia).
  assert (Hab : a ++ b = data).
  { unfold a, b. transitivity (slice data 0 (split_ + (zlen data - split_))); [rewrite slice_split by lia; reflexivity|].
    replace (split_ + (zlen data - split_)) with (zlen data) by lia. apply slice_full. }
  destruct (feed_appends tide_limits_default callbacks events0 _ events0 [] a false (Some 0)
    (new_in_feed _ _ _ limits_default_typed)) as (impl1 & Hin1 & Hrun1); [apply within_capacity; change (zlen (@nil byte)) with 0; lia|].
  change (new_decoder (Some tide_limits_default) (Some callbacks)) with (new_decoder None (Some callbacks)) in Hrun1.
  rewrite Ha in Hrun1. rewrite Hrun1. clear Hrun1.
  destruct (fed_more tide_limits_default callbacks events0 limits_default_typed chunk_callbacks_never_truncated eq_refl impl1 events0 _ Hin1) as (st & impl & user & Hfed & Hst).
  unfold feed_buffered. cbn [negb]. rewrite Hfed, bind_done, calling_done. cbn [option_map deref]. rewrite calling_done, Z.eqb_refl. cbn [negb].
  rewrite orb_false_r. destruct Hst as [[-> Hin]|[Hok Hshot]].
  2: { rewrite bool_decide_eq_false_2 by exact Hok. cbn [negb]. eexists. split; [reflexivity|]. exists st, (parse_state impl user []). split; [|reflexivity].
       rewrite <- Hab at 1. apply Hshot. cbn [app]. split; [apply agree_app|]. rewrite zlen_app. lia. }
  rewrite bool_decide_eq_true_2 by reflexivity. cbn [negb]. rewrite calling_done.
  destruct (feed_appends tide_limits_default callbacks events0 _ user _ b true (Some split_) Hin) as (impl2 & Hin2 & Hrun2).
  { apply within_capacity. cbn [app]. lia. }
  rewrite Hb in Hrun2. rewrite Hrun2. cbn [app] in Hin2. rewrite Hab in Hin2.
  destruct (fed_last tide_limits_default callbacks events0 limits_default_typed eq_refl impl2 user data Hin2) as (st' & impl' & user' & Hlast & Hshot).
  unfold feed_buffered. cbn [negb]. rewrite Hlast, bind_done, calling_done. cbn [option_map deref]. rewrite calling_done, Z.eqb_refl. cbn [negb].
  eexists. split; [reflexivity|]. eexists _, _. split; [exact Hshot|reflexivity].
Qed.
End both.

Lemma load_byte m i : 0 <= i < zlen m -> exists v, load m i = Done v /\ 0 <= v < 256.
Proof.
  intros Hi. unfold load, zlen in *. rewrite (proj2 (Z.leb_le _ _)) by lia.
  destruct (lookup_lt_is_Some_2 m (Z.to_nat i) ltac:(lia)) as [b ->]. eexists. split; [reflexivity|apply u8_range].
Qed.

Lemma fuzz_chunks_spec (data : list byte) : zlen data < 2 ^ 64 ->
  run_one data (zlen data) [] = Done (if zlen data <=? aggregate_limit + 1 then Some (0, []) else None).
Proof.
  intros Hm. unfold run_one. destruct (Z.ltb_spec (zlen data) 2) as [|Hlong].
  { rewrite (proj2 (Z.leb_le _ _)); [reflexivity|]. unfold aggregate_limit. cbn. lia. }
  rewrite !(wrap64_small (zlen data - 1)) by zlia. rewrite span_done, calling_done by lia.
  set (rest := slice data 1 (zlen data - 1)). assert (Hr : zlen rest = zlen data - 1) by (apply zlen_slice; lia). rewrite <- Hr.
  destruct (Z.leb_spec (zlen data) (aggregate_limit + 1)) as [Hle|Hgt].
  2: { unfold decode_once. cbn [tide_decoder_init alloc negb]. rewrite bool_decide_eq_true_2 by reflexivity. cbn [negb].
       destruct (feed_refused (Some callbacks) (Done (mk_events 0 0 0)) rest true ltac:(lia)) as (d & h & ->).
       rewrite calling_done. cbn [deref]. rewrite calling_done. destruct (Z.eqb_spec 0 (zlen rest)); [lia|reflexivity]. }
  destruct (decode_once_spec rest ltac:(lia)) as (r1 & -> & st & s & Hs & ->).
  destruct (load_byte data 0 ltac:(lia)) as (v & -> & Hv).
  destruct (decode_split_spec rest ltac:(lia) (v mod zlen data)) as (r2 & Hr2 & st' & s' & Hs' & ->).
  { pose proof (Z.mod_pos_bound v (zlen data) ltac:(lia)). lia. }
  rewrite Hs in Hs'. injection Hs' as <- <-.
  destruct (one_shot_counts rest st s) as (c & Hc); [unfold aggregate_limit, INT_MAX in *; cbn in Hle; lia|exact Hs|].
  rewrite returned_bind, calling_done, Hr2, returned_bind, Hc, !calling_done.
  rewrite bool_decide_eq_true_2 by reflexivity. unfold same_counts. rewrite !Z.eqb_refl. reflexivity.
Qed.

(** ** Both harnesses *)

(** C31: with memory to spare, the decoder and the chunk harness find nothing:
    on every input they return 0 when it fits the decoder's buffer, so that the
    bytes are consumed, the valid prefix of an accepted input is all of it,
    status and number of callbacks do not depend on where the input is cut and
    no counter overflows; on larger input, and on no other, they abort, as the
    refused bytes are not consumed.  The program of the decoder harness exits
    with 1 when the file cannot be read and with 0 otherwise. *)
Theorem decoder_harnesses_pass (data : list byte) (argv : list string) (files : string -> input_file) :
  zlen data < 2 ^ 64 -> zlen argv = 2 -> in_tell (files (default ""%string (argv !! 1%nat))) <= aggregate_limit ->
  FuzzDecoder.LLVMFuzzerTestOneInput (Some data) (zlen data) [] = Done (if zlen data <=? aggregate_limit then Some (0, []) else None) /\
  FuzzChunks.LLVMFuzzerTestOneInput data (zlen data) [] = Done (if zlen data <=? aggregate_limit + 1 then Some (0, []) else None) /\
  FuzzDecoder.main argv files [] =
    Done (Some (if bool_decide (file_status (files (default ""%string (argv !! 1%nat))) = TIDE_STATUS_OK) then 0 else 1, [])) /\
  FuzzChunks.main [] = Done (Some (0, [])).
Proof.
  intros Hm Hargc Ht. split; [exact (fuzz_decoder_spec data Hm)|]. split; [exact (fuzz_chunks_spec data Hm)|].
  split; [exact (fuzz_decoder_main_spec argv files Hargc Ht)|reflexivity].
Qed.

Lemma decoder_harnesses_pass_witness :
  zlen sample_file < 2 ^ 64 /\
  FuzzDecoder.LLVMFuzzerTestOneInput (Some sample_file) 212 [] = Done (Some (0, [])) /\
  FuzzChunks.LLVMFuzzerTestOneInput sample_file 212 [] = Done (Some (0, [])) /\
  FuzzDecoder.main ["fuzz_decoder"; "sample.tide"]%string (fun _ => readable sample_file) [] = Done (Some (0, [])).
Proof.
  split; [reflexivity|].
  destruct (decoder_harnesses_pass sample_file ["fuzz_decoder"; "sample.tide"]%string (fun _ => readable sample_file)
    eq_refl eq_refl ltac:(vm_compute; discriminate)) as (H1 & H2 & H3 & _).
  split; [exact H1|]. split; [exact H2|exact H3].
Defined.
