(* ===== verification/Writer.v ===== *)
(** * The record writer

    [src/format/writer.c]: the file header, the framing of a record and the
    payloads of stream descriptors and packets.  Local arrays are modelled with
    their uninitialised bytes. *)

From S2P Require Import Prelude Status Checked Buffer Crc Reader Rational Model.

Definition tide_magic : list byte := map byte_of_Z [0x54; 0x49; 0x44; 0x45; 0x31; 0x0D; 0x0A; 0x1A].

Definition append_result : Type := tide_status * option tide_buffer * heap.

Definition tide_write_header (out : option tide_buffer) (movie_time_base : tide_rational) (uuid : option (list byte))
    (h : heap) : outcome append_result :=
  if is_null out || is_null uuid then Done (TIDE_STATUS_INVALID_ARGUMENT, out, h)
  else
    valid ← tide_rational_is_valid movie_time_base;
    if negb valid then Done (TIDE_STATUS_INVALID_ARGUMENT, out, h)
    else
      uuid ← deref uuid;
      id ← span uuid 0 TIDE_UUID_SIZE;
      if bool_decide (id = replicate (Z.to_nat TIDE_UUID_SIZE) x00) then Done (TIDE_STATUS_INVALID_ARGUMENT, out, h)
      else
        let header := zeroed 72 in
        header ← store header 0 tide_magic;
        header ← store header 8 (tide_write_u16 1);
        header ← store header 10 (tide_write_u16 0);
        header ← store header 12 id;
        header ← store header 28 (tide_write_u32 (numerator movie_time_base));
        header ← store header 32 (tide_write_u32 (denominator movie_time_base));
        header ← store header 36 (tide_write_u64 0);
        header ← store header 44 (tide_write_u64 0);
        header ← store header 52 (tide_write_u64 (64 * 1024 * 1024));
        header ← store header 60 (tide_write_u64 0);
        body ← initialised header 68;
        crc ← tide_crc32c body (TIDE_HEADER_SIZE - 4);
        header ← store header 68 (tide_write_u32 crc);
        bytes ← initialised header 72;
        tide_buffer_append out (Some bytes) 72 h.

(** [tide_buffer_append] of [b] after the calls before it succeeded. *)
Definition and_then (m : outcome append_result) (k : tide_buffer -> heap -> outcome append_result) : outcome append_result :=
  '(status, out, h) ← m;
  if negb (bool_decide (status = TIDE_STATUS_OK)) then Done (status, out, h)
  else out ← deref out; k out h.

Definition tide_write_record (out : option tide_buffer) (type flags alignment_log2 sequence : Z)
    (payload : option (list byte)) (payload_size : Z) (h : heap) : outcome append_result :=
  if is_null out || (is_null payload && negb (payload_size =? 0)) || (alignment_log2 >? 4) then
    Done (TIDE_STATUS_INVALID_ARGUMENT, out, h)
  else
    payload_var_size ← tide_uleb128_size payload_size;
    seq_var_size ← tide_uleb128_size sequence;
    let header_size := 8 +u payload_var_size +u seq_var_size in
    if header_size >? UINT16_MAX then Done (TIDE_STATUS_RESOURCE, out, h)
    else
      let prefix := uninit 32 in
      prefix ← store prefix 0 (tide_write_u16 type);
      prefix ← store prefix 2 (tide_write_u16 flags);
      prefix ← store prefix 4 (tide_write_u16 (wrap16 header_size));
      prefix ← store prefix 6 [byte_of_Z alignment_log2];
      prefix ← store prefix 7 [x00];
      var ← tide_write_uleb128 payload_size;
      prefix ← store prefix 8 var;
      var ← tide_write_uleb128 sequence;
      prefix ← store prefix (Z.to_nat (8 + payload_var_size)) var;
      one ← shl64 1 alignment_log2;
      match (unpadded_size ← tide_checked_add_u64 header_size payload_size;
             padded_size ← tide_align_u64 unpadded_size one;
             Some (unpadded_size, padded_size)) with
      | None => Done (TIDE_STATUS_RESOURCE, out, h)
      | Some (unpadded_size, padded_size) =>
        let padding_size := padded_size -u unpadded_size in
        b ← deref out;
        let crc_start := buf_size b in
        head ← initialised prefix (Z.to_nat header_size);
        and_then (tide_buffer_append (Some b) (Some head) header_size h) (fun b h =>
        and_then (tide_buffer_append (Some b) payload payload_size h) (fun b h =>
        and_then (tide_buffer_append_zero (Some b) padding_size h) (fun b h =>
          record ← span (buf_data b) crc_start (buf_size b -u crc_start);
          crc ← tide_crc32c record (buf_size b -u crc_start);
          prefix ← store prefix 0 [byte_of_Z (wrap8 (Z.land crc 0xff))];
          prefix ← store prefix 1 [byte_of_Z (wrap8 (Z.land (Z.shiftr crc 8) 0xff))];
          prefix ← store prefix 2 [byte_of_Z (wrap8 (Z.land (Z.shiftr crc 16) 0xff))];
          prefix ← store prefix 3 [byte_of_Z (wrap8 (Z.land (Z.shiftr crc 24) 0xff))];
          tail ← initialised prefix 4;
          tide_buffer_append (Some b) (Some tail) 4 h)))
      end.

Definition tide_encode_stream_payload (out : option tide_buffer) (stream : option tide_stream_info) (h : heap)
    : outcome append_result :=
  match out, stream with
  | Some b, Some stream =>
    valid ← tide_rational_is_valid (si_time_base stream);
    if negb valid || (is_null (si_config stream) && negb (si_config_size stream =? 0)) then
      Done (TIDE_STATUS_INVALID_ARGUMENT, out, h)
    else
      let fixed := uninit 24 in
      fixed ← store fixed 0 (tide_write_u32 (si_track_id stream));
      fixed ← store fixed 4 (tide_write_u32 (si_generation stream));
      fixed ← store fixed 8 (tide_write_u16 (si_media_kind stream));
      fixed ← store fixed 10 (tide_write_u16 0);
      fixed ← store fixed 12 (tide_write_u32 (si_codec_tag stream));
      fixed ← store fixed 16 (tide_write_u32 (numerator (si_time_base stream)));
      fixed ← store fixed 20 (tide_write_u32 (denominator (si_time_base stream)));
      bytes ← initialised fixed 24;
      and_then (tide_buffer_append (Some b) (Some bytes) 24 h) (fun b h =>
        var ← tide_write_uleb128 (si_config_size stream);
        varint ← store (uninit 10) 0 var;
        bytes ← initialised varint (length var);
        and_then (tide_buffer_append (Some b) (Some bytes) (zlen var) h) (fun b h =>
          tide_buffer_append (Some b) (si_config stream) (si_config_size stream) h))
  | _, _ => Done (TIDE_STATUS_INVALID_ARGUMENT, out, h)
  end.

Definition tide_encode_packet_payload (out : option tide_buffer) (packet : option tide_packet_info) (h : heap)
    : outcome append_result :=
  match out, packet with
  | Some b, Some packet =>
    if (is_null (pv_data (pk_payload packet)) && negb (pv_size (pk_payload packet) =? 0)) || (pk_duration packet <? 0) then
      Done (TIDE_STATUS_INVALID_ARGUMENT, out, h)
    else
      let fixed := uninit TIDE_PACKET_FIXED_SIZE in
      fixed ← store fixed 0 (tide_write_u32 (pk_track_id packet));
      fixed ← store fixed 4 (tide_write_u32 (pk_generation packet));
      fixed ← store fixed 8 (tide_write_u64 (pk_packet_seq packet));
      fixed ← store fixed 16 (tide_write_i64 (pk_dts packet));
      fixed ← store fixed 24 (tide_write_i64 (pk_pts packet));
      fixed ← store fixed 32 (tide_write_i64 (pk_duration packet));
      fixed ← store fixed 40 (tide_write_u32 (pk_flags packet));
      bytes ← initialised fixed 44;
      and_then (tide_buffer_append (Some b) (Some bytes) 44 h) (fun b h =>
        var ← tide_write_uleb128 (pv_size (pk_payload packet));
        varint ← store (uninit 10) 0 var;
        bytes ← initialised varint (length var);
        and_then (tide_buffer_append (Some b) (Some bytes) (zlen var) h) (fun b h =>
          tide_buffer_append (Some b) (pv_data (pk_payload packet)) (pv_size (pk_payload packet)) h))
  | _, _ => Done (TIDE_STATUS_INVALID_ARGUMENT, out, h)
  end.

(** ** The encodings *)

Definition header_bytes (base : tide_rational) (uuid : list byte) : list byte :=
  let body := tide_magic ++ le_bytes 2 1 ++ le_bytes 2 0 ++ uuid ++ le_bytes 4 (numerator base) ++
    le_bytes 4 (denominator base) ++ le_bytes 8 0 ++ le_bytes 8 0 ++ le_bytes 8 (64 * 1024 * 1024) ++ le_bytes 8 0 in
  body ++ le_bytes 4 (crc32c body).

Definition header_size_of (payload_size sequence : Z) : Z :=
  8 + zlen (uleb_bytes payload_size) + zlen (uleb_bytes sequence).

Definition prefix_bytes (type flags alignment_log2 sequence payload_size : Z) : list byte :=
  le_bytes 2 type ++ le_bytes 2 flags ++ le_bytes 2 (header_size_of payload_size sequence) ++
  [byte_of_Z alignment_log2; x00] ++ uleb_bytes payload_size ++ uleb_bytes sequence.

Definition padding_of (alignment_log2 size : Z) : list byte :=
  replicate (Z.to_nat (align_up size (2 ^ alignment_log2) - size)) x00.

(** A record before its CRC. *)
Definition record_body (type flags alignment_log2 sequence : Z) (payload : list byte) : list byte :=
  let head := prefix_bytes type flags alignment_log2 sequence (zlen payload) in
  head ++ payload ++ padding_of alignment_log2 (zlen head + zlen payload).

Definition record_bytes (type flags alignment_log2 sequence : Z) (payload : list byte) : list byte :=
  let body := record_body type flags alignment_log2 sequence payload in
  body ++ le_bytes 4 (crc32c body).

Definition stream_bytes (s : tide_stream_info) (config : list byte) : list byte :=
  le_bytes 4 (si_track_id s) ++ le_bytes 4 (si_generation s) ++ le_bytes 2 (si_media_kind s) ++ le_bytes 2 0 ++
  le_bytes 4 (si_codec_tag s) ++ le_bytes 4 (numerator (si_time_base s)) ++ le_bytes 4 (denominator (si_time_base s)) ++
  uleb_bytes (zlen config) ++ config.

Definition packet_bytes (p : tide_packet_info) (payload : list byte) : list byte :=
  le_bytes 4 (pk_track_id p) ++ le_bytes 4 (pk_generation p) ++ le_bytes 8 (pk_packet_seq p) ++
  tide_write_i64 (pk_dts p) ++ tide_write_i64 (pk_pts p) ++ tide_write_i64 (pk_duration p) ++ le_bytes 4 (pk_flags p) ++
  uleb_bytes (zlen payload) ++ payload.

(** ** The writers append the encodings *)

(** Lengths of the pieces. *)
Lemma length_tide_magic : length tide_magic = 8%nat.
Proof. reflexivity. Qed.
Create Rewrite HintDb lengths.
#[export] Hint Rewrite @length_app length_le_bytes @length_replicate @length_map @length_drop length_tide_magic : lengths.
Ltac lens := unfold uninit, zeroed, zlen in *; autorewrite with lengths; cbn [length]; lia.

Lemma uninit_app n : uninit n = map Some [] ++ uninit n.
Proof. reflexivity. Qed.
Lemma zeroed_app n : zeroed n = map Some [] ++ zeroed n.
Proof. reflexivity. Qed.

(** One store of a sequence that fills an array from the front. *)
Ltac fill := rewrite store_at by lens; rewrite ?bind_done; cbv beta; rewrite ?bind_done; rewrite ?drop_drop.

Lemma shl_one al : 0 <= al <= 4 -> shl64 1 al = Done (2 ^ al).
Proof.
  intros H. rewrite shl64_done, Z.shiftl_1_l by lia. f_equal. apply wrap64_small.
  assert (0 < 2 ^ al <= 16) by (split; [apply Z.pow_pos_nonneg; lia|apply (Z.pow_le_mono_r 2 al 4); lia]). zlia.
Qed.

Lemma header_size_range ps sq : is_u64 ps -> is_u64 sq -> 10 <= header_size_of ps sq <= 28.
Proof.
  intros Hp Hq. unfold header_size_of. pose proof (length_uleb_bytes ps Hp). pose proof (length_uleb_bytes sq Hq). zlia.
Qed.

Lemma zlen_prefix type flags al sq ps : zlen (prefix_bytes type flags al sq ps) = header_size_of ps sq.
Proof. unfold prefix_bytes, header_size_of. rewrite !zlen_app. unfold zlen. rewrite !length_le_bytes. cbn [length]. lia. Qed.

(** The prefix array after its stores. *)
Lemma fill_prefix type flags al sq ps hs var1 var2 off (k : array -> outcome append_result) :
  is_u64 ps -> is_u64 sq -> hs = header_size_of ps sq -> var1 = Done (uleb_bytes ps) -> var2 = Done (uleb_bytes sq) ->
  off = Z.to_nat (8 + zlen (uleb_bytes ps)) ->
  (prefix ← store (uninit 32) 0 (tide_write_u16 type);
   prefix ← store prefix 2 (tide_write_u16 flags);
   prefix ← store prefix 4 (tide_write_u16 hs);
   prefix ← store prefix 6 [byte_of_Z al];
   prefix ← store prefix 7 [x00];
   var ← var1; prefix ← store prefix 8 var;
   var ← var2; prefix ← store prefix off var;
   k prefix) =
  k (map Some (prefix_bytes type flags al sq ps) ++ drop (Z.to_nat (header_size_of ps sq)) (uninit 32)).
Proof.
  intros Hp Hq -> -> -> ->. pose proof (length_uleb_bytes ps Hp). pose proof (length_uleb_bytes sq Hq).
  rewrite (uninit_app 32) at 1. rewrite !write_u16_le. unfold header_size_of.
  repeat fill. unfold prefix_bytes, header_size_of. rewrite <- !app_assoc. cbn [app]. do 3 f_equal. lens.
Qed.

(** Four bytes stored over the front of an array. *)
Lemma fill_four (head : list byte) (rest : array) (w x y z : byte) (k : list byte -> outcome append_result) :
  (4 <= length head)%nat ->
  (prefix ← store (map Some head ++ rest) 0 [w]; prefix ← store prefix 1 [x]; prefix ← store prefix 2 [y];
   prefix ← store prefix 3 [z]; tail ← initialised prefix 4; k tail) = k [w; x; y; z].
Proof. intros Hl. destruct head as [|a [|b [|c [|d head]]]]; cbn [length] in Hl; try lia. reflexivity. Qed.

Lemma byte_of_wrap z : byte_of_Z (wrap8 (Z.land z 0xff)) = byte_of_Z z.
Proof.
  rewrite wrap8_small, byte_of_Z_land; [reflexivity|]. change 0xff with (2 ^ 8 - 1).
  rewrite land_ones_mod by lia. apply Z.mod_pos_bound. lia.
Qed.

Lemma crc_stores crc :
  [byte_of_Z (wrap8 (Z.land crc 0xff)); byte_of_Z (wrap8 (Z.land (Z.shiftr crc 8) 0xff));
   byte_of_Z (wrap8 (Z.land (Z.shiftr crc 16) 0xff)); byte_of_Z (wrap8 (Z.land (Z.shiftr crc 24) 0xff))] = le_bytes 4 crc.
Proof. rewrite !byte_of_wrap. cbn [le_bytes]. rewrite !Z.shiftr_shiftr by lia. reflexivity. Qed.

Lemma and_then_appended b xs ys h m k :
  buffer_wf b -> wp m (appended b xs h) ->
  (forall b1 h1, extends b xs b1 -> room b (zlen xs) = true -> wp (k b1 h1) (appended b1 ys h1)) ->
  wp (and_then m k) (appended b (xs ++ ys) h).
Proof. apply appended_bind. Qed.

(** The bytes appended since [b]. *)
Lemma extends_tail b bs b' :
  buffer_wf b -> extends b bs b' -> slice (buf_data b') (buf_size b) (zlen bs) = bs /\
    buf_size b' -u buf_size b = zlen bs /\ buf_size b + zlen bs = zlen (buf_data b') /\ 0 <= buf_size b.
Proof.
  intros Hb He. rewrite (extends_size b bs b' Hb He). destruct Hb as (Hs & Hc & _). destruct He as (Hd & _ & (Hs' & Hc' & _) & _).
  pose proof (zlen_nonneg bs). pose proof (zlen_nonneg (buf_data b)).
  rewrite Hd, slice_app_r by lia. rewrite Hs, Z.sub_diag, slice_full. rewrite Hd, zlen_app in Hs'.
  split; [reflexivity|]. split; [rewrite wrap64_small by zlia; lia|]. rewrite zlen_app. lia.
Qed.

(** The last append of a record. *)
Lemma append_crc b body b' h (head : list byte) rest :
  buffer_wf b -> extends b body b' -> (4 <= length head)%nat ->
  wp (record ← span (buf_data b') (buf_size b) (buf_size b' -u buf_size b);
      crc ← tide_crc32c record (buf_size b' -u buf_size b);
      prefix ← store (map Some head ++ rest) 0 [byte_of_Z (wrap8 (Z.land crc 0xff))];
      prefix ← store prefix 1 [byte_of_Z (wrap8 (Z.land (Z.shiftr crc 8) 0xff))];
      prefix ← store prefix 2 [byte_of_Z (wrap8 (Z.land (Z.shiftr crc 16) 0xff))];
      prefix ← store prefix 3 [byte_of_Z (wrap8 (Z.land (Z.shiftr crc 24) 0xff))];
      tail ← initialised prefix 4;
      tide_buffer_append (Some b') (Some tail) 4 h) (appended b' (le_bytes 4 (crc32c body)) h).
Proof.
  intros Hb He Hl. destruct (extends_tail b body b' Hb He) as (Hsl & Hsz & Hz & H0).
  rewrite Hsz. pose proof (zlen_nonneg body). rewrite span_done, Hsl, bind_done by lia.
  rewrite crc32c_whole, bind_done. rewrite fill_four by exact Hl. rewrite crc_stores.
  apply (append_all b' (le_bytes 4 (crc32c body)) h); [apply He|]. unfold zlen. rewrite length_le_bytes. lia.
Qed.

(** What [tide_write_record] does: nothing on a size overflow; otherwise it
    appends the record, or a part of it when memory runs out. *)
Lemma write_record_spec b type flags al sq payload h :
  buffer_wf b -> is_u64 sq -> 0 <= al <= 4 -> zlen payload < 2 ^ 64 ->
  if header_size_of (zlen payload) sq + zlen payload + (2 ^ al - 1) <=? UINT64_MAX then
    wp (tide_write_record (Some b) type flags al sq (Some payload) (zlen payload) h)
      (appended b (record_bytes type flags al sq payload) h)
  else tide_write_record (Some b) type flags al sq (Some payload) (zlen payload) h = Done (TIDE_STATUS_RESOURCE, Some b, h).
Proof.
  intros Hb Hq Hal Hm. pose proof (zlen_nonneg payload) as H0.
  assert (Hp : is_u64 (zlen payload)) by zlia.
  pose proof (header_size_range (zlen payload) sq Hp Hq) as Hh.
  unfold tide_write_record. cbn [is_null negb andb orb]. rewrite Z.gtb_ltb, (proj2 (Z.ltb_ge _ _)) by lia.
  rewrite !uleb128_size_enc by assumption. rewrite !bind_done.
  assert (Hhs : 8 +u zlen (uleb_bytes (zlen payload)) +u zlen (uleb_bytes sq) = header_size_of (zlen payload) sq).
  { unfold header_size_of. pose proof (length_uleb_bytes _ Hp). pose proof (length_uleb_bytes _ Hq).
    rewrite (wrap64_small (8 + _)) by zlia. apply wrap64_small. zlia. }
  rewrite Hhs. cbv zeta. rewrite Z.gtb_ltb, (proj2 (Z.ltb_ge UINT16_MAX _)) by lia.
  erewrite fill_prefix; [|exact Hp|exact Hq|apply wrap16_small; zlia|apply write_uleb128_enc, Hp|apply write_uleb128_enc, Hq|reflexivity].
  rewrite shl_one, bind_done by lia. rewrite checked_add_spec by zlia. pose proof (zlen_prefix type flags al sq (zlen payload)) as Hz. set (hs := header_size_of (zlen payload) sq) in *.
  assert (Hpow : 0 < 2 ^ al <= 16) by (split; [apply Z.pow_pos_nonneg; lia|apply (Z.pow_le_mono_r 2 al 4); lia]).
  destruct (Z.leb_spec (hs + zlen payload) UINT64_MAX); cbn [mbind option_bind].
  2: { rewrite (proj2 (Z.leb_gt _ _)) by lia. reflexivity. }
  rewrite align_pow2 by zlia. destruct (Z.leb_spec (hs + zlen payload + (2 ^ al - 1)) UINT64_MAX); cbn [mbind option_bind]; [|reflexivity].
  cbn [deref]. rewrite bind_done. rewrite initialised_at, bind_done.
  2: { rewrite <- Hz. unfold zlen. lia. }
  destruct (align_up_spec (hs + zlen payload) (2 ^ al)) as (_ & Hb1 & _); [lia|lia|].
  rewrite (wrap64_small (align_up _ _ - _)) by zlia.
  unfold record_bytes, record_body. rewrite Hz. rewrite <- !app_assoc. rewrite <- Hz at 1.
  apply and_then_appended; [exact Hb|apply append_all; [exact Hb|lia]|]. intros b1 h1 He1 _.
  apply and_then_appended; [apply He1|apply append_all; [apply He1|exact Hm]|]. intros b2 h2 He2 _.
  apply and_then_appended; [apply He2|apply append_zero_appended; [apply He2|lia]|]. intros b3 h3 He3 _.
  apply append_crc; [exact Hb| |].
  - apply (extends_app b _ b1); [exact He1|]. apply (extends_app b1 _ b2); [exact He2|exact He3].
  - unfold zlen in *. lia.
Qed.

Lemma write_header_spec b base uuid h :
  buffer_wf b -> rational_typed base -> zlen uuid = 16 ->
  if reduced base && negb (bool_decide (uuid = replicate 16 x00)) then
    wp (tide_write_header (Some b) base (Some uuid) h) (appended b (header_bytes base uuid) h)
  else tide_write_header (Some b) base (Some uuid) h = Done (TIDE_STATUS_INVALID_ARGUMENT, Some b, h).
Proof.
  intros Hb Hr Hu. assert (Hl : length uuid = 16%nat) by (unfold zlen in Hu; lia).
  unfold tide_write_header. cbn [is_null orb]. rewrite is_valid_spec, bind_done by exact Hr.
  destruct (reduced base); cbn [negb andb]; [|reflexivity]. cbn [deref]. rewrite bind_done.
  unfold TIDE_UUID_SIZE. rewrite span_done by lia. rewrite bind_done, <- Hu, slice_full.
  replace (Z.to_nat (zlen uuid)) with 16%nat by lia. destruct (bool_decide _); cbn [negb]; [reflexivity|].
  rewrite (zeroed_app 72), !write_u16_le, !write_u32_le, !write_u64_le. cbv zeta.
  do 10 fill. rewrite initialised_at, bind_done by (autorewrite with lengths; cbn [length]; lia).
  set (body := _ ++ le_bytes 8 0). change (TIDE_HEADER_SIZE - 4) with 68.
  assert (Hbody : zlen body = 68) by (unfold body, zlen; autorewrite with lengths; cbn [length]; lia).
  replace (tide_crc32c body 68) with (Done (crc32c body)) by (rewrite <- Hbody, crc32c_whole; reflexivity).
  rewrite bind_done, write_u32_le. assert (Hlb : length body = 68%nat) by (unfold zlen in Hbody; lia).
  rewrite store_at by (rewrite ?Hlb; lens). rewrite bind_done, initialised_at, bind_done by (rewrite length_app, Hlb; lens).
  assert (He : header_bytes base uuid = body ++ le_bytes 4 (crc32c body)).
  { unfold header_bytes, body. rewrite <- !app_assoc. reflexivity. }
  rewrite He. replace 72 with (zlen (body ++ le_bytes 4 (crc32c body))) by (rewrite zlen_app, Hbody; unfold zlen; rewrite length_le_bytes; lia).
  apply append_all; [exact Hb|]. rewrite zlen_app, Hbody. unfold zlen. rewrite length_le_bytes. lia.
Qed.

(** The variable-length size of a payload and the payload. *)
Lemma append_sized b bs h :
  buffer_wf b -> zlen bs < 2 ^ 64 ->
  wp (var ← tide_write_uleb128 (zlen bs);
      varint ← store (uninit 10) 0 var;
      bytes ← initialised varint (length var);
      and_then (tide_buffer_append (Some b) (Some bytes) (zlen var) h) (fun b h =>
        tide_buffer_append (Some b) (Some bs) (zlen bs) h)) (appended b (uleb_bytes (zlen bs) ++ bs) h).
Proof.
  intros Hb Hm. pose proof (zlen_nonneg bs). assert (Hu : is_u64 (zlen bs)) by zlia.
  pose proof (length_uleb_bytes _ Hu). rewrite write_uleb128_enc, bind_done by exact Hu.
  rewrite (uninit_app 10). rewrite store_at by lens. rewrite bind_done, initialised_at, bind_done by lens.
  apply and_then_appended; [exact Hb|apply append_all; [exact Hb|zlia]|].
  intros b1 h1 He _. apply append_all; [apply He|exact Hm].
Qed.

(** A fixed part, then the sized one. *)
Lemma append_fixed_sized b fixed bs h n :
  buffer_wf b -> zlen bs < 2 ^ 64 -> zlen fixed = n -> n < 2 ^ 64 ->
  wp (and_then (tide_buffer_append (Some b) (Some fixed) n h) (fun b h =>
        var ← tide_write_uleb128 (zlen bs);
        varint ← store (uninit 10) 0 var;
        bytes ← initialised varint (length var);
        and_then (tide_buffer_append (Some b) (Some bytes) (zlen var) h) (fun b h =>
          tide_buffer_append (Some b) (Some bs) (zlen bs) h)))
    (appended b (fixed ++ uleb_bytes (zlen bs) ++ bs) h).
Proof.
  intros Hb Hm <- Hn. apply and_then_appended; [exact Hb|apply append_all; assumption|].
  intros b1 h1 He _. apply append_sized; [apply He|exact Hm].
Qed.

(** A caller's description of a stream or packet: the sizes are those of the
    objects. *)
Definition stream_args (s : tide_stream_info) (config : list byte) : Prop :=
  stream_typed s /\ si_config s = Some config /\ si_config_size s = zlen config.
Definition packet_args (p : tide_packet_info) (payload : list byte) : Prop :=
  packet_typed p /\ pv_data (pk_payload p) = Some payload /\ pv_size (pk_payload p) = zlen payload.

Lemma encode_stream_spec b s config h :
  buffer_wf b -> stream_args s config ->
  if reduced (si_time_base s) then
    wp (tide_encode_stream_payload (Some b) (Some s) h) (appended b (stream_bytes s config) h)
  else tide_encode_stream_payload (Some b) (Some s) h = Done (TIDE_STATUS_INVALID_ARGUMENT, Some b, h).
Proof.
  intros Hb ((H1 & H2 & H3 & H4 & H5 & H6) & Hc & Hs). unfold tide_encode_stream_payload.
  rewrite is_valid_spec, bind_done by exact H5. rewrite Hc. cbn [is_null andb]. rewrite orb_false_r.
  destruct (reduced (si_time_base s)); cbn [negb]; [|reflexivity]. cbv zeta. rewrite Hs in H6.
  rewrite (uninit_app 24), !write_u16_le, !write_u32_le. do 7 fill. rewrite initialised_at, bind_done by lens.
  rewrite Hs. replace (stream_bytes s config) with
    (((((((([] ++ le_bytes 4 (si_track_id s)) ++ le_bytes 4 (si_generation s)) ++ le_bytes 2 (si_media_kind s)) ++
      le_bytes 2 0) ++ le_bytes 4 (si_codec_tag s)) ++ le_bytes 4 (numerator (si_time_base s))) ++
      le_bytes 4 (denominator (si_time_base s))) ++ uleb_bytes (zlen config) ++ config)
    by (unfold stream_bytes; rewrite <- !app_assoc; reflexivity).
  apply append_fixed_sized; [exact Hb|zlia|lens|lia].
Qed.

Lemma write_i64_length v : length (tide_write_i64 v) = 8%nat.
Proof. unfold tide_write_i64. rewrite write_u64_le. apply length_le_bytes. Qed.
#[export] Hint Rewrite write_i64_length : lengths.

Lemma encode_packet_spec b p payload h :
  buffer_wf b -> packet_args p payload ->
  if 0 <=? pk_duration p then
    wp (tide_encode_packet_payload (Some b) (Some p) h) (appended b (packet_bytes p payload) h)
  else tide_encode_packet_payload (Some b) (Some p) h = Done (TIDE_STATUS_INVALID_ARGUMENT, Some b, h).
Proof.
  intros Hb (Ht & Hd & Hs). unfold tide_encode_packet_payload. rewrite Hd. cbn [is_null andb orb].
  rewrite Z.ltb_antisym. destruct (0 <=? pk_duration p); cbn [negb]; [|reflexivity]. cbv zeta.
  change (uninit TIDE_PACKET_FIXED_SIZE) with (uninit 44).
  rewrite (uninit_app 44), !write_u32_le, !write_u64_le. do 7 fill. rewrite initialised_at, bind_done by lens.
  rewrite Hs. replace (packet_bytes p payload) with
    (((((((([] ++ le_bytes 4 (pk_track_id p)) ++ le_bytes 4 (pk_generation p)) ++ le_bytes 8 (pk_packet_seq p)) ++
      tide_write_i64 (pk_dts p)) ++ tide_write_i64 (pk_pts p)) ++ tide_write_i64 (pk_duration p)) ++
      le_bytes 4 (pk_flags p)) ++ uleb_bytes (zlen payload) ++ payload)
    by (unfold packet_bytes; rewrite <- !app_assoc; reflexivity).
  destruct Ht as (_ & _ & _ & _ & _ & _ & _ & Hsz). rewrite Hs in Hsz.
  apply append_fixed_sized; [exact Hb|zlia|lens|lia].
Qed.
