(* ===== verification/RoundTrip.v ===== *)
(** * Reading what was written

    The decoder on the encodings of [Writer]: the framing and the bodies of
    what the writer produces are accepted with the values that were written. *)

From S2P Require Import Prelude Status Checked Buffer Crc Reader Rational Model Frame Validate Header Decoder Parse ParseRule ParseSplit Writer.

(** ** Payloads *)

Lemma p_le_cons n z bs m : n = Z.of_nat m -> 0 <= z < 2 ^ (8 * n) -> p_le n (le_bytes m z ++ bs) = Some (z, bs).
Proof. intros -> H. apply p_le_bytes, H. Qed.

Lemma p_skip_cons n m z bs : n = Z.of_nat m -> p_skip n (le_bytes m z ++ bs) = Some (tt, bs).
Proof.
  intros ->. unfold p_skip, mbind, parser_bind. rewrite p_bytes_app by (unfold zlen; rewrite length_le_bytes; reflexivity).
  reflexivity.
Qed.

Lemma p_option_size n bs : is_u64 n -> p_option (tide_checked_u64_to_size n) bs = Some (n, bs).
Proof.
  intros Hn. unfold p_option, tide_checked_u64_to_size. rewrite Z.gtb_ltb, (proj2 (Z.ltb_ge _ _)) by (ranges; lia). reflexivity.
Qed.

Lemma p_bytes_all bs : p_bytes (zlen bs) bs = Some (bs, []).
Proof. rewrite <- (app_nil_r bs) at 2. apply p_bytes_app. reflexivity. Qed.

(** Run a chain of reads over the encodings of their values. *)
Ltac read_back :=
  repeat first
    [ rewrite p_le_cons by (reflexivity || (ranges; lia))
    | rewrite p_skip_cons by reflexivity
    | rewrite p_i64_bytes by assumption
    | rewrite p_uleb_enc by assumption
    | rewrite p_option_size by assumption
    | rewrite p_bytes_all ].

Lemma p_stream_bytes s config : stream_args s config -> p_stream (stream_bytes s config) = Some (s, []).
Proof.
  intros ((H1 & H2 & H3 & H4 & (H5 & H6) & H7) & Hc & Hs). rewrite Hs in H7.
  unfold p_stream, stream_bytes, mbind, parser_bind, mret, parser_ret. read_back.
  destruct s as [a b c d [e f] g k]. cbn in *. subst. reflexivity.
Qed.

(** A packet without its lease. *)
Definition unleased (p : tide_packet_info) : tide_packet_info :=
  mk_packet_info (pk_track_id p) (pk_generation p) (pk_packet_seq p) (pk_dts p) (pk_pts p) (pk_duration p) (pk_flags p)
    (mk_payload_view (pv_data (pk_payload p)) (pv_size (pk_payload p)) None).

Lemma p_packet_bytes p payload : packet_args p payload -> p_packet (packet_bytes p payload) = Some (unleased p, []).
Proof.
  intros ((H1 & H2 & H3 & H4 & H5 & H6 & H7 & H8) & Hd & Hs). rewrite Hs in H8.
  unfold p_packet, packet_bytes, mbind, parser_bind, mret, parser_ret. read_back.
  unfold unleased. rewrite Hd, Hs. reflexivity.
Qed.

Lemma c_stream_bytes s config :
  stream_args s config -> reduced (si_time_base s) = true -> c_stream (stream_bytes s config) = inr (s, []).
Proof.
  intros Ha Hr. unfold c_stream, mbind, checker_bind, c_or_fail. rewrite (p_stream_bytes s config Ha).
  cbn [c_at_end]. unfold p_guard. rewrite Hr. reflexivity.
Qed.

Lemma c_packet_bytes tracks p payload :
  packet_args p payload -> 0 <= pk_duration p -> known tracks (pk_track_id p) (pk_generation p) = true ->
  c_packet tracks (packet_bytes p payload) = inr (unleased p, []).
Proof.
  intros Ha Hd Hk. unfold c_packet, mbind, checker_bind, c_or_fail. rewrite (p_packet_bytes p payload Ha).
  cbn [c_at_end unleased pk_duration pk_track_id pk_generation].
  rewrite (proj2 (Z.ltb_ge _ _)) by lia. rewrite Hk. reflexivity.
Qed.

(** ** The header *)

Lemma zlen_le_bytes n z : zlen (le_bytes n z) = Z.of_nat n.
Proof. unfold zlen. rewrite length_le_bytes. reflexivity. Qed.

Lemma header_bytes_split base uuid : zlen uuid = 16 ->
  exists fields, header_bytes base uuid = tide_magic ++ fields /\ zlen fields = 64 /\
    fields = le_bytes 2 1 ++ le_bytes 2 0 ++ uuid ++ le_bytes 4 (numerator base) ++ le_bytes 4 (denominator base) ++
      le_bytes 8 0 ++ le_bytes 8 0 ++ le_bytes 8 (64 * 1024 * 1024) ++ le_bytes 8 0 ++
      le_bytes 4 (crc32c (slice (header_bytes base uuid) 0 68)).
Proof.
  intros Hu. eexists. split; [|split; [|reflexivity]].
  - unfold header_bytes at 1. set (body := tide_magic ++ _).
    assert (Hb : zlen body = 68) by (unfold body; rewrite !zlen_app, !zlen_le_bytes, Hu; reflexivity).
    assert (Hs : slice (header_bytes base uuid) 0 68 = body).
    { unfold header_bytes. fold body. rewrite slice_app_l by lia. rewrite <- Hb. apply slice_full. }
    rewrite Hs. unfold body. rewrite <- !app_assoc. reflexivity.
  - rewrite !zlen_app, !zlen_le_bytes, Hu. reflexivity.
Qed.

Lemma zlen_header base uuid : zlen uuid = 16 -> zlen (header_bytes base uuid) = 72.
Proof. intros Hu. destruct (header_bytes_split base uuid Hu) as (f & -> & Hf & _). rewrite zlen_app, Hf. reflexivity. Qed.

Lemma header_verdict_written limits base uuid :
  rational_typed base -> reduced base = true -> zlen uuid = 16 -> uuid <> replicate 16 x00 ->
  64 * 1024 * 1024 <= max_record_size limits ->
  header_verdict limits (header_bytes base uuid) = None.
Proof.
  intros [Hn Hd] Hr Hu Hne Hl. pose proof (crc32c_u32 (slice (header_bytes base uuid) 0 68)) as Hcrc.
  destruct (header_bytes_split base uuid Hu) as (fields & He & Hf & Hfields).
  assert (Hmagic : slice (header_bytes base uuid) 0 8 = tide_magic_bytes).
  { rewrite He. apply (slice_app_l tide_magic); unfold zlen; cbn; lia. }
  assert (Hrest : slice (header_bytes base uuid) 8 64 = fields).
  { rewrite He, slice_app_r by (unfold zlen; cbn; lia). rewrite <- Hf. apply slice_full. }
  unfold header_verdict. rewrite Hmagic, bool_decide_eq_true_2 by reflexivity. cbn [negb]. rewrite Hrest, Hfields.
  unfold p_header, mbind, parser_bind, mret, parser_ret, TIDE_UUID_SIZE. read_back.
  rewrite p_bytes_app by exact Hu. read_back. rewrite <- (app_nil_r (le_bytes 4 (crc32c _))). read_back.
  rewrite bool_decide_eq_false_2 by exact Hne. destruct base as [num den]. cbn [numerator denominator] in *. rewrite Hr. cbn [negb Z.eqb Pos.eqb].
  rewrite Z.gtb_ltb, (proj2 (Z.ltb_ge _ _)) by lia. rewrite Z.eqb_refl. reflexivity.
Qed.

(** ** Records *)

Record rec : Set := mk_rec {
  rc_type : Z;
  rc_flags : Z;
  rc_alignment_log2 : Z;
  rc_sequence : Z;
  rc_payload : list byte
}.
Definition rec_bytes (r : rec) : list byte :=
  record_bytes (rc_type r) (rc_flags r) (rc_alignment_log2 r) (rc_sequence r) (rc_payload r).
Definition rec_typed (r : rec) : Prop :=
  is_u16 (rc_type r) /\ is_u16 (rc_flags r) /\ 0 <= rc_alignment_log2 r <= 4 /\ is_u64 (rc_sequence r).

Definition rec_header_size (r : rec) : Z := header_size_of (zlen (rc_payload r)) (rc_sequence r).
Definition rec_padded (r : rec) : Z := padded (rec_header_size r) (zlen (rc_payload r)) (rc_alignment_log2 r).

(** The frame of [r] at [offset]. *)
Definition rec_frame (r : rec) (offset depth : Z) : tide_record_frame :=
  mk_frame (rc_type r) (rc_flags r) (rec_header_size r) (rc_alignment_log2 r) (zlen (rc_payload r)) (rc_sequence r)
    offset (offset + rec_header_size r) (offset + (rec_header_size r + zlen (rc_payload r)))
    (offset + rec_padded r) (offset + rec_padded r + 4) depth.

Lemma rec_sizes r : rec_typed r -> zlen (rc_payload r) < 2 ^ 64 ->
  10 <= rec_header_size r <= 28 /\
  rec_header_size r + zlen (rc_payload r) <= rec_padded r < rec_header_size r + zlen (rc_payload r) + 16 /\
  zlen (record_body (rc_type r) (rc_flags r) (rc_alignment_log2 r) (rc_sequence r) (rc_payload r)) = rec_padded r /\
  zlen (rec_bytes r) = rec_padded r + 4.
Proof.
  intros (Ht & Hf & Ha & Hs) Hm. pose proof (zlen_nonneg (rc_payload r)).
  pose proof (header_size_range (zlen (rc_payload r)) (rc_sequence r) ltac:(zlia) Hs) as Hh. fold (rec_header_size r) in Hh.
  pose proof (padded_bounds (rec_header_size r) (zlen (rc_payload r)) (rc_alignment_log2 r) ltac:(lia) ltac:(lia) Ha) as Hp.
  fold (rec_padded r) in Hp.
  assert (Hb : zlen (record_body (rc_type r) (rc_flags r) (rc_alignment_log2 r) (rc_sequence r) (rc_payload r)) = rec_padded r).
  { unfold record_body. rewrite !zlen_app, zlen_prefix. fold (rec_header_size r). unfold padding_of.
    change (align_up (rec_header_size r + zlen (rc_payload r)) (2 ^ rc_alignment_log2 r)) with (rec_padded r).
    unfold zlen at 2. rewrite length_replicate. lia. }
  repeat split; try lia; try exact Hb. unfold rec_bytes, record_bytes. rewrite zlen_app, Hb, zlen_le_bytes. lia.
Qed.

Lemma p_prefix_written r rest : rec_typed r -> zlen (rc_payload r) < 2 ^ 64 ->
  p_prefix (prefix_bytes (rc_type r) (rc_flags r) (rc_alignment_log2 r) (rc_sequence r) (zlen (rc_payload r)) ++ rest) =
    Some ((rc_type r, rc_flags r, rec_header_size r, rc_alignment_log2 r, (zlen (rc_payload r), rc_sequence r)), rest).
Proof.
  intros Hr Hm. pose proof (rec_sizes r Hr Hm) as (Hh & _). destruct Hr as (Ht & Hf & Ha & Hs).
  pose proof (zlen_nonneg (rc_payload r)). assert (Hp : is_u64 (zlen (rc_payload r))) by zlia.
  unfold prefix_bytes. fold (rec_header_size r).
  change [byte_of_Z (rc_alignment_log2 r); x00] with (le_bytes 1 (rc_alignment_log2 r) ++ le_bytes 1 0).
  rewrite <- !app_assoc. unfold p_prefix, p_prefix_head, p_prefix_tail, mbind, parser_bind, mret, parser_ret.
  read_back. reflexivity.
Qed.

Lemma slice_middle (before x after : list byte) e :
  zlen before + zlen x <= e <= zlen (before ++ x ++ after) ->
  exists rest, slice (before ++ x ++ after) (zlen before) (e - zlen before) = x ++ rest.
Proof.
  intros He. pose proof (zlen_nonneg before). pose proof (zlen_nonneg x). rewrite slice_app_r, Z.sub_diag by lia.
  replace (e - zlen before) with (zlen x + (e - zlen before - zlen x)) by lia. rewrite slice_split by lia.
  rewrite slice_app_l, slice_full by lia. eauto.
Qed.

(** The prefix and the padding of a written record. *)
Definition rec_head (r : rec) : list byte :=
  prefix_bytes (rc_type r) (rc_flags r) (rc_alignment_log2 r) (rc_sequence r) (zlen (rc_payload r)).
Definition rec_padding (r : rec) : list byte := padding_of (rc_alignment_log2 r) (rec_header_size r + zlen (rc_payload r)).

(** The framing looks at the prefix and at how much follows. *)
Lemma frame_head_written r before tail e depth :
  rec_typed r -> zlen (before ++ rec_head r ++ tail) < 2 ^ 64 -> zlen (rc_payload r) < 2 ^ 64 ->
  zlen before + rec_padded r + 4 <= e <= zlen (before ++ rec_head r ++ tail) ->
  frame_of (slice (before ++ rec_head r ++ tail) (zlen before) (e - zlen before)) e (zlen before) depth =
    Framed (rec_frame r (zlen before) depth).
Proof.
  intros Hr Hm Hpm He. rewrite !zlen_app in Hm. pose proof (zlen_nonneg before). pose proof (zlen_nonneg tail).
  pose proof (rec_sizes r Hr Hpm) as (Hh & Hp & _). pose proof Hr as (Ht & Hf & Ha & Hs). pose proof (zlen_nonneg (rc_payload r)).
  assert (Hz : zlen (rec_head r) = rec_header_size r) by apply zlen_prefix.
  destruct (slice_middle before (rec_head r) tail e ltac:(lia)) as [rest ->]. unfold frame_of, rec_head.
  rewrite p_prefix_written by assumption. rewrite zlen_app. fold (rec_head r). rewrite Hz.
  rewrite Z.add_simpl_r, Z.eqb_refl. rewrite (proj2 (Z.ltb_ge _ _)) by lia. cbn [negb orb].
  rewrite !zlen_app in He.
  rewrite record_ends_spec by zlia. fold (rec_padded r). rewrite (proj2 (Z.leb_le _ _)) by lia.
  rewrite (proj2 (Z.ltb_ge _ _)) by lia. reflexivity.
Qed.

Lemma slice_at (a b c : list byte) off n : off = zlen a -> n = zlen b -> slice (a ++ b ++ c) off n = b.
Proof.
  intros -> ->. pose proof (zlen_nonneg a). pose proof (zlen_nonneg b).
  rewrite slice_app_r, Z.sub_diag, slice_app_l by lia. apply slice_full.
Qed.

Lemma first_nonzero_zeros i n : first_nonzero i (replicate n x00) = None.
Proof. revert i. induction n as [|n IH]; intros i; [reflexivity|]. cbn. apply IH. Qed.

(** The four parts of a written record. *)
Lemma rec_bytes_parts r : rec_typed r -> zlen (rc_payload r) < 2 ^ 64 ->
  let body := rec_head r ++ rc_payload r ++ rec_padding r in
  rec_bytes r = rec_head r ++ rc_payload r ++ rec_padding r ++ le_bytes 4 (crc32c body) /\
  zlen (rec_head r) = rec_header_size r /\ zlen (rec_padding r) = rec_padded r - (rec_header_size r + zlen (rc_payload r)) /\
  zlen body = rec_padded r.
Proof.
  intros Hr Hm. cbv zeta. destruct (rec_sizes r Hr Hm) as (Hh & Hp & Hb & _). unfold rec_head, rec_padding.
  unfold rec_bytes, record_bytes. unfold record_body in *. rewrite zlen_prefix in *. fold (rec_header_size r) in *.
  split; [rewrite <- !app_assoc; reflexivity|]. split; [reflexivity|]. split; [|exact Hb].
  rewrite !zlen_app, zlen_prefix in Hb. fold (rec_header_size r) in Hb. lia.
Qed.

Lemma payload_below_record r : rec_typed r -> zlen (rec_bytes r) < 2 ^ 64 -> zlen (rc_payload r) < 2 ^ 64.
Proof.
  intros Hr Hm. unfold rec_bytes, record_bytes, record_body in Hm. rewrite !zlen_app in Hm.
  pose proof (zlen_nonneg (prefix_bytes (rc_type r) (rc_flags r) (rc_alignment_log2 r) (rc_sequence r) (zlen (rc_payload r)))).
  match goal with _ : context [zlen (padding_of ?a ?b)] |- _ => pose proof (zlen_nonneg (padding_of a b)) end.
  rewrite zlen_le_bytes in Hm. lia.
Qed.

Lemma frame_written r before after e depth :
  rec_typed r -> zlen (before ++ rec_bytes r ++ after) < 2 ^ 64 ->
  zlen before + zlen (rec_bytes r) <= e <= zlen (before ++ rec_bytes r ++ after) ->
  frame_of (slice (before ++ rec_bytes r ++ after) (zlen before) (e - zlen before)) e (zlen before) depth =
    Framed (rec_frame r (zlen before) depth).
Proof.
  intros Hr Hm He. pose proof (zlen_nonneg before). pose proof (zlen_nonneg after).
  assert (Hpm : zlen (rc_payload r) < 2 ^ 64) by (apply payload_below_record; [exact Hr|rewrite !zlen_app in Hm; lia]).
  destruct (rec_sizes r Hr Hpm) as (_ & _ & _ & Hz). destruct (rec_bytes_parts r Hr Hpm) as (Hparts & _).
  rewrite Hz in He. rewrite Hparts, <- app_assoc in *. apply frame_head_written; assumption || lia.
Qed.

Lemma payload_written r before after depth :
  rec_typed r -> zlen (rc_payload r) < 2 ^ 64 ->
  payload_of (before ++ rec_bytes r ++ after) (rec_frame r (zlen before) depth) = rc_payload r.
Proof.
  intros Hr Hm. destruct (rec_bytes_parts r Hr Hm) as (-> & Hh & _). unfold payload_of. cbn [fr_payload_offset fr_payload_size rec_frame].
  rewrite <- !app_assoc. rewrite (app_assoc before). apply slice_at; [rewrite zlen_app; lia|reflexivity].
Qed.

(** The integrity of a record framed as [r], whatever is in the place of its payload
    and of its CRC. *)
Lemma integrity_framed r before payload crc after depth :
  rec_typed r -> zlen (rc_payload r) < 2 ^ 64 -> zlen payload = zlen (rc_payload r) -> zlen crc = 4 ->
  integrity_of (before ++ rec_head r ++ payload ++ rec_padding r ++ crc ++ after) (rec_frame r (zlen before) depth) =
    if le_Z crc =? crc32c (rec_head r ++ payload ++ rec_padding r) then None
    else Some (TIDE_STATUS_INTEGRITY, zlen before + rec_padded r, "record crc mismatch"%string).
Proof.
  intros Hr Hm Hp Hc. destruct (rec_bytes_parts r Hr Hm) as (_ & Hh & Hpad & Hb).
  set (data := before ++ _). unfold integrity_of. cbn [fr_payload_end fr_padding_end fr_offset rec_frame].
  assert (H1 : slice data (zlen before + (rec_header_size r + zlen (rc_payload r)))
      (zlen before + rec_padded r - (zlen before + (rec_header_size r + zlen (rc_payload r)))) = rec_padding r).
  { unfold data. rewrite (app_assoc before), (app_assoc (before ++ rec_head r)). apply slice_at; [rewrite !zlen_app; lia|lia]. }
  assert (H2 : slice data (zlen before + rec_padded r) 4 = crc).
  { unfold data. rewrite (app_assoc before), (app_assoc (before ++ rec_head r)), (app_assoc ((before ++ rec_head r) ++ _)).
    apply slice_at; [rewrite !zlen_app; lia|auto]. }
  assert (H3 : slice data (zlen before) (zlen before + rec_padded r - zlen before) = rec_head r ++ payload ++ rec_padding r).
  { unfold data. rewrite (app_assoc payload), (app_assoc (rec_head r)). apply slice_at; [reflexivity|rewrite !zlen_app; lia]. }
  rewrite H1, H2, H3. unfold rec_padding at 1, padding_of. rewrite first_nonzero_zeros. reflexivity.
Qed.

Lemma record_error_framed limits r data depth (before : list byte) :
  rec_typed r -> zlen (rc_payload r) <= max_payload_size limits -> rec_padded r + 4 <= max_record_size limits ->
  record_error limits data (rec_frame r (zlen before) depth) = integrity_of data (rec_frame r (zlen before) depth).
Proof.
  intros Hr Hpl Hrl. unfold record_error. cbn [fr_payload_size fr_crc_end fr_offset rec_frame].
  rewrite (proj2 (Z.ltb_ge _ _)) by lia. rewrite (proj2 (Z.ltb_ge _ _)) by lia. reflexivity.
Qed.

Lemma record_error_written limits r before after depth :
  rec_typed r -> zlen (rc_payload r) < 2 ^ 64 ->
  zlen (rc_payload r) <= max_payload_size limits -> zlen (rec_bytes r) <= max_record_size limits ->
  record_error limits (before ++ rec_bytes r ++ after) (rec_frame r (zlen before) depth) = None.
Proof.
  intros Hr Hm Hpl Hrl. destruct (rec_sizes r Hr Hm) as (_ & _ & _ & Hz). rewrite record_error_framed by (assumption || lia).
  destruct (rec_bytes_parts r Hr Hm) as (-> & _). rewrite <- !app_assoc.
  rewrite integrity_framed by (auto; apply zlen_le_bytes). rewrite le_Z_le_bytes, Z.mod_small by apply crc32c_u32.
  rewrite Z.eqb_refl. reflexivity.
Qed.

(** ** A whole file *)

(** The loop on a record that was written. *)
Lemma parse_written {U} limits (callbacks : tide_callbacks U) r before after depth fuel s :
  rec_typed r -> zlen (before ++ rec_bytes r ++ after) < 2 ^ 64 ->
  zlen (rc_payload r) <= max_payload_size limits -> zlen (rec_bytes r) <= max_record_size limits ->
  tide_parse_records limits callbacks (S fuel) (before ++ rec_bytes r ++ after) (zlen before)
      (zlen (before ++ rec_bytes r ++ after)) depth s =
    (st ← process limits callbacks (tide_parse_records limits callbacks fuel) (before ++ rec_bytes r ++ after)
            (rec_frame r (zlen before) depth);
     if negb (bool_decide (st = TIDE_STATUS_OK)) then mret st
     else
       _ ← write_valid_prefix (zlen (before ++ rec_bytes r));
       tide_parse_records limits callbacks fuel ((before ++ rec_bytes r) ++ after) (zlen (before ++ rec_bytes r))
         (zlen ((before ++ rec_bytes r) ++ after)) depth) s.
Proof.
  intros Hr Hm Hpl Hrl. pose proof Hm as Hm'. rewrite !zlen_app in Hm'.
  pose proof (zlen_nonneg before). pose proof (zlen_nonneg after).
  assert (Hpm : zlen (rc_payload r) < 2 ^ 64) by (apply payload_below_record; [exact Hr|lia]).
  destruct (rec_sizes r Hr Hpm) as (Hh & Hp & _ & Hz). pose proof (zlen_nonneg (rc_payload r)).
  rewrite parse_step by (rewrite ?zlen_app; lia). unfold round.
  rewrite frame_written by (try assumption; rewrite ?zlen_app; lia).
  rewrite record_error_written by assumption. rewrite <- app_assoc.
  cbn [fr_crc_end rec_frame]. rewrite !zlen_app. replace (zlen before + rec_padded r + 4) with (zlen before + zlen (rec_bytes r)) by lia.
  reflexivity.
Qed.

(** What a producer writes: descriptors and packets. *)
Inductive item : Set :=
  | Stream_item (stream : tide_stream_info) (config : list byte)
  | Packet_item (packet : tide_packet_info) (payload : list byte).

Definition item_payload (i : item) : list byte :=
  match i with Stream_item s config => stream_bytes s config | Packet_item p payload => packet_bytes p payload end.
Definition item_type (i : item) : Z :=
  match i with Stream_item _ _ => TIDE_RECORD_STREAM_DESC | Packet_item _ _ => TIDE_RECORD_PACKET end.
Definition item_record (alignment_log2 sequence : Z) (i : item) : rec :=
  mk_rec (item_type i) 0 alignment_log2 sequence (item_payload i).

(** The records of [items], numbered from [sequence]. *)
Fixpoint item_records (alignment_log2 sequence : Z) (items : list item) : list rec :=
  match items with
  | [] => []
  | i :: items => item_record alignment_log2 sequence i :: item_records alignment_log2 (sequence + 1) items
  end.

Definition recs_bytes (rs : list rec) : list byte := concat (map rec_bytes rs).

(** The descriptors and packets are acceptable one after the other, [tracks]
    being the descriptors before them. *)
Fixpoint items_ok (limits : tide_limits) (tracks : list tide_track_snapshot) (items : list item) : Prop :=
  match items with
  | [] => True
  | Stream_item s config :: items =>
      stream_args s config /\ reduced (si_time_base s) = true /\
      known tracks (si_track_id s) (si_generation s) = false /\ zlen tracks < max_tracks limits /\
      items_ok limits (tracks ++ [snapshot s]) items
  | Packet_item p payload :: items =>
      packet_args p payload /\ 0 <= pk_duration p /\ known tracks (pk_track_id p) (pk_generation p) = true /\
      items_ok limits tracks items
  end.

(** What the decoder hands over for an item: the value, without its lease. *)
Definition hand_over {U} (callbacks : tide_callbacks U) (r : rec) (offset depth : Z) (i : item) (user : U) : U :=
  let user := match on_record callbacks with
              | None => user | Some f => (f (record_event (rec_frame r offset depth)) user).2 end in
  match i with
  | Stream_item s _ => match on_stream callbacks with None => user | Some f => (f s user).2 end
  | Packet_item p _ => match on_packet callbacks with None => user | Some f => (f (unleased p) user).2 end
  end.

Fixpoint hand_over_all {U} (callbacks : tide_callbacks U) (alignment_log2 sequence offset : Z) (items : list item) (user : U) : U :=
  match items with
  | [] => user
  | i :: items =>
    let r := item_record alignment_log2 sequence i in
    hand_over_all callbacks alignment_log2 (sequence + 1) (offset + zlen (rec_bytes r)) items
      (hand_over callbacks r offset 0 i user)
  end.

(** The callbacks answer [OK] to an item, and to all items one after the other. *)
Definition answers {U} (callbacks : tide_callbacks U) (r : rec) (offset depth : Z) (i : item) (user : U) : Prop :=
  let event := record_event (rec_frame r offset depth) in
  (forall f, on_record callbacks = Some f -> (f event user).1 = TIDE_STATUS_OK) /\
  let user := match on_record callbacks with None => user | Some f => (f event user).2 end in
  match i with
  | Stream_item s _ => forall f, on_stream callbacks = Some f -> (f s user).1 = TIDE_STATUS_OK
  | Packet_item p _ => forall f, on_packet callbacks = Some f -> (f (unleased p) user).1 = TIDE_STATUS_OK
  end.

Fixpoint all_answer {U} (callbacks : tide_callbacks U) (alignment_log2 sequence offset : Z) (items : list item) (user : U) : Prop :=
  match items with
  | [] => True
  | i :: items =>
    let r := item_record alignment_log2 sequence i in
    answers callbacks r offset 0 i user /\
    all_answer callbacks alignment_log2 (sequence + 1) (offset + zlen (rec_bytes r)) items
      (hand_over callbacks r offset 0 i user)
  end.

(** Callbacks that always answer [OK]. *)
Definition accepting {U} (callbacks : tide_callbacks U) : Prop :=
  (forall f e u, on_record callbacks = Some f -> (f e u).1 = TIDE_STATUS_OK) /\
  (forall f x u, on_stream callbacks = Some f -> (f x u).1 = TIDE_STATUS_OK) /\
  (forall f p u, on_packet callbacks = Some f -> (f p u).1 = TIDE_STATUS_OK).

Definition tracks_after (tracks : list tide_track_snapshot) (i : item) : list tide_track_snapshot :=
  match i with Stream_item s _ => tracks ++ [snapshot s] | Packet_item _ _ => tracks end.

Lemma accepting_all_answer {U} (callbacks : tide_callbacks U) al items : accepting callbacks ->
  forall sq offset user, all_answer callbacks al sq offset items user.
Proof.
  intros (H1 & H2 & H3). induction items as [|i items IH]; intros sq offset user; [exact I|]. cbn [all_answer]. split; [|apply IH].
  split; [auto|]. destruct i; auto.
Qed.

Lemma call_accepting {U X} (cb : option (X -> U -> tide_status * U)) x s :
  (forall f, cb = Some f -> (f x (ps_user s)).1 = TIDE_STATUS_OK) -> call cb x s = Done (TIDE_STATUS_OK, after cb x s).
Proof.
  intros H. unfold call, after. destruct cb as [f|]; [|reflexivity]. specialize (H f eq_refl).
  destruct (f x (ps_user s)) as [st u]. cbn in *. subst. reflexivity.
Qed.

Section file.
Context {U : Type} (limits : tide_limits) (callbacks : tide_callbacks U) (Hlim : limits_typed limits).

Lemma add_track_ok stream off (s : pstate U) :
  stable limits s -> known (ps_tracks s) (si_track_id stream) (si_generation stream) = false ->
  zlen (ps_tracks s) < max_tracks limits ->
  exists s', tide_add_track limits stream off s = Done (TIDE_STATUS_OK, s') /\ stable limits s' /\
    ps_tracks s' = ps_tracks s ++ [snapshot stream] /\ ps_user s' = ps_user s /\ ps_error s' = ps_error s.
Proof.
  intros ((He & Hp & Hc & Hcap) & Hh) Hk Hmax. unfold tide_add_track. rewrite Hk, Z.geb_leb, (proj2 (Z.leb_gt _ _)) by lia.
  assert (Hstore : forall c, zlen (ps_tracks s) < c <= Z.max 8 (2 * max_tracks limits) ->
    exists s', store_track stream (set_tracks (ps_tracks s) c [] s) = Done (TIDE_STATUS_OK, s') /\ stable limits s' /\
      ps_tracks s' = ps_tracks s ++ [snapshot stream] /\ ps_user s' = ps_user s /\ ps_error s' = ps_error s).
  { intros c Hc'. unfold store_track, assert_def. cbn [ps_tracks ps_track_capacity set_tracks].
    rewrite (proj2 (Z.ltb_lt _ _)) by lia. rewrite bind_done. eexists. split; [reflexivity|].
    split; [|auto]. split; [|reflexivity]. unfold ready. cbn. rewrite zlen_app. change (zlen [_]) with 1.
    repeat split; auto; lia. }
  pose proof (zlen_nonneg (ps_tracks s)). destruct Hlim as (_ & _ & _ & _ & _ & _ & Hmt & _).
  destruct (Z.eqb_spec (zlen (ps_tracks s)) (ps_track_capacity s)) as [Hfull|Hfull].
  2: { destruct (Hstore (ps_track_capacity s)) as (s' & H'); [lia|]. exists s'. rewrite <- Hh in H'. destruct s. exact H'. }
  set (next := if ps_track_capacity s =? 0 then 8 else ps_track_capacity s *u 2).
  assert (Hnext : zlen (ps_tracks s) < next <= Z.max 8 (2 * max_tracks limits)).
  { unfold next. destruct (Z.eqb_spec (ps_track_capacity s) 0); [lia|]. rewrite wrap64_small by zlia. lia. }
  unfold assert_def, TRACK_SNAPSHOT_SIZE. rewrite (proj2 (Z.leb_le _ _)) by zlia. rewrite bind_done, Hh. cbn [alloc negb].
  apply Hstore. exact Hnext.
Qed.

Lemma stable_after {X} (cb : option (X -> U -> tide_status * U)) x s :
  stable limits s -> stable limits (ParseRule.after cb x s) /\ ps_tracks (ParseRule.after cb x s) = ps_tracks s /\
    ps_error (ParseRule.after cb x s) = ps_error s /\
    ps_user (ParseRule.after cb x s) = match cb with None => ps_user s | Some f => (f x (ps_user s)).2 end.
Proof. intros [Hs Hh]. unfold ParseRule.after. destruct cb; [|split; [split|]; auto]. split; [split; [exact Hs|exact Hh]|auto]. Qed.

(** The process step on an item. *)
Lemma process_item al sq i before after pr s :
  let r := item_record al sq i in
  rec_typed r -> zlen (rc_payload r) < 2 ^ 64 -> stable limits s -> items_ok limits (ps_tracks s) [i] ->
  answers callbacks r (zlen before) 0 i (ps_user s) ->
  exists s', process limits callbacks pr (before ++ rec_bytes r ++ after) (rec_frame r (zlen before) 0) s
      = Done (TIDE_STATUS_OK, s') /\ stable limits s' /\ ps_tracks s' = tracks_after (ps_tracks s) i /\
    ps_user s' = hand_over callbacks r (zlen before) 0 i (ps_user s) /\ ps_error s' = ps_error s.
Proof.
  intros r Hr Hm Hs Hi [Hrecord Hbody]. unfold process.
  assert (Hskip : is_skippable (rec_frame r (zlen before) 0) = false) by (destruct i; reflexivity). rewrite Hskip.
  unfold mbind, parse_bind. rewrite call_accepting by exact Hrecord.
  rewrite bool_decide_eq_true_2 by reflexivity. cbn [negb].
  destruct (stable_after (on_record callbacks) (record_event (rec_frame r (zlen before) 0)) s Hs) as (Hs1 & Htr & Her & Hu).
  set (s1 := ParseRule.after (on_record callbacks) _ s) in *. unfold act, action_of.
  rewrite (payload_written r before after 0 Hr Hm), Htr. unfold hand_over. cbv zeta in Hbody. rewrite <- Hu, <- Her, <- Htr in *. clear Hu Her.
  destruct i as [stream config|packet payload]; cbn [items_ok] in Hi; cbn [r item_record rec_frame fr_type rc_type item_type rc_payload item_payload].
  - destruct Hi as (Ha & Hred & Hk & Hmax & _). change (TIDE_RECORD_STREAM_DESC =? TIDE_RECORD_GROUP) with false.
    rewrite Z.eqb_refl. rewrite (c_stream_bytes stream config Ha Hred). cbn [body_action perform].
    edestruct (add_track_ok stream) as (s2 & Hadd & Hs2 & Ht2 & Hu2 & He2); [exact Hs1|exact Hk|exact Hmax|].
    unfold mbind, parse_bind. rewrite Hadd. rewrite bool_decide_eq_true_2 by reflexivity. cbn [negb].
    rewrite call_accepting by (rewrite Hu2; exact Hbody). eexists. split; [reflexivity|].
    destruct (stable_after (on_stream callbacks) stream s2 Hs2) as (Hs3 & Ht3 & He3 & Hu3).
    rewrite Ht3, Hu3, He3, Ht2, Hu2, He2. auto.
  - destruct Hi as (Ha & Hdur & Hk & _). change (TIDE_RECORD_PACKET =? TIDE_RECORD_GROUP) with false.
    change (TIDE_RECORD_PACKET =? TIDE_RECORD_STREAM_DESC) with false.
    rewrite Z.eqb_refl. rewrite (c_packet_bytes _ packet payload Ha Hdur Hk). cbn [body_action perform].
    rewrite call_accepting by exact Hbody. eexists. split; [reflexivity|].
    destruct (stable_after (on_packet callbacks) (unleased packet) s1 Hs1) as (Hs3 & Ht3 & He3 & Hu3).
    rewrite Ht3, Hu3, He3. auto.
Qed.

Definition rec_fits (r : rec) : Prop :=
  rec_typed r /\ zlen (rc_payload r) <= max_payload_size limits /\ zlen (rec_bytes r) <= max_record_size limits.

Fixpoint tracks_of (tracks : list tide_track_snapshot) (items : list item) : list tide_track_snapshot :=
  match items with [] => tracks | i :: items => tracks_of (tracks_after tracks i) items end.

Lemma recs_cons r rs : recs_bytes (r :: rs) = rec_bytes r ++ recs_bytes rs.
Proof. reflexivity. Qed.

(** The loop over written items, up to what follows them. *)
Lemma parse_items al items : forall sq before after s,
  let data := before ++ recs_bytes (item_records al sq items) ++ after in
  let stop := zlen (before ++ recs_bytes (item_records al sq items)) in
  zlen data < 2 ^ 64 -> Forall rec_fits (item_records al sq items) -> items_ok limits (ps_tracks s) items ->
  stable limits s -> ps_valid_prefix s = Some (zlen before) -> all_answer callbacks al sq (zlen before) items (ps_user s) ->
  exists s', tide_parse_records limits callbacks (parse_fuel (zlen data)) data (zlen before) (zlen data) 0 s =
      tide_parse_records limits callbacks (parse_fuel (zlen data)) data stop (zlen data) 0 s' /\
    stable limits s' /\ ps_valid_prefix s' = Some stop /\ ps_tracks s' = tracks_of (ps_tracks s) items /\
    ps_user s' = hand_over_all callbacks al sq (zlen before) items (ps_user s) /\ ps_error s' = ps_error s.
Proof.
  induction items as [|i items IH]; intros sq before after s data stop Hm Hfit Hi Hs Hp Hans.
  { exists s. unfold data, stop. change (recs_bytes (item_records al sq [])) with (@nil byte). rewrite app_nil_r.
    split; [reflexivity|]. repeat (split; [assumption || reflexivity|]). reflexivity. }
  cbn [item_records all_answer] in *. destruct Hans as [Hans Hans']. inversion Hfit as [|? ? (Hr & Hpl & Hrl) Hfit']; subst.
  set (r := item_record al sq i) in *. set (rest := recs_bytes (item_records al (sq + 1) items)) in *.
  assert (Hd : data = before ++ rec_bytes r ++ rest ++ after) by (unfold data; rewrite recs_cons, <- app_assoc; reflexivity).
  assert (Hst : stop = zlen ((before ++ rec_bytes r) ++ rest)) by (unfold stop; rewrite recs_cons, <- app_assoc; reflexivity).
  clearbody data stop. subst data stop.
  assert (Hpm : zlen (rc_payload r) < 2 ^ 64) by (destruct Hlim as (_ & _ & H' & _); zlia).
  destruct (rec_sizes r Hr Hpm) as (Hh & Hpd & _ & Hz). pose proof (zlen_nonneg (rc_payload r)).
  destruct (process_item al sq i before (rest ++ after) (tide_parse_records limits callbacks (Z.to_nat (zlen (before ++ rec_bytes r ++ rest ++ after)))) s Hr Hpm Hs)
    as (s1 & Hproc & Hs1 & Ht1 & Hu1 & He1).
  { destruct i; cbn [items_ok] in *; tauto. }
  { exact Hans. }
  unfold parse_fuel at 1. rewrite parse_written by assumption. fold r in Hproc. unfold mbind at 1, parse_bind at 1. rewrite Hproc.
  rewrite bool_decide_eq_true_2 by reflexivity. cbn [negb]. unfold mbind at 1, parse_bind at 1.
  destruct (write_prefix limits (zlen (before ++ rec_bytes r)) s1 Hs1) as [-> Hs2].
  destruct (IH (sq + 1) (before ++ rec_bytes r) after (set_prefix (zlen (before ++ rec_bytes r)) s1)) as (s' & Heq & Hs' & Hp' & Ht' & Hu' & He').
  - fold rest. rewrite <- app_assoc. exact Hm.
  - exact Hfit'.
  - cbn [ps_tracks set_prefix]. rewrite Ht1. destruct i; cbn [items_ok tracks_after] in *; tauto.
  - exact Hs2.
  - reflexivity.
  - cbn [ps_user set_prefix]. rewrite Hu1, zlen_app. exact Hans'.
  - fold rest in Heq, Hp'. exists s'. rewrite <- !app_assoc in Heq. rewrite <- !app_assoc in Hp'. rewrite <- !app_assoc.
    split; [|split; [exact Hs'|split; [exact Hp'|]]].
    + rewrite <- Heq. rewrite !zlen_app in Hm. pose proof (zlen_nonneg before). pose proof (zlen_nonneg rest). pose proof (zlen_nonneg after).
      apply parse_ext; rewrite ?zlen_app; unfold parse_fuel; try lia. reflexivity.
    + rewrite Ht', Hu', He'. cbn [ps_tracks ps_user ps_error set_prefix tracks_of hand_over_all]. rewrite Ht1, Hu1, He1.
      fold r. rewrite zlen_app. auto.
Qed.
End file.

(** The decoder on a written header and what follows it. *)
Lemma parse_behind_header {U} limits (callbacks : tide_callbacks U) base uuid tail user e0 v0 :
  let file := header_bytes base uuid ++ tail in
  rational_typed base -> reduced base = true -> zlen uuid = 16 -> uuid <> replicate 16 x00 ->
  64 * 1024 * 1024 <= max_record_size limits -> zlen file < 2 ^ 64 ->
  tide_parse_tide_bytes (Some file) (zlen file) true (Some limits) (Some callbacks) user (Some e0) (Some v0) [] =
    '(st, s) ← tide_parse_records limits callbacks (parse_fuel (zlen file)) file (zlen (header_bytes base uuid)) (zlen file) 0 (start_state user []);
    Done (if bool_decide (st = TIDE_STATUS_TRUNCATED) then TIDE_STATUS_PARTIAL else st, s).
Proof.
  intros file Hb Hr Hu Hne Hhint Hm. pose proof (zlen_header base uuid Hu) as Hh. pose proof (zlen_nonneg tail).
  rewrite parse_bytes_header by (unfold file, TIDE_HEADER_SIZE; rewrite zlen_app in *; lia).
  change (default tide_limits_default (Some limits)) with limits. change (default no_callbacks (Some callbacks)) with callbacks.
  assert (Hhead : slice file 0 TIDE_HEADER_SIZE = header_bytes base uuid).
  { unfold file. rewrite slice_app_l by (unfold TIDE_HEADER_SIZE; lia). unfold TIDE_HEADER_SIZE. rewrite <- Hh. apply slice_full. }
  rewrite Hhead, header_verdict_written by assumption. rewrite Hh. unfold TIDE_HEADER_SIZE.
  destruct (tide_parse_records _ _ _ _ _ _ _ _) as [[st s]| |]; [|reflexivity..]. rewrite !bind_done, andb_true_r. reflexivity.
Qed.

(** C1: a file that consists of a header and of the records of descriptors and
    packets, each acceptable after those before it, decodes with [OK]: the
    callbacks are called exactly once per item, in order, with the record event
    and the very descriptor or packet that was written, the track table holds
    the descriptors and the valid prefix is the whole file. *)
Theorem decode_written_file {U} (limits : tide_limits) (callbacks : tide_callbacks U) (base : tide_rational)
    (uuid : list byte) (al sq : Z) (items : list item) (user : U) (e0 : tide_error) (v0 : Z) :
  let file := header_bytes base uuid ++ recs_bytes (item_records al sq items) in
  limits_typed limits -> accepting callbacks -> rational_typed base -> reduced base = true -> zlen uuid = 16 ->
  uuid <> replicate 16 x00 -> 64 * 1024 * 1024 <= max_record_size limits ->
  zlen file < 2 ^ 64 -> Forall (rec_fits limits) (item_records al sq items) -> items_ok limits [] items ->
  exists s, tide_parse_tide_bytes (Some file) (zlen file) true (Some limits) (Some callbacks) user (Some e0) (Some v0) []
      = Done (TIDE_STATUS_OK, s) /\
    ps_user s = hand_over_all callbacks al sq TIDE_HEADER_SIZE items user /\
    ps_tracks s = tracks_of [] items /\ ps_valid_prefix s = Some (zlen file) /\ ps_error s = Some zero_error.
Proof.
  intros file Hl Hcb Hb Hr Hu Hne Hhint Hm Hfit Hi.
  pose proof (parse_behind_header limits callbacks base uuid (recs_bytes (item_records al sq items)) user e0 v0 Hb Hr Hu Hne Hhint Hm) as Hrun.
  cbv zeta in Hrun. fold file in Hrun. rewrite Hrun.
  pose proof (parse_items limits callbacks Hl al items sq (header_bytes base uuid) [] (start_state user [])) as Hp.
  cbv zeta in Hp. rewrite app_nil_r in Hp. fold file in Hp.
  destruct Hp as (s & Heq & Hs & Hv & Ht & Hus & He); [exact Hm|exact Hfit|exact Hi|apply start_stable|rewrite (zlen_header base uuid Hu); reflexivity|apply accepting_all_answer, Hcb|].
  rewrite Heq. unfold parse_fuel at 1. rewrite parse_done, bind_done. cbv beta iota.
  exists s. split; [reflexivity|]. rewrite (zlen_header base uuid Hu) in Hus. auto.
Qed.

(** C19: [tide_write_record] on a valid buffer always returns; with [OK] the
    buffer holds its old bytes and a record that the decoder frames with the
    type, flags, alignment, sequence and payload given, and whose padding and
    CRC it accepts; otherwise the status is [RESOURCE], and what was appended is
    a part of that record, or nothing when its size overflows; with room for the
    record and no failing allocation the status is [OK]. *)
Theorem tide_write_record_correct {U} (b : tide_buffer) (r : rec) (h : heap) (limits : tide_limits) (depth : Z) (s : pstate U) :
  buffer_wf b -> rec_typed r -> zlen (rc_payload r) < 2 ^ 62 ->
  exists st b' h',
    tide_write_record (Some b) (rc_type r) (rc_flags r) (rc_alignment_log2 r) (rc_sequence r) (Some (rc_payload r))
      (zlen (rc_payload r)) h = Done (st, Some b', h') /\ buffer_wf b' /\
    (st = TIDE_STATUS_OK ->
       let f := rec_frame r (buf_size b) depth in
       buf_data b' = buf_data b ++ rec_bytes r /\
       tide_decode_record_prefix (buf_data b') (buf_size b') (buf_size b) depth s = Done (inr f, s) /\
       tide_validate_record_integrity (buf_data b') f s = Done (TIDE_STATUS_OK, s) /\
       span (buf_data b') (fr_payload_offset f) (fr_payload_size f) = Done (rc_payload r)) /\
    (st <> TIDE_STATUS_OK -> st = TIDE_STATUS_RESOURCE /\ exists k, buf_data b' = buf_data b ++ take k (rec_bytes r)) /\
    (h = [] -> room b (zlen (rec_bytes r)) = true -> st = TIDE_STATUS_OK).
Proof.
  intros Hb Hr Hm. pose proof Hr as (Ht & Hf & Ha & Hs). pose proof (zlen_nonneg (rc_payload r)).
  destruct (rec_sizes r Hr ltac:(lia)) as (Hh & Hp & _ & Hz).
  assert (Hpow : 0 < 2 ^ rc_alignment_log2 r <= 16).
  { split; [apply Z.pow_pos_nonneg; lia|apply (Z.pow_le_mono_r 2 _ 4); lia]. }
  pose proof (write_record_spec b (rc_type r) (rc_flags r) _ _ (rc_payload r) h Hb Hs Ha ltac:(lia)) as Hspec.
  unfold rec_header_size in Hh. rewrite (proj2 (Z.leb_le _ _)) in Hspec by lia. fold (rec_bytes r) in Hspec.
  apply wp_inv in Hspec as (res & -> & st & b' & h' & -> & Hst & Hok). exists st, b', h'. split; [reflexivity|].
  split; [destruct Hst as [(_ & He & _)|(_ & k & _ & He)]; apply He|]. split; [|split].
  - intros ->. destruct Hst as [(_ & He & _)|[? _]]; [|discriminate]. cbv zeta.
    pose proof (extends_size b _ b' Hb He) as Hsz. destruct He as (Hd & _ & (Hs' & Hc' & _) & _). destruct Hb as (Hbs & Hbc & _).
    assert (Hframe := frame_written r (buf_data b) [] (buf_size b') depth Hr). rewrite app_nil_r, <- Hd in Hframe.
    pose proof (zlen_nonneg (buf_data b)). pose proof (zlen_nonneg (rec_bytes r)). specialize (Hframe ltac:(lia) ltac:(lia)). rewrite <- Hbs in Hframe.
    split; [exact Hd|]. split; [rewrite decode_prefix_eq, Hframe by lia; reflexivity|].
    split.
    + apply frame_of_wf in Hframe as (Hw & _); [|zlia]. rewrite (validate_integrity_eq _ _ (buf_size b')) by (assumption || lia).
      pose proof (record_error_written (mk_tide_limits 0 (zlen (rec_bytes r)) (zlen (rc_payload r)) 0 0 0 0 0 0 0) r
        (buf_data b) [] depth Hr ltac:(lia) ltac:(reflexivity) ltac:(reflexivity)) as Hi.
      unfold record_error in Hi. rewrite app_nil_r, <- Hd, <- Hbs in Hi. destruct (_ || _); [discriminate|]. rewrite Hi. reflexivity.
    + pose proof (payload_written r (buf_data b) [] depth Hr ltac:(lia)) as Hpay. rewrite app_nil_r, <- Hd, <- Hbs in Hpay.
      rewrite <- Hpay. unfold payload_of. apply span_done; cbn [fr_payload_offset fr_payload_size rec_frame]; unfold rec_header_size in *; lia.
  - intros Hne. destruct Hst as [[? _]|(-> & k & _ & Hd & _)]; [contradiction|]. eauto.
  - intros -> Hroom. destruct (Hok eq_refl) as [_ H']. auto.
Qed.

Definition sample_rec : rec := mk_rec 0x8001 0 4 77 (map byte_of_Z [1; 2; 3]).

Lemma tide_write_record_correct_witness :
  exists b', tide_write_record (Some (empty_buffer 100)) 0x8001 0 4 77 (Some (map byte_of_Z [1; 2; 3])) 3 [] =
      Done (TIDE_STATUS_OK, Some b', []) /\ zlen (buf_data b') = 20 /\
    tide_validate_record_integrity (buf_data b') (rec_frame sample_rec 0 0) (start_state tt [])
      = Done (TIDE_STATUS_OK, start_state tt []).
Proof.
  destruct (tide_write_record_correct (empty_buffer 100) sample_rec [] tide_limits_default 0 (start_state tt []))
    as (st & b' & h' & Hrun & _ & Hok & _ & Hroom).
  - apply empty_buffer_wf. discriminate.
  - repeat split; discriminate.
  - reflexivity.
  - specialize (Hroom eq_refl eq_refl). subst st. destruct (Hok eq_refl) as (Hd & _ & Hi & _).
    assert (Hrun' := Hrun). vm_compute in Hrun'. injection Hrun' as Hb Hh. subst h'.
    exists b'. split; [exact Hrun|]. split; [rewrite Hd; reflexivity|exact Hi].
Defined.

(** A stream with its configuration and one of its packets. *)
Definition sample_stream : tide_stream_info :=
  mk_stream_info 1 0 2 0x61 (mk_rational 1 1000) (Some (map byte_of_Z [7])) 1.
Definition sample_packet : tide_packet_info :=
  mk_packet_info 1 0 5 (-1) 3 4 1 (mk_payload_view (Some (map byte_of_Z [0xAA; 0xBB])) 2 None).
Definition sample_items : list item :=
  [Stream_item sample_stream (map byte_of_Z [7]); Packet_item sample_packet (map byte_of_Z [0xAA; 0xBB])].
Definition sample_uuid : list byte := x01 :: replicate 15 x00.

Lemma sample_items_ok : items_ok tide_limits_default [] sample_items.
Proof. cbn. repeat split; discriminate. Qed.

Lemma sample_items_fit : Forall (rec_fits tide_limits_default) (item_records 3 1 sample_items).
Proof.
  repeat constructor; unfold rec_typed; try discriminate; cbn; repeat split; discriminate.
Qed.

Lemma counting_accepting : accepting counting.
Proof. split; [|split]; intros f x u [= <-]; reflexivity. Qed.

Lemma decode_written_file_witness :
  let file := header_bytes (mk_rational 1 1000) sample_uuid ++ recs_bytes (item_records 3 1 sample_items) in
  exists s, tide_parse_tide_bytes (Some file) (zlen file) true (Some tide_limits_default) (Some counting) 0
      (Some zero_error) (Some 0) [] = Done (TIDE_STATUS_OK, s) /\ ps_user s = 4 /\ length (ps_tracks s) = 1%nat.
Proof.
  destruct (decode_written_file tide_limits_default counting (mk_rational 1 1000) sample_uuid 3 1 sample_items 0 zero_error 0)
    as (s & Hrun & Hu & Ht & _).
  - apply limits_default_typed.
  - apply counting_accepting.
  - split; split; reflexivity || discriminate.
  - reflexivity.
  - reflexivity.
  - discriminate.
  - discriminate.
  - reflexivity.
  - apply sample_items_fit.
  - apply sample_items_ok.
  - exists s. split; [exact Hrun|]. rewrite Hu, Ht. split; reflexivity.
Defined.
