(* ===== verification/Damage.v ===== *)
(** * Damage to a written file

    A record whose payload was changed after it was written is reported, and
    what lies before it is delivered. *)

From S2P Require Import Prelude Status Checked Buffer Crc Reader Rational Model Frame Validate Header Decoder Parse ParseRule ParseSplit Samples Writer RoundTrip.

(** The bytes of [r] with [payload] in the place of its own. *)
Definition damaged_bytes (r : rec) (payload : list byte) : list byte :=
  rec_head r ++ payload ++ rec_padding r ++ le_bytes 4 (crc32c (rec_head r ++ rc_payload r ++ rec_padding r)).

Lemma undamaged r : rec_typed r -> zlen (rc_payload r) < 2 ^ 64 -> damaged_bytes r (rc_payload r) = rec_bytes r.
Proof. intros Hr Hm. destruct (rec_bytes_parts r Hr Hm) as (-> & _). reflexivity. Qed.

(** The difference of two payloads: a window of at most four bytes. *)
Definition burst (payload payload' : list byte) : Prop :=
  exists p xs ys q, payload = p ++ xs ++ q /\ payload' = p ++ ys ++ q /\ length xs = length ys /\ (length xs <= 4)%nat /\ xs <> ys.

Lemma burst_length payload payload' : burst payload payload' -> zlen payload' = zlen payload.
Proof. intros (p & xs & ys & q & -> & -> & Hl & _). rewrite !zlen_app. unfold zlen. rewrite Hl. reflexivity. Qed.

Lemma burst_crc head payload payload' tail : burst payload payload' ->
  crc32c (head ++ payload ++ tail) <> crc32c (head ++ payload' ++ tail).
Proof.
  intros (p & xs & ys & q & -> & -> & Hl & H4 & Hne). rewrite <- !app_assoc, (app_assoc head p), (app_assoc head p).
  apply crc32c_window; assumption.
Qed.

Section damage.
Context {U : Type} (limits : tide_limits) (callbacks : tide_callbacks U).

(** The loop on a damaged record. *)
Lemma parse_damaged r payload before after depth fuel (s : pstate U) :
  let data := before ++ damaged_bytes r payload ++ after in
  rec_typed r -> zlen data < 2 ^ 64 -> burst (rc_payload r) payload ->
  zlen (rc_payload r) <= max_payload_size limits -> zlen (rec_bytes r) <= max_record_size limits ->
  tide_parse_records limits callbacks (S fuel) data (zlen before) (zlen data) depth s =
    fail_with TIDE_STATUS_INTEGRITY (zlen before + rec_padded r) (rc_type r) depth "record crc mismatch" s.
Proof.
  intros data Hr Hm Hburst Hpl Hrl. pose proof (burst_length _ _ Hburst) as Hz.
  pose proof (zlen_nonneg before). pose proof (zlen_nonneg after). pose proof (zlen_nonneg (rc_payload r)).
  assert (Hdz : zlen (damaged_bytes r payload) = zlen (rec_head r) + zlen (rc_payload r) + zlen (rec_padding r) + 4).
  { unfold damaged_bytes. rewrite !zlen_app, Hz, zlen_le_bytes. lia. }
  pose proof (zlen_nonneg (rec_head r)). pose proof (zlen_nonneg (rec_padding r)).
  assert (Hpm : zlen (rc_payload r) < 2 ^ 64) by (unfold data in Hm; rewrite !zlen_app in Hm; lia).
  destruct (rec_sizes r Hr Hpm) as (Hh & Hp & _ & Hrz). destruct (rec_bytes_parts r Hr Hpm) as (_ & Hhz & Hpz & _).
  assert (Hdata : zlen data = zlen before + (rec_padded r + 4) + zlen after) by (unfold data; rewrite !zlen_app; lia).
  rewrite parse_step by lia. unfold round.
  assert (Ed : data = before ++ rec_head r ++ payload ++ rec_padding r ++
    le_bytes 4 (crc32c (rec_head r ++ rc_payload r ++ rec_padding r)) ++ after).
  { unfold data, damaged_bytes. rewrite <- !app_assoc. reflexivity. }
  rewrite Ed in *. rewrite frame_head_written by (assumption || lia). rewrite record_error_framed by (assumption || lia).
  rewrite integrity_framed by (auto; apply zlen_le_bytes). rewrite le_Z_le_bytes, Z.mod_small by apply crc32c_u32.
  rewrite (proj2 (Z.eqb_neq _ _)) by (apply burst_crc; exact Hburst). reflexivity.
Qed.
End damage.

(** C15: damage does not go unnoticed: when, in a file of descriptors and packets
    (with any bytes behind), the payload of one record is changed inside a
    window of at most four bytes, decoding ends with [INTEGRITY]; all items
    before that record were handed over, and nothing else; the valid prefix
    ends where the record starts, and the error names its CRC. *)
Theorem damaged_record_reported {U} (limits : tide_limits) (callbacks : tide_callbacks U) (base : tide_rational)
    (uuid : list byte) (al sq : Z) (items : list item) (r : rec) (payload after : list byte)
    (user : U) (e0 : tide_error) (v0 : Z) :
  let good := header_bytes base uuid ++ recs_bytes (item_records al sq items) in
  let file := good ++ damaged_bytes r payload ++ after in
  limits_typed limits -> accepting callbacks -> rational_typed base -> reduced base = true -> zlen uuid = 16 ->
  uuid <> replicate 16 x00 -> 64 * 1024 * 1024 <= max_record_size limits -> zlen file < 2 ^ 64 ->
  Forall (rec_fits limits) (item_records al sq items) -> items_ok limits [] items ->
  rec_fits limits r -> burst (rc_payload r) payload ->
  exists s e, tide_parse_tide_bytes (Some file) (zlen file) true (Some limits) (Some callbacks) user (Some e0) (Some v0) []
      = Done (TIDE_STATUS_INTEGRITY, s) /\
    ps_user s = hand_over_all callbacks al sq TIDE_HEADER_SIZE items user /\
    ps_valid_prefix s = Some (zlen good) /\
    ps_error s = Some e /\ err_code e = TIDE_STATUS_INTEGRITY /\ err_offset e = zlen good + rec_padded r.
Proof.
  intros good file Hl Hcb Hb Hr Hu Hne Hhint Hm Hfit Hi (Hrt & Hrp & Hrr) Hburst.
  assert (Ef : file = header_bytes base uuid ++ recs_bytes (item_records al sq items) ++ damaged_bytes r payload ++ after).
  { unfold file, good. rewrite <- app_assoc. reflexivity. }
  clearbody file. subst file. rewrite parse_behind_header by assumption.
  destruct (parse_items limits callbacks Hl al items sq (header_bytes base uuid) (damaged_bytes r payload ++ after) (start_state user []))
    as (s & -> & _ & Hv & _ & Hus & He);
    [exact Hm|exact Hfit|exact Hi|apply start_stable|rewrite (zlen_header base uuid Hu); reflexivity|apply accepting_all_answer, Hcb|].
  pose proof (parse_damaged limits callbacks r payload good after 0) as Hd. cbv zeta in Hd. fold good in Hv |- *. unfold parse_fuel.
  unfold good in Hd at 1 2 4. rewrite <- !app_assoc in Hd. rewrite Hd by assumption. rewrite fail_with_done, bind_done. cbv beta iota.
  rewrite He. eexists _, _. split; [reflexivity|]. cbn [ps_user ps_valid_prefix ps_error set_error start_state].
  rewrite Hus, Hv, (zlen_header base uuid Hu). split; [reflexivity|]. split; [reflexivity|]. split; [reflexivity|]. split; reflexivity.
Qed.

(** Witness: the sample descriptor, and the sample packet with a bit flipped. *)
Lemma damaged_record_reported_witness :
  let good := header_bytes (mk_rational 1 1000) sample_uuid ++ recs_bytes (item_records 3 1 [Stream_item sample_stream (map byte_of_Z [7])]) in
  let r := item_record 3 2 (Packet_item sample_packet (map byte_of_Z [0xAA; 0xBB])) in
  let file := good ++ damaged_bytes r (take 10 (rc_payload r) ++ [x01] ++ drop 11 (rc_payload r)) ++ [] in
  exists s, tide_parse_tide_bytes (Some file) (zlen file) true (Some tide_limits_default) (Some counting) 0
      (Some zero_error) (Some 0) [] = Done (TIDE_STATUS_INTEGRITY, s) /\ ps_user s = 2 /\ ps_valid_prefix s = Some (zlen good).
Proof.
  intros good r file.
  destruct (damaged_record_reported tide_limits_default counting (mk_rational 1 1000) sample_uuid 3 1
    [Stream_item sample_stream (map byte_of_Z [7])] r (take 10 (rc_payload r) ++ [x01] ++ drop 11 (rc_payload r)) [] 0 zero_error 0)
    as (s & e & Hrun & Hu & Hv & _).
  - apply limits_default_typed.
  - apply counting_accepting.
  - split; split; reflexivity || discriminate.
  - reflexivity.
  - reflexivity.
  - discriminate.
  - discriminate.
  - vm_compute. reflexivity.
  - pose proof sample_items_fit as H. inversion H; subst. repeat constructor; assumption || apply H2.
  - cbn. repeat split; discriminate.
  - pose proof sample_items_fit as H. inversion H as [|? ? _ H']; subst. inversion H'; assumption.
  - exists (take 10 (rc_payload r)), [x00], [x01], (drop 11 (rc_payload r)). repeat split; (vm_compute; reflexivity) || discriminate || (cbn; lia).
  - exists s. split; [exact Hrun|]. split; [rewrite Hu; reflexivity|exact Hv].
Defined.
