(* ===== verification/Mux.v ===== *)
(** * The muxer

    [src/mux/mux.c]: a file is built in a buffer, header first, and written out
    when it is closed.  A muxer is [None] when its pointer is null; closing and
    aborting free it.  Of the C library's file functions the model uses the
    results: whether [fopen] and [fclose] succeed and how many of the bytes
    [fwrite] is given it takes.  The packet functions work on the store of
    payload leases, whose allocator is the program's. *)

From S2P Require Import Prelude Status Checked Buffer Crc Reader Rational Model Lease Packet Writer.

Record output_file : Set := mk_output {
  out_open : bool;
  out_write : Z -> Z;
  out_close : bool
}.

Record tide_mux : Set := mk_mux {
  mx_file : option output_file;
  mx_buffer : tide_buffer;
  mx_limits : tide_limits;
  mx_movie_time_base : tide_rational;
  mx_sequence : Z;
  mx_closed : bool;
  mx_write_footer : bool;
  mx_error : tide_error
}.

Record tide_mux_options : Set := mk_mux_options {
  mo_limits : tide_limits;
  mo_movie_time_base : tide_rational;
  mo_write_footer : bool
}.

Definition set_mux_buffer (b : tide_buffer) (m : tide_mux) : tide_mux :=
  mk_mux (mx_file m) b (mx_limits m) (mx_movie_time_base m) (mx_sequence m) (mx_closed m) (mx_write_footer m) (mx_error m).
Definition next_sequence (m : tide_mux) : tide_mux :=
  mk_mux (mx_file m) (mx_buffer m) (mx_limits m) (mx_movie_time_base m) (mx_sequence m +u 1) (mx_closed m)
    (mx_write_footer m) (mx_error m).

Definition tide_mux_set_error (mux : option tide_mux) (status : tide_status) (message : string) : option tide_mux :=
  m ← mux;
  e ← tide_error_set (Some (mx_error m)) status TIDE_SEVERITY_ERROR (buf_size (mx_buffer m)) 0 0 (Some "mux"%string) (Some message);
  Some (mk_mux (mx_file m) (mx_buffer m) (mx_limits m) (mx_movie_time_base m) (mx_sequence m) (mx_closed m) (mx_write_footer m) e).

(** [buffer.data]: null until something is allocated. *)
Definition buffer_ptr (b : tide_buffer) : option (list byte) :=
  if buf_capacity b =? 0 then None else Some (buf_data b).

Definition mux_uuid : list byte := map byte_of_Z
  [0x54; 0x49; 0x44; 0x45; 0x2d; 0x30; 0x30; 0x31; 0x2d; 0x6d; 0x75; 0x78; 0x2d; 0x30; 0x31; 0x00].

(** The zeroed structure with the options filled in. *)
Definition new_mux (file : output_file) (options : option tide_mux_options) : tide_mux :=
  let limits := match options with
                | None => tide_limits_default
                | Some o => if max_record_size (mo_limits o) =? 0 then tide_limits_default else mo_limits o end in
  let base := match options with
              | None => mk_rational 1 1000
              | Some o => if numerator (mo_movie_time_base o) =? 0 then mk_rational 1 1000 else mo_movie_time_base o end in
  mk_mux (Some file) (empty_buffer (max_aggregate_alloc limits)) limits base 0 false
    (match options with None => true | Some o => mo_write_footer o end) zero_error.

(** [out] is [None] when null, and otherwise the cell behind it. *)
Definition tide_mux_create (out : option (option tide_mux)) (path : option output_file) (options : option tide_mux_options)
    (h : heap) : outcome (tide_status * option (option tide_mux) * heap) :=
  match out, path with
  | Some _, Some file =>
    let (ok, h) := alloc h in
    if negb ok then Done (TIDE_STATUS_RESOURCE, Some None, h)
    else if negb (out_open file) then Done (TIDE_STATUS_IO, Some None, h)
    else
      let mux := new_mux file options in
      '(status, buffer, h) ← tide_write_header (Some (mx_buffer mux)) (mx_movie_time_base mux) (Some mux_uuid) h;
      if negb (bool_decide (status = TIDE_STATUS_OK)) then Done (status, Some None, h)
      else buffer ← deref buffer; Done (TIDE_STATUS_OK, Some (Some (set_mux_buffer buffer mux)), h)
  | _, _ => Done (TIDE_STATUS_INVALID_ARGUMENT, out, h)
  end.

(** The record of an encoded payload, if the encoding succeeded; the sequence
    number is taken before the record is written. *)
Definition mux_record (m : tide_mux) (type : Z) (encoded : append_result) : outcome (tide_status * tide_mux * heap) :=
  let '(status, payload, h) := encoded in
  if bool_decide (status = TIDE_STATUS_OK) then
    payload ← deref payload;
    '(status, buffer, h) ← tide_write_record (Some (mx_buffer m)) type 0 3 (mx_sequence m) (buffer_ptr payload) (buf_size payload) h;
    buffer ← deref buffer;
    Done (status, set_mux_buffer buffer (next_sequence m), h)
  else Done (status, m, h).

(** The error is set unless the status is [OK]. *)
Definition mux_done (r : tide_status * tide_mux * heap) (message : string) : tide_status * option tide_mux * heap :=
  let '(status, m, h) := r in
  (status, if negb (bool_decide (status = TIDE_STATUS_OK)) then tide_mux_set_error (Some m) status message else Some m, h).

Definition tide_mux_add_stream (mux : option tide_mux) (stream : option tide_stream_info) (h : heap)
    : outcome (tide_status * option tide_mux * heap) :=
  match mux, stream with
  | Some m, Some stream =>
    if mx_closed m then Done (TIDE_STATUS_INVALID_ARGUMENT, mux, h)
    else
      encoded ← tide_encode_stream_payload (Some (empty_buffer (max_single_alloc (mx_limits m)))) (Some stream) h;
      r ← mux_record m TIDE_RECORD_STREAM_DESC encoded;
      Done (mux_done r "failed to write stream")
  | _, _ => Done (TIDE_STATUS_INVALID_ARGUMENT, mux, h)
  end.

Definition tide_mux_write_packet (mux : option tide_mux) (moved_packet : option tide_packet_ref) (s : lease_store)
    : outcome (tide_status * option tide_mux * option tide_packet_ref * lease_store) :=
  match mux, moved_packet with
  | Some m, Some packet =>
    if mx_closed m then Done (TIDE_STATUS_INVALID_ARGUMENT, mux, moved_packet, s)
    else
      encoded ← tide_encode_packet_payload (Some (empty_buffer (max_single_alloc (mx_limits m)))) (Some (ref_info packet)) (st_heap s);
      r ← mux_record m TIDE_RECORD_PACKET encoded;
      let '(status, mux, h) := mux_done r "failed to write packet" in
      '(packet, s) ← tide_packet_ref_reset (Some packet) (set_heap h s);
      Done (status, mux, packet, s)
  | _, _ => Done (TIDE_STATUS_INVALID_ARGUMENT, mux, moved_packet, s)
  end.

(** The footer is written twice, the first time into a buffer of its own to
    learn its size. *)
Definition tide_mux_append_footer (m : tide_mux) (h : heap) : outcome (tide_status * tide_mux * heap) :=
  let payload := zeroed 49 in
  let record := empty_buffer (max_single_alloc (mx_limits m)) in
  bytes ← initialised payload 49;
  '(status, sized, h) ← tide_write_record (Some record) TIDE_RECORD_FOOTER 0 3 (mx_sequence m) (Some bytes) 49 h;
  if negb (bool_decide (status = TIDE_STATUS_OK)) then Done (status, m, h)
  else
    sized ← deref sized;
    let final_length := buf_size (mx_buffer m) +u buf_size sized in
    payload ← store payload 0 (tide_write_u64 final_length);
    payload ← store payload 8 (tide_write_u64 0);
    payload ← store payload 16 [x00];
    covered ← deref (buffer_ptr (mx_buffer m));
    digest ← tide_digest_adapter32 covered (buf_size (mx_buffer m));
    payload ← store payload 17 digest;
    bytes ← initialised payload 49;
    '(status, record, h) ← tide_write_record (Some record) TIDE_RECORD_FOOTER 0 3 (mx_sequence m) (Some bytes) 49 h;
    let m := next_sequence m in
    if bool_decide (status = TIDE_STATUS_OK) then
      record ← deref record;
      '(status, buffer, h) ← tide_buffer_append (Some (mx_buffer m)) (buffer_ptr record) (buf_size record) h;
      buffer ← deref buffer;
      Done (status, set_mux_buffer buffer m, h)
    else Done (status, m, h).

(** Returns the contents of the file as well; the muxer is freed. *)
Definition tide_mux_close (mux : option tide_mux) (h : heap) : outcome (tide_status * list byte * heap) :=
  match mux with
  | None => Done (TIDE_STATUS_INVALID_ARGUMENT, [], h)
  | Some m =>
    '(status, m, h) ← (if negb (mx_closed m) && mx_write_footer m then tide_mux_append_footer m h
                       else Done (TIDE_STATUS_OK, m, h));
    file ← deref (mx_file m);
    let size := buf_size (mx_buffer m) in
    let written := if bool_decide (status = TIDE_STATUS_OK) then out_write file size else 0 in
    bytes ← span (buf_data (mx_buffer m)) 0 written;
    let status := if bool_decide (status = TIDE_STATUS_OK) && negb (written =? size) then TIDE_STATUS_IO else status in
    let status := if negb (out_close file) && bool_decide (status = TIDE_STATUS_OK) then TIDE_STATUS_IO else status in
    Done (status, bytes, h)
  end.

(** The file stays empty and the muxer is freed. *)
Definition tide_mux_abort (mux : option tide_mux) : option tide_mux := None.

Definition tide_mux_last_error (mux : option tide_mux) : option tide_error := m ← mux; Some (mx_error m).
