(* ===== verification/MuxSpec.v ===== *)
(** * What the muxer writes

    Every operation of [Mux] appends the record of its input, or a part of it
    when it fails; so a file closed with [OK] is a header, the records of the
    inputs in order and a footer ([mux_file]). *)

From S2P Require Import Prelude Status Checked Buffer Crc Reader Rational Model Lease Packet Frame Validate Writer RoundTrip Mux.

(** ** Inputs *)

Inductive mux_input : Set :=
  | In_stream (stream : tide_stream_info)
  | In_packet (packet : tide_packet_ref).

(** A null pointer to no bytes counts as a pointer to no bytes. *)
Definition canon_stream (s : tide_stream_info) : tide_stream_info :=
  mk_stream_info (si_track_id s) (si_generation s) (si_media_kind s) (si_codec_tag s) (si_time_base s)
    (Some (default [] (si_config s))) (si_config_size s).
Definition canon_packet (p : tide_packet_info) : tide_packet_info :=
  set_payload (mk_payload_view (Some (default [] (pv_data (pk_payload p)))) (pv_size (pk_payload p)) (pv_lease (pk_payload p))) p.

Definition input_item (i : mux_input) : item :=
  match i with
  | In_stream s => Stream_item (canon_stream s) (default [] (si_config s))
  | In_packet r => Packet_item (canon_packet (ref_info r)) (default [] (pv_data (pk_payload (ref_info r))))
  end.

Definition input_ok (i : mux_input) : Prop :=
  match i with
  | In_stream s => stream_typed s /\ si_config_size s = zlen (default [] (si_config s)) /\ reduced (si_time_base s) = true
  | In_packet r => packet_typed (ref_info r) /\
      pv_size (pk_payload (ref_info r)) = zlen (default [] (pv_data (pk_payload (ref_info r)))) /\ 0 <= pk_duration (ref_info r)
  end /\ zlen (item_payload (input_item i)) < 2 ^ 62.

(** The handles the inputs hand over. *)
Definition input_refs (ins : list mux_input) : list tide_packet_ref :=
  omap (fun i => match i with In_packet r => Some r | In_stream _ => None end) ins.

Lemma encode_stream_canon b s h :
  si_config_size s = zlen (default [] (si_config s)) ->
  tide_encode_stream_payload (Some b) (Some s) h = tide_encode_stream_payload (Some b) (Some (canon_stream s)) h.
Proof. destruct s as [a g k c t [config|] n]; intros E; [reflexivity|]. change (n = 0) in E. subst n. reflexivity. Qed.

Lemma encode_packet_canon b p h :
  pv_size (pk_payload p) = zlen (default [] (pv_data (pk_payload p))) ->
  tide_encode_packet_payload (Some b) (Some p) h = tide_encode_packet_payload (Some b) (Some (canon_packet p)) h.
Proof.
  destruct p as [a g q d t u f [[data|] n l]]; intros E; [reflexivity|]. change (n = 0) in E. subst n. reflexivity.
Qed.

(** ** One record *)

(** An open muxer whose buffer holds [bytes] and whose next number is [sq]. *)
Definition mux_rep (m : tide_mux) (bytes : list byte) (sq : Z) : Prop :=
  buffer_wf (mx_buffer m) /\ buf_data (mx_buffer m) = bytes /\ mx_sequence m = sq /\ mx_closed m = false.

(** A muxer that can still be written to or closed, whatever failed before. *)
Definition mux_usable (m : tide_mux) : Prop :=
  mux_rep m (buf_data (mx_buffer m)) (mx_sequence m) /\ is_u64 (mx_sequence m) /\ 0 < zlen (buf_data (mx_buffer m)).

Lemma rep_usable m bytes sq : mux_rep m bytes sq -> is_u64 sq -> 0 < zlen bytes -> mux_usable m.
Proof. intros (Hb & Hd & Hsq & Hc) Hq Hz. unfold mux_usable, mux_rep. rewrite Hsq, Hd. auto. Qed.

(** What the operations on a muxer leave alone. *)
Definition same_setup (m m' : tide_mux) : Prop :=
  mx_file m' = mx_file m /\ mx_limits m' = mx_limits m /\ mx_write_footer m' = mx_write_footer m /\
  buf_aggregate_limit (mx_buffer m') = buf_aggregate_limit (mx_buffer m).

#[export] Instance same_setup_preorder : PreOrder same_setup.
Proof.
  split; [intros m; split; auto|]. intros m1 m2 m3 (A1 & A2 & A3 & A4) (B1 & B2 & B3 & B4). unfold same_setup.
  rewrite B1, B2, B3, B4. auto.
Qed.

(** A buffer of the muxer's own takes [n] bytes. *)
Definition single_room (l : tide_limits) (n : Z) : bool := room (empty_buffer (max_single_alloc l)) n.

(** The payload and the record fit the limits of the muxer. *)
Definition record_room (m : tide_mux) (r : rec) : bool :=
  single_room (mx_limits m) (zlen (rc_payload r)) && room (mx_buffer m) (zlen (rec_bytes r)).

(** The result of writing [r]: the record; or [RESOURCE] and a part of it. *)
Definition record_result (m : tide_mux) (bytes : list byte) (r : rec) (h : heap) (st : tide_status) (m' : tide_mux) (h' : heap) : Prop :=
  same_setup m m' /\
  ((st = TIDE_STATUS_OK /\ mux_rep m' (bytes ++ rec_bytes r) (rc_sequence r +u 1) /\
      single_room (mx_limits m) (zlen (rc_payload r)) = true) \/
   (st = TIDE_STATUS_RESOURCE /\ mx_closed m' = false /\ buffer_wf (mx_buffer m') /\ is_u64 (mx_sequence m') /\
      exists k, buf_data (mx_buffer m') = bytes ++ take k (rec_bytes r))) /\
  (h = [] -> h' = [] /\ (record_room m r = true -> st = TIDE_STATUS_OK)).

Lemma buffer_ptr_some b : buffer_wf b -> 0 < buf_size b -> buffer_ptr b = Some (buf_data b).
Proof. intros (_ & Hc & _) Hs. unfold buffer_ptr. rewrite (proj2 (Z.eqb_neq _ _)) by lia. reflexivity. Qed.

Lemma mux_record_spec m bytes sq type payload h encoded :
  mux_rep m bytes sq -> is_u64 sq -> is_u16 type -> 0 <= max_single_alloc (mx_limits m) -> 0 < zlen payload < 2 ^ 62 ->
  appended (empty_buffer (max_single_alloc (mx_limits m))) payload h encoded ->
  exists st m' h', mux_record m type encoded = Done (st, m', h') /\ record_result m bytes (mk_rec type 0 3 sq payload) h st m' h'.
Proof.
  intros (Hb & Hd & Hsq & Hcl) Hq Ht Hlim Hp (st & b & h1 & -> & Hst & Hh). unfold mux_record.
  set (r := mk_rec type 0 3 sq payload). pose proof (empty_buffer_wf _ Hlim) as Hw.
  destruct Hst as [(-> & He & Hroom)|[-> _]].
  2: { rewrite bool_decide_eq_false_2 by discriminate. eexists _, _, _. split; [reflexivity|]. split; [reflexivity|]. split.
       - right. split; [reflexivity|]. split; [exact Hcl|]. split; [exact Hb|]. split; [rewrite Hsq; exact Hq|]. exists 0%nat. rewrite app_nil_r. exact Hd.
       - intros E. destruct (Hh E) as [-> H]. split; [reflexivity|]. unfold record_room. intros Hr. apply andb_true_iff in Hr. apply H, Hr. }
  rewrite bool_decide_eq_true_2 by reflexivity. cbn [deref]. rewrite bind_done.
  pose proof (extends_size _ _ _ Hw He) as Hs. destruct He as (Hbd & _ & Hbw & _). cbn [buf_size empty_buffer buf_data app] in Hs, Hbd.
  rewrite buffer_ptr_some, Hbd, Hs, Z.add_0_l by (assumption || lia). rewrite Hsq.
  pose proof (header_size_range (zlen payload) sq ltac:(zlia) Hq) as Hhs.
  pose proof (write_record_spec (mx_buffer m) type 0 3 sq payload h1 Hb Hq ltac:(lia) ltac:(lia)) as Hspec.
  rewrite (proj2 (Z.leb_le _ _)) in Hspec by lia. change (record_bytes type 0 3 sq payload) with (rec_bytes r) in Hspec.
  apply wp_inv in Hspec as (res & -> & st & b2 & h2 & -> & Hst & Hh2). rewrite bind_done. cbv beta iota. cbn [deref]. rewrite bind_done.
  assert (Hx : exists xs, extends (mx_buffer m) xs b2) by (destruct Hst as [(_ & He & _)|(_ & k & _ & He)]; eauto).
  destruct Hx as (xs & _ & Hlim2 & Hb2 & _).
  eexists _, _, _. split; [reflexivity|]. split; [split; [reflexivity|]; split; [reflexivity|]; split; [reflexivity|exact Hlim2]|].
  split.
  - destruct Hst as [(-> & (Hd2 & _) & _)|(-> & k & _ & (Hd2 & _))]; [left|right]; (split; [reflexivity|]).
    + split; [|exact Hroom]. split; [exact Hb2|]. cbn [mx_buffer set_mux_buffer mx_sequence mx_closed next_sequence rc_sequence r]. rewrite Hd2, Hd, Hsq. auto.
    + split; [exact Hcl|]. split; [exact Hb2|]. split; [apply wrap64_range|]. exists k. cbn [mx_buffer set_mux_buffer]. rewrite Hd2, Hd. reflexivity.
  - intros E. destruct (Hh E) as [-> _]. destruct (Hh2 eq_refl) as [-> H]. split; [reflexivity|].
    unfold record_room. intros Hr. apply andb_true_iff in Hr. apply H, Hr.
Qed.

(** Setting the error changes nothing else. *)
Lemma mux_done_spec st m h message :
  exists m', mux_done (st, m, h) message = (st, Some m', h) /\ (st = TIDE_STATUS_OK -> m' = m) /\
    mx_buffer m' = mx_buffer m /\ same_setup m m' /\ mx_closed m' = mx_closed m /\ mx_sequence m' = mx_sequence m.
Proof.
  unfold mux_done. destruct (bool_decide_reflect (st = TIDE_STATUS_OK)); cbn [negb].
  - exists m. split; [reflexivity|]. repeat (split; [reflexivity || auto|]). auto.
  - eexists. split; [reflexivity|]. split; [contradiction|]. split; [reflexivity|]. split; [repeat split|split; reflexivity].
Qed.

Lemma record_result_done m bytes r h st m1 h' m' :
  record_result m bytes r h st m1 h' -> (st = TIDE_STATUS_OK -> m' = m1) -> mx_buffer m' = mx_buffer m1 -> same_setup m1 m' ->
  mx_closed m' = mx_closed m1 -> mx_sequence m' = mx_sequence m1 -> record_result m bytes r h st m' h'.
Proof.
  intros (Hs & Hst & Hh) Hok Hb Hs' Hc Hq. split; [etransitivity; eassumption|]. split; [|exact Hh].
  destruct Hst as [(Hst & Hm & Hr)|(Hst & H1 & H2 & H3 & H4)]; [left; rewrite (Hok Hst); auto|right]. rewrite Hc, Hq, Hb. auto.
Qed.

Lemma record_usable m bytes r h st m' h' : record_result m bytes r h st m' h' -> 0 < zlen bytes -> mux_usable m'.
Proof.
  intros (_ & Hst & _) Hz. destruct Hst as [(_ & Hm & _)|(_ & Hc & Hb & Hq & k & Hd)].
  - eapply rep_usable; [exact Hm|apply wrap64_range|]. rewrite zlen_app. pose proof (zlen_nonneg (rec_bytes r)). lia.
  - split; [split; auto|]. split; [exact Hq|]. rewrite Hd, zlen_app. pose proof (zlen_nonneg (take k (rec_bytes r))). lia.
Qed.

(** ** The operations *)

Lemma stream_bytes_pos s config : 0 < zlen (stream_bytes s config).
Proof.
  unfold stream_bytes. rewrite zlen_app. pose proof (zlen_nonneg (le_bytes 4 (si_generation s) ++ le_bytes 2 (si_media_kind s) ++ le_bytes 2 0 ++
    le_bytes 4 (si_codec_tag s) ++ le_bytes 4 (numerator (si_time_base s)) ++ le_bytes 4 (denominator (si_time_base s)) ++
    uleb_bytes (zlen config) ++ config)).
  rewrite zlen_le_bytes. lia.
Qed.

Lemma packet_bytes_pos p payload : 0 < zlen (packet_bytes p payload).
Proof.
  unfold packet_bytes. rewrite zlen_app. match goal with |- _ < _ + zlen ?l => pose proof (zlen_nonneg l) end.
  rewrite zlen_le_bytes. lia.
Qed.

(** The record of an input. *)
Definition input_rec (sq : Z) (i : mux_input) : rec := item_record 3 sq (input_item i).

Lemma add_stream_spec m bytes sq s h :
  mux_rep m bytes sq -> is_u64 sq -> 0 <= max_single_alloc (mx_limits m) -> input_ok (In_stream s) ->
  exists st m' h', tide_mux_add_stream (Some m) (Some s) h = Done (st, Some m', h') /\
    record_result m bytes (input_rec sq (In_stream s)) h st m' h'.
Proof.
  intros Hm Hq Hl ((Ht & Hs & Hr) & Hz). pose proof Hm as (_ & _ & _ & Hc). unfold tide_mux_add_stream. rewrite Hc.
  rewrite encode_stream_canon by exact Hs.
  pose proof (encode_stream_spec (empty_buffer (max_single_alloc (mx_limits m))) (canon_stream s) (default [] (si_config s)) h
    (empty_buffer_wf _ Hl)) as Henc.
  change (si_time_base (canon_stream s)) with (si_time_base s) in Henc. rewrite Hr in Henc.
  apply wp_inv in Henc as (encoded & -> & Henc); [|split; [exact Ht|split; [reflexivity|exact Hs]]]. rewrite bind_done.
  destruct (mux_record_spec m bytes sq TIDE_RECORD_STREAM_DESC _ h encoded Hm Hq ltac:(unfold is_u16, TIDE_RECORD_STREAM_DESC; lia) Hl
    ltac:(split; [apply stream_bytes_pos|exact Hz]) Henc) as (st & m1 & h' & -> & Hres). rewrite bind_done.
  destruct (mux_done_spec st m1 h' "failed to write stream") as (m' & -> & Hok & Hb & Hs' & Hc' & Hq').
  exists st, m', h'. split; [reflexivity|]. eapply record_result_done; eassumption.
Qed.

Lemma write_packet_spec m bytes sq r s hs :
  mux_rep m bytes sq -> is_u64 sq -> 0 <= max_single_alloc (mx_limits m) -> input_ok (In_packet r) -> balanced s (held r ++ hs) ->
  exists st m' s', tide_mux_write_packet (Some m) (Some r) s = Done (st, Some m', Some zero_packet, s') /\
    record_result m bytes (input_rec sq (In_packet r)) (st_heap s) st m' (st_heap s') /\ balanced s' hs /\ keeps hs s s'.
Proof.
  intros Hm Hq Hl ((Ht & Hs & Hd) & Hz) Hbal. pose proof Hm as (_ & _ & _ & Hc). unfold tide_mux_write_packet. rewrite Hc.
  rewrite encode_packet_canon by exact Hs.
  pose proof (encode_packet_spec (empty_buffer (max_single_alloc (mx_limits m))) (canon_packet (ref_info r))
    (default [] (pv_data (pk_payload (ref_info r)))) (st_heap s) (empty_buffer_wf _ Hl)) as Henc.
  change (pk_duration (canon_packet (ref_info r))) with (pk_duration (ref_info r)) in Henc. rewrite (proj2 (Z.leb_le _ _) Hd) in Henc.
  apply wp_inv in Henc as (encoded & -> & Henc); [|split; [exact Ht|split; [reflexivity|exact Hs]]]. rewrite bind_done.
  destruct (mux_record_spec m bytes sq TIDE_RECORD_PACKET _ _ encoded Hm Hq ltac:(unfold is_u16, TIDE_RECORD_PACKET; lia) Hl
    ltac:(split; [apply packet_bytes_pos|exact Hz]) Henc) as (st & m1 & h' & -> & Hres). rewrite bind_done.
  destruct (mux_done_spec st m1 h' "failed to write packet") as (m' & -> & Hok & Hb & Hs' & Hc' & Hq').
  destruct (reset_spec (set_heap h' s) r hs Hbal) as (s' & -> & Hb' & Hh' & Hk & _). rewrite bind_done. cbv beta iota.
  exists st, m', s'. split; [reflexivity|]. split; [|split; [exact Hb'|exact Hk]]. rewrite Hh'. cbn [st_heap set_heap]. eapply record_result_done; eassumption.
Qed.

(** ** Creating *)

Definition mux_limits_of (options : option tide_mux_options) (file : output_file) : tide_limits := mx_limits (new_mux file options).

Definition options_ok (options : option tide_mux_options) : Prop :=
  match options with Some o => limits_typed (mo_limits o) /\ rational_typed (mo_movie_time_base o) | None => True end.

Lemma new_mux_typed file options : options_ok options ->
  limits_typed (mx_limits (new_mux file options)) /\ rational_typed (mx_movie_time_base (new_mux file options)).
Proof.
  assert (H1 : rational_typed (mk_rational 1 1000)) by (split; unfold is_u32; cbn; lia).
  unfold new_mux. destruct options as [[l b w]|]; cbn [mx_limits mx_movie_time_base mo_limits mo_movie_time_base options_ok].
  - intros [Hl Hb]. split; [destruct (_ =? 0); [apply limits_default_typed|exact Hl]|destruct (_ =? 0); assumption].
  - intros _. split; [apply limits_default_typed|exact H1].
Qed.

Lemma mux_uuid_ok : zlen mux_uuid = 16 /\ mux_uuid <> replicate 16 x00.
Proof. split; [reflexivity|discriminate]. Qed.

(** A muxer is created exactly when the file opens, the time base is valid and
    there is memory for the header. *)
Lemma create_spec_mux o file options h :
  options_ok options ->
  let m0 := new_mux file options in
  exists st r h', tide_mux_create (Some o) (Some file) options h = Done (st, Some r, h') /\
    match r with
    | Some m => st = TIDE_STATUS_OK /\ out_open file = true /\ reduced (mx_movie_time_base m0) = true /\ same_setup m0 m /\
        mux_rep m (header_bytes (mx_movie_time_base m0) mux_uuid) 0 /\ mx_movie_time_base m = mx_movie_time_base m0
    | None => st <> TIDE_STATUS_OK
    end /\
    (h = [] -> out_open file = true -> reduced (mx_movie_time_base m0) = true -> room (mx_buffer m0) TIDE_HEADER_SIZE = true ->
       st = TIDE_STATUS_OK /\ is_Some r /\ h' = []).
Proof.
  intros Ho m0. destruct (new_mux_typed file options Ho) as [Hl Hb]. fold m0 in Hl, Hb. unfold tide_mux_create. fold m0.
  destruct (alloc h) as [[] h1] eqn:Ea; cbn [negb].
  2: { eexists _, None, _. split; [reflexivity|]. split; [discriminate|]. intros ->. discriminate. }
  destruct (out_open file); cbn [negb].
  2: { eexists _, None, _. split; [reflexivity|]. split; discriminate. }
  assert (Hw : buffer_wf (mx_buffer m0)).
  { apply empty_buffer_wf. change (0 <= max_aggregate_alloc (mx_limits m0)). destruct Hl as (_ & _ & _ & _ & Hl & _). zlia. }
  destruct mux_uuid_ok as [Hu Hne]. pose proof (write_header_spec (mx_buffer m0) (mx_movie_time_base m0) mux_uuid h1 Hw Hb Hu) as Hspec.
  rewrite (bool_decide_eq_false_2 _ Hne) in Hspec. cbn [negb] in Hspec. rewrite andb_true_r in Hspec.
  destruct (reduced (mx_movie_time_base m0)).
  2: { rewrite Hspec, bind_done. cbv beta iota. rewrite bool_decide_eq_false_2 by discriminate. cbn [negb].
       eexists _, None, _. split; [reflexivity|]. split; discriminate. }
  apply wp_inv in Hspec as (res & -> & st & b & h2 & -> & Hst & Hh). rewrite bind_done. cbv beta iota.
  destruct Hst as [(-> & He & _)|[-> _]].
  - rewrite bool_decide_eq_true_2 by reflexivity. cbn [negb deref]. rewrite bind_done. eexists _, (Some _), _. split; [reflexivity|].
    destruct He as (Hd & Hlim & Hbw & _). split.
    + split; [reflexivity|]. split; [reflexivity|]. split; [reflexivity|].
      split; [repeat (split; [reflexivity|]); exact Hlim|]. split; [|reflexivity]. split; [exact Hbw|]. split; [exact Hd|split; reflexivity].
    + intros -> _ _ _. injection Ea as <-. destruct (Hh eq_refl) as [-> _]. eauto.
  - rewrite bool_decide_eq_false_2 by discriminate. cbn [negb]. eexists _, None, _. split; [reflexivity|]. split; [discriminate|].
    intros -> _ _ Hr. injection Ea as <-. destruct (Hh eq_refl) as [_ H]. rewrite zlen_header in H by exact Hu. discriminate (H Hr).
Qed.

(** ** The footer *)

Definition footer_payload (file_length : Z) (digest : list byte) : list byte :=
  le_bytes 8 file_length ++ le_bytes 8 0 ++ [x00] ++ digest.

(** The size of a footer record depends on its number only. *)
Definition footer_size (sq : Z) : Z := zlen (rec_bytes (mk_rec TIDE_RECORD_FOOTER 0 3 sq (replicate 49 x00))).

(** The footer after [bytes]. *)
Definition footer_rec (sq : Z) (bytes : list byte) : rec :=
  mk_rec TIDE_RECORD_FOOTER 0 3 sq (footer_payload (zlen bytes + footer_size sq) (digest32 bytes)).

Lemma zlen_footer_payload n bytes : zlen (footer_payload n (digest32 bytes)) = 49.
Proof. reflexivity. Qed.

Lemma footer_typed sq payload : is_u64 sq -> rec_typed (mk_rec TIDE_RECORD_FOOTER 0 3 sq payload).
Proof. intros H. unfold rec_typed. cbn. unfold TIDE_RECORD_FOOTER. zlia. Qed.

Lemma footer_sized sq payload : is_u64 sq -> zlen payload = 49 ->
  zlen (rec_bytes (mk_rec TIDE_RECORD_FOOTER 0 3 sq payload)) = footer_size sq /\ 63 <= footer_size sq < 128.
Proof.
  intros Hq Hp. unfold footer_size.
  destruct (rec_sizes _ (footer_typed sq payload Hq)) as (_ & _ & _ & ->); [cbn [rc_payload]; lia|].
  destruct (rec_sizes _ (footer_typed sq (replicate 49 x00) Hq)) as (Hh & Hs & _ & ->); [reflexivity|].
  unfold rec_padded, rec_header_size in *. cbn [rc_payload rc_sequence rc_alignment_log2] in *.
  rewrite Hp. change (zlen (replicate 49 x00)) with 49 in *. split; [reflexivity|lia].
Qed.

#[local] Opaque footer_size.

(** The array of the footer's payload after its stores. *)
Lemma fill_footer {A} n (bytes : list byte) (k : list byte -> outcome A) :
  (payload ← store (zeroed 49) 0 (tide_write_u64 n);
   payload ← store payload 8 (tide_write_u64 0);
   payload ← store payload 16 [x00];
   covered ← deref (Some bytes);
   digest ← tide_digest_adapter32 covered (zlen bytes);
   payload ← store payload 17 digest;
   filled ← initialised payload 49;
   k filled) = k (footer_payload n (digest32 bytes)).
Proof.
  pose proof (length_digest32 bytes) as Hd. rewrite (zeroed_app 49), !write_u64_le. do 3 fill. cbn [deref].
  rewrite bind_done, digest_whole, bind_done. fill. rewrite initialised_at, bind_done by lens.
  unfold footer_payload. rewrite <- !app_assoc. reflexivity.
Qed.

(** Writing the footer record into a buffer of its own. *)
Lemma write_footer lim sq payload h :
  0 <= lim -> is_u64 sq -> zlen payload = 49 ->
  let r := mk_rec TIDE_RECORD_FOOTER 0 3 sq payload in
  exists st b h', tide_write_record (Some (empty_buffer lim)) TIDE_RECORD_FOOTER 0 3 sq (Some payload) 49 h = Done (st, Some b, h') /\
    ((st = TIDE_STATUS_OK /\ buffer_wf b /\ buf_data b = rec_bytes r /\ buf_size b = footer_size sq /\
      room (empty_buffer lim) (footer_size sq) = true) \/ st = TIDE_STATUS_RESOURCE) /\
    (h = [] -> h' = [] /\ (room (empty_buffer lim) (footer_size sq) = true -> st = TIDE_STATUS_OK)).
Proof.
  intros Hl Hq Hp r. destruct (footer_sized sq payload Hq Hp) as [Hz _]. fold r in Hz.
  pose proof (header_size_range 49 sq ltac:(zlia) Hq). pose proof (empty_buffer_wf lim Hl) as Hw.
  pose proof (write_record_spec (empty_buffer lim) TIDE_RECORD_FOOTER 0 3 sq payload h Hw Hq ltac:(lia) ltac:(lia)) as Hspec.
  rewrite Hp, (proj2 (Z.leb_le _ _)) in Hspec by lia. change (record_bytes TIDE_RECORD_FOOTER 0 3 sq payload) with (rec_bytes r) in Hspec.
  apply wp_inv in Hspec as (res & -> & st & b & h' & -> & Hst & Hh). exists st, b, h'. split; [reflexivity|].
  rewrite Hz in Hh. split; [|exact Hh]. destruct Hst as [(-> & He & Hroom)|[-> _]]; [left|right; reflexivity].
  pose proof (extends_size _ _ _ Hw He) as Hs. destruct He as (Hd & _ & Hb & _). rewrite Hz in Hs, Hroom. auto 6.
Qed.

Lemma append_footer_spec m bytes sq h :
  mux_rep m bytes sq -> is_u64 sq -> 0 <= max_single_alloc (mx_limits m) -> 0 < zlen bytes ->
  exists st m' h', tide_mux_append_footer m h = Done (st, m', h') /\ same_setup m m' /\ buffer_wf (mx_buffer m') /\
    ((st = TIDE_STATUS_OK /\ buf_data (mx_buffer m') = bytes ++ rec_bytes (footer_rec sq bytes) /\
      single_room (mx_limits m) (footer_size sq) = true) \/ st = TIDE_STATUS_RESOURCE) /\
    (h = [] -> h' = [] /\
       (single_room (mx_limits m) (footer_size sq) && room (mx_buffer m) (footer_size sq) = true ->
        st = TIDE_STATUS_OK)).
Proof.
  intros (Hb & Hd & Hsq & Hc) Hq Hl Hpos. pose proof Hb as (Hbs & Hbc & _). rewrite Hd in Hbs.
  assert (Hptr : buffer_ptr (mx_buffer m) = Some bytes) by (rewrite buffer_ptr_some, Hd by (assumption || lia); reflexivity).
  unfold tide_mux_append_footer. rewrite Hsq. cbv zeta.
  change (initialised (zeroed 49) 49) with (Done (replicate 49 x00)). rewrite bind_done.
  destruct (write_footer _ sq (replicate 49 x00) h Hl Hq eq_refl) as (st1 & sized & h1 & -> & Hst1 & Hh1). rewrite bind_done. cbv beta iota.
  destruct Hst1 as [(-> & _ & _ & Hsize & Hroom1)| ->].
  2: { rewrite bool_decide_eq_false_2 by discriminate. cbn [negb]. eexists _, _, _. split; [reflexivity|]. split; [reflexivity|].
       split; [exact Hb|]. split; [right; reflexivity|]. intros E. destruct (Hh1 E) as [-> H1]. split; [reflexivity|].
       intros Hr. apply andb_true_iff in Hr as [Hr _]. auto. }
  rewrite bool_decide_eq_true_2 by reflexivity. cbn [negb deref]. rewrite bind_done, Hsize, Hptr, Hbs, fill_footer.
  set (payload := footer_payload _ _). assert (Hp : zlen payload = 49) by apply zlen_footer_payload.
  destruct (write_footer _ sq payload h1 Hl Hq Hp) as (st2 & record & h2 & -> & Hst2 & Hh2). rewrite bind_done. cbv beta iota.
  destruct Hst2 as [(-> & Hrw & Hrd & Hrs & _)| ->].
  2: { rewrite bool_decide_eq_false_2 by discriminate. eexists _, _, _. split; [reflexivity|]. split; [repeat split|].
       split; [exact Hb|]. split; [right; reflexivity|]. intros E. destruct (Hh1 E) as [-> _]. destruct (Hh2 eq_refl) as [-> H2]. split; [reflexivity|].
       intros Hr. apply andb_true_iff in Hr as [Hr _]. auto. }
  rewrite bool_decide_eq_true_2 by reflexivity. cbn [deref]. rewrite bind_done.
  destruct (footer_sized sq payload Hq Hp) as [Hz Hfs]. rewrite buffer_ptr_some, Hrs by (assumption || lia).
  set (r := mk_rec TIDE_RECORD_FOOTER 0 3 sq payload) in *. rewrite Hrd.
  change (mx_buffer (next_sequence m)) with (mx_buffer m).
  destruct (append_spec (mx_buffer m) (rec_bytes r) (footer_size sq) h2 Hb ltac:(lia) ltac:(lia)) as (st3 & b3 & h3 & -> & Hst3 & Hh3).
  rewrite bind_done. cbv beta iota. cbn [deref]. rewrite bind_done. rewrite <- Hz, slice_full in Hst3, Hh3.
  eexists _, _, _. split; [reflexivity|].
  destruct Hst3 as [(-> & (Hd3 & Hl3 & Hw3 & _) & Hroom)|[-> ->]].
  - split; [repeat (split; [reflexivity|]); exact Hl3|]. split; [exact Hw3|]. split.
    + left. split; [reflexivity|]. split; [|exact Hroom1]. cbn [mx_buffer set_mux_buffer]. rewrite Hd3, Hd. unfold footer_rec. fold payload.
      unfold r, payload. do 4 f_equal. unfold footer_payload. do 2 f_equal.
      unfold room in Hroom. bool_props. apply wrap64_small. zlia.
    + intros E. destruct (Hh1 E) as [-> _]. destruct (Hh2 eq_refl) as [-> _]. destruct (Hh3 eq_refl) as [-> _]. auto.
  - split; [repeat split|]. split; [exact Hb|]. split; [right; reflexivity|].
    intros E. destruct (Hh1 E) as [-> _]. destruct (Hh2 eq_refl) as [-> _]. destruct (Hh3 eq_refl) as [-> H3]. split; [reflexivity|].
    intros Hr. apply andb_true_iff in Hr as [_ Hr]. rewrite <- Hz in Hr. exact (H3 Hr).
Qed.

(** ** Sessions: create, write the inputs, close *)

Definition mux_step (i : mux_input) (mux : option tide_mux) (s : lease_store)
    : outcome (tide_status * option tide_mux * lease_store) :=
  match i with
  | In_stream stream => '(st, mux, h) ← tide_mux_add_stream mux (Some stream) (st_heap s); Done (st, mux, set_heap h s)
  | In_packet packet => '(st, mux, _, s) ← tide_mux_write_packet mux (Some packet) s; Done (st, mux, s)
  end.

(** Up to the first input that is not accepted. *)
Fixpoint mux_all (ins : list mux_input) (mux : option tide_mux) (s : lease_store)
    : outcome (tide_status * option tide_mux * lease_store) :=
  match ins with
  | [] => Done (TIDE_STATUS_OK, mux, s)
  | i :: ins =>
    '(st, mux, s) ← mux_step i mux s;
    if negb (bool_decide (st = TIDE_STATUS_OK)) then Done (st, mux, s) else mux_all ins mux s
  end.

(** Create, write and close; abort when an input fails.  With the contents of
    the file. *)
Definition mux_session (file : output_file) (options : option tide_mux_options) (ins : list mux_input) (s : lease_store)
    : outcome (tide_status * list byte * lease_store) :=
  '(st, mux, h) ← tide_mux_create (Some None) (Some file) options (st_heap s);
  if negb (bool_decide (st = TIDE_STATUS_OK)) then Done (st, [], set_heap h s)
  else
    mux ← deref mux;
    '(st, mux, s) ← mux_all ins mux (set_heap h s);
    if negb (bool_decide (st = TIDE_STATUS_OK)) then Done (st, [], s)
    else '(st, bytes, h) ← tide_mux_close mux (st_heap s); Done (st, bytes, set_heap h s).

(** The file a muxer started as [m0] leaves: a header, the records numbered
    from 0 and, if asked for, the footer. *)
Definition mux_body (m0 : tide_mux) (ins : list mux_input) : list byte :=
  header_bytes (mx_movie_time_base m0) mux_uuid ++ recs_bytes (item_records 3 0 (map input_item ins)).
Definition mux_file (m0 : tide_mux) (ins : list mux_input) : list byte :=
  if mx_write_footer m0 then mux_body m0 ins ++ rec_bytes (footer_rec (zlen ins) (mux_body m0 ins)) else mux_body m0 ins.

(** Payloads and footer fit [max_single_alloc], the file [max_aggregate_alloc]. *)
Definition session_fits (m0 : tide_mux) (ins : list mux_input) : Prop :=
  Forall (fun i => single_room (mx_limits m0) (zlen (item_payload (input_item i))) = true) ins /\
  (mx_write_footer m0 = true -> single_room (mx_limits m0) (footer_size (zlen ins)) = true) /\
  room (empty_buffer (max_aggregate_alloc (mx_limits m0))) (zlen (mux_file m0 ins)) = true.

Lemma room_rep m bytes sq n limit : mux_rep m bytes sq -> buf_aggregate_limit (mx_buffer m) = limit ->
  room (mx_buffer m) n = room (empty_buffer limit) (zlen bytes + n).
Proof. intros ((Hs & _) & Hd & _) <-. unfold room. cbn [buf_size buf_aggregate_limit empty_buffer]. rewrite Hs, Hd. reflexivity. Qed.

Lemma mux_step_spec m bytes sq i s hs :
  mux_rep m bytes sq -> is_u64 sq -> 0 <= max_single_alloc (mx_limits m) -> input_ok i -> balanced s (held_by (input_refs [i]) ++ hs) ->
  exists st m' s', mux_step i (Some m) s = Done (st, Some m', s') /\
    record_result m bytes (input_rec sq i) (st_heap s) st m' (st_heap s') /\ balanced s' hs.
Proof.
  intros Hm Hq Hl Hi Hb. destruct i as [stream|packet]; cbn [mux_step].
  - destruct (add_stream_spec m bytes sq stream (st_heap s) Hm Hq Hl Hi) as (st & m' & h' & -> & Hr). rewrite bind_done.
    exists st, m', (set_heap h' s). auto.
  - assert (Hb' : balanced s (held packet ++ hs)).
    { replace (held packet ++ hs) with (held_by (input_refs [In_packet packet]) ++ hs); [exact Hb|].
      cbn. unfold held_by. cbn. rewrite app_nil_r. reflexivity. }
    destruct (write_packet_spec m bytes sq packet s hs Hm Hq Hl Hi Hb') as (st & m' & s' & -> & Hr & Hb2 & _). rewrite bind_done.
    exists st, m', s'. auto.
Qed.

Lemma held_by_inputs i ins : held_by (input_refs (i :: ins)) = held_by (input_refs [i]) ++ held_by (input_refs ins).
Proof. rewrite <- held_by_app. destruct i; reflexivity. Qed.

Lemma mux_all_spec ins : forall m bytes sq s hs,
  mux_rep m bytes sq -> 0 <= sq -> sq + zlen ins < 2 ^ 64 -> 0 <= max_single_alloc (mx_limits m) -> Forall input_ok ins ->
  balanced s (held_by (input_refs ins) ++ hs) ->
  let bytes' := bytes ++ recs_bytes (item_records 3 sq (map input_item ins)) in
  exists st m' s', mux_all ins (Some m) s = Done (st, Some m', s') /\ same_setup m m' /\
    (st = TIDE_STATUS_OK -> mux_rep m' bytes' (sq + zlen ins) /\ balanced s' hs /\
       Forall (fun i => single_room (mx_limits m) (zlen (item_payload (input_item i))) = true) ins) /\
    (0 < zlen bytes -> mux_usable m') /\
    (st_heap s = [] -> st_heap s' = [] /\
       (Forall (fun i => single_room (mx_limits m) (zlen (item_payload (input_item i))) = true) ins ->
        room (empty_buffer (buf_aggregate_limit (mx_buffer m))) (zlen bytes') = true -> st = TIDE_STATUS_OK)).
Proof.
  induction ins as [|i ins IH]; intros m bytes sq s hs Hm Hq0 Hq Hl Hi Hb bytes'.
  { exists TIDE_STATUS_OK, m, s. split; [reflexivity|]. split; [reflexivity|].
    assert (Hus : 0 < zlen bytes -> mux_usable m) by (intros Hz; apply (rep_usable m bytes sq); [exact Hm|change (zlen []) with 0 in Hq; zlia|exact Hz]).
    split; [|split; [exact Hus|intros E; auto]]. intros _. unfold bytes'. cbn. unfold recs_bytes. cbn. unfold zlen. cbn. rewrite app_nil_r, Z.add_0_r. auto. }
  inversion Hi as [|? ? Hi0 Hi']; subst. assert (Hz : zlen (i :: ins) = zlen ins + 1) by (unfold zlen; cbn [length]; lia).
  pose proof (zlen_nonneg ins). rewrite held_by_inputs, <- app_assoc in Hb.
  destruct (mux_step_spec m bytes sq i s _ Hm ltac:(zlia) Hl Hi0 Hb) as (st & m1 & s1 & Hstep & Hres & Hb1).
  pose proof (record_usable _ _ _ _ _ _ _ Hres) as Hus. destruct Hres as (Hs1 & Hst & Hh).
  cbn [mux_all]. rewrite Hstep, bind_done. cbv beta iota.
  assert (Hby : bytes' = (bytes ++ rec_bytes (input_rec sq i)) ++ recs_bytes (item_records 3 (sq + 1) (map input_item ins))).
  { unfold bytes'. cbn [map item_records]. rewrite recs_cons, app_assoc. reflexivity. }
  assert (Hroom : room (empty_buffer (buf_aggregate_limit (mx_buffer m))) (zlen bytes') = true ->
      single_room (mx_limits m) (zlen (item_payload (input_item i))) = true -> record_room m (input_rec sq i) = true).
  { intros Hr Hsingle. unfold record_room. apply andb_true_iff. split; [exact Hsingle|]. rewrite (room_rep m bytes sq _ _ Hm eq_refl).
    eapply room_le; [|exact Hr]. rewrite Hby, !zlen_app. pose proof (zlen_nonneg bytes).
    pose proof (zlen_nonneg (rec_bytes (input_rec sq i))). pose proof (zlen_nonneg (recs_bytes (item_records 3 (sq + 1) (map input_item ins)))). lia. }
  destruct Hst as [(-> & Hm1 & Hroom1)|(-> & _)].
  2: { rewrite bool_decide_eq_false_2 by discriminate. cbn [negb]. eexists _, m1, s1. split; [reflexivity|]. split; [exact Hs1|]. split; [discriminate|]. split; [exact Hus|].
       intros E. destruct (Hh E) as [-> H1]. split; [reflexivity|]. intros Hall Hr. inversion Hall; subst. apply H1, Hroom; assumption. }
  rewrite bool_decide_eq_true_2 by reflexivity. cbn [negb]. cbn [input_rec item_record rc_sequence] in Hm1.
  rewrite wrap64_small in Hm1 by zlia. pose proof Hs1 as (_ & Hlim & _ & Hagg).
  destruct (IH m1 _ (sq + 1) s1 hs Hm1 ltac:(lia) ltac:(lia) ltac:(rewrite Hlim; exact Hl) Hi' Hb1) as (st & m' & s' & Hall & Hs' & Hok & Hus' & Hh').
  rewrite <- Hby in *. exists st, m', s'. split; [exact Hall|]. split; [etransitivity; eassumption|]. split.
  - rewrite Hz. replace (sq + (zlen ins + 1)) with (sq + 1 + zlen ins) by lia. intros E. destruct (Hok E) as (H1 & H2 & H3).
    rewrite Hlim in H3. split; [exact H1|]. split; [exact H2|]. constructor; [exact Hroom1|exact H3].
  - split; [intros Hpos; apply Hus'; rewrite zlen_app; pose proof (zlen_nonneg (rec_bytes (input_rec sq i))); lia|].
    intros E. destruct (Hh E) as [E1 _]. destruct (Hh' E1) as [E2 H2]. split; [exact E2|]. intros HF Hr. inversion HF; subst.
    apply H2; [rewrite Hlim; assumption|rewrite Hagg; exact Hr].
Qed.

(** Closing: the footer if it is wanted, then the whole buffer to the file. *)
Lemma close_spec m bytes sq file h :
  mux_rep m bytes sq -> is_u64 sq -> 0 <= max_single_alloc (mx_limits m) -> 0 < zlen bytes -> mx_file m = Some file ->
  (forall n, 0 <= n -> 0 <= out_write file n <= n) ->
  let all := if mx_write_footer m then bytes ++ rec_bytes (footer_rec sq bytes) else bytes in
  exists st contents h', tide_mux_close (Some m) h = Done (st, contents, h') /\
    (st = TIDE_STATUS_OK -> contents = all /\ (mx_write_footer m = true -> single_room (mx_limits m) (footer_size sq) = true) /\
       room (empty_buffer (buf_aggregate_limit (mx_buffer m))) (zlen contents) = true) /\
    (h = [] -> h' = [] /\
       (out_close file = true -> (forall n, out_write file n = n) ->
        (mx_write_footer m = true -> single_room (mx_limits m) (footer_size sq) && room (mx_buffer m) (footer_size sq) = true) ->
        st = TIDE_STATUS_OK)).
Proof.
  intros Hm Hq Hl Hpos Hf Hw all. pose proof Hm as (Hb & Hd & _ & Hc). unfold tide_mux_close. rewrite Hc. cbn [negb andb].
  assert (Hfoot : exists st m' h', (if mx_write_footer m then tide_mux_append_footer m h else Done (TIDE_STATUS_OK, m, h)) = Done (st, m', h') /\
    mx_file m' = Some file /\ buffer_wf (mx_buffer m') /\ buf_aggregate_limit (mx_buffer m') = buf_aggregate_limit (mx_buffer m) /\
    (st = TIDE_STATUS_OK -> buf_data (mx_buffer m') = all /\ (mx_write_footer m = true -> single_room (mx_limits m) (footer_size sq) = true)) /\
    (h = [] -> h' = [] /\
      ((mx_write_footer m = true -> single_room (mx_limits m) (footer_size sq) && room (mx_buffer m) (footer_size sq) = true) -> st = TIDE_STATUS_OK))).
  { unfold all. destruct (mx_write_footer m).
    - destruct (append_footer_spec m bytes sq h Hm Hq Hl Hpos) as (st & m' & h' & -> & (Hf' & _ & _ & Hagg) & Hb' & Hst & Hh).
      exists st, m', h'. split; [reflexivity|]. split; [congruence|]. split; [exact Hb'|]. split; [exact Hagg|].
      split; [intros ->; destruct Hst as [(_ & H1 & H2)|]; [auto|discriminate]|].
      intros E. destruct (Hh E) as [-> H']. split; [reflexivity|]. intros H. exact (H' (H eq_refl)).
    - exists TIDE_STATUS_OK, m, h. split; [reflexivity|]. split; [exact Hf|]. split; [exact Hb|]. split; [reflexivity|].
      split; [intros _; split; [exact Hd|discriminate]|]. auto. }
  destruct Hfoot as (st & m' & h' & -> & Hf' & (Hsz & Hcap & Hlimit) & Hagg & Hok & Hh). rewrite bind_done. cbv beta iota. rewrite Hf'. cbn [deref]. rewrite bind_done. cbv zeta.
  pose proof (zlen_nonneg (buf_data (mx_buffer m'))). pose proof (Hw (buf_size (mx_buffer m')) ltac:(lia)) as Hwr.
  rewrite span_done, bind_done by (try case_bool_decide; lia).
  eexists _, _, h'. split; [reflexivity|]. destruct (bool_decide_reflect (st = TIDE_STATUS_OK)) as [->|Hne]; cbn [andb].
  - split.
    + destruct (Z.eqb_spec (out_write file (buf_size (mx_buffer m'))) (buf_size (mx_buffer m'))) as [->|]; cbn [negb].
      * intros _. rewrite Hsz, slice_full. destruct (Hok eq_refl) as [H1 H2]. split; [exact H1|]. split; [exact H2|].
        rewrite Hagg in Hlimit. unfold room. cbn [buf_size buf_aggregate_limit empty_buffer].
        destruct (Z.eqb_spec (buf_aggregate_limit (mx_buffer m)) 0); rewrite ?orb_true_r, ?orb_false_r, ?andb_true_r, ?andb_true_iff, !Z.leb_le; lia.
      * rewrite bool_decide_eq_false_2 by discriminate. rewrite andb_false_r. discriminate.
    + intros E. destruct (Hh E) as [-> _]. split; [reflexivity|]. intros Hcl Hall _. rewrite Hall, Z.eqb_refl, Hcl. reflexivity.
  - rewrite (bool_decide_eq_false_2 _ Hne), andb_false_r. split; [intros E; contradiction|]. intros E. destruct (Hh E) as [-> H'].
    split; [reflexivity|]. intros _ _ Hr. destruct (Hne (H' Hr)).
Qed.

Lemma mux_file_size m0 ins : zlen ins < 2 ^ 64 ->
  zlen (mux_file m0 ins) = zlen (mux_body m0 ins) + (if mx_write_footer m0 then footer_size (zlen ins) else 0) /\
  TIDE_HEADER_SIZE <= zlen (mux_body m0 ins) /\ 63 <= footer_size (zlen ins) < 128.
Proof.
  intros Hn. pose proof (zlen_nonneg ins). assert (Hq : is_u64 (zlen ins)) by zlia. split; [|split].
  - unfold mux_file. destruct (mx_write_footer m0); [|lia]. rewrite zlen_app. f_equal. apply footer_sized; [exact Hq|apply zlen_footer_payload].
  - unfold mux_body, TIDE_HEADER_SIZE. rewrite zlen_app, zlen_header by apply mux_uuid_ok.
    pose proof (zlen_nonneg (recs_bytes (item_records 3 0 (map input_item ins)))). lia.
  - apply (footer_sized (zlen ins) (replicate 49 x00) Hq eq_refl).
Qed.

(** The parts of a file that fits fit. *)
Lemma file_room_part limit m0 ins n : zlen ins < 2 ^ 64 -> 0 <= n <= zlen (mux_body m0 ins) ->
  room (empty_buffer limit) (zlen (mux_file m0 ins)) = true -> room (empty_buffer limit) n = true.
Proof.
  intros Hn Hm. destruct (mux_file_size m0 ins Hn) as (-> & _ & Hf). apply room_le. destruct (mx_write_footer m0); lia.
Qed.

(** A file that takes everything it is given. *)
Definition good_file : output_file := mk_output true id true.

(** A whole session, whatever the allocator and the file do. *)
Lemma mux_session_spec (file : output_file) (options : option tide_mux_options) (ins : list mux_input)
    (s : lease_store) (hs : list lease_ptr) :
  let m0 := new_mux file options in
  options_ok options -> Forall input_ok ins -> zlen ins < 2 ^ 64 -> balanced s (held_by (input_refs ins) ++ hs) ->
  (forall n, 0 <= n -> 0 <= out_write file n <= n) ->
  exists st contents s', mux_session file options ins s = Done (st, contents, s') /\
    (st = TIDE_STATUS_OK -> contents = mux_file m0 ins /\ reduced (mx_movie_time_base m0) = true /\ balanced s' hs /\
       session_fits m0 ins) /\
    (st_heap s = [] -> out_open file = true -> out_close file = true -> (forall n, out_write file n = n) ->
     reduced (mx_movie_time_base m0) = true -> session_fits m0 ins -> st = TIDE_STATUS_OK).
Proof.
  intros m0 Ho Hi Hn Hb Hw. destruct (new_mux_typed file options Ho) as [Hlim _]. fold m0 in Hlim.
  assert (Hl : 0 <= max_single_alloc (mx_limits m0)) by (destruct Hlim as (_ & _ & _ & Hl & _); zlia).
  destruct (mux_file_size m0 ins Hn) as (Hsize & Hhead & Hfs).
  assert (Hpos : 0 < zlen (mux_body m0 ins)) by (unfold TIDE_HEADER_SIZE in Hhead; lia).
  unfold mux_session. destruct (create_spec_mux None file options (st_heap s) Ho) as (st & r & h1 & -> & Hr & Hcreate). fold m0 in Hr, Hcreate.
  rewrite bind_done. cbv beta iota. destruct r as [m|].
  2: { rewrite (bool_decide_eq_false_2 _ Hr). cbn [negb]. eexists _, _, _. split; [reflexivity|]. split; [contradiction|].
       intros E Hop Hcl Hall Hred (_ & _ & Hfit). exfalso. apply Hr. apply (Hcreate E Hop Hred).
       exact (file_room_part _ m0 ins _ Hn (conj (ltac:(discriminate) : 0 <= TIDE_HEADER_SIZE) Hhead) Hfit). }
  destruct Hr as (-> & Hop & Hred & Hsame & Hm & Hbase). rewrite bool_decide_eq_true_2 by reflexivity. cbn [negb deref]. rewrite bind_done.
  pose proof Hsame as (Hfile & Hml & Hfoot & Hagg).
  destruct (mux_all_spec ins m _ 0 (set_heap h1 s) hs Hm ltac:(lia) ltac:(lia) ltac:(rewrite Hml; exact Hl) Hi Hb)
    as (st & m' & s' & -> & Hs' & Hok & _ & Hh). fold (mux_body m0 ins) in Hok, Hh. rewrite bind_done. cbv beta iota.
  rewrite Hml, Hagg in Hh. change (buf_aggregate_limit (mx_buffer m0)) with (max_aggregate_alloc (mx_limits m0)) in Hh.
  assert (HallOK : st_heap s = [] -> out_open file = true -> session_fits m0 ins -> reduced (mx_movie_time_base m0) = true ->
      st = TIDE_STATUS_OK /\ st_heap s' = []).
  { intros E Hop' (HF & _ & Hfit) Hred'. destruct (Hcreate E Hop' Hred') as (_ & _ & ->).
    - exact (file_room_part _ m0 ins _ Hn (conj (ltac:(discriminate) : 0 <= TIDE_HEADER_SIZE) Hhead) Hfit).
    - destruct (Hh eq_refl) as [E2 Hst]. split; [|exact E2]. apply Hst; [exact HF|]. eapply file_room_part; [exact Hn| |exact Hfit]. lia. }
  destruct (bool_decide_reflect (st = TIDE_STATUS_OK)) as [->|Hne]; cbn [negb].
  2: { eexists _, _, _. split; [reflexivity|]. split; [contradiction|]. intros E Hop' _ _ Hred' Hfit. exfalso. apply Hne, HallOK; assumption. }
  destruct (Hok eq_refl) as (Hm' & Hb' & Hsingles). rewrite Hml in Hsingles.
  assert (Hsame' : same_setup m0 m') by (etransitivity; eassumption). destruct Hsame' as (Hfile' & Hml' & Hfoot' & Hagg').
  destruct (close_spec m' (mux_body m0 ins) (zlen ins) file (st_heap s') Hm' ltac:(pose proof (zlen_nonneg ins); zlia)
    ltac:(rewrite Hml'; exact Hl) Hpos Hfile' Hw) as (st & contents & h2 & -> & Hcont & Hclose). rewrite bind_done. cbv beta iota.
  rewrite Hfoot' in Hcont, Hclose. fold (mux_file m0 ins) in Hcont.
  eexists st, contents, _. split; [reflexivity|].
  split.
  { intros E. destruct (Hcont E) as (H1 & H2 & H3). rewrite H1 in H3. split; [exact H1|]. split; [exact Hred|]. split; [exact Hb'|].
      split; [exact Hsingles|]. split; [rewrite <- Hml'; exact H2|rewrite Hagg' in H3; exact H3]. }
  intros E Hop' Hcl Hall Hred' Hfit. destruct (HallOK E Hop' Hfit Hred') as [_ E2]. destruct (Hclose E2) as [_ H]. apply H; [exact Hcl|exact Hall|].
  intros Hf. destruct Hfit as (_ & Hsingle & Hfile2). rewrite Hml', (Hsingle Hf), andb_true_l.
  rewrite (room_rep m' _ _ _ _ Hm' Hagg'). change (buf_aggregate_limit (mx_buffer m0)) with (max_aggregate_alloc (mx_limits m0)).
  rewrite Hsize, Hf in Hfile2. exact Hfile2.
Qed.

(** Witness: one stream and two packets, the second with a lease. *)
Definition sample_lease : tide_payload_lease := mk_lease 1 (Some (map byte_of_Z [0xCC])) 1 9.
Definition sample_store : lease_store := mk_store {[3%positive := sample_lease]} 10 [].
Definition leased_packet : tide_packet_ref :=
  mk_packet_ref (mk_packet_info 1 0 6 7 7 4 0 (mk_payload_view (Some (map byte_of_Z [0xCC])) 1 (Some 3%positive))) (Some 3%positive).
Definition sample_inputs : list mux_input :=
  [In_stream sample_stream; In_packet (mk_packet_ref sample_packet None); In_packet leased_packet].

Lemma sample_inputs_ok : Forall input_ok sample_inputs.
Proof. repeat constructor; unfold input_ok, rational_typed; cbn; repeat split; discriminate. Qed.

Lemma sample_store_balanced : balanced sample_store (held_by (input_refs sample_inputs) ++ []).
Proof.
  change (balanced sample_store [3%positive]). intros p. destruct (decide (p = 3%positive)) as [->|Hne].
  - rewrite handles_eq. split; [reflexivity|]. split; [lia|]. split; [reflexivity|]. split; [reflexivity|]. split; discriminate.
  - unfold sample_store. cbn [st_leases]. rewrite lookup_singleton_ne, handles_ne by auto. reflexivity.
Qed.

Lemma sample_session_fits : session_fits (new_mux good_file None) sample_inputs.
Proof. split; [repeat constructor|]. split; [reflexivity|vm_compute; reflexivity]. Qed.
