(* ===== verification/MuxFile.v ===== *)
(** * Decoding what the muxer wrote

    The decoder accepts a file of the muxer, footer included: length, index
    offset and digest are those it computes itself. *)

From S2P Require Import Prelude Status Checked Buffer Crc Reader Rational Model Lease Packet Frame Validate Header Decoder Parse ParseRule ParseSplit Writer RoundTrip Mux MuxSpec.

Lemma c_footer_written before f n : is_u64 n -> fr_crc_end f = n ->
  c_footer before f (footer_payload n (digest32 before)) = inr (tt, []).
Proof.
  intros Hn Hf. unfold c_footer, footer_payload, mbind, checker_bind, c_or_fail, parser_bind, mret, parser_ret.
  read_back. change ([x00] ++ digest32 before) with (uleb_bytes 0 ++ digest32 before). rewrite p_uleb_enc by zlia.
  unfold TIDE_DIGEST_SIZE. rewrite <- (app_nil_r (digest32 before)) at 1. rewrite p_bytes_app by reflexivity.
  cbn [c_at_end]. rewrite Hf, Z.eqb_refl, bool_decide_eq_true_2 by reflexivity. reflexivity.
Qed.

(** The record callback answers [OK] to a footer. *)
Definition footer_answer {U} (callbacks : tide_callbacks U) (r : rec) (offset : Z) (user : U) : Prop :=
  forall f, on_record callbacks = Some f -> (f (record_event (rec_frame r offset 0)) user).1 = TIDE_STATUS_OK.

(** What the callbacks see of a footer: its record event. *)
Definition hand_footer {U} (callbacks : tide_callbacks U) (r : rec) (offset : Z) (user : U) : U :=
  match on_record callbacks with None => user | Some f => (f (record_event (rec_frame r offset 0)) user).2 end.

Section footer.
Context {U : Type} (limits : tide_limits) (callbacks : tide_callbacks U).

(** The footer at the end of a file is accepted. *)
Lemma parse_footer sq before fuel s :
  let r := footer_rec sq before in
  is_u64 sq -> zlen (before ++ rec_bytes r) < 2 ^ 64 -> rec_fits limits r -> stable limits s -> footer_answer callbacks r (zlen before) (ps_user s) ->
  exists s', tide_parse_records limits callbacks (S (S fuel)) (before ++ rec_bytes r) (zlen before) (zlen (before ++ rec_bytes r)) 0 s
      = Done (TIDE_STATUS_OK, s') /\
    ps_user s' = hand_footer callbacks r (zlen before) (ps_user s) /\ ps_tracks s' = ps_tracks s /\
    ps_valid_prefix s' = Some (zlen (before ++ rec_bytes r)) /\ ps_error s' = ps_error s.
Proof.
  intros r Hq Hm (Hr & Hpl & Hrl) Hs Hans.
  assert (Hp49 : zlen (rc_payload r) = 49) by apply zlen_footer_payload.
  destruct (footer_sized sq (rc_payload r) Hq Hp49) as [Hz Hfs]. change (mk_rec _ 0 3 sq (rc_payload r)) with r in Hz.
  pose proof (parse_written limits callbacks r before [] 0 (S fuel) s Hr) as Hstep. rewrite !app_nil_r in Hstep.
  rewrite Hstep by assumption. clear Hstep. unfold process. change (is_skippable (rec_frame r (zlen before) 0)) with false. cbv iota.
  unfold mbind, parse_bind. rewrite call_accepting by exact Hans. rewrite bool_decide_eq_true_2 by reflexivity. cbn [negb].
  destruct (stable_after limits (on_record callbacks) (record_event (rec_frame r (zlen before) 0)) s Hs) as (Hs1 & Htr & Her & Hu).
  set (s1 := ParseRule.after _ _ s) in *. unfold act, action_of.
  pose proof (payload_written r before [] 0 Hr ltac:(lia)) as Hpay. rewrite app_nil_r in Hpay. rewrite Hpay.
  change (fr_type (rec_frame r (zlen before) 0)) with TIDE_RECORD_FOOTER. change (is_simple TIDE_RECORD_FOOTER) with true.
  change (TIDE_RECORD_FOOTER =? TIDE_RECORD_GROUP) with false. change (TIDE_RECORD_FOOTER =? TIDE_RECORD_STREAM_DESC) with false.
  change (TIDE_RECORD_FOOTER =? TIDE_RECORD_PACKET) with false. cbv iota.
  assert (Hbefore : slice (before ++ rec_bytes r) 0 (zlen before) = before).
  { rewrite slice_app_l by (pose proof (zlen_nonneg before); lia). apply slice_full. }
  change (fr_offset (rec_frame r (zlen before) 0)) with (zlen before). rewrite Hbefore.
  change (c_simple limits (ps_tracks s1) before (rec_frame r (zlen before) 0)) with (c_footer before (rec_frame r (zlen before) 0)).
  pose proof (zlen_nonneg before). rewrite zlen_app in Hm.
  change (rc_payload r) with (footer_payload (zlen before + footer_size sq) (digest32 before)).
  destruct (rec_sizes r Hr ltac:(lia)) as (_ & _ & _ & Hsz).
  rewrite c_footer_written; [|zlia|cbn [fr_crc_end rec_frame]; lia]. cbn [body_action perform].
  unfold mret, parse_ret. rewrite bool_decide_eq_true_2 by reflexivity. cbn [negb].
  destruct (write_prefix limits (zlen (before ++ rec_bytes r)) s1 Hs1) as [-> _]. rewrite parse_done.
  eexists. split; [reflexivity|]. cbn [ps_user ps_tracks ps_valid_prefix ps_error set_prefix]. unfold hand_footer. auto.
Qed.
End footer.

(** What a decoder hands over of a muxed file. *)
Definition hand_over_file {U} (callbacks : tide_callbacks U) (m0 : tide_mux) (ins : list mux_input) (user : U) : U :=
  let user := hand_over_all callbacks 3 0 TIDE_HEADER_SIZE (map input_item ins) user in
  if mx_write_footer m0 then hand_footer callbacks (footer_rec (zlen ins) (mux_body m0 ins)) (zlen (mux_body m0 ins)) user else user.

(** The callbacks answer [OK] all along a muxed file. *)
Definition file_answers {U} (callbacks : tide_callbacks U) (m0 : tide_mux) (ins : list mux_input) (user : U) : Prop :=
  all_answer callbacks 3 0 TIDE_HEADER_SIZE (map input_item ins) user /\
  footer_answer callbacks (footer_rec (zlen ins) (mux_body m0 ins)) (zlen (mux_body m0 ins))
    (hand_over_all callbacks 3 0 TIDE_HEADER_SIZE (map input_item ins) user).

(** The records of the file are within the decoder's limits. *)
Definition file_fits (limits : tide_limits) (m0 : tide_mux) (ins : list mux_input) : Prop :=
  Forall (rec_fits limits) (item_records 3 0 (map input_item ins)) /\
  (mx_write_footer m0 = true -> rec_fits limits (footer_rec (zlen ins) (mux_body m0 ins))).

(** What a muxer with the default limits takes fits the decoder's. *)
Lemma file_fits_default file ins : zlen ins < 2 ^ 64 -> session_fits (new_mux file None) ins ->
  file_fits tide_limits_default (new_mux file None) ins.
Proof.
  intros Hn (Hs & _). change (mx_limits (new_mux file None)) with tide_limits_default in Hs. assert (Hrec : forall r, rec_typed r -> zlen (rc_payload r) <= 32 * 1024 * 1024 -> rec_fits tide_limits_default r).
  { intros r Ht Hz. destruct (rec_sizes r Ht ltac:(lia)) as (Hh & Hp & _ & Hb). split; [exact Ht|].
    cbn [max_payload_size max_record_size tide_limits_default]. lia. }
  split.
  - assert (H : forall sq, 0 <= sq -> sq + zlen ins < 2 ^ 64 -> Forall (rec_fits tide_limits_default) (item_records 3 sq (map input_item ins))).
    { clear Hn. induction Hs as [|i ins Hi _ IH]; intros sq Hq Hn; [constructor|]. cbn [map item_records].
      assert (Hz : zlen (i :: ins) = zlen ins + 1) by (unfold zlen; cbn [length]; lia). pose proof (zlen_nonneg ins).
      constructor; [|apply IH; lia]. apply Hrec.
      - unfold rec_typed. destruct i; cbn; unfold TIDE_RECORD_STREAM_DESC, TIDE_RECORD_PACKET; zlia.
      - unfold single_room, room in Hi. cbn [max_single_alloc tide_limits_default buf_size buf_aggregate_limit empty_buffer] in Hi.
        change (zlen (item_payload (input_item i)) <= 32 * 1024 * 1024). bool_props. lia. }
    apply H; [lia|lia].
  - intros _. pose proof (zlen_nonneg ins). apply Hrec; [apply footer_typed; zlia|]. change (zlen (rc_payload _)) with 49. lia.
Qed.

(** The decoder on a muxed file, for the components that use both. *)
Lemma decode_muxed {U} (limits : tide_limits) (callbacks : tide_callbacks U) (m0 : tide_mux) (ins : list mux_input)
    (user : U) (e0 : tide_error) (v0 : Z) :
  limits_typed limits -> file_answers callbacks m0 ins user -> rational_typed (mx_movie_time_base m0) -> reduced (mx_movie_time_base m0) = true ->
  64 * 1024 * 1024 <= max_record_size limits -> zlen ins < 2 ^ 64 -> zlen (mux_file m0 ins) < 2 ^ 64 ->
  file_fits limits m0 ins -> items_ok limits [] (map input_item ins) ->
  exists s, tide_parse_tide_bytes (Some (mux_file m0 ins)) (zlen (mux_file m0 ins)) true (Some limits) (Some callbacks) user
      (Some e0) (Some v0) [] = Done (TIDE_STATUS_OK, s) /\
    ps_user s = hand_over_file callbacks m0 ins user /\ ps_tracks s = tracks_of [] (map input_item ins) /\
    ps_valid_prefix s = Some (zlen (mux_file m0 ins)) /\ ps_error s = Some zero_error.
Proof.
  intros Hl [Hans Hfans] Hb Hr Hhint Hn Hm (Hfit & Hffit) Hi. destruct mux_uuid_ok as [Hu Hne].
  set (body := mux_body m0 ins). set (tail := if mx_write_footer m0 then rec_bytes (footer_rec (zlen ins) body) else []).
  assert (Hfile : mux_file m0 ins = body ++ tail) by (unfold mux_file, tail, body; destruct (mx_write_footer m0); rewrite ?app_nil_r; reflexivity).
  destruct (mux_file_size m0 ins Hn) as (_ & Hhead & _). fold body in Hhead. pose proof (zlen_nonneg tail).
  pose proof (zlen_header (mx_movie_time_base m0) mux_uuid Hu) as Hh. rewrite Hfile in *. rewrite zlen_app in Hm.
  rewrite parse_bytes_header by (rewrite zlen_app; lia).
  change (default tide_limits_default (Some limits)) with limits. change (default no_callbacks (Some callbacks)) with callbacks.
  assert (Hhd : slice (body ++ tail) 0 TIDE_HEADER_SIZE = header_bytes (mx_movie_time_base m0) mux_uuid).
  { rewrite slice_app_l by (unfold TIDE_HEADER_SIZE in *; lia). unfold body, mux_body.
    rewrite slice_app_l by (unfold TIDE_HEADER_SIZE; lia). unfold TIDE_HEADER_SIZE. rewrite <- Hh. apply slice_full. }
  rewrite Hhd, header_verdict_written by assumption.
  pose proof (parse_items limits callbacks Hl 3 (map input_item ins) 0 (header_bytes (mx_movie_time_base m0) mux_uuid) tail (start_state user [])) as Hp.
  cbv zeta in Hp. rewrite app_assoc, Hh in Hp. fold body in Hp. unfold mux_body in body. fold body in Hp.
  destruct Hp as (s & Heq & Hs & Hv & Ht & Hus & He); [rewrite zlen_app; lia|exact Hfit|exact Hi|apply start_stable|reflexivity|exact Hans|].
  unfold TIDE_HEADER_SIZE at 1. rewrite Heq. unfold hand_over_file. fold (mux_body m0 ins) in body. unfold tail in *.
  destruct (mx_write_footer m0).
  - assert (Hq : is_u64 (zlen ins)) by (pose proof (zlen_nonneg ins); zlia).
    assert (Hfuel : forall n, 2 <= n -> parse_fuel n = S (S (Z.to_nat (n - 1)))) by (intros n Hn2; unfold parse_fuel; lia).
    rewrite Hfuel by (unfold TIDE_HEADER_SIZE in Hhead; rewrite zlen_app; lia).
    destruct (parse_footer limits callbacks (zlen ins) body (Z.to_nat (zlen (body ++ rec_bytes (footer_rec (zlen ins) body)) - 1)) s Hq
      ltac:(rewrite zlen_app; lia) (Hffit eq_refl) Hs
      ltac:(rewrite Hus; exact Hfans))
      as (s' & -> & Hu' & Ht' & Hv' & He').
    rewrite bind_done. cbv beta iota. exists s'. split; [reflexivity|]. rewrite Hu', Ht', Hv', He', Hus, Ht, He. auto.
  - rewrite app_nil_r. unfold parse_fuel at 1. rewrite parse_done, bind_done. cbv beta iota. exists s. split; [reflexivity|]. auto.
Qed.

(** C5: a session of the muxer (create, write well-formed inputs, close) is
    defined whatever the allocator and the file do.  When it ends with [OK] the
    file holds exactly a header, one record per input in order and the footer,
    every lease handed over was released, and the decoder accepts the file
    whole: its callbacks get every descriptor and packet written, once and in
    order.  And it does end with [OK] when the time base is valid, the file
    opens, takes all and closes, no allocation fails and everything fits the
    limits. *)
Theorem mux_session_decodes {U} (file : output_file) (options : option tide_mux_options) (ins : list mux_input)
    (s : lease_store) (hs : list lease_ptr) (limits : tide_limits) (callbacks : tide_callbacks U) (user : U) :
  let m0 := new_mux file options in
  options_ok options -> Forall input_ok ins -> zlen ins < 2 ^ 64 -> balanced s (held_by (input_refs ins) ++ hs) ->
  (forall n, 0 <= n -> 0 <= out_write file n <= n) ->
  limits_typed limits -> 64 * 1024 * 1024 <= max_record_size limits -> file_fits limits m0 ins ->
  items_ok limits [] (map input_item ins) -> zlen (mux_file m0 ins) < 2 ^ 64 -> file_answers callbacks m0 ins user ->
  exists st contents s', mux_session file options ins s = Done (st, contents, s') /\
    (st = TIDE_STATUS_OK ->
       contents = mux_file m0 ins /\ balanced s' hs /\
       exists p, tide_parse_tide_bytes (Some contents) (zlen contents) true (Some limits) (Some callbacks) user
           (Some zero_error) (Some 0) [] = Done (TIDE_STATUS_OK, p) /\
         ps_user p = hand_over_file callbacks m0 ins user /\ ps_valid_prefix p = Some (zlen contents)) /\
    (st_heap s = [] -> out_open file = true -> out_close file = true -> (forall n, out_write file n = n) ->
     reduced (mx_movie_time_base m0) = true -> session_fits m0 ins -> st = TIDE_STATUS_OK).
Proof.
  intros m0 Ho Hi Hn Hb Hw Hl Hhint Hfit Hitems Hm Hans.
  destruct (mux_session_spec file options ins s hs Ho Hi Hn Hb Hw) as (st & contents & s' & Hrun & Hok & Hst). fold m0 in Hok, Hst.
  exists st, contents, s'. split; [exact Hrun|]. split; [|exact Hst]. intros E. destruct (Hok E) as (-> & Hred & Hb' & _).
  split; [reflexivity|]. split; [exact Hb'|].
  destruct (decode_muxed limits callbacks m0 ins user zero_error 0 Hl Hans (proj2 (new_mux_typed file options Ho)) Hred Hhint Hn Hm Hfit Hitems)
    as (p & Hp & Hu & _ & Hv & _). eauto.
Qed.

Lemma sample_file_fits : file_fits tide_limits_default (new_mux good_file None) sample_inputs.
Proof.
  split; [|intros _; unfold rec_fits, rec_typed, footer_rec; cbn [rc_type rc_flags rc_alignment_log2 rc_sequence rc_payload]].
  - repeat constructor; unfold rec_typed; try discriminate; vm_compute; repeat split; discriminate.
  - split; [repeat split; discriminate|]. split; vm_compute; discriminate.
Qed.

Lemma sample_inputs_items : items_ok tide_limits_default [] (map input_item sample_inputs).
Proof. cbn. repeat split; discriminate. Qed.

Lemma counting_file_answers m0 ins user : file_answers counting m0 ins user.
Proof. split; [apply accepting_all_answer, counting_accepting|]. intros f [= <-]. reflexivity. Qed.

Lemma mux_session_decodes_witness :
  exists contents s' p, mux_session good_file None sample_inputs sample_store = Done (TIDE_STATUS_OK, contents, s') /\
    zlen contents = 312 /\ st_leases s' = ∅ /\
    tide_parse_tide_bytes (Some contents) (zlen contents) true (Some tide_limits_default) (Some counting) 0
      (Some zero_error) (Some 0) [] = Done (TIDE_STATUS_OK, p) /\ ps_user p = 7.
Proof.
  destruct (mux_session_decodes good_file None sample_inputs sample_store [] tide_limits_default counting 0 I sample_inputs_ok eq_refl
    sample_store_balanced (fun n Hn => conj Hn (Z.le_refl n)) limits_default_typed ltac:(discriminate) sample_file_fits sample_inputs_items
    ltac:(vm_compute; reflexivity) (counting_file_answers _ _ _)) as (st & contents & s' & Hrun & Hok & Hst).
  assert (E : st = TIDE_STATUS_OK) by (apply Hst; try reflexivity; apply sample_session_fits). subst st.
  destruct (Hok eq_refl) as (-> & Hb & p & Hp & Hu & _). eexists _, s', p. split; [exact Hrun|]. split; [vm_compute; reflexivity|].
  split; [apply balanced_nil, Hb|]. split; [exact Hp|]. rewrite Hu. vm_compute. reflexivity.
Defined.
