(* ===== verification/Demux.v ===== *)
(** * The demuxer

    [src/demux/demux.c]: the whole source is parsed when it is opened, into a
    table of stream descriptors and an array of packet references.  The state
    behind the decoder's [user] pointer is the demuxer and the lease store; a
    callback whose code is undefined leaves an undefined state behind, which
    the parser hands on ([on_state]).  The allocator's answers come in two
    lists, one for the parser and, in the store, one for the demuxer: every
    interleaving of the two is a run of one allocator. *)

From S2P Require Import Prelude Status Rational Model Lease Packet Frame Decoder Source.

Record tide_demux : Set := mk_demux {
  dx_source : tide_source;
  dx_error : tide_error;
  dx_streams : cells tide_stream_info;
  dx_stream_count : Z;
  dx_stream_capacity : Z;
  dx_configs : cells (option (list byte));
  dx_packets : cells tide_packet_ref;
  dx_packet_count : Z;
  dx_packet_capacity : Z;
  dx_cursor : Z;
  dx_selected_track : Z
}.

Record tide_demux_options : Set := mk_demux_options {
  do_limits : tide_limits;
  do_selected_track : Z;
  do_strict : bool
}.

Definition STREAM_INFO_SIZE : Z := 40.
Definition CONFIG_POINTER_SIZE : Z := 8.
Definition PACKET_REF_SIZE : Z := 80.

Definition set_streams (streams : cells tide_stream_info) (count capacity : Z) (configs : cells (option (list byte)))
    (d : tide_demux) : tide_demux :=
  mk_demux (dx_source d) (dx_error d) streams count capacity configs (dx_packets d) (dx_packet_count d)
    (dx_packet_capacity d) (dx_cursor d) (dx_selected_track d).
Definition set_packets (packets : cells tide_packet_ref) (count capacity cursor : Z) (d : tide_demux) : tide_demux :=
  mk_demux (dx_source d) (dx_error d) (dx_streams d) (dx_stream_count d) (dx_stream_capacity d) (dx_configs d)
    packets count capacity cursor (dx_selected_track d).
Definition set_demux_error (e : tide_error) (d : tide_demux) : tide_demux :=
  mk_demux (dx_source d) e (dx_streams d) (dx_stream_count d) (dx_stream_capacity d) (dx_configs d)
    (dx_packets d) (dx_packet_count d) (dx_packet_capacity d) (dx_cursor d) (dx_selected_track d).

(** The two tables of streams grow together; [false] when a [realloc] fails.
    An allocation size that wraps is counted as undefined. *)
Definition grow_streams (d : tide_demux) (h : heap) : outcome (bool * tide_demux * heap) :=
  if dx_stream_count d =? dx_stream_capacity d then
    let next := if dx_stream_capacity d =? 0 then 8 else dx_stream_capacity d *u 2 in
    _ ← assert_def (next * STREAM_INFO_SIZE <=? SIZE_MAX);
    let (ok, h) := alloc h in
    if negb ok then Done (false, d, h)
    else
      let d := set_streams (resize (dx_streams d) next) (dx_stream_count d) (dx_stream_capacity d) (dx_configs d) d in
      _ ← assert_def (next * CONFIG_POINTER_SIZE <=? SIZE_MAX);
      let (ok, h) := alloc h in
      if negb ok then Done (false, d, h)
      else Done (true, set_streams (dx_streams d) (dx_stream_count d) next (resize (dx_configs d) next) d, h)
  else Done (true, d, h).

Definition set_config (config : option (list byte)) (s : tide_stream_info) : tide_stream_info :=
  mk_stream_info (si_track_id s) (si_generation s) (si_media_kind s) (si_codec_tag s) (si_time_base s) config (si_config_size s).

(** [demux->streams[count] = *stream] with its configuration, and
    [demux->configs[count]]. *)
Definition store_stream (stream : tide_stream_info) (config_copy : option (list byte)) (d : tide_demux) : outcome tide_demux :=
  streams ← write_cell (dx_streams d) (Z.to_nat (dx_stream_count d)) (set_config config_copy stream);
  configs ← write_cell (dx_configs d) (Z.to_nat (dx_stream_count d)) config_copy;
  Done (set_streams streams (dx_stream_count d +u 1) (dx_stream_capacity d) configs d).

Definition tide_demux_add_stream (d : tide_demux) (stream : tide_stream_info) (s : lease_store)
    : outcome (tide_status * tide_demux * lease_store) :=
  '(ok, d, h) ← grow_streams d (st_heap s);
  if negb ok then Done (TIDE_STATUS_RESOURCE, d, set_heap h s)
  else
    '(copy, h) ← copy_data (si_config stream) (si_config_size stream) h;
    match copy with
    | None => Done (TIDE_STATUS_RESOURCE, d, set_heap h s)
    | Some config_copy => d ← store_stream stream config_copy d; Done (TIDE_STATUS_OK, d, set_heap h s)
    end.

(** [tide_packet_ref_init] of the cells from [i], [n] cells left. *)
Fixpoint init_loop (n : nat) (i : nat) (packets : cells tide_packet_ref) : outcome (cells tide_packet_ref) :=
  match n with
  | O => Done packets
  | S n => packets ← write_cell packets i zero_packet; init_loop n (S i) packets
  end.

Definition grow_packets (d : tide_demux) (h : heap) : outcome (bool * tide_demux * heap) :=
  if dx_packet_count d =? dx_packet_capacity d then
    let next := if dx_packet_capacity d =? 0 then 16 else dx_packet_capacity d *u 2 in
    _ ← assert_def (next * PACKET_REF_SIZE <=? SIZE_MAX);
    let (ok, h) := alloc h in
    if negb ok then Done (false, d, h)
    else
      packets ← init_loop (Z.to_nat (next - dx_packet_capacity d)) (Z.to_nat (dx_packet_capacity d)) (resize (dx_packets d) next);
      Done (true, set_packets packets (dx_packet_count d) (Z.max next (dx_packet_capacity d)) (dx_cursor d) d, h)
  else Done (true, d, h).

Definition tide_demux_add_packet (d : tide_demux) (packet : tide_packet_info) (s : lease_store)
    : outcome (tide_status * tide_demux * lease_store) :=
  if negb (dx_selected_track d =? 0) && negb (pk_track_id packet =? dx_selected_track d) then Done (TIDE_STATUS_OK, d, s)
  else
    '(ok, d, h) ← grow_packets d (st_heap s);
    let s := set_heap h s in
    if negb ok then Done (TIDE_STATUS_RESOURCE, d, s)
    else
      '(lease, s) ← tide_payload_lease_create_copy (pv_data (pk_payload packet)) (pv_size (pk_payload packet)) s;
      if is_null lease && negb (pv_size (pk_payload packet) =? 0) then Done (TIDE_STATUS_RESOURCE, d, s)
      else
        data ← tide_payload_lease_data lease s;
        size ← tide_payload_lease_size lease s;
        packets ← write_cell (dx_packets d) (Z.to_nat (dx_packet_count d))
                    (mk_packet_ref (set_payload (mk_payload_view data size lease) packet) lease);
        Done (TIDE_STATUS_OK, set_packets packets (dx_packet_count d +u 1) (dx_packet_capacity d) (dx_cursor d) d, s).

(** ** The callbacks *)

Definition demux_state : Type := outcome (tide_demux * lease_store).

Definition on_state (f : tide_demux -> lease_store -> outcome (tide_status * tide_demux * lease_store)) (u : demux_state)
    : tide_status * demux_state :=
  match ('(d, s) ← u; f d s) with
  | Done (st, d, s) => (st, Done (d, s))
  | Undef => (TIDE_STATUS_INTERNAL, Undef)
  | NoFuel => (TIDE_STATUS_INTERNAL, NoFuel)
  end.

Definition demux_callbacks : tide_callbacks demux_state :=
  mk_callbacks None
    (Some (fun stream => on_state (fun d s => tide_demux_add_stream d stream s)))
    (Some (fun packet => on_state (fun d s => tide_demux_add_packet d packet s)))
    (Some (fun error u => '(d, s) ← u; Done (set_demux_error error d, s))).

(** [calloc], then the fields that are not zero. *)
Definition new_demux (source : tide_source) (options : option tide_demux_options) : tide_demux :=
  mk_demux source zero_error [] 0 0 [] [] 0 0 0 (match options with None => 0 | Some o => do_selected_track o end).

(** ** Opening, reading, closing *)

(** The loop of [tide_demux_close] over the packets, [n] cells from [i]. *)
Fixpoint release_loop (n : nat) (i : nat) (packets : cells tide_packet_ref) (s : lease_store) : outcome lease_store :=
  match n with
  | O => Done s
  | S n =>
    packet ← read_cell packets i;
    '(_, s) ← tide_packet_ref_reset (Some packet) s;
    release_loop n (S i) packets s
  end.

Definition tide_demux_close (demux : option tide_demux) (s : lease_store) : outcome lease_store :=
  match demux with
  | None => Done s
  | Some d => release_loop (Z.to_nat (dx_packet_capacity d)) 0 (dx_packets d) s
  end.

(** [out] is [None] when null, and otherwise the cell behind it; [hp] are the
    allocator's answers to the parser. *)
Definition tide_demux_open (out : option (option tide_demux)) (source : option tide_source) (options : option tide_demux_options)
    (hp : heap) (s : lease_store) : outcome (tide_status * option (option tide_demux) * lease_store) :=
  match out, source with
  | Some _, Some src =>
    let (ok, h) := alloc (st_heap s) in
    if negb ok then Done (TIDE_STATUS_RESOURCE, Some None, set_heap h s)
    else
      let limits := match options with
                    | None => tide_limits_default
                    | Some o => if max_record_size (do_limits o) =? 0 then tide_limits_default else do_limits o end in
      let demux := new_demux src options in
      '(status, p) ← tide_parse_tide_bytes (tide_source_data source) (tide_source_size source) true (Some limits)
                       (Some demux_callbacks) (Done (demux, set_heap h s)) (Some (dx_error demux)) (Some 0) hp;
      '(demux, s) ← ps_user p;
      error ← deref (ps_error p);
      let demux := set_demux_error error demux in
      let lenient := match options with None => false | Some o => negb (do_strict o) end in
      if negb (bool_decide (status = TIDE_STATUS_OK)) && negb (bool_decide (status = TIDE_STATUS_PARTIAL) && lenient) then
        s ← tide_demux_close (Some demux) s;
        Done (status, Some None, s)
      else Done (status, Some (Some demux), s)
  | _, _ => Done (TIDE_STATUS_INVALID_ARGUMENT, out, s)
  end.

Definition tide_demux_next (demux : option tide_demux) (out : option tide_packet_ref) (s : lease_store)
    : outcome (tide_status * option tide_demux * option tide_packet_ref * lease_store) :=
  match demux, out with
  | Some d, Some _ =>
    if dx_cursor d >=? dx_packet_count d then Done (TIDE_STATUS_WOULD_BLOCK, demux, out, s)
    else
      packet ← read_cell (dx_packets d) (Z.to_nat (dx_cursor d));
      '(status, out, packet, s) ← tide_packet_ref_move false out (Some packet) s;
      packet ← deref packet;
      packets ← write_cell (dx_packets d) (Z.to_nat (dx_cursor d)) packet;
      Done (status, Some (set_packets packets (dx_packet_count d) (dx_packet_capacity d) (dx_cursor d +u 1) d), out, s)
  | _, _ => Done (TIDE_STATUS_INVALID_ARGUMENT, demux, out, s)
  end.

Definition tide_demux_stream_count (demux : option tide_demux) : Z :=
  match demux with None => 0 | Some d => dx_stream_count d end.

(** [out] is [None] when null, and otherwise what it points to. *)
Definition tide_demux_stream_info (demux : option tide_demux) (index : Z) (out : option tide_stream_info)
    : outcome (tide_status * option tide_stream_info) :=
  match demux, out with
  | Some d, Some _ =>
    if index >=? dx_stream_count d then Done (TIDE_STATUS_INVALID_ARGUMENT, out)
    else info ← read_cell (dx_streams d) (Z.to_nat index); Done (TIDE_STATUS_OK, Some info)
  | _, _ => Done (TIDE_STATUS_INVALID_ARGUMENT, out)
  end.

Definition tide_demux_last_error (demux : option tide_demux) : option tide_error := d ← demux; Some (dx_error d).
