(* ===== verification/DemuxSpec.v ===== *)
(** * What the demuxer holds

    The two tables of the demuxer as lists, the operations on them, and the
    demuxer as a client of the decoder: opening a source leaves the streams and
    packets of the log of deliveries, reading hands the packets over in order
    and closing releases the rest. *)

From S2P Require Import Prelude Status Checked Rational Model Lease Packet Frame Validate Header Decoder Parse ParseRule Delivery Replay Source Demux.

(** ** The tables *)

(** A null pointer for no bytes, as the copies have it. *)
Definition nonempty (data : option (list byte)) : option (list byte) :=
  match data with Some (_ :: _) => data | _ => None end.

(** A stream and a packet as the demuxer keeps them. *)
Definition stored_stream (s : tide_stream_info) : tide_stream_info := set_config (nonempty (si_config s)) s.
Definition carries (p : tide_packet_info) (r : tide_packet_ref) : Prop :=
  ref_info r = set_payload (mk_payload_view (nonempty (pv_data (pk_payload p))) (pv_size (pk_payload p)) (ref_lease r)) p.

Lemma nonempty_slice (data : list byte) :
  (if zlen data =? 0 then None else Some (slice data 0 (zlen data))) = nonempty (Some data).
Proof. destruct data; [reflexivity|]. rewrite slice_full. reflexivity. Qed.

(** The first cells hold [infos] and their configurations. *)
Definition streams_rep (d : tide_demux) (infos : list tide_stream_info) : Prop :=
  holds (dx_streams d) infos /\ holds (dx_configs d) (map si_config infos) /\ dx_stream_count d = zlen infos /\
  zlen infos <= dx_stream_capacity d <= Z.max 8 (2 * zlen infos) /\
  dx_stream_capacity d <= zlen (dx_streams d) /\ dx_stream_capacity d <= zlen (dx_configs d).

(** The packets from the cursor on; all other cells are empty references. *)
Definition packets_rep (d : tide_demux) (pending : list tide_packet_ref) : Prop :=
  exists taken free, dx_packets d = map Some (replicate taken zero_packet ++ pending ++ replicate free zero_packet) /\
    dx_cursor d = Z.of_nat taken /\ dx_packet_count d = dx_cursor d + zlen pending /\
    dx_packet_capacity d = zlen (dx_packets d) /\ dx_packet_capacity d <= Z.max 16 (2 * dx_packet_count d) /\
    dx_packet_capacity d < 2 ^ 60.

(** The part of a demuxer that streams do not touch, and the part that packets
    do not touch. *)
Definition streams_only (d d' : tide_demux) : Prop := exists ss n cap cs, d' = set_streams ss n cap cs d.
Definition packets_only (d d' : tide_demux) : Prop := exists ps n cap, d' = set_packets ps n cap (dx_cursor d) d.

Lemma streams_only_packets d d' pending : streams_only d d' -> packets_rep d pending -> packets_rep d' pending.
Proof. intros (ss & n & cap & cs & ->) H. exact H. Qed.
Lemma packets_only_streams d d' infos : packets_only d d' -> streams_rep d infos -> streams_rep d' infos.
Proof. intros (ps & n & cap & ->) H. exact H. Qed.
Lemma streams_only_cursor d d' : streams_only d d' -> dx_cursor d' = dx_cursor d /\ dx_selected_track d' = dx_selected_track d.
Proof. intros (ss & n & cap & cs & ->). split; reflexivity. Qed.
Lemma packets_only_cursor d d' : packets_only d d' -> dx_cursor d' = dx_cursor d /\ dx_selected_track d' = dx_selected_track d.
Proof. intros (ps & n & cap & ->). split; reflexivity. Qed.
Lemma streams_only_refl d : streams_only d d.
Proof. exists (dx_streams d), (dx_stream_count d), (dx_stream_capacity d), (dx_configs d). destruct d; reflexivity. Qed.
Lemma packets_only_refl d : packets_only d d.
Proof. exists (dx_packets d), (dx_packet_count d), (dx_packet_capacity d). destruct d; reflexivity. Qed.
Lemma streams_only_trans d1 d2 d3 : streams_only d1 d2 -> streams_only d2 d3 -> streams_only d1 d3.
Proof. intros (a & b & c & e & ->) (a' & b' & c' & e' & ->). exists a', b', c', e'. reflexivity. Qed.
Lemma packets_only_trans d1 d2 d3 : packets_only d1 d2 -> packets_only d2 d3 -> packets_only d1 d3.
Proof. intros (a & b & c & ->) (a' & b' & c' & ->). exists a', b', c'. reflexivity. Qed.

Lemma grow_streams_spec d infos h : streams_rep d infos -> zlen infos < 2 ^ 56 ->
  exists ok d' h', grow_streams d h = Done (ok, d', h') /\ streams_only d d' /\ streams_rep d' infos /\
    (ok = true -> zlen infos < dx_stream_capacity d') /\ (h = [] -> ok = true /\ h' = []).
Proof.
  intros Hr Hm. pose proof Hr as (Hs & Hc & Hn & Hcap & Hls & Hlc). pose proof (zlen_nonneg infos). unfold grow_streams.
  destruct (Z.eqb_spec (dx_stream_count d) (dx_stream_capacity d)) as [Hfull|Hfull].
  2: { exists true, d, h. split; [reflexivity|]. split; [apply streams_only_refl|]. split; [exact Hr|]. split; [lia|auto]. }
  set (next := if dx_stream_capacity d =? 0 then 8 else dx_stream_capacity d *u 2).
  assert (Hnext : zlen infos < next <= Z.max 8 (2 * zlen infos)).
  { unfold next. destruct (Z.eqb_spec (dx_stream_capacity d) 0); [lia|]. rewrite wrap64_small by zlia. lia. }
  unfold assert_def, STREAM_INFO_SIZE, CONFIG_POINTER_SIZE. rewrite !(proj2 (Z.leb_le _ _)) by lia. rewrite !bind_done.
  destruct (alloc h) as [[] h1] eqn:E1; cbn [negb].
  2: { exists false, d, h1. split; [reflexivity|]. split; [apply streams_only_refl|]. split; [exact Hr|]. split; [discriminate|intros ->; discriminate]. }
  assert (Hs' : holds (resize (dx_streams d) next) infos) by (apply holds_resize; [exact Hs|lia]).
  destruct (alloc h1) as [[] h2] eqn:E2; cbn [negb].
  - eexists true, _, h2. split; [reflexivity|]. split; [do 4 eexists; reflexivity|].
    split; [|split; [cbn; lia|intros ->; injection E1 as <-; injection E2 as <-; auto]].
    unfold streams_rep. cbn [dx_streams dx_configs dx_stream_count dx_stream_capacity set_streams]. rewrite !zlen_resize by lia.
    split; [exact Hs'|]. split; [apply holds_resize; [exact Hc|unfold zlen in *; rewrite length_map; lia]|]. repeat split; auto; lia.
  - eexists false, _, h2. split; [reflexivity|]. split; [do 4 eexists; reflexivity|].
    split; [|split; [discriminate|intros ->; injection E1 as <-; discriminate]].
    unfold streams_rep. cbn [dx_streams dx_configs dx_stream_count dx_stream_capacity set_streams]. rewrite zlen_resize by lia.
    split; [exact Hs'|]. repeat split; auto; lia.
Qed.

Lemma store_stream_spec d infos info config : streams_rep d infos -> zlen infos < dx_stream_capacity d -> zlen infos < 2 ^ 56 ->
  exists d', store_stream info config d = Done d' /\ streams_only d d' /\ streams_rep d' (infos ++ [set_config config info]).
Proof.
  intros (Hs & Hc & Hn & Hcap & Hls & Hlc) Hlt Hm. pose proof (zlen_nonneg infos).
  destruct (holds_room _ _ Hs ltac:(lia)) as (c1 & rest1 & E1).
  destruct (holds_room _ _ Hc ltac:(unfold zlen in *; rewrite length_map; lia)) as (c2 & rest2 & E2).
  unfold store_stream. rewrite Hn, E1, E2. rewrite (write_cell_eq infos), bind_done by (unfold zlen; lia).
  rewrite (write_cell_eq (map si_config infos)), bind_done by (rewrite length_map; unfold zlen; lia).
  eexists. split; [reflexivity|]. split; [do 4 eexists; reflexivity|].
  unfold streams_rep. cbn [dx_streams dx_configs dx_stream_count dx_stream_capacity set_streams].
  rewrite map_app. unfold holds. split; [exists rest1; symmetry; apply map_snoc|]. split; [exists rest2; symmetry; apply map_snoc|].
  rewrite zlen_app. change (zlen [_]) with 1. rewrite wrap64_small by zlia. rewrite E1, E2 in *. rewrite !zlen_app in *.
  unfold zlen in *. cbn [length] in *. repeat split; lia.
Qed.

Lemma add_stream_table d infos stream s : streams_rep d infos -> zlen infos < 2 ^ 56 -> parsed_stream stream ->
  exists st d' s', tide_demux_add_stream d stream s = Done (st, d', s') /\ streams_only d d' /\ st_leases s' = st_leases s /\
    ((st = TIDE_STATUS_OK /\ streams_rep d' (infos ++ [stored_stream stream])) \/ (st = TIDE_STATUS_RESOURCE /\ streams_rep d' infos)) /\
    (st_heap s = [] -> st = TIDE_STATUS_OK /\ st_heap s' = []).
Proof.
  intros Hr Hm (_ & _ & config & Hc & Hz). unfold tide_demux_add_stream.
  destruct (grow_streams_spec d infos (st_heap s) Hr Hm) as (ok & d1 & h1 & -> & Ho & Hr1 & Hroom & Hh). rewrite bind_done. cbv beta iota.
  destruct ok; cbn [negb].
  2: { exists TIDE_STATUS_RESOURCE, d1, (set_heap h1 s). split; [reflexivity|]. split; [exact Ho|]. split; [reflexivity|]. split; [auto|].
       intros E. destruct (Hh E). discriminate. }
  rewrite Hc, Hz. destruct (copy_data_spec config (zlen config) h1 ltac:(pose proof (zlen_nonneg config); lia)) as (o & h2 & -> & Hh2 & Ho2).
  rewrite bind_done. cbv beta iota. destruct o as [copy|].
  2: { exists TIDE_STATUS_RESOURCE, d1, (set_heap h2 s). split; [reflexivity|]. split; [exact Ho|]. split; [reflexivity|]. split; [auto|].
       intros E. destruct (Hh E) as [_ E1]. destruct (Hh2 E1) as [[? ?] _]. discriminate. }
  subst copy. rewrite nonempty_slice.
  destruct (store_stream_spec d1 infos stream (nonempty (Some config)) Hr1 (Hroom eq_refl) Hm) as (d2 & -> & Ho3 & Hr2). rewrite bind_done.
  exists TIDE_STATUS_OK, d2, (set_heap h2 s). split; [reflexivity|]. split; [eapply streams_only_trans; eassumption|]. split; [reflexivity|].
  unfold stored_stream. rewrite Hc. split; [auto|]. intros E. destruct (Hh E) as [_ E1]. destruct (Hh2 E1). auto.
Qed.

Lemma init_loop_spec n : forall xs, init_loop n (length xs) (map Some xs ++ replicate n None) = Done (map Some (xs ++ replicate n zero_packet)).
Proof.
  induction n as [|n IH]; intros xs; cbn [init_loop replicate]; [rewrite !app_nil_r; reflexivity|].
  rewrite write_cell_at, bind_done, <- map_snoc. replace (S (length xs)) with (length (xs ++ [zero_packet])) by (rewrite length_app; cbn; lia).
  rewrite IH, <- app_assoc. reflexivity.
Qed.

Lemma zlen_map {A B} (f : A -> B) l : zlen (map f l) = zlen l.
Proof. unfold zlen. rewrite length_map. reflexivity. Qed.

Lemma packets_free d taken pending free :
  dx_packets d = map Some (replicate taken zero_packet ++ pending ++ replicate free zero_packet) ->
  zlen (dx_packets d) = Z.of_nat taken + zlen pending + Z.of_nat free.
Proof. intros ->. rewrite zlen_map, !zlen_app. unfold zlen. rewrite !length_replicate. lia. Qed.

Lemma grow_packets_spec d pending h : packets_rep d pending -> dx_packet_count d < 2 ^ 56 ->
  exists ok d' h', grow_packets d h = Done (ok, d', h') /\ packets_only d d' /\ packets_rep d' pending /\
    dx_packet_count d' = dx_packet_count d /\ (ok = true -> dx_packet_count d' < dx_packet_capacity d') /\ (h = [] -> ok = true /\ h' = []).
Proof.
  intros Hr Hm. pose proof Hr as (taken & free & Hp & Hcur & Hn & Hcap & Hmax & Hbig). pose proof (packets_free _ _ _ _ Hp) as Hlen.
  pose proof (zlen_nonneg pending). unfold grow_packets.
  destruct (Z.eqb_spec (dx_packet_count d) (dx_packet_capacity d)) as [Hfull|Hfull].
  2: { exists true, d, h. split; [reflexivity|]. split; [apply packets_only_refl|]. split; [exact Hr|]. split; [reflexivity|]. split; [lia|auto]. }
  set (next := if dx_packet_capacity d =? 0 then 16 else dx_packet_capacity d *u 2).
  assert (Hnext : dx_packet_count d < next <= Z.max 16 (2 * dx_packet_count d)).
  { unfold next. destruct (Z.eqb_spec (dx_packet_capacity d) 0); [lia|]. rewrite wrap64_small by zlia. lia. }
  unfold assert_def, PACKET_REF_SIZE. rewrite (proj2 (Z.leb_le _ _)) by lia. rewrite bind_done.
  destruct (alloc h) as [[] h1] eqn:E1; cbn [negb].
  2: { exists false, d, h1. split; [reflexivity|]. split; [apply packets_only_refl|]. split; [exact Hr|]. split; [reflexivity|].
       split; [discriminate|intros ->; discriminate]. }
  set (xs := replicate taken zero_packet ++ pending ++ replicate free zero_packet) in *.
  assert (Hxs : zlen xs = dx_packet_capacity d) by (rewrite Hcap, Hp, zlen_map; reflexivity).
  rewrite Hp, resize_full by lia. rewrite Hxs. replace (Z.to_nat (dx_packet_capacity d)) with (length xs) by (unfold zlen in Hxs; lia).
  rewrite init_loop_spec, bind_done. eexists true, _, h1. split; [reflexivity|]. split; [do 3 eexists; reflexivity|].
  split; [|split; [reflexivity|split; [cbn; lia|intros ->; injection E1 as <-; auto]]].
  exists taken, (free + Z.to_nat (next - dx_packet_capacity d))%nat.
  cbn [dx_packets dx_packet_count dx_packet_capacity dx_cursor set_packets]. unfold xs. rewrite replicate_add, <- !app_assoc.
  split; [reflexivity|]. split; [exact Hcur|]. split; [exact Hn|]. split; [|lia].
  unfold xs in Hxs. rewrite zlen_map, !zlen_app. rewrite !zlen_app in Hxs. unfold zlen in *. rewrite !length_replicate in *. lia.
Qed.

Lemma push_packet_spec d pending r : packets_rep d pending -> dx_packet_count d < dx_packet_capacity d -> dx_packet_count d < 2 ^ 56 ->
  exists packets, write_cell (dx_packets d) (Z.to_nat (dx_packet_count d)) r = Done packets /\
    packets_rep (set_packets packets (dx_packet_count d +u 1) (dx_packet_capacity d) (dx_cursor d) d) (pending ++ [r]).
Proof.
  intros (taken & free & Hp & Hcur & Hn & Hcap & Hmax & Hbig) Hlt Hm. pose proof (packets_free _ _ _ _ Hp) as Hlen.
  pose proof (zlen_nonneg pending). destruct free as [|free]; [lia|]. cbn [replicate] in Hp.
  rewrite Hp, app_assoc, map_app. cbn [map]. rewrite write_cell_eq.
  2: { rewrite length_app, length_replicate. unfold zlen in *. lia. }
  eexists. split; [reflexivity|]. exists taken, free. cbn [dx_packets dx_packet_count dx_packet_capacity dx_cursor set_packets].
  rewrite wrap64_small by zlia. split; [rewrite !map_app, <- !app_assoc; reflexivity|]. split; [exact Hcur|].
  rewrite zlen_app. change (zlen [r]) with 1. split; [lia|]. split; [|lia]. rewrite Hcap, Hp.
  rewrite !zlen_app, !zlen_map. unfold zlen. rewrite !length_app. cbn [length map]. rewrite !length_replicate, !length_map, !length_replicate. lia.
Qed.

(** The packets of the track selected, 0 for all. *)
Definition wanted (selected : Z) (p : tide_packet_info) : bool := (selected =? 0) || (pk_track_id p =? selected).

(** The references are those of the store and their payloads those of their leases. *)
Definition owned (s : lease_store) (rs : list tide_packet_ref) (hs : list lease_ptr) : Prop :=
  balanced s (held_by rs ++ hs) /\ Forall (synced s) rs.

Lemma owned_leases s s' rs hs : st_leases s' = st_leases s -> owned s rs hs -> owned s' rs hs.
Proof.
  intros E [Hb Hs]. split; [intros p; rewrite E; apply Hb|]. eapply Forall_impl; [exact Hs|]. intros r. apply synced_leases, E.
Qed.

(** A copied payload makes a reference that owns it. *)
Lemma copy_packet_spec s pending hs p payload : owned s pending hs -> pk_payload p = mk_payload_view (Some payload) (zlen payload) None ->
  exists lease s', tide_payload_lease_create_copy (Some payload) (zlen payload) s = Done (lease, s') /\ (st_heap s = [] -> is_Some lease /\ st_heap s' = []) /\
    ((lease = None /\ zlen payload <> 0 /\ owned s' pending hs) \/
     exists data size, tide_payload_lease_data lease s' = Done data /\ tide_payload_lease_size lease s' = Done size /\
       is_null lease && negb (zlen payload =? 0) = false /\
       let r := mk_packet_ref (set_payload (mk_payload_view data size lease) p) lease in
       carries p r /\ owned s' (pending ++ [r]) hs).
Proof.
  intros [Hb Hs] Hp. destruct (create_spec s (held_by pending ++ hs) payload (zlen payload) Hb ltac:(pose proof (zlen_nonneg payload); lia))
    as (lease & s' & -> & Hh & Hl). exists lease, s'. split; [reflexivity|]. split; [exact Hh|]. destruct lease as [q|].
  - destruct Hl as (Hnew & Hb' & n & Hst). rewrite nonempty_slice in Hst. right. exists (nonempty (Some payload)), (zlen payload).
    unfold tide_payload_lease_data, tide_payload_lease_size. rewrite Hst, lookup_insert_eq. cbn [deref is_null andb].
    rewrite !bind_done. split; [reflexivity|]. split; [reflexivity|]. split; [reflexivity|]. cbv zeta.
    split; [unfold carries; rewrite Hp; reflexivity|]. split.
    + match goal with |- context [held_by (_ ++ [?r])] => rewrite held_by_app; change (held_by [r]) with [q] end.
      rewrite <- app_assoc. cbn [app]. rewrite <- Permutation_middle. exact Hb'.
    + apply Forall_app. split.
      * eapply Forall_impl; [exact Hs|]. intros r. unfold synced. destruct (ref_lease r) as [q'|]; [|auto]. intros (l & Hl & Hv).
        exists l. split; [|exact Hv]. rewrite Hst, lookup_insert_ne by congruence. exact Hl.
      * constructor; [|constructor]. unfold synced. cbn [ref_lease]. eexists. rewrite Hst, lookup_insert_eq. split; [reflexivity|].
        reflexivity.
  - destruct Hl as [Hst _]. assert (Ho : owned s' pending hs) by (apply (owned_leases s); [exact Hst|split; assumption]).
    destruct (Z.eqb_spec (zlen payload) 0) as [E0|]; [right|left; auto]. exists None, 0. split; [reflexivity|]. split; [reflexivity|]. split; [reflexivity|].
    cbv zeta. split.
    + unfold carries. rewrite Hp, E0. destruct payload; [reflexivity|]. unfold zlen in E0. discriminate.
    + destruct Ho as [Hb' Hs']. split; [rewrite held_by_app; cbn; rewrite app_nil_r; exact Hb'|]. apply Forall_app. split; [exact Hs'|].
      constructor; [exact I|constructor].
Qed.

Lemma add_packet_table d pending packet s hs : packets_rep d pending -> dx_packet_count d < 2 ^ 56 -> owned s pending hs -> parsed_packet packet ->
  exists st d' s' pending', tide_demux_add_packet d packet s = Done (st, d', s') /\ packets_only d d' /\
    packets_rep d' pending' /\ owned s' pending' hs /\
    ((st = TIDE_STATUS_OK /\ (if wanted (dx_selected_track d) packet then exists r, pending' = pending ++ [r] /\ carries packet r else pending' = pending)) \/
     (st = TIDE_STATUS_RESOURCE /\ pending' = pending)) /\
    (st_heap s = [] -> st = TIDE_STATUS_OK /\ st_heap s' = []).
Proof.
  intros Hr Hm Ho (_ & _ & payload & Hp). unfold tide_demux_add_packet. rewrite <- negb_orb. fold (wanted (dx_selected_track d) packet).
  destruct (wanted (dx_selected_track d) packet); cbn [negb].
  2: { exists TIDE_STATUS_OK, d, s, pending. split; [reflexivity|]. split; [apply packets_only_refl|]. split; [exact Hr|]. split; [exact Ho|]. split; [left; split; reflexivity|auto]. }
  destruct (grow_packets_spec d pending (st_heap s) Hr Hm) as (ok & d1 & h1 & -> & Hd1 & Hr1 & Hn1 & Hroom & Hh). rewrite bind_done. cbv beta iota zeta.
  assert (Ho1 : owned (set_heap h1 s) pending hs) by (apply (owned_leases s); [reflexivity|exact Ho]).
  destruct ok; cbn [negb].
  2: { exists TIDE_STATUS_RESOURCE, d1, (set_heap h1 s), pending. split; [reflexivity|]. split; [exact Hd1|]. split; [exact Hr1|]. split; [exact Ho1|].
       split; [auto|]. intros E. destruct (Hh E). discriminate. }
  rewrite Hp. cbn [pv_data pv_size].
  destruct (copy_packet_spec (set_heap h1 s) pending hs packet payload Ho1 Hp) as (lease & s2 & -> & Hh2 & Hcase). rewrite bind_done. cbv beta iota.
  destruct Hcase as [(-> & Hz & Ho2)|(data & size & Hd & Hsz & Hnull & Hcar & Ho2)].
  - cbn [is_null andb]. rewrite (proj2 (Z.eqb_neq _ _) Hz). cbn [negb]. exists TIDE_STATUS_RESOURCE, d1, s2, pending.
    split; [reflexivity|]. split; [exact Hd1|]. split; [exact Hr1|]. split; [exact Ho2|]. split; [auto|].
    intros E. destruct (Hh E) as [_ ->]. destruct (Hh2 eq_refl) as [[? ?] _]. discriminate.
  - rewrite Hnull, Hd, Hsz, !bind_done.
    destruct (push_packet_spec d1 pending (mk_packet_ref (set_payload (mk_payload_view data size lease) packet) lease) Hr1 (Hroom eq_refl) ltac:(lia))
      as (packets & -> & Hr2). rewrite bind_done. eexists TIDE_STATUS_OK, _, s2, _. split; [reflexivity|].
    split; [eapply packets_only_trans; [exact Hd1|do 3 eexists; reflexivity]|]. split; [exact Hr2|]. split; [exact Ho2|].
    split; [left; split; [reflexivity|]; eexists; split; [reflexivity|exact Hcar]|]. intros E. destruct (Hh E) as [_ ->]. destruct (Hh2 eq_refl). auto.
Qed.
