(* ===== verification/DemuxRun.v ===== *)
(** * Opening, reading and closing a demuxer

    A demuxer that was opened holds what the decoder delivers for its source;
    its client reads the packets in order, and whatever is done the leases stay
    balanced. *)

From S2P Require Import Prelude Status Checked Rational Model Lease Packet Frame Validate Header Decoder Parse ParseRule Samples Delivery Replay Source Demux DemuxSpec.

(** The demuxer holds [infos] and, from its cursor on, [pending]; [hs] are the
    handles of others. *)
Definition opened (d : tide_demux) (s : lease_store) (infos : list tide_stream_info) (pending : list tide_packet_ref)
    (hs : list lease_ptr) : Prop :=
  streams_rep d infos /\ packets_rep d pending /\ owned s pending hs.

(** ** The callbacks along a log *)

Lemma add_stream_status d stream s st d' s' :
  tide_demux_add_stream d stream s = Done (st, d', s') -> st = TIDE_STATUS_OK \/ st = TIDE_STATUS_RESOURCE.
Proof.
  unfold tide_demux_add_stream. intros E. apply bind_Done_inv in E as ([[ok d1] h1] & _ & E). destruct ok; cbn [negb] in E.
  - apply bind_Done_inv in E as ([copy h2] & _ & E). destruct copy; [|injection E as <- _ _; auto].
    apply bind_Done_inv in E as (d2 & _ & E). injection E as <- _ _. auto.
  - injection E as <- _ _. auto.
Qed.

Lemma add_packet_status d packet s st d' s' :
  tide_demux_add_packet d packet s = Done (st, d', s') -> st = TIDE_STATUS_OK \/ st = TIDE_STATUS_RESOURCE.
Proof.
  unfold tide_demux_add_packet. destruct (_ && _); [intros [= <- _ _]; auto|]. intros E.
  apply bind_Done_inv in E as ([[ok d1] h1] & _ & E). destruct ok; cbn [negb] in E; [|injection E as <- _ _; auto].
  apply bind_Done_inv in E as ([lease s1] & _ & E). destruct (_ && _); [injection E as <- _ _; auto|].
  do 3 (apply bind_Done_inv in E as (? & _ & E)). injection E as <- _ _. auto.
Qed.

Lemma on_state_status f u st u' : (forall d s st d' s', f d s = Done (st, d', s') -> st = TIDE_STATUS_OK \/ st = TIDE_STATUS_RESOURCE) ->
  on_state f u = (st, u') -> st = TIDE_STATUS_OK \/ is_failure st.
Proof.
  intros Hf. unfold on_state. destruct (_ ≫= _) as [[[st1 d'] s']| |] eqn:E.
  - intros [= <- _]. apply bind_Done_inv in E as ([d s] & _ & E). destruct (Hf _ _ _ _ _ E) as [-> | ->]; [auto|].
    right. repeat split; discriminate.
  - intros [= <- _]. right. repeat split; discriminate.
  - intros [= <- _]. right. repeat split; discriminate.
Qed.

(** The callbacks accept or fail. *)
Lemma demux_answers u d log : answer demux_callbacks u d log = TIDE_STATUS_OK \/ is_failure (answer demux_callbacks u d log).
Proof.
  unfold answer. destruct d as [e|x|p]; cbn [give demux_callbacks on_record on_stream on_packet]; [left; reflexivity|..].
  - destruct (on_state _ _) as [st u'] eqn:E. refine (on_state_status _ _ _ _ _ E). intros d s st1 d' s'. apply add_stream_status.
  - destruct (on_state _ _) as [st u'] eqn:E. refine (on_state_status _ _ _ _ _ E). intros d s st1 d' s'. apply add_packet_status.
Qed.

Section log.
Context (limits : tide_limits) (data : list byte) (d0 : tide_demux) (s0 : lease_store) (hs : list lease_ptr).
Context (Hd0 : opened d0 s0 [] [] hs) (Hcur : dx_cursor d0 = 0).

Let u0 : demux_state := Done (d0, s0).
Let sel : Z := dx_selected_track d0.

(** What the demuxer holds after the deliveries of [log]: all of it, if no
    callback failed; and none fails if no allocation does. *)
Definition held_after (log : list delivery) (d : tide_demux) (s : lease_store) : Prop :=
  exists infos pending, opened d s infos pending hs /\ dx_cursor d = 0 /\ dx_selected_track d = sel /\
    zlen infos <= zlen (streams log) /\ zlen pending <= zlen (packets log) /\
    (accepted (answer demux_callbacks u0) log ->
       infos = map stored_stream (streams log) /\ Forall2 carries (List.filter (wanted sel) (packets log)) pending) /\
    (st_heap s0 = [] -> st_heap s = [] /\ accepted (answer demux_callbacks u0) log).

Lemma accepted_nil v : accepted v [].
Proof. intros before d [tl E]. destruct before; discriminate. Qed.

Lemma accepted_last v log d : accepted v (log ++ [d]) -> accepted v log /\ v d log = TIDE_STATUS_OK.
Proof.
  intros Ha. split; [|apply Ha; reflexivity]. intros before d' Hp. apply Ha. etransitivity; [exact Hp|]. exists [d]. reflexivity.
Qed.

Lemma held_nil : held_after [] d0 s0.
Proof.
  exists [], []. split; [exact Hd0|]. split; [exact Hcur|]. split; [reflexivity|]. split; [reflexivity|]. split; [reflexivity|].
  split; [split; [reflexivity|constructor]|]. auto using accepted_nil.
Qed.

Lemma held_record log e d s : held_after log d s -> held_after (log ++ [Record_event e]) d s.
Proof.
  intros (infos & pending & Hop & Hc & Hsel & Hn1 & Hn2 & Hacc & Hheap). exists infos, pending.
  rewrite streams_app, packets_app, !app_nil_r. do 5 (split; [assumption|]). split.
  - intros Ha. apply accepted_last in Ha as [Ha _]. auto.
  - intros E. destruct (Hheap E) as [H1 H2]. split; [exact H1|]. apply accepted_snoc; [exact H2|reflexivity].
Qed.

Lemma held_stream log stream d s : held_after log d s -> replay demux_callbacks u0 log = Done (d, s) ->
  zlen (streams log) < 2 ^ 56 -> parsed_stream stream ->
  exists d' s', replay demux_callbacks u0 (log ++ [Stream_info stream]) = Done (d', s') /\ held_after (log ++ [Stream_info stream]) d' s'.
Proof.
  intros (infos & pending & (Hs & Hp & Ho) & Hc & Hsel & Hn1 & Hn2 & Hacc & Hheap) Hrun Hm Hx.
  destruct (add_stream_table d infos stream s Hs ltac:(lia) Hx) as (st & d' & s' & Hadd & Honly & Hl & Hst & Hh).
  assert (Hg : give demux_callbacks (replay demux_callbacks u0 log) (Stream_info stream) = (st, Done (d', s'))).
  { rewrite Hrun. cbn [give demux_callbacks on_stream]. unfold on_state. rewrite bind_done, Hadd. reflexivity. }
  assert (Hans : answer demux_callbacks u0 (Stream_info stream) log = st) by (unfold answer; rewrite Hg; reflexivity).
  rewrite replay_snoc, Hg. exists d', s'. split; [reflexivity|].
  destruct (streams_only_cursor _ _ Honly) as [Hc' Hsel']. unfold held_after. rewrite streams_app, packets_app, app_nil_r, zlen_app, map_app.
  change (zlen [stream]) with 1.
  assert (Hnext : exists infos', streams_rep d' infos' /\ zlen infos' <= zlen infos + 1 /\ (st = TIDE_STATUS_OK -> infos' = infos ++ [stored_stream stream])).
  { destruct Hst as [[-> Hr]|[-> Hr]]; eexists; (split; [exact Hr|]); (split; [rewrite ?zlen_app; unfold zlen; cbn; lia|]); [auto|discriminate]. }
  destruct Hnext as (infos' & Hr & Hz & Hok). exists infos', pending.
  split; [split; [exact Hr|]; split; [eapply streams_only_packets; eassumption|apply (owned_leases s); assumption]|].
  split; [congruence|]. split; [congruence|]. split; [lia|]. split; [exact Hn2|]. split.
  - intros Ha. apply accepted_last in Ha as [Ha Hv]. rewrite Hans in Hv. rewrite (Hok Hv). destruct (Hacc Ha) as [-> H']. auto.
  - intros E. destruct (Hheap E) as [H1 H2]. destruct (Hh H1) as [-> H3]. split; [exact H3|]. apply accepted_snoc; assumption.
Qed.

Lemma held_packet log packet d s : held_after log d s -> replay demux_callbacks u0 log = Done (d, s) ->
  zlen (packets log) < 2 ^ 56 -> parsed_packet packet ->
  exists d' s', replay demux_callbacks u0 (log ++ [Packet_info packet]) = Done (d', s') /\ held_after (log ++ [Packet_info packet]) d' s'.
Proof.
  intros (infos & pending & (Hs & Hp & Ho) & Hc & Hsel & Hn1 & Hn2 & Hacc & Hheap) Hrun Hm Hx.
  assert (Hcount : dx_packet_count d < 2 ^ 56) by (destruct Hp as (taken & free & _ & _ & -> & _); lia).
  destruct (add_packet_table d pending packet s hs Hp Hcount Ho Hx) as (st & d' & s' & pending' & Hadd & Honly & Hr & Ho' & Hst & Hh).
  assert (Hg : give demux_callbacks (replay demux_callbacks u0 log) (Packet_info packet) = (st, Done (d', s'))).
  { rewrite Hrun. cbn [give demux_callbacks on_packet]. unfold on_state. rewrite bind_done, Hadd. reflexivity. }
  assert (Hans : answer demux_callbacks u0 (Packet_info packet) log = st) by (unfold answer; rewrite Hg; reflexivity).
  rewrite replay_snoc, Hg. exists d', s'. split; [reflexivity|].
  destruct (packets_only_cursor _ _ Honly) as [Hc' Hsel']. unfold held_after. rewrite streams_app, packets_app, app_nil_r, zlen_app, List.filter_app.
  change (zlen [packet]) with 1. exists infos, pending'.
  split; [split; [eapply packets_only_streams; eassumption|split; assumption]|]. split; [congruence|]. split; [congruence|]. split; [exact Hn1|].
  rewrite Hsel in Hst. split; [|split].
  - destruct Hst as [[_ Hw]|[_ ->]]; [|lia]. destruct (wanted sel packet); [destruct Hw as (r & -> & _)|subst]; rewrite ?zlen_app; unfold zlen in *; cbn in *; lia.
  - intros Ha. apply accepted_last in Ha as [Ha Hv]. rewrite Hans in Hv. destruct (Hacc Ha) as [-> H']. split; [reflexivity|].
    destruct Hst as [[_ Hw]|[-> _]]; [|discriminate]. cbn [List.filter].
    destruct (wanted sel packet); [destruct Hw as (r & -> & Hcar); apply Forall2_app; [exact H'|constructor; [exact Hcar|constructor]]|].
    subst. rewrite app_nil_r. exact H'.
  - intros E. destruct (Hheap E) as [H1 H2]. destruct (Hh H1) as [-> H3]. split; [exact H3|]. apply accepted_snoc; assumption.
Qed.

Lemma held_replay log : log_ok limits data log -> zlen (streams log) + zlen (packets log) < 2 ^ 56 ->
  exists d s, replay demux_callbacks u0 log = Done (d, s) /\ held_after log d s.
Proof.
  induction 1 as [|log x Hlog IH Hx]; intros Hm; [exists d0, s0; split; [reflexivity|apply held_nil]|].
  rewrite streams_app, packets_app, !zlen_app in Hm. pose proof (zlen_nonneg (streams log)). pose proof (zlen_nonneg (packets log)).
  destruct IH as (d & s & Hrun & Hheld); [unfold zlen in *; destruct x; cbn in *; lia|]. destruct x as [e|stream|packet].
  - exists d, s. rewrite replay_snoc, Hrun. split; [reflexivity|apply held_record, Hheld].
  - eapply held_stream; [exact Hheld|exact Hrun|unfold zlen in *; cbn in *; lia|apply Hx].
  - eapply held_packet; [exact Hheld|exact Hrun|unfold zlen in *; cbn in *; lia|apply Hx].
Qed.
End log.

(** ** Closing and reading *)

Lemma release_loop_spec rs : forall pre post s hs, balanced s (held_by rs ++ hs) ->
  exists s', release_loop (length rs) (length pre) (map Some (pre ++ rs ++ post)) s = Done s' /\ balanced s' hs /\ keeps hs s s'.
Proof.
  induction rs as [|r rs IH]; intros pre post s hs Hb; [exists s; auto using keeps_refl|].
  cbn [length release_loop]. rewrite map_app. cbn [map app]. rewrite read_cell_at, bind_done.
  rewrite held_by_cons, <- app_assoc in Hb. destruct (reset_spec s r _ Hb) as (s1 & -> & Hb1 & _ & Hk & _). rewrite bind_done. cbv beta iota.
  destruct (IH (pre ++ [r]) post s1 hs Hb1) as (s' & Hrun & Hb' & Hk').
  rewrite <- app_assoc, length_app, Nat.add_1_r, map_app in Hrun. exists s'. split; [exact Hrun|]. split; [exact Hb'|].
  eapply keeps_trans; [|exact Hk']. eapply keeps_sub; [|exact Hk]. apply list_subseteq_app_r. reflexivity.
Qed.

Lemma close_balanced d pending s hs : packets_rep d pending -> balanced s (held_by pending ++ hs) ->
  exists s', tide_demux_close (Some d) s = Done s' /\ balanced s' hs /\ keeps hs s s'.
Proof.
  intros (taken & free & Hp & _ & _ & Hcap & _) Hb. unfold tide_demux_close.
  set (all := replicate taken zero_packet ++ pending ++ replicate free zero_packet) in *.
  destruct (release_loop_spec all [] [] s hs) as (s' & Hrun & H).
  { unfold all. rewrite !held_by_app, !held_by_zero, app_nil_r. exact Hb. }
  exists s'. split; [|exact H]. rewrite Hcap, Hp, zlen_map. unfold zlen. rewrite Nat2Z.id. rewrite app_nil_r in Hrun. exact Hrun.
Qed.

Lemma close_spec_demux d pending s hs : packets_rep d pending -> owned s pending hs ->
  exists s', tide_demux_close (Some d) s = Done s' /\ balanced s' hs /\ keeps hs s s'.
Proof. intros Hp [Hb _]. exact (close_balanced d pending s hs Hp Hb). Qed.

(** A reference whose lease others keep alive is not changed by their doings. *)
Lemma synced_keeps s s' r hs hs' :
  balanced s hs -> balanced s' hs' -> keeps hs' s s' -> hs' ⊆ hs -> held r ⊆ hs' -> synced s r -> synced s' r.
Proof.
  unfold synced, held. destruct (ref_lease r) as [p|]; [|auto]. intros Hb Hb' Hk Hhs Hsub (l & Hl & Hv).
  assert (Hp : p ∈ hs') by set_solver. specialize (Hk p Hp). rewrite Hl in Hk.
  destruct (balanced_lookup s' p hs' Hb' Hp) as (l' & Hl' & _ & _ & Hw' & _).
  destruct (balanced_lookup s p hs Hb ltac:(set_solver)) as (l0 & Hl0 & _ & _ & Hw & _). rewrite Hl0 in Hl. injection Hl as ->.
  rewrite Hl' in Hk. cbn in Hk. injection Hk as Hk. exists l'. split; [exact Hl'|]. rewrite Hv, Hw, Hw', Hk. reflexivity.
Qed.

Lemma held_by_in r rs : r ∈ rs -> held r ⊆ held_by rs.
Proof.
  intros Hr. apply list_elem_of_split in Hr as (l1 & l2 & ->). rewrite held_by_app, held_by_cons. set_solver.
Qed.

(** References stay as they are when another one lets go of its lease. *)
Lemma owned_after r pending s s' hs : balanced s (held r ++ held_by pending ++ hs) -> balanced s' (held_by pending ++ hs) ->
  keeps (held_by pending ++ hs) s s' -> Forall (synced s) pending -> owned s' pending hs.
Proof.
  intros Hb Hb' Hk Hsync. split; [exact Hb'|]. apply Forall_forall. intros x Hx. rewrite Forall_forall in Hsync.
  apply (synced_keeps s s' x _ _ Hb Hb' Hk); [apply list_subseteq_app_r; reflexivity|apply list_subseteq_app_l, held_by_in, Hx|auto].
Qed.

(** Reading hands over the next packet and releases what [out] held. *)
Lemma next_spec d infos r pending s hs out :
  opened d s infos (r :: pending) (held out ++ hs) ->
  exists d' s', tide_demux_next (Some d) (Some out) s = Done (TIDE_STATUS_OK, Some d', Some r, s') /\
    opened d' s' infos pending (held r ++ hs) /\ synced s' r /\ (ref_lease out = None -> s' = s) /\ st_heap s' = st_heap s.
Proof.
  intros (Hs & (taken & free & Hp & Hcur & Hn & Hcap & Hmax & Hbig) & Hb & Hsync). pose proof (packets_free _ _ _ _ Hp) as Hlen. pose proof (zlen_nonneg pending).
  assert (Hz : zlen (r :: pending) = zlen pending + 1) by (unfold zlen; cbn [length]; lia).
  unfold tide_demux_next. rewrite Z.geb_leb, (proj2 (Z.leb_gt _ _)) by lia. cbn [app] in Hp.
  rewrite Hp, map_app. cbn [map]. rewrite read_cell_eq, bind_done by (rewrite length_replicate; lia).
  set (others := held_by pending ++ hs). rewrite held_by_cons in Hb.
  assert (Hb1 : balanced s (held out ++ held r ++ others)).
  { unfold others. rewrite <- app_assoc in Hb. rewrite <- (Permutation_app_comm (held r ++ held_by pending ++ hs)), <- !app_assoc.
    rewrite (Permutation_app_comm hs). exact Hb. }
  inversion Hsync as [|? ? Hr Hrest]; subst.
  destruct (move_spec s out r others Hb1) as (s' & r' & -> & Hb2 & Hh & Hk & Hstore & _ & Hr' & Hsame & _).
  rewrite (Hsame Hr) in *. rewrite bind_done. cbv beta iota. cbn [deref]. rewrite bind_done.
  rewrite write_cell_eq, bind_done by (rewrite length_replicate; lia).
  eexists _, s'. split; [reflexivity|].
  split; [|split; [exact Hr'|split; [exact Hstore|exact Hh]]]. split; [exact Hs|]. split; [|split].
  - exists (S taken), free. cbn [dx_packets dx_packet_count dx_packet_capacity dx_cursor set_packets].
    rewrite wrap64_small by zlia. rewrite replicate_S_end, <- app_assoc. split; [rewrite !map_app; cbn [app map]; rewrite ?map_app; reflexivity|].
    split; [lia|]. split; [lia|]. split; [|auto]. rewrite Hcap, Hlen, zlen_app. unfold zlen. cbn [length]. rewrite !length_map, length_app, !length_replicate. lia.
  - rewrite (app_assoc (held_by pending)), (Permutation_app_comm (held_by pending)), <- app_assoc. exact Hb2.
  - apply Forall_forall. intros x Hx. apply (synced_keeps s s' x _ _ Hb1 Hb2 Hk); [apply list_subseteq_app_r; reflexivity| |rewrite Forall_forall in Hrest; auto].
    apply list_subseteq_app_r, list_subseteq_app_l, held_by_in, Hx.
Qed.

(** A client that is done with each packet before it reads the next. *)
Lemma next_reset_spec d infos r pending s hs : opened d s infos (r :: pending) hs ->
  exists d' s', tide_demux_next (Some d) (Some zero_packet) s = Done (TIDE_STATUS_OK, Some d', Some r, s) /\
    tide_packet_ref_reset (Some r) s = Done (Some zero_packet, s') /\ opened d' s' infos pending hs.
Proof.
  intros Hop. destruct (next_spec d infos r pending s hs zero_packet Hop) as (d' & s1 & Hnext & (Hs & Hp & Hb & Hsync) & _ & Hsame & _).
  rewrite (Hsame eq_refl) in *. assert (Hb1 : balanced s (held r ++ held_by pending ++ hs)).
  { rewrite (app_assoc (held r)), (Permutation_app_comm (held r)), <- app_assoc. exact Hb. }
  destruct (reset_spec s r _ Hb1) as (s' & Hreset & Hb' & _ & Hk & _). exists d', s'. split; [exact Hnext|]. split; [exact Hreset|].
  split; [exact Hs|]. split; [exact Hp|]. exact (owned_after r pending s s' hs Hb1 Hb' Hk Hsync).
Qed.

(** ** Opening *)

Definition demux_limits (options : option tide_demux_options) : tide_limits :=
  match options with
  | None => tide_limits_default
  | Some o => if max_record_size (do_limits o) =? 0 then tide_limits_default else do_limits o
  end.
Definition selected_track (options : option tide_demux_options) : Z := match options with None => 0 | Some o => do_selected_track o end.
Definition demux_options_typed (options : option tide_demux_options) : Prop :=
  match options with None => True | Some o => limits_typed (do_limits o) end.

(** The statuses with which a demuxer is opened. *)
Definition opens (options : option tide_demux_options) (st : tide_status) : bool :=
  bool_decide (st = TIDE_STATUS_OK) ||
  (bool_decide (st = TIDE_STATUS_PARTIAL) && match options with None => false | Some o => negb (do_strict o) end).

Lemma demux_limits_typed options : demux_options_typed options -> limits_typed (demux_limits options).
Proof.
  destruct options as [o|]; [|intros _; apply limits_default_typed]. cbn. destruct (_ =? 0); [intros _; apply limits_default_typed|auto].
Qed.

(** The decoder on the bytes of the source, its deliveries recorded. *)
Definition recording (src : tide_source) (limits : tide_limits) (h : heap) : outcome (tide_status * pstate (list delivery)) :=
  tide_parse_tide_bytes (src_data src) (src_size src) true (Some limits) (Some (logging (fun _ _ => TIDE_STATUS_OK))) []
    (Some zero_error) (Some 0) h.

Lemma replay_logging verdict log : replay (logging verdict) [] log = log.
Proof.
  induction log as [|d log IH] using rev_ind; [reflexivity|]. rewrite replay_snoc, IH. destruct d; reflexivity.
Qed.

(** A run that accepted everything is the recording. *)
Lemma accepted_recording verdict src bytes limits h st p :
  source_wf src bytes -> zlen bytes < 2 ^ 64 -> limits_typed limits ->
  tide_parse_tide_bytes (src_data src) (src_size src) true (Some limits) (Some (logging verdict)) [] (Some zero_error) (Some 0) h = Done (st, p) ->
  accepted verdict (ps_user p) -> recording src limits h = Done (st, p).
Proof.
  intros (Hd & Hs & _) Hm Hl Hrun Hacc.
  assert (Hargs : parse_args (src_data src) (src_size src) limits (Some zero_error) (Some 0)).
  { split; [congruence|]. split; [lia|]. split; [exact Hl|eauto]. }
  unfold recording. rewrite (parse_bytes_replay (logging (fun _ _ => TIDE_STATUS_OK)) [] _ _ _ _ _ _ _ _ _ _ Hrun).
  - unfold replayed. rewrite replay_logging. destruct p; reflexivity.
  - intros before d Hp. rewrite (Hacc before d Hp). unfold answer. destruct d; reflexivity.
  - exact Hargs.
Qed.

(** The parse behind [tide_demux_open]. *)
Lemma open_parse src bytes options hp s hs :
  source_wf src bytes -> zlen bytes < 2 ^ 56 -> demux_options_typed options -> balanced s hs ->
  let limits := demux_limits options in
  exists st p d s' infos pending,
    tide_parse_tide_bytes (src_data src) (src_size src) true (Some limits) (Some demux_callbacks) (Done (new_demux src options, s))
      (Some zero_error) (Some 0) hp = Done (st, p) /\
    ps_user p = Done (d, s') /\ is_Some (ps_error p) /\ opened d s' infos pending hs /\ (st_heap s = [] -> st_heap s' = []) /\
    (opens options st = true \/ st_heap s = [] ->
       exists q, recording src limits hp = Done (st, q) /\ ps_error q = ps_error p /\
         infos = map stored_stream (streams (ps_user q)) /\
         Forall2 carries (List.filter (wanted (selected_track options)) (packets (ps_user q))) pending).
Proof.
  intros Hsrc Hm Ho Hb limits. pose proof Hsrc as (Hd & Hs & _). pose proof (demux_limits_typed options Ho) as Hl. fold limits in Hl.
  assert (Hargs : parse_args (src_data src) (src_size src) limits (Some zero_error) (Some 0)).
  { split; [congruence|]. split; [lia|]. split; [exact Hl|eauto]. }
  set (d0 := new_demux src options). set (u0 := Done (d0, s) : demux_state).
  destruct (parse_bytes_log (answer demux_callbacks u0) _ _ limits true (Some zero_error) (Some 0) hp Hargs) as (st & q & Hrun & Hlog & Hn & He & _).
  rewrite Hd in Hlog. pose proof (zlen_nonneg bytes).
  assert (Hd0 : opened d0 s [] [] hs).
  { split; [|split; [|split; [exact Hb|constructor]]].
    - split; [exists []; reflexivity|]. split; [exists []; reflexivity|]. cbn. unfold zlen. cbn. lia.
    - exists 0%nat, 0%nat. cbn. unfold zlen. cbn. repeat split; lia. }
  destruct (held_replay limits bytes d0 s hs Hd0 eq_refl (ps_user q) Hlog ltac:(lia)) as (d & s' & Hrep & infos & pending & Hop & _ & _ & _ & _ & Hacc & Hheap).
  exists st, (replayed demux_callbacks u0 q), d, s', infos, pending.
  split; [apply (parse_bytes_replay demux_callbacks u0 _ _ _ _ _ _ _ _ _ _ Hrun); [intros before x _; reflexivity|exact Hargs]|].
  split; [exact Hrep|]. split; [exact He|]. split; [exact Hop|]. split; [intros E; apply Hheap, E|]. intros Hwhen.
  assert (Ha : accepted (answer demux_callbacks u0) (ps_user q)).
  { destruct Hwhen as [Hopen|E]; [|apply Hheap, E].
    refine (parse_bytes_accepted _ (demux_answers u0) _ _ _ (Some limits) _ _ _ _ _ Hargs Hrun _). unfold opens in Hopen.
    apply orb_true_iff in Hopen as [H'|H']; [|apply andb_true_iff in H' as [H' _]]; apply bool_decide_eq_true in H'; auto. }
  exists q. split; [eapply accepted_recording; [exact Hsrc|lia|exact Hl|exact Hrun|exact Ha]|]. split; [reflexivity|]. apply Hacc, Ha.
Qed.

(** Opening, whatever the bytes and the answers of the allocator. *)
Lemma demux_open_spec (o : option tide_demux) (src : tide_source) (bytes : list byte)
    (options : option tide_demux_options) (hp : heap) (s : lease_store) (hs : list lease_ptr) :
  source_wf src bytes -> zlen bytes < 2 ^ 56 -> demux_options_typed options -> balanced s hs ->
  exists st r s', tide_demux_open (Some o) (Some src) options hp s = Done (st, Some r, s') /\
    match r with
    | Some d => opens options st = true /\ exists q pending, recording src (demux_limits options) hp = Done (st, q) /\
        opened d s' (map stored_stream (streams (ps_user q))) pending hs /\
        Forall2 carries (List.filter (wanted (selected_track options)) (packets (ps_user q))) pending /\
        ps_error q = tide_demux_last_error (Some d) /\ (st_heap s = [] -> st_heap s' = [])
    | None => opens options st = false /\ balanced s' hs
    end /\
    (st_heap s = [] -> exists q, recording src (demux_limits options) hp = Done (st, q) /\ is_null r = negb (opens options st)).
Proof.
  intros Hsrc Hm Ho Hb. unfold tide_demux_open. destruct (alloc (st_heap s)) as [[] h] eqn:Ea; cbn [negb].
  2: { exists TIDE_STATUS_RESOURCE, None, (set_heap h s). split; [reflexivity|]. split; [split; [destruct options; reflexivity|exact Hb]|]. intros E. rewrite E in Ea. discriminate. }
  fold (demux_limits options). cbv zeta.
  change (tide_source_data (Some src)) with (src_data src). change (tide_source_size (Some src)) with (src_size src).
  change (dx_error (new_demux src options)) with zero_error.
  destruct (open_parse src bytes options hp (set_heap h s) hs Hsrc Hm Ho Hb) as (st & p & d & s' & infos & pending & -> & Hu & [e He] & Hop & Hheap & Hrec).
  rewrite bind_done. cbv beta iota. unfold demux_state in Hu, He. rewrite Hu, bind_done. cbv beta iota. rewrite He. cbn [deref]. rewrite bind_done. cbv zeta.
  rewrite <- negb_orb. fold (opens options st). destruct (opens options st) eqn:Eo; cbn [negb].
  - destruct (Hrec (or_introl eq_refl)) as (q & Hq & Heq & -> & Hcar).
    exists st, (Some (set_demux_error e d)), s'. split; [reflexivity|]. rewrite Eo. split; [|intros _; exists q; split; [exact Hq|reflexivity]].
    split; [reflexivity|]. exists q, pending. split; [exact Hq|]. split; [exact Hop|]. split; [exact Hcar|].
    split; [transitivity (ps_error p); [exact Heq|exact He]|]. intros E. apply Hheap. cbn [st_heap set_heap]. rewrite E in Ea. injection Ea as <-. reflexivity.
  - destruct Hop as (_ & Hp & Hown).
    destruct (close_spec_demux (set_demux_error e d) pending s' hs Hp Hown) as (s2 & -> & Hb2 & _). rewrite bind_done.
    exists st, None, s2. split; [reflexivity|]. split; [auto|]. intros E. rewrite E in Ea. injection Ea as <-.
    destruct (Hrec (or_intror eq_refl)) as (q & Hq & _). exists q. rewrite Eo. split; [exact Hq|reflexivity].
Qed.

(** ** Reading everything *)

(** Read into fresh references until something else than a packet comes. *)
Fixpoint demux_read (fuel : nat) (demux : option tide_demux) (s : lease_store)
    : outcome (tide_status * list tide_packet_ref * option tide_demux * lease_store) :=
  match fuel with
  | O => NoFuel
  | S fuel =>
    '(st, demux, out, s) ← tide_demux_next demux (Some zero_packet) s;
    if negb (bool_decide (st = TIDE_STATUS_OK)) then Done (st, [], demux, s)
    else
      out ← deref out;
      '(st, outs, demux, s) ← demux_read fuel demux s;
      Done (st, out :: outs, demux, s)
  end.

Lemma next_none d infos s hs out : opened d s infos [] hs ->
  tide_demux_next (Some d) (Some out) s = Done (TIDE_STATUS_WOULD_BLOCK, Some d, Some out, s).
Proof.
  intros (_ & (taken & free & _ & _ & Hn & _) & _). unfold tide_demux_next. rewrite Hn, Z.geb_leb. change (zlen []) with 0.
  rewrite (proj2 (Z.leb_le _ _)) by lia. reflexivity.
Qed.

Lemma read_all pending : forall d s infos hs fuel, opened d s infos pending hs -> (length pending < fuel)%nat ->
  exists d', demux_read fuel (Some d) s = Done (TIDE_STATUS_WOULD_BLOCK, pending, Some d', s) /\
    opened d' s infos [] (held_by pending ++ hs).
Proof.
  induction pending as [|r pending IH]; intros d s infos hs fuel Hop Hf; (destruct fuel as [|fuel]; [cbn in Hf; lia|]); cbn [demux_read].
  { rewrite (next_none d infos s hs _ Hop), bind_done. cbv beta iota. exists d. split; [reflexivity|exact Hop]. }
  destruct (next_spec d infos r pending s hs zero_packet Hop) as (d1 & s1 & -> & Hop1 & _ & Hsame & _). rewrite (Hsame eq_refl) in *.
  rewrite bind_done. cbv beta iota. rewrite bool_decide_eq_true_2 by reflexivity. cbn [negb deref]. rewrite bind_done.
  destruct (IH d1 s infos (held r ++ hs) fuel Hop1) as (d' & -> & (H1 & H2 & Hb & H3)); [cbn in Hf; lia|]. rewrite bind_done.
  exists d'. split; [reflexivity|]. split; [exact H1|]. split; [exact H2|]. split; [|exact H3].
  rewrite held_by_cons, (Permutation_app_comm (held r)), <- app_assoc. exact Hb.
Qed.

Lemma stream_info_spec d infos i out : streams_rep d infos -> 0 <= i ->
  tide_demux_stream_info (Some d) i (Some out) =
    Done (match infos !! Z.to_nat i with Some info => (TIDE_STATUS_OK, Some info) | None => (TIDE_STATUS_INVALID_ARGUMENT, Some out) end).
Proof.
  intros ([rest Hs] & _ & Hn & _) Hi. unfold tide_demux_stream_info. rewrite Hn, Z.geb_leb. destruct (Z.leb_spec (zlen infos) i) as [Hle|Hlt].
  - rewrite lookup_ge_None_2 by (unfold zlen in Hle; lia). reflexivity.
  - destruct (lookup_lt_is_Some_2 infos (Z.to_nat i)) as [info Hinfo]; [unfold zlen in Hlt; lia|]. rewrite Hinfo.
    unfold read_cell. rewrite Hs, lookup_app_l by (rewrite length_map; unfold zlen in Hlt; lia). rewrite list_lookup_fmap, Hinfo. reflexivity.
Qed.

(** The packets read stay with the client when the demuxer is closed. *)
Lemma close_keeps d pending s hs : packets_rep d [] -> owned s pending hs -> owned s [] (held_by pending ++ hs) ->
  exists s', tide_demux_close (Some d) s = Done s' /\ balanced s' (held_by pending ++ hs) /\ Forall (synced s') pending.
Proof.
  intros Hp [Hb0 Hsync] Hown'. destruct (close_spec_demux d [] s _ Hp Hown') as (s' & Hc & Hb & Hk).
  exists s'. split; [exact Hc|]. split; [exact Hb|]. apply Forall_forall. intros r Hr. rewrite Forall_forall in Hsync.
  apply (synced_keeps s s' r _ _ Hb0 Hb Hk); [reflexivity|apply list_subseteq_app_l, held_by_in, Hr|auto].
Qed.

(** A demuxer that holds [infos] and [pending] answers with them: the
    stream count is that of [infos], stream [i] is the [i]-th of them and an
    index out of range is refused; reading gives the packets once each and in
    order and then [WOULD_BLOCK] for ever; closing then leaves the packets read
    with the client, their payloads intact; and closing a demuxer that was not
    read to its end releases what was not read and nothing else. *)
Theorem demux_session_correct (d : tide_demux) (s : lease_store) (infos : list tide_stream_info)
    (pending : list tide_packet_ref) (hs : list lease_ptr) (out : tide_stream_info) (fuel : nat) :
  opened d s infos pending hs -> (length pending < fuel)%nat ->
  tide_demux_stream_count (Some d) = zlen infos /\
  (forall i, 0 <= i -> tide_demux_stream_info (Some d) i (Some out) =
     Done (match infos !! Z.to_nat i with Some info => (TIDE_STATUS_OK, Some info) | None => (TIDE_STATUS_INVALID_ARGUMENT, Some out) end)) /\
  (exists d', demux_read fuel (Some d) s = Done (TIDE_STATUS_WOULD_BLOCK, pending, Some d', s) /\
     demux_read 1 (Some d') s = Done (TIDE_STATUS_WOULD_BLOCK, [], Some d', s) /\
     exists s', tide_demux_close (Some d') s = Done s' /\ balanced s' (held_by pending ++ hs) /\ Forall (synced s') pending) /\
  (exists s', tide_demux_close (Some d) s = Done s' /\ balanced s' hs /\ keeps hs s s').
Proof.
  intros Hop Hf. pose proof Hop as ((_ & _ & Hn & _) & Hp & Hown). split; [exact Hn|]. split; [|split].
  - intros i Hi. apply stream_info_spec; [apply Hop|exact Hi].
  - destruct (read_all pending d s infos hs fuel Hop Hf) as (d' & Hrun & Hop'). exists d'. split; [exact Hrun|].
    split; [cbn [demux_read]; rewrite (next_none d' infos s _ _ Hop'); reflexivity|]. destruct Hop' as (_ & Hp' & Hown').
    exact (close_keeps d' pending s hs Hp' Hown Hown').
  - exact (close_spec_demux d pending s hs Hp Hown).
Qed.

(** Witnesses: the sample file, and a client that holds a lease of its own. *)
Definition sample_source : tide_source := source_of sample_file.

Definition client_store : lease_store := mk_store {[4%positive := mk_lease 1 (Some [x01]) 1 3]} 4 [].

Lemma client_store_balanced : balanced client_store [4%positive].
Proof.
  intros p. destruct (decide (p = 4%positive)) as [->|Hne].
  - rewrite handles_eq. split; [reflexivity|]. split; [lia|]. split; [reflexivity|]. split; [reflexivity|]. split; discriminate.
  - unfold client_store. cbn [st_leases]. rewrite lookup_singleton_ne, handles_ne by auto. reflexivity.
Qed.

(** Witness: one stream and one packet with a lease. *)
Definition one_info : tide_stream_info := mk_stream_info 1 0 2 0x61 (mk_rational 1 1000) None 0.
Definition one_packet : tide_packet_ref :=
  mk_packet_ref (mk_packet_info 1 0 0 5 5 1 0 (mk_payload_view (Some [x01]) 1 (Some 4%positive))) (Some 4%positive).
Definition one_demux : tide_demux :=
  mk_demux (source_of []) zero_error [Some one_info] 1 1 [Some None] [Some one_packet; Some zero_packet] 1 2 0 0.

Lemma one_demux_opened : opened one_demux client_store [one_info] [one_packet] [].
Proof.
  split; [|split; [|split]].
  - split; [exists []; reflexivity|]. split; [exists []; reflexivity|]. vm_compute. repeat split; discriminate.
  - exists 0%nat, 1%nat. repeat split; vm_compute; (reflexivity || discriminate).
  - exact client_store_balanced.
  - constructor; [|constructor]. eexists. split; reflexivity.
Qed.

Lemma demux_session_correct_witness :
  exists d', demux_read 5 (Some one_demux) client_store = Done (TIDE_STATUS_WOULD_BLOCK, [one_packet], Some d', client_store) /\
    exists s', tide_demux_close (Some d') client_store = Done s' /\ Forall (synced s') [one_packet].
Proof.
  destruct (demux_session_correct one_demux client_store [one_info] [one_packet] [] one_info 5 one_demux_opened ltac:(cbn; lia))
    as (_ & _ & (d' & Hrun & _ & s' & Hc & _ & Hsync) & _).
  exists d'. split; [exact Hrun|]. exists s'. split; [exact Hc|exact Hsync].
Defined.

(** C6: demuxing is defined for every source below 64 PiB, whatever the bytes and
    the answers of the allocator.  When opening succeeds ([OK], or [PARTIAL] if
    the options are not strict) the client gets exactly the streams that the
    decoder delivers for the source: their number, and for each index
    [tide_demux_stream_info] gives all the fields of the descriptor delivered at
    that place, with a copy of its configuration (none if it is empty), and refuses
    an index out of range.  And it gets, of the track selected, exactly the packets
    the decoder delivers: each packet once, in order, with a lease of its own on a copy of its
    payload that outlives the demuxer.  When opening fails every lease made on
    the way was released.  Unless an allocation fails the status is the decoder's. *)
Theorem demux_source_correct (o : option tide_demux) (src : tide_source) (bytes : list byte)
    (options : option tide_demux_options) (hp : heap) (s : lease_store) (hs : list lease_ptr) :
  source_wf src bytes -> zlen bytes < 2 ^ 56 -> demux_options_typed options -> balanced s hs ->
  exists st r s', tide_demux_open (Some o) (Some src) options hp s = Done (st, Some r, s') /\
    match r with
    | Some d => opens options st = true /\ exists q refs d',
        recording src (demux_limits options) hp = Done (st, q) /\
        tide_demux_stream_count (Some d) = zlen (streams (ps_user q)) /\
        (forall i out, 0 <= i -> tide_demux_stream_info (Some d) i (Some out) =
           Done (match streams (ps_user q) !! Z.to_nat i with
                 | Some info => (TIDE_STATUS_OK, Some (stored_stream info))
                 | None => (TIDE_STATUS_INVALID_ARGUMENT, Some out) end)) /\
        demux_read (S (length (packets (ps_user q)))) (Some d) s' = Done (TIDE_STATUS_WOULD_BLOCK, refs, Some d', s') /\
        Forall2 carries (List.filter (wanted (selected_track options)) (packets (ps_user q))) refs /\
        exists s2, tide_demux_close (Some d') s' = Done s2 /\ balanced s2 (held_by refs ++ hs) /\ Forall (synced s2) refs
    | None => opens options st = false /\ balanced s' hs
    end /\
    (st_heap s = [] -> exists q, recording src (demux_limits options) hp = Done (st, q) /\ is_null r = negb (opens options st)).
Proof.
  intros Hsrc Hm Ho Hb. destruct (demux_open_spec o src bytes options hp s hs Hsrc Hm Ho Hb) as (st & r & s' & Hrun & Hr & Hst).
  exists st, r, s'. split; [exact Hrun|]. split; [|exact Hst]. destruct r as [d|]; [|exact Hr].
  destruct Hr as (Hopen & q & pending & Hq & Hop & Hcar & _). split; [exact Hopen|].
  pose proof Hop as ((_ & _ & Hn & _) & _ & Hown).
  assert (Hlen : (length pending < S (length (packets (ps_user q))))%nat).
  { rewrite <- (Forall2_length _ _ _ Hcar). pose proof (List.filter_length_le (wanted (selected_track options)) (packets (ps_user q))). lia. }
  destruct (read_all pending d s' _ hs _ Hop Hlen) as (d' & Hread & (_ & Hp' & Hown')). exists q, pending, d'.
  split; [exact Hq|]. split; [cbn; rewrite Hn, zlen_map; reflexivity|]. split.
  { intros i out Hi. rewrite (stream_info_spec d _ i out (proj1 Hop) Hi), list_lookup_fmap. destruct (_ !! _); reflexivity. }
  split; [exact Hread|]. split; [exact Hcar|].
  destruct (close_keeps d' pending s' hs Hp' Hown Hown') as (s2 & H). exists s2. exact H.
Qed.

Lemma demux_source_correct_witness :
  exists d s' d' refs s2, tide_demux_open (Some None) (Some sample_source) None [] client_store = Done (TIDE_STATUS_OK, Some (Some d), s') /\
    dx_stream_count d = 1 /\
    tide_demux_stream_info (Some d) 0 (Some one_info) = Done (TIDE_STATUS_OK, Some (mk_stream_info 1 0 2 0x61 (mk_rational 1 1000) (Some [x07]) 1)) /\
    demux_read 2 (Some d) s' = Done (TIDE_STATUS_WOULD_BLOCK, refs, Some d', s') /\ length refs = 1%nat /\
    tide_demux_close (Some d') s' = Done s2 /\ balanced s2 (held_by refs ++ [4%positive]).
Proof.
  destruct (demux_source_correct None sample_source sample_file None [] client_store [4%positive] (source_of_wf sample_file) eq_refl I
    client_store_balanced) as (st & r & s' & Hrun & Hr & Hst).
  destruct (Hst eq_refl) as (q & Hq & Hnull). assert (Hq' := Hq). vm_compute in Hq'. injection Hq' as Est Eq. subst st.
  destruct r as [d|]; [|discriminate Hnull]. destruct Hr as (_ & q2 & refs & d' & Hq2 & Hn & Hinfo & Hread & Hcar & s2 & Hc & Hb & _).
  rewrite Hq in Hq2. injection Hq2 as <-. subst q. exists d, s', d', refs, s2. split; [exact Hrun|]. split; [exact Hn|].
  split; [exact (Hinfo 0 one_info ltac:(lia))|]. split; [exact Hread|].
  split; [apply Forall2_length in Hcar; symmetry; exact Hcar|]. split; [exact Hc|exact Hb].
Defined.
