(* ===== verification/MuxDemux.v ===== *)
(** * From the muxer to the demuxer

    A file of the muxer gives the demuxer the streams and packets that were
    written. *)

From S2P Require Import Prelude Status Checked Buffer Crc Reader Rational Model Lease Packet Frame Validate Header Decoder Parse ParseRule ParseSplit Delivery Replay Source Writer RoundTrip Mux MuxSpec MuxFile Demux DemuxSpec DemuxRun.

(** ** The log of a written file *)

Definition ok_logging : tide_callbacks (list delivery) := logging (fun _ _ => TIDE_STATUS_OK).

Definition item_streams (items : list item) : list tide_stream_info :=
  omap (fun i => match i with Stream_item s _ => Some s | Packet_item _ _ => None end) items.
Definition item_packets (items : list item) : list tide_packet_info :=
  omap (fun i => match i with Stream_item _ _ => None | Packet_item p _ => Some (unleased p) end) items.

Lemma ok_accepting : accepting ok_logging.
Proof. split; [|split]; intros f x u [= <-]; reflexivity. Qed.

Lemma hand_over_log r offset depth i log : exists e,
  hand_over ok_logging r offset depth i log = log ++ [Record_event e] ++
    match i with Stream_item s _ => [Stream_info s] | Packet_item p _ => [Packet_info (unleased p)] end.
Proof. eexists. destruct i; cbn; rewrite <- app_assoc; reflexivity. Qed.

Lemma hand_over_items al items : forall sq offset log,
  streams (hand_over_all ok_logging al sq offset items log) = streams log ++ item_streams items /\
  packets (hand_over_all ok_logging al sq offset items log) = packets log ++ item_packets items.
Proof.
  induction items as [|i items IH]; intros sq offset log; [split; symmetry; apply app_nil_r|]. cbn [hand_over_all].
  match goal with |- context [hand_over ok_logging ?r ?o ?d i log] => destruct (hand_over_log r o d i log) as [e ->] end.
  destruct (IH (sq + 1) (offset + zlen (rec_bytes (item_record al sq i))) (log ++ [Record_event e] ++
    match i with Stream_item s _ => [Stream_info s] | Packet_item p _ => [Packet_info (unleased p)] end)) as [-> ->].
  unfold streams, packets, item_streams, item_packets. rewrite !omap_app. destruct i; cbn; rewrite ?app_nil_r, <- ?app_assoc; auto.
Qed.

Lemma hand_over_file_log m0 ins :
  streams (hand_over_file ok_logging m0 ins []) = item_streams (map input_item ins) /\
  packets (hand_over_file ok_logging m0 ins []) = item_packets (map input_item ins).
Proof.
  unfold hand_over_file. destruct (hand_over_items 3 (map input_item ins) 0 TIDE_HEADER_SIZE []) as [Hs Hp].
  destruct (mx_write_footer m0); [|auto]. unfold hand_footer. cbn [ok_logging logging on_record snd].
  rewrite streams_app, packets_app, !app_nil_r. auto.
Qed.

(** ** What was written *)

Definition input_streams (ins : list mux_input) : list tide_stream_info :=
  omap (fun i => match i with In_stream s => Some s | In_packet _ => None end) ins.

Lemma streams_written ins : map stored_stream (item_streams (map input_item ins)) = map stored_stream (input_streams ins).
Proof.
  induction ins as [|[s|r] ins IH]; [reflexivity| |exact IH]. cbn. f_equal; [|exact IH]. destruct s as [a g k c t [[|b config]|] n]; reflexivity.
Qed.

Lemma carries_written p r : carries (unleased (canon_packet p)) r <-> carries p r.
Proof. destruct p as [a g q d t u f [[[|b data]|] n l]]; reflexivity. Qed.

Lemma wanted_written sel p : wanted sel (unleased (canon_packet p)) = wanted sel p.
Proof. destruct p; reflexivity. Qed.

Lemma packets_written sel ins refs :
  Forall2 carries (List.filter (wanted sel) (item_packets (map input_item ins))) refs ->
  Forall2 carries (List.filter (wanted sel) (map ref_info (input_refs ins))) refs.
Proof.
  revert refs. induction ins as [|[s|r] ins IH]; intros refs; [auto|exact (IH refs)|].
  cbn [map input_item item_packets omap list_omap input_refs List.filter]. change (input_refs (In_packet r :: ins)) with (r :: input_refs ins).
  change (item_packets _) with (unleased (canon_packet (ref_info r)) :: item_packets (map input_item ins)). cbn [map List.filter]. rewrite wanted_written.
  destruct (wanted sel (ref_info r)); [|apply IH]. intros H. inversion H as [|x y l l' Hc Hrest]; subst. constructor; [apply carries_written, Hc|apply IH, Hrest].
Qed.

(** The recording of a muxed file, for the components that read it. *)
Lemma muxed_recording (limits : tide_limits) (m0 : tide_mux) (ins : list mux_input) :
  limits_typed limits -> rational_typed (mx_movie_time_base m0) -> reduced (mx_movie_time_base m0) = true ->
  64 * 1024 * 1024 <= max_record_size limits -> zlen ins < 2 ^ 64 -> zlen (mux_file m0 ins) < 2 ^ 64 ->
  file_fits limits m0 ins -> items_ok limits [] (map input_item ins) ->
  exists q, recording (source_of (mux_file m0 ins)) limits [] = Done (TIDE_STATUS_OK, q) /\
    ps_user q = hand_over_file ok_logging m0 ins [].
Proof.
  intros Hl Hb Hr Hhint Hn Hm Hfit Hi.
  assert (Hans : file_answers ok_logging m0 ins []).
  { split; [apply accepting_all_answer, ok_accepting|]. intros f [= <-]. reflexivity. }
  destruct (decode_muxed limits ok_logging m0 ins [] zero_error 0 Hl Hans Hb Hr Hhint Hn Hm Hfit Hi) as (q & Hrun & Hu & _).
  exists q. split; [|exact Hu]. unfold recording, source_of. cbn [src_data src_size].
  destruct (mux_file_size m0 ins Hn) as (Hz & Hhead & Hfs). rewrite (proj2 (Z.eqb_neq _ _)); [exact Hrun|].
  unfold TIDE_HEADER_SIZE in Hhead. destruct (mx_write_footer m0); lia.
Qed.

(** C2: what is muxed is demuxed: when a session of the muxer ends with [OK], a
    demuxer opens on the file it left, and its client gets every stream written
    and, of the track selected, every packet written, in order, with the values
    and payload bytes that were given to the muxer. *)
Theorem mux_demux_roundtrip (file : output_file) (moptions : option tide_mux_options) (ins : list mux_input)
    (s s1 : lease_store) (hs : list lease_ptr) (contents : list byte)
    (o : option tide_demux) (options : option tide_demux_options) (s2 : lease_store) (hs2 : list lease_ptr) :
  let m0 := new_mux file moptions in
  let limits := demux_limits options in
  options_ok moptions -> Forall input_ok ins -> zlen ins < 2 ^ 64 -> balanced s (held_by (input_refs ins) ++ hs) ->
  (forall n, 0 <= n -> 0 <= out_write file n <= n) ->
  demux_options_typed options -> 64 * 1024 * 1024 <= max_record_size limits -> file_fits limits m0 ins ->
  items_ok limits [] (map input_item ins) -> zlen (mux_file m0 ins) < 2 ^ 56 ->
  mux_session file moptions ins s = Done (TIDE_STATUS_OK, contents, s1) -> balanced s2 hs2 -> st_heap s2 = [] ->
  exists d s3 refs d',
    tide_demux_open (Some o) (Some (source_of contents)) options [] s2 = Done (TIDE_STATUS_OK, Some (Some d), s3) /\
    (forall i info out, input_streams ins !! i = Some info ->
       tide_demux_stream_info (Some d) (Z.of_nat i) (Some out) = Done (TIDE_STATUS_OK, Some (stored_stream info))) /\
    tide_demux_stream_count (Some d) = zlen (input_streams ins) /\
    demux_read (S (length ins)) (Some d) s3 = Done (TIDE_STATUS_WOULD_BLOCK, refs, Some d', s3) /\
    Forall2 carries (List.filter (wanted (selected_track options)) (map ref_info (input_refs ins))) refs.
Proof.
  intros m0 limits Hmo Hi Hn Hb Hw Ho Hhint Hfit Hitems Hm Hrun Hb2 Hheap.
  destruct (mux_session_spec file moptions ins s hs Hmo Hi Hn Hb Hw) as (st & c & s' & Hrun' & Hok & _). fold m0 in Hok.
  rewrite Hrun in Hrun'. injection Hrun' as <- <- <-. destruct (Hok eq_refl) as (-> & Hred & _).
  destruct (muxed_recording limits m0 ins (demux_limits_typed options Ho) (proj2 (new_mux_typed file moptions Hmo)) Hred Hhint Hn ltac:(lia) Hfit Hitems)
    as (q & Hq & Hu).
  destruct (demux_open_spec o _ _ options [] s2 hs2 (source_of_wf _) Hm Ho Hb2) as (st & r & s3 & Hopen & Hr & Hst).
  destruct (Hst Hheap) as (q' & Hq' & Hnull). fold limits in Hr, Hq'. rewrite Hq in Hq'. injection Hq' as <- <-.
  destruct r as [d|]; [|discriminate Hnull]. destruct Hr as (_ & q' & pending & Hq' & Hop & Hcar & _).
  rewrite Hq in Hq'. injection Hq' as <-. rewrite Hu in Hop, Hcar. destruct (hand_over_file_log m0 ins) as [Hs Hp]. rewrite Hs, streams_written in Hop. rewrite Hp in Hcar.
  apply packets_written in Hcar. pose proof Hop as ((_ & _ & Hcount & _) & _).
  assert (Hlen : (length pending < S (length ins))%nat).
  { rewrite <- (Forall2_length _ _ _ Hcar). pose proof (List.filter_length_le (wanted (selected_track options)) (map ref_info (input_refs ins))).
    rewrite length_map in *. pose proof (length_omap (fun i => match i with In_packet r => Some r | In_stream _ => None end) ins). unfold input_refs in *. lia. }
  destruct (read_all pending d s3 _ hs2 _ Hop Hlen) as (d' & Hread & _).
  exists d, s3, pending, d'. split; [exact Hopen|]. split; [|split; [cbn; rewrite Hcount, zlen_map; reflexivity|split; [exact Hread|exact Hcar]]].
  intros i info out Hinfo. rewrite (stream_info_spec d _ _ out (proj1 Hop)) by lia. rewrite Nat2Z.id, list_lookup_fmap, Hinfo. reflexivity.
Qed.

Lemma mux_demux_roundtrip_witness :
  exists contents s1 d s3 refs d',
    mux_session good_file None sample_inputs sample_store = Done (TIDE_STATUS_OK, contents, s1) /\
    tide_demux_open (Some None) (Some (source_of contents)) None [] client_store = Done (TIDE_STATUS_OK, Some (Some d), s3) /\
    tide_demux_stream_count (Some d) = 1 /\
    demux_read 4 (Some d) s3 = Done (TIDE_STATUS_WOULD_BLOCK, refs, Some d', s3) /\ length refs = 2%nat.
Proof.
  destruct (mux_session_spec good_file None sample_inputs sample_store [] I sample_inputs_ok eq_refl sample_store_balanced
    (fun n Hn => conj Hn (Z.le_refl n))) as (st & contents & s1 & Hrun & _ & Hst).
  assert (E : st = TIDE_STATUS_OK) by (apply Hst; try reflexivity; apply sample_session_fits). subst st. exists contents, s1.
  destruct (mux_demux_roundtrip good_file None sample_inputs sample_store s1 [] contents None None client_store [4%positive] I sample_inputs_ok eq_refl
    sample_store_balanced (fun n Hn => conj Hn (Z.le_refl n)) I ltac:(discriminate) sample_file_fits sample_inputs_items ltac:(vm_compute; reflexivity)
    Hrun client_store_balanced eq_refl) as (d & s3 & refs & d' & Hopen & _ & Hn & Hread & Hcar).
  exists d, s3, refs, d'. split; [exact Hrun|]. split; [exact Hopen|]. split; [exact Hn|]. split; [exact Hread|].
  apply Forall2_length in Hcar. symmetry. exact Hcar.
Defined.
