(* ===== verification/Repair.v ===== *)
(** * Repair

    [src/repair/scanner.c]: find the valid prefix of a source, and write what a
    demuxer gets from that prefix to a new file.  The allocator's answers come
    in two lists, one for the parser, as in [Demux]. *)

From S2P Require Import Prelude Status Checked Buffer Rational Model Lease Packet Frame Decoder Source Mux Demux.

Record tide_repair_plan : Set := mk_plan {
  rp_source : tide_source;
  rp_valid_prefix : Z;
  rp_error : tide_error
}.

Record tide_repair_options : Set := mk_repair_options {
  ro_limits : tide_limits;
  ro_require_checkpoint : bool
}.

(** [out] is [None] when null, and otherwise the cell behind it; both branches
    at the end of the function store the plan and return the status. *)
Definition tide_repair_scan (source : option tide_source) (options : option tide_repair_options)
    (out : option (option tide_repair_plan)) (hp h : heap) : outcome (tide_status * option (option tide_repair_plan) * heap) :=
  match out, source with
  | Some _, Some src =>
    let (ok, h) := alloc h in
    if negb ok then Done (TIDE_STATUS_RESOURCE, Some None, h)
    else
      let limits := match options with
                    | None => tide_limits_default
                    | Some o => if max_record_size (ro_limits o) =? 0 then tide_limits_default else ro_limits o end in
      '(status, p) ← tide_parse_tide_bytes (tide_source_data source) (tide_source_size source) true (Some limits)
                       (None : option (tide_callbacks unit)) tt (Some zero_error) (Some 0) hp;
      error ← deref (ps_error p);
      valid_prefix ← deref (ps_valid_prefix p);
      Done (status, Some (Some (mk_plan src valid_prefix error)), h)
  | _, _ => Done (TIDE_STATUS_INVALID_ARGUMENT, out, h)
  end.

(** [memset], then the fields that are set. *)
Definition repair_demux_options : tide_demux_options := mk_demux_options tide_limits_default 0 false.

(** The local that [tide_demux_stream_info] fills; it is not read before. *)
Definition stream_local : tide_stream_info := mk_stream_info 0 0 0 0 (mk_rational 0 0) None 0.

(** The loop over the streams, [n] of them from [i]. *)
Fixpoint copy_streams (n : nat) (i : Z) (demux : option tide_demux) (mux : option tide_mux) (h : heap)
    : outcome (tide_status * option tide_mux * heap) :=
  match n with
  | O => Done (TIDE_STATUS_OK, mux, h)
  | S n =>
    '(status, stream) ← tide_demux_stream_info demux i (Some stream_local);
    '(status, mux, h) ← (if bool_decide (status = TIDE_STATUS_OK) then tide_mux_add_stream mux stream h
                         else Done (status, mux, h));
    if negb (bool_decide (status = TIDE_STATUS_OK)) then Done (status, mux, h)
    else copy_streams n (i +u 1) demux mux h
  end.

(** [for (;;)] over the packets; every round but the last advances the cursor. *)
Fixpoint copy_packets (fuel : nat) (demux : option tide_demux) (mux : option tide_mux) (s : lease_store)
    : outcome (tide_status * option tide_demux * option tide_mux * lease_store) :=
  match fuel with
  | O => NoFuel
  | S fuel =>
    let packet := tide_packet_ref_init (Some zero_packet) in
    '(status, demux, packet, s) ← tide_demux_next demux packet s;
    if bool_decide (status = TIDE_STATUS_WOULD_BLOCK) then Done (TIDE_STATUS_OK, demux, mux, s)
    else
      '(status, mux, packet, s) ← (if bool_decide (status = TIDE_STATUS_OK) then tide_mux_write_packet mux packet s
                                   else Done (status, mux, packet, s));
      '(_, s) ← tide_packet_ref_reset packet s;
      if negb (bool_decide (status = TIDE_STATUS_OK)) then Done (status, demux, mux, s)
      else copy_packets fuel demux mux s
  end.
Definition packet_fuel (demux : option tide_demux) : nat :=
  match demux with None => 1 | Some d => S (Z.to_nat (dx_packet_count d - dx_cursor d)) end.

(** From the label [cleanup] on; with the contents of the file. *)
Definition repair_cleanup (status : tide_status) (mux : option tide_mux) (demux : option tide_demux)
    (prefix_source : option tide_source) (s : lease_store) : outcome (tide_status * list byte * lease_store) :=
  '(status, bytes, s) ←
    match mux with
    | None => Done (status, [], s)
    | Some _ =>
      if bool_decide (status = TIDE_STATUS_OK) then '(st, bytes, h) ← tide_mux_close mux (st_heap s); Done (st, bytes, set_heap h s)
      else let _ := tide_mux_abort mux in Done (status, [], s)
    end;
  s ← tide_demux_close demux s;
  let _ := tide_source_destroy prefix_source in
  Done (status, bytes, s).

(** From the creation of the muxer on: the streams, then the packets. *)
Definition repair_copy (path : option output_file) (demux : option tide_demux) (prefix_source : option tide_source)
    (s : lease_store) : outcome (tide_status * list byte * lease_store) :=
  '(status, mux, h) ← tide_mux_create (Some None) path None (st_heap s);
  let s := set_heap h s in
  mux ← deref mux;
  if negb (bool_decide (status = TIDE_STATUS_OK)) then repair_cleanup status mux demux prefix_source s
  else
    '(status, mux, h) ← copy_streams (Z.to_nat (tide_demux_stream_count demux)) 0 demux mux (st_heap s);
    let s := set_heap h s in
    if negb (bool_decide (status = TIDE_STATUS_OK)) then repair_cleanup status mux demux prefix_source s
    else
      '(status, demux, mux, s) ← copy_packets (packet_fuel demux) demux mux s;
      repair_cleanup status mux demux prefix_source s.

Definition tide_repair_write (opaque : option tide_repair_plan) (path : option output_file) (hp : heap) (s : lease_store)
    : outcome (tide_status * list byte * lease_store) :=
  match opaque, path with
  | Some plan, Some _ =>
    if rp_valid_prefix plan =? 0 then Done (TIDE_STATUS_INVALID_ARGUMENT, [], s)
    else
      '(status, prefix_source, h) ← tide_source_from_memory (Some None) (tide_source_data (Some (rp_source plan)))
                                      (rp_valid_prefix plan) (st_heap s);
      let s := set_heap h s in
      prefix_source ← deref prefix_source;
      if negb (bool_decide (status = TIDE_STATUS_OK)) then repair_cleanup status None None prefix_source s
      else
        '(status, demux, s) ← tide_demux_open (Some None) prefix_source (Some repair_demux_options) hp s;
        demux ← deref demux;
        let status := if bool_decide (status = TIDE_STATUS_PARTIAL) then TIDE_STATUS_OK else status in
        if negb (bool_decide (status = TIDE_STATUS_OK)) then repair_cleanup status None demux prefix_source s
        else repair_copy path demux prefix_source s
  | _, _ => Done (TIDE_STATUS_INVALID_ARGUMENT, [], s)
  end.

Definition tide_repair_plan_valid_prefix (opaque : option tide_repair_plan) : Z :=
  match opaque with None => 0 | Some plan => rp_valid_prefix plan end.

Definition tide_repair_plan_error (opaque : option tide_repair_plan) : option tide_error := plan ← opaque; Some (rp_error plan).

(** [free] of the plan; the source is the caller's. *)
Definition tide_repair_plan_destroy (opaque : option tide_repair_plan) : option tide_repair_plan := None.
