(* ===== verification/RepairSpec.v ===== *)
(** * What repair writes

    The deliveries of a log as inputs of the muxer, and repair as the muxer
    session of what the decoder delivers for the valid prefix. *)

From S2P Require Import Prelude Status Checked Buffer Crc Reader Rational Model Lease Packet Frame Validate Header Decoder Parse ParseRule ParseSplit Samples Delivery Replay Source Writer RoundTrip Mux MuxSpec MuxFile Demux DemuxSpec DemuxRun MuxDemux Repair.

(** ** The inputs a log stands for *)

Definition log_inputs (log : list delivery) : list mux_input :=
  map In_stream (streams log) ++ map (fun p => In_packet (mk_packet_ref p None)) (packets log).
Definition demux_inputs (infos : list tide_stream_info) (pending : list tide_packet_ref) : list mux_input :=
  map In_stream infos ++ map In_packet pending.

(** Inputs that give the same record. *)
Definition same_record (i j : mux_input) : Prop :=
  item_type (input_item i) = item_type (input_item j) /\ item_payload (input_item i) = item_payload (input_item j).

Lemma item_records_same al xs ys : Forall2 same_record xs ys -> forall sq,
  item_records al sq (map input_item xs) = item_records al sq (map input_item ys).
Proof.
  induction 1 as [|x y xs ys [Ht Hp] _ IH]; intros sq; [reflexivity|]. cbn [map item_records]. rewrite IH. f_equal.
  unfold item_record. rewrite Ht, Hp. reflexivity.
Qed.

Lemma zlen_same {A B} (R : A -> B -> Prop) xs ys : Forall2 R xs ys -> zlen xs = zlen ys.
Proof. intros H. unfold zlen. rewrite (Forall2_length _ _ _ H). reflexivity. Qed.

Lemma mux_file_same m0 xs ys : Forall2 same_record xs ys -> mux_file m0 xs = mux_file m0 ys.
Proof.
  intros H. unfold mux_file, mux_body. rewrite (item_records_same 3 xs ys H), (zlen_same _ _ _ H). reflexivity.
Qed.

Lemma same_sym xs ys : Forall2 same_record xs ys -> Forall2 same_record ys xs.
Proof. intros H. apply Forall2_flip. eapply Forall2_impl; [exact H|]. intros x y []. split; auto. Qed.

Lemma session_fits_same m0 xs ys : Forall2 same_record xs ys -> session_fits m0 ys -> session_fits m0 xs.
Proof.
  intros H (Hp & Hf & Hr). unfold session_fits. rewrite (mux_file_same m0 xs ys H), (zlen_same _ _ _ H). split; [|auto].
  clear Hf Hr. induction H as [|x y xs ys [_ Hxy] _ IH]; [constructor|]. inversion Hp; subst. constructor; [rewrite Hxy; assumption|auto].
Qed.

Lemma stored_same s : same_record (In_stream (stored_stream s)) (In_stream s).
Proof. destruct s as [a g k c t [[|b config]|] n]; split; reflexivity. Qed.

Lemma carries_same p r : carries p r -> same_record (In_packet r) (In_packet (mk_packet_ref p None)).
Proof.
  unfold carries, same_record. cbn [input_item item_type item_payload ref_info]. intros ->. split; [reflexivity|].
  destruct p as [a g q d t u f [[[|b data]|] n l]]; reflexivity.
Qed.

Lemma inputs_same log pending : Forall2 carries (packets log) pending ->
  Forall2 same_record (demux_inputs (map stored_stream (streams log)) pending) (log_inputs log).
Proof.
  intros H. apply Forall2_app.
  - induction (streams log) as [|s l IH]; constructor; [apply stored_same|exact IH].
  - induction H; constructor; [apply carries_same; assumption|assumption].
Qed.

(** ** What the decoder delivers can be written *)

Lemma log_facts limits data log : log_ok limits data log ->
  Forall (fun s => parsed_stream s /\ si_config_size s <= zlen data) (streams log) /\
  NoDup (map stream_key (streams log)) /\ zlen (streams log) <= Z.max 0 (max_tracks limits) /\
  Forall (fun p => parsed_packet p /\ pv_size (pk_payload p) <= zlen data /\ packet_key p ∈ map stream_key (streams log)) (packets log).
Proof.
  induction 1 as [|log d Hlog (H1 & H2 & H3 & H4) Hd].
  { split; [constructor|]. split; [constructor|]. split; [unfold zlen; cbn; lia|constructor]. }
  rewrite streams_app, packets_app, map_app.
  destruct d as [e|s|p]; cbn [delivery_ok map] in *; rewrite ?app_nil_r; [auto| |].
  - destruct Hd as (Hs & Hz & Hk & Hm). split; [apply Forall_app; split; [exact H1|constructor; [auto|constructor]]|].
    split; [apply NoDup_app; split; [exact H2|split; [|apply NoDup_singleton]]|].
    + intros x Hx. rewrite list_elem_of_singleton. intros ->. contradiction.
    + rewrite zlen_app. change (zlen [s]) with 1. split; [lia|]. eapply Forall_impl; [exact H4|].
      intros p (Hp & Hpz & Hpk). split; [exact Hp|]. split; [exact Hpz|]. apply elem_of_app. auto.
  - destruct Hd as (Hp & Hz & Hk). split; [exact H1|]. split; [exact H2|]. split; [exact H3|]. apply Forall_app. split; [exact H4|].
    constructor; [auto|constructor].
Qed.

Lemma stream_bytes_size s config : zlen config < 2 ^ 56 -> zlen (stream_bytes s config) < 2 ^ 62.
Proof.
  intros Hc. pose proof (zlen_nonneg config). pose proof (length_uleb_bytes (zlen config) ltac:(zlia)).
  unfold stream_bytes. rewrite !zlen_app, !zlen_le_bytes. unfold zlen in *. lia.
Qed.

Lemma packet_bytes_size p payload : zlen payload < 2 ^ 56 -> zlen (packet_bytes p payload) < 2 ^ 62.
Proof.
  intros Hc. pose proof (zlen_nonneg payload). pose proof (length_uleb_bytes (zlen payload) ltac:(zlia)).
  unfold packet_bytes. rewrite !zlen_app, !zlen_le_bytes. unfold zlen in *. rewrite !write_i64_length. lia.
Qed.

Lemma stored_input_ok s : parsed_stream s -> si_config_size s < 2 ^ 56 -> input_ok (In_stream (stored_stream s)).
Proof.
  intros (Ht & Hr & config & Hc & Hz) Hs. destruct s as [a g k c t cfg n]. cbn in Hc, Hz, Hs, Hr. subst cfg n.
  destruct config; (split; [split; [exact Ht|split; [reflexivity|exact Hr]]|apply stream_bytes_size; exact Hs]).
Qed.

Lemma carried_input_ok p r : parsed_packet p -> pv_size (pk_payload p) < 2 ^ 56 -> carries p r -> input_ok (In_packet r).
Proof.
  intros (Ht & Hd & payload & Hp) Hs Hc. destruct p as [a g q d t u f v]. cbn in Hp, Hd, Hs. subst v. destruct r as [info lease].
  unfold carries in Hc. cbn in Hc. subst info.
  destruct payload; (split; [split; [exact Ht|split; [reflexivity|exact Hd]]|apply packet_bytes_size; exact Hs]).
Qed.

Lemma inputs_ok limits data log pending : log_ok limits data log -> zlen data < 2 ^ 56 -> Forall2 carries (packets log) pending ->
  Forall input_ok (demux_inputs (map stored_stream (streams log)) pending).
Proof.
  intros Hlog Hm Hcar. destruct (log_facts _ _ _ Hlog) as (Hs & _ & _ & Hp). apply Forall_app. split.
  - rewrite !Forall_map. eapply Forall_impl; [exact Hs|]. intros s [Hps Hz]. apply stored_input_ok; [exact Hps|lia].
  - rewrite Forall_map. clear Hs. induction Hcar as [|p r ps rs Hc _ IH]; [constructor|]. inversion Hp as [|? ? (Hpp & Hz & _) Hp']; subst.
    constructor; [apply (carried_input_ok p); [exact Hpp|lia|exact Hc]|auto].
Qed.

(** ** and is accepted again *)

Lemma canon_parsed_stream s : parsed_stream s -> canon_stream s = s.
Proof. intros (_ & _ & config & Hc & _). destruct s as [a g k c t cfg n]. cbn in Hc. subst. reflexivity. Qed.

Lemma canon_parsed_packet p : parsed_packet p -> unleased (canon_packet p) = p.
Proof. intros (_ & _ & payload & Hp). destruct p as [a g q d t u f v]. cbn in Hp. subst. reflexivity. Qed.

Lemma parsed_stream_args s : parsed_stream s -> stream_args (canon_stream s) (default [] (si_config s)).
Proof.
  intros Hs. rewrite canon_parsed_stream by exact Hs. destruct Hs as (Ht & _ & config & Hc & Hz). rewrite Hc. split; [exact Ht|].
  split; [exact Hc|exact Hz].
Qed.

Lemma parsed_packet_args p : parsed_packet p -> packet_args (canon_packet p) (default [] (pv_data (pk_payload p))).
Proof.
  intros (Ht & _ & payload & Hp). destruct p as [a g q d t u f v]. cbn in Hp. subst. split; [exact Ht|]. split; reflexivity.
Qed.

Lemma items_ok_packets limits tracks ps :
  Forall (fun p => parsed_packet p /\ packet_key p ∈ map track_key tracks) ps ->
  items_ok limits tracks (map input_item (map (fun p => In_packet (mk_packet_ref p None)) ps)).
Proof.
  induction 1 as [|p ps [Hp Hk] _ IH]; [exact I|]. cbn [map input_item items_ok]. split; [apply parsed_packet_args, Hp|].
  split; [apply Hp|]. split; [|exact IH]. rewrite known_spec. apply bool_decide_eq_true_2. exact Hk.
Qed.

Lemma items_ok_streams limits l : forall tracks rest, Forall parsed_stream l ->
  NoDup (map track_key tracks ++ map stream_key l) -> zlen tracks + zlen l <= max_tracks limits ->
  items_ok limits (tracks ++ map snapshot l) rest -> items_ok limits tracks (map input_item (map In_stream l) ++ rest).
Proof.
  induction l as [|s l IH]; intros tracks rest Hp Hk Hm Hrest.
  { rewrite app_nil_r in Hrest. exact Hrest. }
  inversion Hp as [|? ? Hs Hp']; subst. cbn [map input_item items_ok app]. cbn [map] in Hk.
  assert (Hz : zlen (s :: l) = zlen l + 1) by (unfold zlen; cbn [length]; lia). pose proof (zlen_nonneg l).
  split; [apply parsed_stream_args, Hs|]. split; [apply Hs|]. split; [|split; [lia|]].
  - rewrite known_spec. apply bool_decide_eq_false_2. apply NoDup_app in Hk as (_ & Hk & _). intros Hin. apply (Hk _ Hin). left.
  - apply IH; [exact Hp'| |rewrite zlen_app; change (zlen [snapshot _]) with 1; lia|rewrite <- app_assoc; exact Hrest].
    rewrite map_app, <- app_assoc. exact Hk.
Qed.

Lemma log_items_ok limits data log : log_ok limits data log -> 0 <= max_tracks limits ->
  items_ok limits [] (map input_item (log_inputs log)).
Proof.
  intros Hlog Hm. destruct (log_facts _ _ _ Hlog) as (Hs & Hk & Hn & Hp). unfold log_inputs. rewrite map_app. apply items_ok_streams.
  - eapply Forall_impl; [exact Hs|]. intros s H. apply H.
  - exact Hk.
  - change (zlen []) with 0. lia.
  - apply items_ok_packets. cbn [app]. rewrite track_key_snapshot. eapply Forall_impl; [exact Hp|].
    intros p H. split; apply H.
Qed.

(** What the inputs of a log deliver is what the log delivered. *)
Lemma log_inputs_deliver limits data log : log_ok limits data log ->
  item_streams (map input_item (log_inputs log)) = streams log /\ item_packets (map input_item (log_inputs log)) = packets log.
Proof.
  intros Hlog. destruct (log_facts _ _ _ Hlog) as (Hs & _ & _ & Hp). unfold log_inputs. rewrite map_app.
  unfold item_streams, item_packets. rewrite !omap_app.
  assert (E : forall l, Forall (fun s => parsed_stream s /\ si_config_size s <= zlen data) l ->
    item_streams (map input_item (map In_stream l)) = l /\ item_packets (map input_item (map In_stream l)) = []).
  { induction 1 as [|s l [Hps _] _ [IH1 IH2]]; [split; reflexivity|]. split; [|exact IH2].
    cbn. f_equal; [apply canon_parsed_stream, Hps|exact IH1]. }
  assert (F : forall l, Forall parsed_packet l ->
    item_streams (map input_item (map (fun p => In_packet (mk_packet_ref p None)) l)) = [] /\
    item_packets (map input_item (map (fun p => In_packet (mk_packet_ref p None)) l)) = l).
  { induction 1 as [|p l Hpp _ [IH1 IH2]]; [split; reflexivity|]. split; [exact IH1|].
    cbn. f_equal; [apply canon_parsed_packet, Hpp|exact IH2]. }
  destruct (E _ Hs) as [E1 E2]. destruct (F (packets log)) as [F1 F2]; [eapply Forall_impl; [exact Hp|intros p H; apply H]|].
  unfold item_streams, item_packets in *. rewrite E1, E2, F1, F2, app_nil_r. auto.
Qed.
