(* ===== verification/RepairRun.v ===== *)
(** * Repair as a session of the muxer

    The loops of [tide_repair_write] do what a muxer session does with the
    streams and packets of the demuxer, and what is written decodes to what the
    damaged file still held. *)

From S2P Require Import Prelude Status Checked Buffer Crc Reader Rational Model Lease Packet Frame Validate Header Decoder Parse ParseRule ParseSplit Samples Delivery Replay Source Writer RoundTrip Mux MuxSpec MuxFile Demux DemuxSpec DemuxRun MuxDemux Repair RepairSpec.

(** ** The loops *)

Lemma mux_all_app xs ys : forall mux s,
  mux_all (xs ++ ys) mux s =
    '(st, mux, s) ← mux_all xs mux s; if negb (bool_decide (st = TIDE_STATUS_OK)) then Done (st, mux, s) else mux_all ys mux s.
Proof.
  induction xs as [|x xs IH]; intros mux s; [reflexivity|]. cbn [app mux_all].
  destruct (mux_step x mux s) as [[[st mux1] s1]| |]; [|reflexivity..]. rewrite !bind_done. cbv beta iota.
  destruct (negb _) eqn:E; [rewrite bind_done; cbv beta iota; rewrite E; reflexivity|apply IH].
Qed.

Lemma copy_streams_all d infos l : forall pre mux s, streams_rep d infos -> infos = pre ++ l -> zlen infos < 2 ^ 63 ->
  mux_all (map In_stream l) mux s =
    '(st, mux, h) ← copy_streams (length l) (zlen pre) (Some d) mux (st_heap s); Done (st, mux, set_heap h s).
Proof.
  induction l as [|x l IH]; intros pre mux s Hr E Hm.
  { cbn [length copy_streams map mux_all]. rewrite bind_done. destruct s; reflexivity. }
  cbn [map mux_all length copy_streams mux_step]. pose proof (zlen_nonneg pre).
  rewrite (stream_info_spec d infos _ _ Hr) by lia. rewrite bind_done. replace (Z.to_nat (zlen pre)) with (length pre) by (unfold zlen; lia). rewrite E, list_lookup_middle by reflexivity.
  cbv beta iota. rewrite bool_decide_eq_true_2 by reflexivity.
  destruct (tide_mux_add_stream mux (Some x) (st_heap s)) as [[[st mux1] h1]| |]; [|reflexivity..]. rewrite !bind_done. cbv beta iota.
  destruct (negb (bool_decide (st = TIDE_STATUS_OK))); [reflexivity|].
  rewrite (IH (pre ++ [x]) mux1 (set_heap h1 s) Hr); [|rewrite <- app_assoc; exact E|exact Hm].
  assert (Hz : zlen infos = zlen pre + zlen l + 1) by (rewrite E, zlen_app; unfold zlen; cbn [length]; lia). pose proof (zlen_nonneg l).
  rewrite zlen_app, (wrap64_small (zlen pre + 1)) by zlia. reflexivity.
Qed.

Lemma copy_packets_all pending : forall d infos hs m bytes sq s fuel,
  opened d s infos pending hs -> mux_rep m bytes sq -> 0 <= sq -> sq + zlen pending < 2 ^ 64 ->
  0 <= max_single_alloc (mx_limits m) -> Forall input_ok (map In_packet pending) -> (length pending < fuel)%nat ->
  exists st m' s' d' pending', mux_all (map In_packet pending) (Some m) s = Done (st, Some m', s') /\
    copy_packets fuel (Some d) (Some m) s = Done (st, Some d', Some m', s') /\ opened d' s' infos pending' hs /\
    (st = TIDE_STATUS_OK -> pending' = []).
Proof.
  induction pending as [|r pending IH]; intros d infos hs m bytes sq s fuel Hop Hm Hq0 Hq Hl Hi Hf; (destruct fuel as [|fuel]; [cbn in Hf; lia|]);
    cbn [copy_packets tide_packet_ref_init option_map].
  { rewrite (next_none d infos s hs _ Hop), bind_done. cbv beta iota. rewrite bool_decide_eq_true_2 by reflexivity.
    exists TIDE_STATUS_OK, m, s, d, []. auto. }
  assert (Hz : zlen (r :: pending) = zlen pending + 1) by (unfold zlen; cbn [length]; lia). pose proof (zlen_nonneg pending).
  destruct (next_spec d infos r pending s hs zero_packet Hop) as (d1 & s1 & -> & Hop1 & Hr & Hsame & _).
  rewrite (Hsame eq_refl) in *. rewrite bind_done. cbv beta iota.
  rewrite bool_decide_eq_false_2 by discriminate. rewrite bool_decide_eq_true_2 by reflexivity.
  inversion Hi as [|? ? Hi0 Hi']; subst. destruct Hop1 as (Hsr & Hpr & Hb & Hsync).
  assert (Hb1 : balanced s (held r ++ held_by pending ++ hs)).
  { rewrite (app_assoc (held r)), (Permutation_app_comm (held r)), <- app_assoc. exact Hb. }
  destruct (write_packet_spec m bytes sq r s _ Hm ltac:(zlia) Hl Hi0 Hb1) as (st & m1 & s2 & Hw & (Hs1 & Hst & _) & Hb2 & Hk).
  cbn [map mux_all mux_step]. rewrite Hw, !bind_done. cbv beta iota.
  assert (Hop2 : opened d1 s2 infos pending hs).
  { split; [exact Hsr|]. split; [exact Hpr|]. exact (owned_after r pending s s2 hs Hb1 Hb2 Hk Hsync). }
  cbn [tide_packet_ref_reset ref_lease zero_packet tide_payload_lease_release]. rewrite !bind_done. cbv beta iota. rewrite ?bind_done. cbv beta iota.
  destruct (bool_decide_reflect (st = TIDE_STATUS_OK)) as [->|Hne]; cbn [negb].
  2: { exists st, m1, s2, d1, pending. split; [reflexivity|]. split; [reflexivity|]. split; [exact Hop2|]. contradiction. }
  destruct Hst as [(_ & Hm1 & _)|[? _]]; [|discriminate]. cbn [input_rec item_record rc_sequence] in Hm1. rewrite wrap64_small in Hm1 by zlia.
  pose proof Hs1 as (_ & Hlim & _). apply (IH d1 infos hs m1 _ (sq + 1) s2 fuel Hop2 Hm1); try lia; [rewrite Hlim; exact Hl|exact Hi'|cbn in Hf; lia].
Qed.

(** The cursor and the fuel for what is left. *)
Lemma packets_bound d pending : packets_rep d pending ->
  0 <= dx_cursor d <= dx_packet_count d /\ dx_packet_count d < 2 ^ 60 /\ zlen pending = dx_packet_count d - dx_cursor d /\
  packet_fuel (Some d) = S (length pending).
Proof.
  intros (taken & free & Hp & Hcur & Hn & Hcap & _ & Hbig). pose proof (zlen_nonneg pending).
  assert (Hz : zlen (dx_packets d) = Z.of_nat taken + zlen pending + Z.of_nat free).
  { rewrite Hp, zlen_map, !zlen_app. unfold zlen. rewrite !length_replicate. lia. }
  unfold packet_fuel. split; [lia|]. split; [lia|]. split; [lia|]. f_equal. rewrite Hn. unfold zlen. lia.
Qed.

(** ** One session *)

(** The streams, then the packets. *)
Definition copies (demux : option tide_demux) (mux : option tide_mux) (s : lease_store)
    : outcome (tide_status * option tide_demux * option tide_mux * lease_store) :=
  '(status, mux, h) ← copy_streams (Z.to_nat (tide_demux_stream_count demux)) 0 demux mux (st_heap s);
  if negb (bool_decide (status = TIDE_STATUS_OK)) then Done (status, demux, mux, set_heap h s)
  else copy_packets (packet_fuel demux) demux mux (set_heap h s).

Lemma copies_cleanup demux mux prefix_source s :
  ('(status, mux, h) ← copy_streams (Z.to_nat (tide_demux_stream_count demux)) 0 demux mux (st_heap s);
   if negb (bool_decide (status = TIDE_STATUS_OK)) then repair_cleanup status mux demux prefix_source (set_heap h s)
   else
     '(status, demux, mux, s) ← copy_packets (packet_fuel demux) demux mux (set_heap h s);
     repair_cleanup status mux demux prefix_source s) =
  '(status, demux, mux, s) ← copies demux mux s; repair_cleanup status mux demux prefix_source s.
Proof.
  unfold copies. destruct (copy_streams _ _ _ _ _) as [[[st mux1] h1]| |]; [|reflexivity..]. rewrite !bind_done. cbv beta iota.
  destruct (negb _); reflexivity.
Qed.

Lemma copy_all_spec d infos pending hs m bytes s :
  opened d s infos pending hs -> mux_rep m bytes 0 -> 0 <= max_single_alloc (mx_limits m) ->
  Forall input_ok (demux_inputs infos pending) -> zlen infos + zlen pending < 2 ^ 62 ->
  exists st m' s' d' pending', mux_all (demux_inputs infos pending) (Some m) s = Done (st, Some m', s') /\ opened d' s' infos pending' hs /\
    copies (Some d) (Some m) s = Done (st, Some d', Some m', s').
Proof.
  intros Hop Hm Hl Hi Hz. pose proof Hop as (Hs & Hp & Hown). apply Forall_app in Hi as [Hi1 Hi2].
  pose proof (zlen_nonneg infos). pose proof (zlen_nonneg pending).
  assert (Hin : input_refs (map In_stream infos) = []) by (clear; induction infos; [reflexivity|assumption]).
  destruct (mux_all_spec (map In_stream infos) m bytes 0 s (held_by pending ++ hs) Hm ltac:(lia) ltac:(rewrite zlen_map; lia) Hl Hi1)
    as (st1 & m1 & s1 & Hall & Hsame & Hok & _); [rewrite Hin; apply Hown|].
  assert (Hcount : Z.to_nat (tide_demux_stream_count (Some d)) = length infos) by (destruct Hs as (_ & _ & Hn & _); cbn; rewrite Hn; unfold zlen; lia).
  unfold copies. rewrite Hcount. unfold demux_inputs. rewrite mux_all_app, Hall, bind_done. cbv beta iota.
  rewrite (copy_streams_all d infos infos [] (Some m) s Hs eq_refl ltac:(lia)) in Hall. change (zlen []) with 0 in Hall.
  apply bind_Done_inv in Hall as ([[st' mux'] h1] & Hcs & E). injection E as -> -> <-.
  assert (Hop1 : opened d (set_heap h1 s) infos pending hs).
  { split; [exact Hs|]. split; [exact Hp|]. apply (owned_leases s); [reflexivity|exact Hown]. }
  destruct (bool_decide_reflect (st1 = TIDE_STATUS_OK)) as [->|Hne]; cbn [negb].
  2: { exists st1, m1, (set_heap h1 s), d, pending. split; [reflexivity|]. split; [exact Hop1|].
       rewrite Hcs, bind_done. cbv beta iota. rewrite (bool_decide_eq_false_2 _ Hne). reflexivity. }
  destruct (Hok eq_refl) as [Hm1 _]. rewrite zlen_map, Z.add_0_l in Hm1. destruct Hsame as (_ & Hlim & _).
  assert (Hfuel : packet_fuel (Some d) = S (length pending)).
  { destruct Hp as (taken & free & _ & _ & Hn & _). unfold packet_fuel. rewrite Hn. f_equal. unfold zlen. lia. }
  rewrite Hfuel. destruct (copy_packets_all pending d infos hs m1 _ (zlen infos) _ (S (length pending)) Hop1 Hm1 ltac:(lia) ltac:(lia)
    ltac:(rewrite Hlim; exact Hl) Hi2 ltac:(lia)) as (st & m' & s' & d' & pending' & Hall2 & Hcopy & Hop' & _).
  exists st, m', s', d', pending'. split; [exact Hall2|]. split; [exact Hop'|].
  rewrite Hcs, bind_done. cbv beta iota. rewrite bool_decide_eq_true_2 by reflexivity. exact Hcopy.
Qed.

Lemma demux_inputs_refs infos pending : input_refs (demux_inputs infos pending) = pending.
Proof.
  unfold demux_inputs, input_refs. rewrite omap_app. induction infos as [|x infos IH]; [|exact IH]. cbn.
  induction pending as [|r pending IH]; [reflexivity|]. cbn. f_equal. exact IH.
Qed.

(** Copying is a muxer session on the streams and packets of the demuxer. *)
Lemma repair_copy_spec file d s infos pending hs prefix_source :
  opened d s infos pending hs -> Forall input_ok (demux_inputs infos pending) -> zlen infos + zlen pending < 2 ^ 62 ->
  (forall n, 0 <= n -> 0 <= out_write file n <= n) ->
  exists st contents s' s2, mux_session file None (demux_inputs infos pending) s = Done (st, contents, s') /\
    repair_copy (Some file) (Some d) prefix_source s = Done (st, contents, s2) /\ balanced s2 hs.
Proof.
  intros Hop Hi Hz Hw. pose proof Hop as (_ & Hp & Hown).
  destruct (mux_session_spec file None (demux_inputs infos pending) s hs I Hi) as (st & contents & s' & Hrun & _).
  { unfold demux_inputs. rewrite zlen_app, !zlen_map. lia. }
  { rewrite demux_inputs_refs. apply Hown. }
  { exact Hw. }
  exists st, contents, s'. rewrite Hrun. revert Hrun. unfold mux_session, repair_copy.
  destruct (create_spec_mux None file None (st_heap s) I) as (st1 & r & h1 & -> & Hr & _). rewrite !bind_done. cbv beta iota zeta. cbn [deref].
  rewrite bind_done. assert (Hop1 : opened d (set_heap h1 s) infos pending hs).
  { destruct Hop as (Hs & _). split; [exact Hs|]. split; [exact Hp|]. apply (owned_leases s); [reflexivity|exact Hown]. }
  destruct r as [m|].
  2: { rewrite (bool_decide_eq_false_2 _ Hr). cbn [negb]. intros [= <- <- <-]. unfold repair_cleanup. cbv beta iota. do 2 (rewrite bind_done; cbv beta iota).
       destruct (close_spec_demux d pending _ hs Hp (proj2 (proj2 Hop1))) as (s2 & -> & Hb & _). rewrite bind_done. exists s2. auto. }
  destruct Hr as (-> & _ & _ & (_ & Hlim & _) & Hm & _). rewrite bool_decide_eq_true_2 by reflexivity. cbn [negb deref]. rewrite bind_done.
  assert (Hl : 0 <= max_single_alloc (mx_limits m)) by (rewrite Hlim; discriminate).
  destruct (copy_all_spec d infos pending hs m _ (set_heap h1 s) Hop1 Hm Hl Hi Hz) as (st2 & m' & s1 & d' & pending' & Hall & (_ & Hp' & Hown') & Hrest).
  rewrite copies_cleanup, Hrest, Hall, !bind_done. cbv beta iota. unfold repair_cleanup.
  destruct (bool_decide (st2 = TIDE_STATUS_OK)); cbn [negb]; cbv beta iota zeta.
  - intros E. apply bind_Done_inv in E as ([[st3 bytes] h2] & Hclose & E). injection E as -> -> <-. rewrite Hclose, !bind_done. cbv beta iota.
    destruct (close_spec_demux d' pending' (set_heap h2 s1) hs Hp') as (s2 & -> & Hb & _); [apply (owned_leases s1); [reflexivity|exact Hown']|].
    rewrite bind_done. exists s2. auto.
  - intros [= -> <- <-]. rewrite bind_done. cbv beta iota.
    destruct (close_spec_demux d' pending' s1 hs Hp' Hown') as (s2 & -> & Hb & _). rewrite bind_done. exists s2. auto.
Qed.

(** ** The valid prefix, written *)

(** The file repair writes for the deliveries of a log. *)
Definition repaired_file (file : output_file) (log : list delivery) : list byte := mux_file (new_mux file None) (log_inputs log).

(** It was written, so it fits the limits. *)
Definition repaired (file : output_file) (log : list delivery) (contents : list byte) : Prop :=
  contents = repaired_file file log /\ session_fits (new_mux file None) (log_inputs log).

(** The file works, and the deliveries fit the muxer's limits. *)
Definition repair_fits (file : output_file) (log : list delivery) : Prop :=
  out_open file = true /\ out_close file = true /\ (forall n, out_write file n = n) /\ session_fits (new_mux file None) (log_inputs log).

Lemma filter_all {A} (l : list A) : List.filter (fun _ => true) l = l.
Proof. induction l as [|x l IH]; [reflexivity|]. cbn. rewrite IH. reflexivity. Qed.

Lemma wanted_all ps : List.filter (wanted 0) ps = ps.
Proof. apply filter_all. Qed.

Lemma opens_repair st : opens (Some repair_demux_options) st = bool_decide (st = TIDE_STATUS_OK) || bool_decide (st = TIDE_STATUS_PARTIAL).
Proof. unfold opens. cbn. rewrite andb_true_r. reflexivity. Qed.

Lemma recording_log src bytes limits h st q : source_wf src bytes -> zlen bytes < 2 ^ 64 -> limits_typed limits ->
  recording src limits h = Done (st, q) ->
  log_ok limits bytes (ps_user q) /\ zlen (streams (ps_user q)) + zlen (packets (ps_user q)) <= zlen bytes.
Proof.
  intros (Hd & Hs & _) Hm Hl Hrun.
  destruct (parse_bytes_log (fun _ _ => TIDE_STATUS_OK) (src_data src) (src_size src) limits true (Some zero_error) (Some 0) h)
    as (st' & q' & Hrun' & Hlog & Hn & _).
  { split; [congruence|]. split; [lia|]. split; [exact Hl|eauto]. }
  unfold recording in Hrun. rewrite Hrun in Hrun'. injection Hrun' as <- <-. rewrite Hd in Hlog. rewrite Hs in Hn. auto.
Qed.

(** A session of the muxer on what a demuxer holds of a recording. *)
Lemma demuxed_session file d s hs bytes hp st1 q pending :
  let log := ps_user q in
  let infos := map stored_stream (streams log) in
  opened d s infos pending hs -> Forall2 carries (packets log) pending ->
  recording (source_of bytes) tide_limits_default hp = Done (st1, q) -> zlen bytes < 2 ^ 56 -> (forall n, 0 <= n -> 0 <= out_write file n <= n) ->
  Forall input_ok (demux_inputs infos pending) /\ zlen infos + zlen pending < 2 ^ 62 /\
  exists st contents s', mux_session file None (demux_inputs infos pending) s = Done (st, contents, s') /\
    (st = TIDE_STATUS_OK -> repaired file log contents) /\
    (st_heap s = [] -> repair_fits file log -> st = TIDE_STATUS_OK).
Proof.
  intros log infos Hop Hcar Hq Hm Hw.
  destruct (recording_log _ _ _ _ _ _ (source_of_wf bytes) ltac:(lia) limits_default_typed Hq) as [Hlog Hn]. fold log in Hlog, Hn.
  pose proof (inputs_ok _ _ _ _ Hlog Hm Hcar) as Hi. fold infos in Hi.
  pose proof (inputs_same log pending Hcar) as Hsame. fold infos in Hsame.
  assert (Hz : zlen infos + zlen pending = zlen (streams log) + zlen (packets log)).
  { unfold infos. rewrite zlen_map, <- (zlen_same _ _ _ Hcar). reflexivity. }
  split; [exact Hi|]. split; [lia|].
  destruct (mux_session_spec file None (demux_inputs infos pending) s hs I Hi) as (st & contents & s' & Hrun & Hok & Hst).
  { unfold demux_inputs. rewrite zlen_app, !zlen_map. lia. }
  { rewrite demux_inputs_refs. apply Hop. }
  { exact Hw. }
  exists st, contents, s'. split; [exact Hrun|]. split.
  - intros E. destruct (Hok E) as (-> & _ & _ & Hfit). split; [apply mux_file_same, Hsame|].
    apply (session_fits_same _ _ _ (same_sym _ _ Hsame)), Hfit.
  - intros Eh (H1 & H2 & H3 & H4). apply Hst; auto. eapply session_fits_same; eassumption.
Qed.

(** From the demuxer on. *)
Lemma repair_demuxed file d s hs prefix_source bytes hp st1 q pending :
  let log := ps_user q in
  opened d s (map stored_stream (streams log)) pending hs -> Forall2 carries (packets log) pending ->
  recording (source_of bytes) tide_limits_default hp = Done (st1, q) -> zlen bytes < 2 ^ 56 -> (forall n, 0 <= n -> 0 <= out_write file n <= n) ->
  exists st contents s', repair_copy (Some file) (Some d) prefix_source s = Done (st, contents, s') /\ balanced s' hs /\
    (st = TIDE_STATUS_OK -> repaired file log contents) /\
    (st_heap s = [] -> repair_fits file log -> st = TIDE_STATUS_OK).
Proof.
  intros log Hop Hcar Hq Hm Hw. subst log.
  destruct (demuxed_session file d s hs bytes hp st1 q pending Hop Hcar Hq Hm Hw) as (Hi & Hz & st & contents & s' & Hrun & H).
  destruct (repair_copy_spec file d s _ pending hs prefix_source Hop Hi Hz Hw) as (st' & c' & s2 & s3 & Hrun' & Hcopy & Hb).
  rewrite Hrun in Hrun'. injection Hrun' as <- <- <-. exists st, contents, s3. auto.
Qed.

Lemma repair_write_spec plan bytes file hp s hs :
  source_wf (rp_source plan) bytes -> 0 < rp_valid_prefix plan <= zlen bytes -> zlen bytes < 2 ^ 56 -> balanced s hs ->
  (forall n, 0 <= n -> 0 <= out_write file n <= n) ->
  let prefix := take (Z.to_nat (rp_valid_prefix plan)) bytes in
  exists st contents s', tide_repair_write (Some plan) (Some file) hp s = Done (st, contents, s') /\ balanced s' hs /\
    (st = TIDE_STATUS_OK -> exists st1 q, recording (source_of prefix) tide_limits_default hp = Done (st1, q) /\
       opens (Some repair_demux_options) st1 = true /\ repaired file (ps_user q) contents) /\
    (st_heap s = [] -> forall st1 q, recording (source_of prefix) tide_limits_default hp = Done (st1, q) ->
       opens (Some repair_demux_options) st1 = true -> repair_fits file (ps_user q) -> st = TIDE_STATUS_OK).
Proof.
  intros (Hd & _) Hv Hm Hb Hw prefix. unfold tide_repair_write. rewrite (proj2 (Z.eqb_neq _ _)) by lia.
  change (tide_source_data (Some (rp_source plan))) with (src_data (rp_source plan)).
  assert (Hdata : src_data (rp_source plan) = Some bytes).
  { destruct (src_data (rp_source plan)); [cbn in Hd; congruence|]. cbn in Hd. subst bytes. unfold zlen in Hv. cbn in Hv. lia. }
  assert (Hpre : slice bytes 0 (rp_valid_prefix plan) = prefix) by reflexivity.
  assert (Hpm : zlen prefix < 2 ^ 56) by (unfold prefix, zlen in *; rewrite length_take; lia).
  rewrite Hdata. destruct (from_memory_spec None bytes (rp_valid_prefix plan) (st_heap s) ltac:(lia)) as (st0 & r0 & h1 & -> & Hcase & Hh1).
  rewrite Hpre in Hcase. rewrite bind_done. cbv beta iota zeta. cbn [deref]. rewrite bind_done.
  destruct Hcase as [[-> ->]|[-> ->]].
  2: { rewrite bool_decide_eq_false_2 by discriminate. cbn [negb]. unfold repair_cleanup. rewrite bind_done. cbn [tide_demux_close]. rewrite bind_done.
       exists TIDE_STATUS_RESOURCE, [], (set_heap h1 s). split; [reflexivity|]. split; [exact Hb|]. split; [discriminate|].
       intros E. destruct (Hh1 E). discriminate. }
  rewrite bool_decide_eq_true_2 by reflexivity. cbn [negb].
  destruct (demux_open_spec None (source_of prefix) prefix (Some repair_demux_options) hp (set_heap h1 s) hs (source_of_wf _) Hpm limits_default_typed Hb)
    as (st1 & r & s2 & -> & Hr & Hst). change (demux_limits (Some repair_demux_options)) with tide_limits_default in *.
  change (selected_track (Some repair_demux_options)) with 0 in *. rewrite bind_done. cbv beta iota. cbn [deref]. rewrite bind_done. cbv zeta.
  assert (Hok : bool_decide ((if bool_decide (st1 = TIDE_STATUS_PARTIAL) then TIDE_STATUS_OK else st1) = TIDE_STATUS_OK) = opens (Some repair_demux_options) st1).
  { rewrite opens_repair. destruct st1; reflexivity. }
  rewrite Hok. destruct r as [d|].
  - destruct Hr as (Hopen & q & pending & Hq & Hop & Hcar & _ & Hheap). rewrite Hopen, wanted_all in *. cbn [negb].
    destruct (repair_demuxed file d s2 hs (Some (source_of prefix)) prefix hp st1 q pending Hop Hcar Hq Hpm Hw) as (st & contents & s' & -> & Hb' & H1 & H2).
    exists st, contents, s'. split; [reflexivity|]. split; [exact Hb'|]. split.
    + intros E. exists st1, q. auto.
    + intros E st2 q2 Hq2 _ Hfit. rewrite Hq in Hq2. injection Hq2 as <- <-. apply H2; [|exact Hfit]. apply Hheap. cbn. apply Hh1, E.
  - destruct Hr as [Eo Hb2]. rewrite Eo. cbn [negb]. unfold repair_cleanup. rewrite bind_done. cbn [tide_demux_close]. rewrite bind_done.
    eexists _, _, s2. split; [reflexivity|]. split; [exact Hb2|]. rewrite <- Hok in Eo. apply bool_decide_eq_false in Eo. split; [contradiction|].
    intros E st2 q2 Hq2 Ho2 _. exfalso. destruct (Hst (proj2 (Hh1 E))) as (q & Hq & Hnull). rewrite Hq in Hq2. injection Hq2 as -> ->.
    rewrite Ho2 in Hnull. discriminate Hnull.
Qed.

(** What was written for a recording decodes to it again. *)
Lemma repaired_recording file bytes hp st q contents :
  recording (source_of bytes) tide_limits_default hp = Done (st, q) -> zlen bytes < 2 ^ 56 -> repaired file (ps_user q) contents ->
  exists q', recording (source_of contents) tide_limits_default [] = Done (TIDE_STATUS_OK, q') /\
    streams (ps_user q') = streams (ps_user q) /\ packets (ps_user q') = packets (ps_user q).
Proof.
  intros Hq Hm (-> & Hfit). destruct (recording_log _ _ _ _ _ _ (source_of_wf bytes) ltac:(lia) limits_default_typed Hq) as [Hlog Hcount].
  assert (Hins : zlen (log_inputs (ps_user q)) < 2 ^ 64) by (unfold log_inputs; rewrite zlen_app, !zlen_map; lia).
  destruct (muxed_recording tide_limits_default (new_mux file None) (log_inputs (ps_user q)) limits_default_typed)
    as (q' & Hq' & Hu); try exact Hins.
  { apply (new_mux_typed file None I). }
  { reflexivity. }
  { discriminate. }
  { apply (room_u64 _ _ (proj2 (proj2 Hfit))). reflexivity. }
  { apply file_fits_default; assumption. }
  { apply (log_items_ok _ _ _ Hlog). discriminate. }
  exists q'. split; [exact Hq'|]. rewrite Hu. destruct (hand_over_file_log (new_mux file None) (log_inputs (ps_user q))) as [-> ->].
  apply (log_inputs_deliver _ _ _ Hlog).
Qed.

(** ** Truncated files *)

Lemma source_of_data bytes : 0 < zlen bytes -> src_data (source_of bytes) = Some bytes.
Proof. intros H. unfold source_of. cbn [src_data]. rewrite (proj2 (Z.eqb_neq _ _)) by lia. reflexivity. Qed.

Lemma recording_long bytes limits : TIDE_HEADER_SIZE <= zlen bytes -> header_verdict limits (slice bytes 0 TIDE_HEADER_SIZE) = None ->
  recording (source_of bytes) limits [] =
    '(st, s) ← tide_parse_records limits ok_logging (parse_fuel (zlen bytes)) bytes TIDE_HEADER_SIZE (zlen bytes) 0 (start_state [] []);
    Done (if bool_decide (st = TIDE_STATUS_TRUNCATED) && true then TIDE_STATUS_PARTIAL else st, s).
Proof.
  intros Hz Hv. unfold recording. rewrite source_of_data by (unfold TIDE_HEADER_SIZE in Hz; lia).
  change (src_size (source_of bytes)) with (zlen bytes). rewrite parse_bytes_header by lia.
  change (default tide_limits_default (Some limits)) with limits. rewrite Hv. reflexivity.
Qed.

Lemma recording_header bytes limits q : TIDE_HEADER_SIZE <= zlen bytes ->
  recording (source_of bytes) limits [] = Done (TIDE_STATUS_OK, q) -> header_verdict limits (slice bytes 0 TIDE_HEADER_SIZE) = None.
Proof.
  intros Hz. unfold recording. rewrite source_of_data by (unfold TIDE_HEADER_SIZE in Hz; lia).
  change (src_size (source_of bytes)) with (zlen bytes). rewrite parse_bytes_header by lia.
  change (default tide_limits_default (Some limits)) with limits. destruct (header_verdict _ _) as [[[st off] msg]|] eqn:E; [|reflexivity].
  apply header_verdict_failure in E as (Hne & _). intros [= ? _]. contradiction.
Qed.

Lemma ok_never_truncated : never_truncated ok_logging.
Proof. split; [|split]; intros f x u [= <-]; discriminate. Qed.

Lemma ok_log_grows limits fuel data c e depth s st s' :
  tide_parse_records limits ok_logging fuel data c e depth s = Done (st, s') -> ps_user s `prefix_of` ps_user s'.
Proof.
  intros E. destruct (follows_parse (no_callbacks : tide_callbacks unit) tt (fun _ _ => TIDE_STATUS_OK) _ _ _ _ _ _ _ _ _ E) as [H _]. exact H.
Qed.

(** A cut of a good file: what was delivered before the cut is a prefix of what
    the whole file delivers, and the valid prefix delivers the same. *)
Lemma cut_recording bytes n limits qw : limits_typed limits -> zlen bytes < 2 ^ 64 -> TIDE_HEADER_SIZE <= n <= zlen bytes ->
  recording (source_of bytes) limits [] = Done (TIDE_STATUS_OK, qw) ->
  let cut := take (Z.to_nat n) bytes in
  exists st q v, recording (source_of cut) limits [] = Done (st, q) /\ (st = TIDE_STATUS_OK \/ st = TIDE_STATUS_PARTIAL) /\
    ps_valid_prefix q = Some v /\ TIDE_HEADER_SIZE <= v <= n /\ ps_user q `prefix_of` ps_user qw /\
    recording (source_of (take (Z.to_nat v) cut)) limits [] = Done (TIDE_STATUS_OK, q).
Proof.
  intros Hl Hm Hn Hw cut. pose proof (recording_header bytes limits qw ltac:(lia) Hw) as Hv. rewrite recording_long in Hw by (exact Hv || lia).
  assert (Hcz : zlen cut = n) by (unfold cut, zlen, TIDE_HEADER_SIZE in *; rewrite length_take; lia).
  assert (Hslice : forall k, TIDE_HEADER_SIZE <= k <= n -> slice (take (Z.to_nat k) cut) 0 TIDE_HEADER_SIZE = slice bytes 0 TIDE_HEADER_SIZE).
  { intros k Hk. unfold cut, TIDE_HEADER_SIZE in *. rewrite !slice_take by lia. reflexivity. }
  assert (Hvc : header_verdict limits (slice cut 0 TIDE_HEADER_SIZE) = None).
  { rewrite <- (firstn_all cut), <- (Nat2Z.id (length cut)). change (Z.of_nat (length cut)) with (zlen cut). rewrite Hslice by lia. exact Hv. }
  pose proof (start_range limits bytes (zlen bytes) Hl eq_refl ltac:(lia) Hm) as Hrw.
  pose proof (start_range limits cut (zlen cut) Hl eq_refl ltac:(lia) ltac:(lia)) as Hrc.
  pose proof (parse_resume limits ok_logging ok_never_truncated Hl _ cut _ _ _ (start_state [] []) bytes _ _ Hrc Hrw ltac:(lia)) as Hres.
  specialize (Hres ltac:(unfold agree; rewrite Hcz; unfold cut; rewrite take_take; f_equal; lia) (start_stable limits []) eq_refl).
  destruct (wp_inv _ _ (parse_defined ok_logging limits cut _ _ _ _ _ Hrc (start_ready limits [] []) (start_prefix [] [] (zlen cut) ltac:(lia))))
    as ([st1 q] & Hrun & _).
  rewrite Hrun in Hres. destruct (tide_parse_records limits ok_logging (parse_fuel (zlen bytes)) bytes _ _ _ _) as [[stw sw]| |] eqn:Ew; try discriminate.
  rewrite bind_done in Hw. injection Hw as Hstw ->.
  assert (Hst : st1 = TIDE_STATUS_OK \/ st1 = TIDE_STATUS_TRUNCATED).
  { destruct (decide (st1 = TIDE_STATUS_OK)); [auto|]. destruct (decide (st1 = TIDE_STATUS_TRUNCATED)); [auto|exfalso].
    rewrite resume_failure in Hres by assumption. injection Hres as -> ->. destruct st1; discriminate || contradiction. }
  destruct (parse_complete limits ok_logging ok_never_truncated Hl _ _ _ _ _ _ _ _ Hrc (start_stable limits []) eq_refl Hrun Hst)
    as (v & Hvp & Hvb & _ & _ & Hagain).
  exists (if bool_decide (st1 = TIDE_STATUS_TRUNCATED) && true then TIDE_STATUS_PARTIAL else st1), q, v.
  rewrite recording_long, Hrun, bind_done by (exact Hvc || lia). split; [reflexivity|]. split; [destruct Hst as [-> | ->]; auto|]. split; [exact Hvp|].
  split; [lia|]. split.
  - unfold resume in Hres. rewrite bind_done in Hres. cbv beta iota in Hres.
    destruct (_ || _); [|injection Hres as _ ->; reflexivity]. rewrite Hvp in Hres. cbn [deref] in Hres. rewrite bind_done in Hres.
    apply (ok_log_grows limits _ _ _ _ _ _ _ _ (eq_sym Hres)).
  - assert (Hvz : zlen (take (Z.to_nat v) cut) = v) by (unfold zlen, TIDE_HEADER_SIZE in *; rewrite length_take; lia).
    rewrite recording_long, Hvz by (rewrite ?Hvz, ?Hslice by lia; exact Hv || lia).
    rewrite (Hagain (take (Z.to_nat v) cut) (parse_fuel v)); [reflexivity| |lia|lia|unfold parse_fuel, TIDE_HEADER_SIZE in *; lia].
    unfold agree. rewrite take_take. f_equal. lia.
Qed.

(** ** Scanning *)

Definition scan_limits (options : option tide_repair_options) : tide_limits :=
  match options with
  | None => tide_limits_default
  | Some o => if max_record_size (ro_limits o) =? 0 then tide_limits_default else ro_limits o
  end.
Definition repair_options_typed (options : option tide_repair_options) : Prop :=
  match options with None => True | Some o => limits_typed (ro_limits o) end.

Lemma scan_limits_typed options : repair_options_typed options -> limits_typed (scan_limits options).
Proof.
  destruct options as [o|]; [|intros _; apply limits_default_typed]. cbn. destruct (_ =? 0); [intros _; apply limits_default_typed|auto].
Qed.

(** A scan is a parse without callbacks; its plan has the valid prefix and the
    error of the recording. *)
Lemma scan_spec o src bytes options hp h : source_wf src bytes -> zlen bytes < 2 ^ 64 -> repair_options_typed options ->
  exists st r h', tide_repair_scan (Some src) options (Some o) hp h = Done (st, Some r, h') /\
    match r with
    | None => st = TIDE_STATUS_RESOURCE
    | Some plan => rp_source plan = src /\ 0 <= rp_valid_prefix plan <= zlen bytes /\
        exists q, recording src (scan_limits options) hp = Done (st, q) /\ ps_valid_prefix q = Some (rp_valid_prefix plan) /\
          ps_error q = tide_repair_plan_error (Some plan)
    end /\ (h = [] -> is_Some r /\ h' = []).
Proof.
  intros (Hd & Hs & _) Hm Ho. pose proof (scan_limits_typed options Ho) as Hl. unfold tide_repair_scan.
  destruct (alloc h) as [[] h1] eqn:Ea; cbn [negb].
  2: { exists TIDE_STATUS_RESOURCE, None, h1. split; [reflexivity|]. split; [reflexivity|]. intros ->. discriminate. }
  fold (scan_limits options). cbv zeta.
  change (tide_source_data (Some src)) with (src_data src). change (tide_source_size (Some src)) with (src_size src).
  assert (Hargs : parse_args (src_data src) (src_size src) (scan_limits options) (Some zero_error) (Some 0)).
  { split; [congruence|]. split; [lia|]. split; [exact Hl|eauto]. }
  destruct (parse_bytes_log (fun _ _ => TIDE_STATUS_OK) _ _ _ true _ _ hp Hargs) as (st & q & Hrun & _ & _ & [e He] & v & Hv & Hvb).
  assert (Hrun' := parse_bytes_replay (no_callbacks : tide_callbacks unit) tt _ _ _ true (Some (scan_limits options)) _ _ _ _ _ Hrun
    ltac:(intros before d _; destruct d; reflexivity) Hargs).
  change (tide_parse_tide_bytes (src_data src) (src_size src) true (Some (scan_limits options)) (None : option (tide_callbacks unit)) tt (Some zero_error) (Some 0) hp)
    with (tide_parse_tide_bytes (src_data src) (src_size src) true (Some (scan_limits options)) (Some (no_callbacks : tide_callbacks unit)) tt (Some zero_error) (Some 0) hp).
  rewrite Hrun', bind_done. cbv beta iota. cbn [ps_error ps_valid_prefix replayed with_user]. rewrite He, Hv. cbn [deref]. rewrite !bind_done.
  eexists st, (Some _), h1. split; [reflexivity|]. split; [|intros ->; injection Ea as <-; eauto].
  cbn [rp_source rp_valid_prefix]. split; [reflexivity|]. split; [lia|]. exists q. split; [exact Hrun|]. split; [exact Hv|exact He].
Qed.

Lemma opens_repair_spec st : opens (Some repair_demux_options) st = true <-> st = TIDE_STATUS_OK \/ st = TIDE_STATUS_PARTIAL.
Proof. rewrite opens_repair. destruct st; cbn; intuition discriminate. Qed.

(** C7: repair never gets stuck, never leaks a lease and never invents: for
    every source below 2^56 bytes, all options and all answers of the
    allocator and of the file, scanning is defined and gives a valid prefix
    within the source; writing the plan is defined and leaves every lease of
    the client and no other; with no valid prefix it is an invalid argument,
    and when it succeeds, the file holds the streams and packets that the
    decoder delivers for the valid prefix, muxed anew. *)
Theorem repair_any_file (src : tide_source) (bytes : list byte) (o : option tide_repair_plan) (options : option tide_repair_options)
    (file : output_file) (hp1 h1 hp2 : heap) (s : lease_store) (hs : list lease_ptr) :
  source_wf src bytes -> zlen bytes < 2 ^ 56 -> repair_options_typed options ->
  (forall n, 0 <= n -> 0 <= out_write file n <= n) -> balanced s hs ->
  exists st plan h', tide_repair_scan (Some src) options (Some o) hp1 h1 = Done (st, Some plan, h') /\
    (plan = None -> st = TIDE_STATUS_RESOURCE) /\
    let v := tide_repair_plan_valid_prefix plan in
    let prefix := take (Z.to_nat v) bytes in
    0 <= v <= zlen bytes /\
    exists st' contents s', tide_repair_write plan (Some file) hp2 s = Done (st', contents, s') /\ balanced s' hs /\
      (v = 0 -> st' = TIDE_STATUS_INVALID_ARGUMENT /\ contents = [] /\ s' = s) /\
      (st' = TIDE_STATUS_OK -> exists st1 q, recording (source_of prefix) tide_limits_default hp2 = Done (st1, q) /\
         (st1 = TIDE_STATUS_OK \/ st1 = TIDE_STATUS_PARTIAL) /\ contents = repaired_file file (ps_user q)).
Proof.
  intros Hsrc Hm Ho Hw Hb. pose proof (zlen_nonneg bytes).
  destruct (scan_spec o src bytes options hp1 h1 Hsrc ltac:(lia) Ho) as (st & plan & h' & -> & Hplan & _).
  exists st, plan, h'. split; [reflexivity|].
  destruct plan as [plan|].
  2: { split; [auto|]. cbn [tide_repair_plan_valid_prefix]. split; [lia|]. exists TIDE_STATUS_INVALID_ARGUMENT, [], s.
       split; [reflexivity|]. split; [exact Hb|]. split; [auto|discriminate]. }
  split; [discriminate|]. destruct Hplan as (Esrc & Hv & _). cbn [tide_repair_plan_valid_prefix]. split; [exact Hv|].
  destruct (Z.eq_dec (rp_valid_prefix plan) 0) as [E|Hne].
  - exists TIDE_STATUS_INVALID_ARGUMENT, [], s. unfold tide_repair_write. rewrite E. split; [reflexivity|]. split; [exact Hb|]. split; [auto|discriminate].
  - destruct (repair_write_spec plan bytes file hp2 s hs) as (st' & contents & s' & -> & Hb' & Hok & _);
      [rewrite Esrc; exact Hsrc|lia|exact Hm|exact Hb|exact Hw|].
    exists st', contents, s'. split; [reflexivity|]. split; [exact Hb'|]. split; [lia|]. intros E.
    destruct (Hok E) as (st1 & q & Hq & Hop & Hc). exists st1, q. split; [exact Hq|]. split; [apply opens_repair_spec, Hop|apply Hc].
Qed.

(** C3: repair of a truncated file: when a file that decodes without error is
    cut anywhere behind its header, scanning the cut gives a plan (whose
    status is [OK] or [PARTIAL]); the file written for it decodes without
    error and delivers the first streams and packets
    of the whole file, those the cut file still delivers; and writing succeeds when
    the allocator and the file do not refuse. *)
Theorem repair_truncated_file (bytes : list byte) (n : Z) (qw : pstate (list delivery))
    (o : option tide_repair_plan) (file : output_file) (s : lease_store) (hs : list lease_ptr) :
  let cut := take (Z.to_nat n) bytes in
  zlen bytes < 2 ^ 56 -> TIDE_HEADER_SIZE <= n <= zlen bytes ->
  recording (source_of bytes) tide_limits_default [] = Done (TIDE_STATUS_OK, qw) ->
  (forall k, 0 <= k -> 0 <= out_write file k <= k) -> balanced s hs ->
  exists st plan q, tide_repair_scan (Some (source_of cut)) None (Some o) [] [] = Done (st, Some (Some plan), []) /\
    (st = TIDE_STATUS_OK \/ st = TIDE_STATUS_PARTIAL) /\
    recording (source_of cut) tide_limits_default [] = Done (st, q) /\ ps_user q `prefix_of` ps_user qw /\
    exists st' contents s', tide_repair_write (Some plan) (Some file) [] s = Done (st', contents, s') /\ balanced s' hs /\
      (st' = TIDE_STATUS_OK ->
         exists q', recording (source_of contents) tide_limits_default [] = Done (TIDE_STATUS_OK, q') /\
           streams (ps_user q') = streams (ps_user q) /\ packets (ps_user q') = packets (ps_user q)) /\
      (st_heap s = [] -> repair_fits file (ps_user q) -> st' = TIDE_STATUS_OK).
Proof.
  intros cut Hm Hn Hqw Hw Hb. pose proof limits_default_typed as Hl.
  assert (Hcz : zlen cut = n) by (unfold cut, zlen, TIDE_HEADER_SIZE in *; rewrite length_take; lia).
  destruct (cut_recording bytes n _ qw Hl ltac:(lia) Hn Hqw) as (st & q & v & Hq & Hst & Hv & Hvn & Hpre & Hagain). fold cut in Hq, Hagain.
  destruct (scan_spec o (source_of cut) cut None [] [] (source_of_wf cut) ltac:(lia) I) as (st1 & plan & h' & Hscan & Hplan & Hheap).
  destruct (Hheap eq_refl) as [[plan' ->] ->]. destruct Hplan as (Esrc & Hvp & q1 & Hq1 & Hv1 & _).
  change (scan_limits None) with tide_limits_default in Hq1. rewrite Hq in Hq1. injection Hq1 as <- <-. rewrite Hv in Hv1. injection Hv1 as ->.
  exists st, plan', q. split; [exact Hscan|]. split; [exact Hst|]. split; [exact Hq|]. split; [exact Hpre|].
  destruct (repair_write_spec plan' cut file [] s hs) as (st' & contents & s' & -> & Hb' & Hok & Hgood);
    [rewrite Esrc; apply source_of_wf|unfold TIDE_HEADER_SIZE in *; lia|lia|exact Hb|exact Hw|].
  exists st', contents, s'. split; [reflexivity|]. split; [exact Hb'|]. split.
  - intros E. destruct (Hok E) as (st2 & q2 & Hq2 & _ & Hc). rewrite Hagain in Hq2. injection Hq2 as <- <-.
    exact (repaired_recording file _ _ _ _ _ Hq ltac:(lia) Hc).
  - intros Eh Hfit. apply (Hgood Eh TIDE_STATUS_OK q Hagain); [reflexivity|exact Hfit].
Qed.

(** Witnesses: the sample file, cut inside its last record. *)
Definition cut_log : list delivery :=
  match recording (source_of cut_file) tide_limits_default [] with Done (_, q) => ps_user q | _ => [] end.

Lemma cut_repair_fits : repair_fits good_file cut_log.
Proof.
  let l := eval vm_compute in cut_log in assert (E : cut_log = l) by (vm_compute; reflexivity); rewrite E.
  split; [reflexivity|]. split; [reflexivity|]. split; [reflexivity|].
  split; [repeat constructor|]. split; [reflexivity|vm_compute; reflexivity].
Qed.

Lemma repair_any_file_witness :
  exists st plan h', tide_repair_scan (Some (source_of cut_file)) None (Some None) [] [] = Done (st, Some plan, h') /\
    tide_repair_plan_valid_prefix plan = 116 /\
    exists st' contents s', tide_repair_write plan (Some good_file) [] client_store = Done (st', contents, s') /\ balanced s' [4%positive].
Proof.
  destruct (repair_any_file (source_of cut_file) cut_file None None good_file [] [] [] client_store [4%positive] (source_of_wf cut_file) eq_refl I
    (fun n Hn => conj Hn (Z.le_refl n)) client_store_balanced) as (st & plan & h' & Hscan & _ & _ & st' & contents & s' & Hw & Hb & _).
  exists st, plan, h'. split; [exact Hscan|]. split; [|exists st', contents, s'; auto].
  vm_compute in Hscan. injection Hscan as _ <- _. reflexivity.
Defined.

Lemma repair_truncated_file_witness :
  exists plan contents s' q, tide_repair_scan (Some (source_of cut_file)) None (Some None) [] [] = Done (TIDE_STATUS_PARTIAL, Some (Some plan), []) /\
    tide_repair_write (Some plan) (Some good_file) [] client_store = Done (TIDE_STATUS_OK, contents, s') /\ balanced s' [4%positive] /\
    recording (source_of contents) tide_limits_default [] = Done (TIDE_STATUS_OK, q) /\
    length (streams (ps_user q)) = 1%nat /\ packets (ps_user q) = [].
Proof.
  destruct (recording (source_of sample_file) tide_limits_default []) as [[st0 qw]| |] eqn:Ew; [|exfalso; vm_compute in Ew; discriminate Ew..].
  assert (st0 = TIDE_STATUS_OK) as -> by (assert (H := Ew); vm_compute in H; injection H as <- _; reflexivity).
  destruct (repair_truncated_file sample_file 200 qw None good_file client_store [4%positive] eq_refl ltac:(split; discriminate) Ew
    (fun n Hn => conj Hn (Z.le_refl n)) client_store_balanced)
    as (st & plan & q & Hscan & _ & Hq & _ & st' & contents & s' & Hw & Hb & Hok & Hgood).
  change (take (Z.to_nat 200) sample_file) with cut_file in *.
  assert (Hlog : ps_user q = cut_log) by (unfold cut_log; rewrite Hq; reflexivity). rewrite Hlog in *.
  rewrite (Hgood eq_refl cut_repair_fits) in *.
  assert (st = TIDE_STATUS_PARTIAL) as -> by (vm_compute in Hq; injection Hq as <- _; reflexivity).
  destruct (Hok eq_refl) as (q' & Hq' & Hs & Hp).
  exists plan, contents, s', q'. split; [exact Hscan|]. split; [exact Hw|]. split; [exact Hb|]. split; [exact Hq'|].
  rewrite Hs, Hp. split; vm_compute; reflexivity.
Defined.
