(* ===== verification/Cli.v ===== *)
(** * The command line

    [src/cli/main.c]: three commands over the library, as a program that is
    given the answers of the allocator and of the files and yields an exit
    code, what it prints, and the contents of the file it writes.  As elsewhere
    the allocator's answers to the parser come in a list of their own.  A local
    that the C code initialises to [NULL] is [Some None] where its address is
    passed, and [deref] reads it back. *)

From stdpp Require Import pretty.
From S2P Require Import Prelude Status Rational Model Lease Packet Source Mux Demux Repair.

(** One [printf] or [fprintf], without its newline. *)
Inductive printed : Set :=
  | Stdout (text : string)
  | Stderr (text : string).

Definition command_result : Type := Z * list printed * list byte * lease_store.

Definition status_to_exit (status : tide_status) : Z :=
  match status with
  | TIDE_STATUS_OK => 0
  | TIDE_STATUS_INVALID_ARGUMENT => 2
  | TIDE_STATUS_FORMAT | TIDE_STATUS_UNSUPPORTED | TIDE_STATUS_INTEGRITY | TIDE_STATUS_TIMELINE | TIDE_STATUS_INDEX => 3
  | TIDE_STATUS_RESOURCE => 4
  | TIDE_STATUS_CANCELLED => 5
  | TIDE_STATUS_PARTIAL => 6
  | _ => 10
  end.

(** [memset], then the limits. *)
Definition cli_demux_options : tide_demux_options := mk_demux_options tide_limits_default 0 false.
Definition cli_mux_options : tide_mux_options := mk_mux_options tide_limits_default (mk_rational 1 1000) true.

(** ** inspect *)

Definition stream_line (stream : tide_stream_info) : printed :=
  Stdout ("stream track=" +:+ pretty (si_track_id stream) +:+ " generation=" +:+ pretty (si_generation stream) +:+
          " time_base=" +:+ pretty (numerator (si_time_base stream)) +:+ "/" +:+ pretty (denominator (si_time_base stream)) +:+
          " codec=" +:+ pretty (si_codec_tag stream)).

(** The loop over the streams, [n] of them from [i]. *)
Fixpoint print_streams (n : nat) (i : Z) (demux : option tide_demux) : outcome (list printed) :=
  match n with
  | O => Done []
  | S n =>
    '(status, stream) ← tide_demux_stream_info demux i (Some stream_local);
    stream ← deref stream;
    lines ← print_streams n (i +u 1) demux;
    Done (if bool_decide (status = TIDE_STATUS_OK) then stream_line stream :: lines else lines)
  end.

Definition inspect_cmd (path : option input_file) (hp : heap) (s : lease_store) : outcome command_result :=
  '(status, source, h) ← tide_source_from_file (Some None) path (st_heap s);
  let s := set_heap h s in
  source ← deref source;
  if negb (bool_decide (status = TIDE_STATUS_OK)) then
    Done (status_to_exit status, [Stderr ("source: " +:+ tide_status_string status)], [], s)
  else
    '(status, demux, s) ← tide_demux_open (Some None) source (Some cli_demux_options) hp s;
    demux ← deref demux;
    if negb (bool_decide (status = TIDE_STATUS_OK)) && negb (bool_decide (status = TIDE_STATUS_PARTIAL)) then
      let _ := tide_source_destroy source in
      Done (status_to_exit status, [Stderr ("decode: " +:+ tide_status_string status)], [], s)
    else
      let count := tide_demux_stream_count demux in
      lines ← print_streams (Z.to_nat count) 0 demux;
      s ← tide_demux_close demux s;
      let _ := tide_source_destroy source in
      Done (status_to_exit status,
            [Stdout ("status=" +:+ tide_status_string status); Stdout ("streams=" +:+ pretty count)] ++ lines, [], s).

(** ** remux *)

(** The loop over the streams; it is left when one fails. *)
Fixpoint remux_streams (n : nat) (i : Z) (status : tide_status) (demux : option tide_demux) (mux : option tide_mux) (h : heap)
    : outcome (tide_status * option tide_mux * heap) :=
  match n with
  | O => Done (status, mux, h)
  | S n =>
    '(status, stream) ← tide_demux_stream_info demux i (Some stream_local);
    '(status, mux, h) ← (if bool_decide (status = TIDE_STATUS_OK) then tide_mux_add_stream mux stream h
                         else Done (status, mux, h));
    if negb (bool_decide (status = TIDE_STATUS_OK)) then Done (status, mux, h)
    else remux_streams n (i +u 1) status demux mux h
  end.

(** The [while] loop; its guard is tested once more than packets are read. *)
Fixpoint remux_packets (fuel : nat) (status : tide_status) (demux : option tide_demux) (mux : option tide_mux) (s : lease_store)
    : outcome (tide_status * option tide_demux * option tide_mux * lease_store) :=
  match fuel with
  | O => NoFuel
  | S fuel =>
    if negb (bool_decide (status = TIDE_STATUS_OK)) then Done (status, demux, mux, s)
    else
      let packet := tide_packet_ref_init (Some zero_packet) in
      '(status, demux, packet, s) ← tide_demux_next demux packet s;
      if bool_decide (status = TIDE_STATUS_WOULD_BLOCK) then Done (TIDE_STATUS_OK, demux, mux, s)
      else
        '(status, mux, packet, s) ← (if bool_decide (status = TIDE_STATUS_OK) then tide_mux_write_packet mux packet s
                                     else Done (status, mux, packet, s));
        '(_, s) ← tide_packet_ref_reset packet s;
        remux_packets fuel status demux mux s
  end.

(** A muxer that was created is closed, also after a failure. *)
Definition remux_close (status : tide_status) (mux : option tide_mux) (h : heap) : outcome (tide_status * list byte * heap) :=
  match mux with
  | None => Done (status, [], h)
  | Some _ =>
    '(close_status, bytes, h) ← tide_mux_close mux h;
    Done (if bool_decide (status = TIDE_STATUS_OK) then close_status else status, bytes, h)
  end.

(** From the creation of the muxer to its closing. *)
Definition remux_write (status : tide_status) (out_path : option output_file) (demux : option tide_demux) (s : lease_store)
    : outcome (tide_status * option tide_demux * list byte * lease_store) :=
  '(status, mux, h) ← (if bool_decide (status = TIDE_STATUS_OK) then tide_mux_create (Some None) out_path (Some cli_mux_options) (st_heap s)
                       else Done (status, Some None, st_heap s));
  mux ← deref mux;
  '(status, mux, h) ← (if bool_decide (status = TIDE_STATUS_OK)
                       then remux_streams (Z.to_nat (tide_demux_stream_count demux)) 0 status demux mux h
                       else Done (status, mux, h));
  '(status, demux, mux, s) ← remux_packets (S (packet_fuel demux)) status demux mux (set_heap h s);
  '(status, bytes, h) ← remux_close status mux (st_heap s);
  Done (status, demux, bytes, set_heap h s).

(** With the closing of the demuxer. *)
Definition remux_copy (status : tide_status) (out_path : option output_file) (demux : option tide_demux) (s : lease_store)
    : outcome (tide_status * list byte * lease_store) :=
  '(status, demux, bytes, s) ← remux_write status out_path demux s;
  s ← tide_demux_close demux s;
  Done (status, bytes, s).

Definition remux_cmd (in_path : option input_file) (out_path : option output_file) (hp : heap) (s : lease_store)
    : outcome command_result :=
  '(status, source, h) ← tide_source_from_file (Some None) in_path (st_heap s);
  let s := set_heap h s in
  source ← deref source;
  '(status, demux, s) ← (if bool_decide (status = TIDE_STATUS_OK) then tide_demux_open (Some None) source (Some cli_demux_options) hp s
                         else Done (status, Some None, s));
  demux ← deref demux;
  '(status, bytes, s) ← remux_copy status out_path demux s;
  let _ := tide_source_destroy source in
  Done (status_to_exit status,
        if negb (bool_decide (status = TIDE_STATUS_OK)) then [Stderr ("remux: " +:+ tide_status_string status)] else [],
        bytes, s).

(** ** repair *)

Definition repair_cmd (in_path : option input_file) (out_path : option output_file) (hp1 hp2 : heap) (s : lease_store)
    : outcome command_result :=
  '(status, source, h) ← tide_source_from_file (Some None) in_path (st_heap s);
  source ← deref source;
  '(status, plan, h) ← (if bool_decide (status = TIDE_STATUS_OK) then tide_repair_scan source None (Some None) hp1 h
                        else Done (status, Some None, h));
  plan ← deref plan;
  let s := set_heap h s in
  '(status, lines, bytes, s) ←
    (if bool_decide (status = TIDE_STATUS_OK) || bool_decide (status = TIDE_STATUS_PARTIAL) then
       '(status, bytes, s) ← tide_repair_write plan out_path hp2 s;
       Done (status, [Stdout ("valid_prefix=" +:+ pretty (tide_repair_plan_valid_prefix plan))], bytes, s)
     else Done (status, [], [], s));
  let _ := tide_repair_plan_destroy plan in
  let _ := tide_source_destroy source in
  Done (status_to_exit status,
        lines ++ (if negb (bool_decide (status = TIDE_STATUS_OK)) then [Stderr ("repair: " +:+ tide_status_string status)] else []),
        bytes, s).

(** ** main *)

Definition usage : list printed :=
  [Stderr "usage:"; Stderr "  tide inspect <file>"; Stderr "  tide demux <file>"; Stderr "  tide remux <in> <out>";
   Stderr "  tide index <file>"; Stderr "  tide repair <in> <out>"].

(** The files behind the paths of the command line. *)
Record file_system : Set := mk_files {
  fs_input : string -> input_file;
  fs_output : string -> output_file
}.

(** [argv] includes the program's name; the contents are those of the output
    path, if there is one. *)
Definition main (argv : list string) (fs : file_system) (hp1 hp2 : heap) (s : lease_store) : outcome command_result :=
  let argc := zlen argv in
  let arg i := default "" (argv !! i) in
  let input i := Some (fs_input fs (arg i)) in
  let output i := Some (fs_output fs (arg i)) in
  if argc <? 3 then Done (2, usage, [], s)
  else if (arg 1%nat =? "inspect")%string && (argc =? 3) then inspect_cmd (input 2%nat) hp1 s
  else if (arg 1%nat =? "demux")%string && (argc =? 3) then inspect_cmd (input 2%nat) hp1 s
  else if (arg 1%nat =? "index")%string && (argc =? 3) then inspect_cmd (input 2%nat) hp1 s
  else if (arg 1%nat =? "remux")%string && (argc =? 4) then remux_cmd (input 2%nat) (output 3%nat) hp1 s
  else if (arg 1%nat =? "repair")%string && (argc =? 4) then repair_cmd (input 2%nat) (output 3%nat) hp1 hp2 s
  else Done (2, usage, [], s).
