(* ===== verification/CliRun.v ===== *)
(** * What the commands do

    Every command is defined and leaves no lease behind; what it prints and
    writes is what the decoder delivers for the file it reads. *)

From stdpp Require Import pretty.
From S2P Require Import Prelude Status Checked Buffer Crc Reader Rational Model Lease Packet Frame Validate Header Decoder Parse ParseRule ParseSplit Samples Delivery Replay Source Writer RoundTrip Mux MuxSpec MuxFile Demux DemuxSpec DemuxRun MuxDemux Repair RepairSpec RepairRun Cli.

(** ** Exit codes *)

Lemma exit_ok st : status_to_exit st = 0 <-> st = TIDE_STATUS_OK.
Proof. destruct st; cbn; split; (reflexivity || discriminate). Qed.

Definition exit_codes : list Z := [0; 2; 3; 4; 5; 6; 10].

Lemma exit_code_listed st : status_to_exit st ∈ exit_codes.
Proof. destruct st; cbn; unfold exit_codes; set_solver. Qed.

(** ** The loops *)

Lemma print_streams_spec d infos l : forall pre, streams_rep d infos -> infos = pre ++ l -> zlen infos < 2 ^ 63 ->
  print_streams (length l) (zlen pre) (Some d) = Done (map stream_line l).
Proof.
  induction l as [|x l IH]; intros pre Hr E Hm; [reflexivity|]. cbn [length print_streams map]. pose proof (zlen_nonneg pre).
  rewrite (stream_info_spec d infos _ _ Hr) by lia. rewrite bind_done. replace (Z.to_nat (zlen pre)) with (length pre) by (unfold zlen; lia).
  rewrite E, list_lookup_middle by reflexivity. cbv beta iota. cbn [deref]. rewrite bind_done.
  assert (Hz : zlen infos = zlen pre + zlen l + 1) by (rewrite E, zlen_app; unfold zlen; cbn [length]; lia). pose proof (zlen_nonneg l).
  replace (zlen pre +u 1) with (zlen (pre ++ [x])) by (rewrite zlen_app, (wrap64_small (zlen pre + 1)) by zlia; reflexivity).
  rewrite (IH (pre ++ [x]) Hr); [reflexivity|rewrite <- app_assoc; exact E|exact Hm].
Qed.

Lemma remux_streams_copy n demux : forall i mux h,
  remux_streams n i TIDE_STATUS_OK demux mux h = copy_streams n i demux mux h.
Proof.
  induction n as [|n IH]; intros i mux h; [reflexivity|]. cbn [remux_streams copy_streams].
  destruct (tide_demux_stream_info _ _ _) as [[st stream]| |]; [|reflexivity..]. rewrite !bind_done. cbv beta iota.
  destruct (if bool_decide _ then _ else _) as [[[st1 mux1] h1]| |]; [|reflexivity..]. rewrite !bind_done. cbv beta iota.
  destruct (bool_decide_reflect (st1 = TIDE_STATUS_OK)) as [->|]; [apply IH|reflexivity].
Qed.

Lemma remux_packets_copy fuel : forall demux mux s r,
  copy_packets fuel demux mux s = Done r -> remux_packets (S fuel) TIDE_STATUS_OK demux mux s = Done r.
Proof.
  induction fuel as [|fuel IH]; intros demux mux s r; [discriminate|]. intros E. cbn [copy_packets] in E.
  remember (S fuel) as fuel' eqn:Ef. cbn [remux_packets]. rewrite bool_decide_eq_true_2 by reflexivity. cbn [negb]. cbv zeta.
  apply bind_Done_inv in E as ([[[st d1] packet] s1] & -> & E). rewrite bind_done. cbv beta iota.
  destruct (bool_decide (st = TIDE_STATUS_WOULD_BLOCK)); [exact E|].
  apply bind_Done_inv in E as ([[[st2 m2] packet2] s2] & -> & E). rewrite bind_done. cbv beta iota.
  apply bind_Done_inv in E as ([packet3 s3] & -> & E). rewrite bind_done. cbv beta iota.
  destruct (bool_decide_reflect (st2 = TIDE_STATUS_OK)) as [->|Hne]; cbn [negb] in E; subst fuel'; [apply IH, E|].
  cbn [remux_packets]. rewrite (bool_decide_eq_false_2 _ Hne). exact E.
Qed.

(** Copying is what repair does. *)
Lemma remux_copies demux mux s r : copies demux mux s = Done r ->
  ('(status, mux, h) ← remux_streams (Z.to_nat (tide_demux_stream_count demux)) 0 TIDE_STATUS_OK demux mux (st_heap s);
   remux_packets (S (packet_fuel demux)) status demux mux (set_heap h s)) = Done r.
Proof.
  unfold copies. intros E. apply bind_Done_inv in E as ([[st mux1] h1] & Hs & E). rewrite remux_streams_copy, Hs, bind_done. cbv beta iota.
  destruct (bool_decide_reflect (st = TIDE_STATUS_OK)) as [->|Hne]; cbn [negb] in E; [apply remux_packets_copy, E|].
  cbn [remux_packets]. rewrite (bool_decide_eq_false_2 _ Hne). exact E.
Qed.

(** Closing is defined after any failure. *)
Lemma close_usable m file h : mux_usable m -> 0 <= max_single_alloc (mx_limits m) -> mx_file m = Some file ->
  (forall n, 0 <= n -> 0 <= out_write file n <= n) -> exists st contents h', tide_mux_close (Some m) h = Done (st, contents, h').
Proof.
  intros (Hm & Hq & Hz) Hl Hf Hw. destruct (close_spec m _ _ file h Hm Hq Hl Hz Hf Hw) as (st & contents & h' & Hrun & _). eauto.
Qed.

(** ** remux *)

(** Nothing is written when opening did not end with [OK]. *)
Lemma remux_skip st out demux s hs : st <> TIDE_STATUS_OK ->
  match demux with None => balanced s hs | Some d => exists pending, packets_rep d pending /\ owned s pending hs end ->
  exists s', remux_copy st out demux s = Done (st, [], s') /\ balanced s' hs.
Proof.
  intros Hst Hd. unfold remux_copy, remux_write. rewrite (bool_decide_eq_false_2 _ Hst), bind_done. cbv beta iota. cbn [deref].
  rewrite bind_done, (bool_decide_eq_false_2 _ Hst), bind_done. cbv beta iota.
  cbn [remux_packets]. rewrite (bool_decide_eq_false_2 _ Hst). cbn [negb]. rewrite bind_done. cbv beta iota. cbn [remux_close]. rewrite !bind_done. cbv beta iota.
  replace (set_heap _ _) with s by (destruct s; reflexivity). destruct demux as [d|].
  - destruct Hd as (pending & Hp & Hown). destruct (close_spec_demux d pending s hs Hp Hown) as (s' & -> & Hb & _). rewrite bind_done. eauto.
  - cbn [tide_demux_close]. rewrite bind_done. eauto.
Qed.

(** Writing has the status of a muxer session and, with [OK], its contents;
    the demuxer keeps what was not read. *)
Lemma remux_write_spec file d s infos pending hs :
  opened d s infos pending hs -> Forall input_ok (demux_inputs infos pending) -> zlen infos + zlen pending < 2 ^ 62 ->
  (forall n, 0 <= n -> 0 <= out_write file n <= n) ->
  exists st c s1 contents d' pending' s2, mux_session file None (demux_inputs infos pending) s = Done (st, c, s1) /\
    remux_write TIDE_STATUS_OK (Some file) (Some d) s = Done (st, Some d', contents, s2) /\ opened d' s2 infos pending' hs /\
    (st = TIDE_STATUS_OK -> contents = c).
Proof.
  intros Hop Hi Hz Hw. pose proof Hop as (Hs & Hp & Hown). unfold mux_session, remux_write. rewrite bool_decide_eq_true_2 by reflexivity.
  change (tide_mux_create (Some None) (Some file) (Some cli_mux_options)) with (tide_mux_create (Some None) (Some file) None).
  destruct (create_spec_mux None file None (st_heap s) I) as (st1 & r & h1 & -> & Hr & _). rewrite !bind_done. cbv beta iota zeta. cbn [deref].
  rewrite bind_done.
  assert (Hop1 : opened d (set_heap h1 s) infos pending hs) by (split; [exact Hs|]; split; [exact Hp|]; apply (owned_leases s); [reflexivity|exact Hown]).
  destruct r as [m|].
  2: { rewrite (bool_decide_eq_false_2 _ Hr), !bind_done. cbn [negb]. cbv beta iota. cbn [remux_packets]. rewrite ?(bool_decide_eq_false_2 _ Hr).
       cbn [negb]. rewrite bind_done. cbv beta iota. cbn [remux_close]. rewrite bind_done. cbv beta iota.
       replace (set_heap (st_heap (set_heap h1 s)) (set_heap h1 s)) with (set_heap h1 s) by reflexivity.
       exists st1, [], (set_heap h1 s), [], d, pending, (set_heap h1 s). auto. }
  destruct Hr as (-> & _ & _ & (Hfile & Hlim & _) & Hm & _). rewrite bool_decide_eq_true_2 by reflexivity. cbn [negb deref]. rewrite bind_done.
  assert (Hl : 0 <= max_single_alloc (mx_limits m)) by (rewrite Hlim; discriminate).
  destruct (copy_all_spec d infos pending hs m _ (set_heap h1 s) Hop1 Hm Hl Hi Hz) as (st2 & m' & s1 & d' & pending' & Hall & (Hs' & Hp' & Hown') & Hcopy).
  destruct (mux_all_spec (demux_inputs infos pending) m _ 0 (set_heap h1 s) hs Hm ltac:(lia)) as (st3 & m3 & s3 & Hall' & (Hfile' & Hlim' & _) & _ & Hus & _);
    [unfold demux_inputs; rewrite zlen_app, !zlen_map; lia|exact Hl|exact Hi|rewrite demux_inputs_refs; apply Hown|].
  rewrite Hall in Hall'. injection Hall' as <- <- <-.
  specialize (Hus ltac:(rewrite zlen_header by apply mux_uuid_ok; lia)).
  apply remux_copies in Hcopy. apply bind_Done_inv in Hcopy as ([[st4 m4] h4] & Hstr & Hpk). cbn [st_heap set_heap] in Hstr.
  rewrite Hstr, bind_done. cbv beta iota. change (set_heap h4 (set_heap h1 s)) with (set_heap h4 s) in Hpk. rewrite Hpk, Hall, !bind_done. cbv beta iota.
  cbn [remux_close]. destruct (close_usable m' file (st_heap s1) Hus ltac:(rewrite Hlim'; exact Hl)
    ltac:(rewrite Hfile', Hfile; reflexivity) Hw) as (st5 & c & h5 & ->).
  rewrite !bind_done. cbv beta iota.
  assert (Hop' : opened d' (set_heap h5 s1) infos pending' hs)
    by (split; [exact Hs'|]; split; [exact Hp'|]; apply (owned_leases s1); [reflexivity|exact Hown']).
  destruct (bool_decide_reflect (st2 = TIDE_STATUS_OK)) as [->|Hne]; cbn [negb]; rewrite ?bind_done;
    do 7 eexists; (split; [reflexivity|]); (split; [reflexivity|]); (split; [exact Hop'|]); [reflexivity|contradiction].
Qed.

Lemma remux_copy_spec file d s infos pending hs :
  opened d s infos pending hs -> Forall input_ok (demux_inputs infos pending) -> zlen infos + zlen pending < 2 ^ 62 ->
  (forall n, 0 <= n -> 0 <= out_write file n <= n) ->
  exists st c s1 contents s2, mux_session file None (demux_inputs infos pending) s = Done (st, c, s1) /\
    remux_copy TIDE_STATUS_OK (Some file) (Some d) s = Done (st, contents, s2) /\ balanced s2 hs /\
    (st = TIDE_STATUS_OK -> contents = c).
Proof.
  intros Hop Hi Hz Hw. destruct (remux_write_spec file d s infos pending hs Hop Hi Hz Hw)
    as (st & c & s1 & contents & d' & pending' & s2 & Hrun & Hwr & (_ & Hp & Hown) & Hsame).
  destruct (close_spec_demux d' pending' s2 hs Hp Hown) as (s3 & Hc & Hb & _).
  exists st, c, s1, contents, s3. unfold remux_copy. rewrite Hwr, bind_done. cbv beta iota. rewrite Hc, bind_done. auto.
Qed.

Lemma file_status_cases file : file_status file = TIDE_STATUS_OK \/ file_status file = TIDE_STATUS_IO.
Proof. unfold file_status. case_match; auto. Qed.

Lemma room_default n : room (empty_buffer (max_aggregate_alloc tide_limits_default)) n = true -> n < 2 ^ 56.
Proof. unfold room. cbn. intros H. bool_props. lia. Qed.

(** A file that can be written. *)
Definition writable (file : output_file) : Prop := forall n, 0 <= n -> 0 <= out_write file n <= n.

Lemma opens_cli st : opens (Some cli_demux_options) st = bool_decide (st = TIDE_STATUS_OK) || bool_decide (st = TIDE_STATUS_PARTIAL).
Proof. exact (opens_repair st). Qed.

Lemma remux_cmd_spec (input : input_file) (output : output_file) (hp : heap) (s : lease_store) (hs : list lease_ptr) :
  in_tell input < 2 ^ 56 -> writable output -> balanced s hs ->
  exists st lines contents s', remux_cmd (Some input) (Some output) hp s = Done (status_to_exit st, lines, contents, s') /\ balanced s' hs /\
    (st = TIDE_STATUS_OK -> lines = [] /\ file_status input = TIDE_STATUS_OK /\ zlen (file_bytes input) < 2 ^ 56 /\ exists q,
       recording (source_of (file_bytes input)) tide_limits_default hp = Done (TIDE_STATUS_OK, q) /\ repaired output (ps_user q) contents) /\
    (st_heap s = [] ->
       match file_status input with
       | TIDE_STATUS_OK => exists st1 q, recording (source_of (file_bytes input)) tide_limits_default hp = Done (st1, q) /\
           (st1 <> TIDE_STATUS_OK -> st = st1 /\ contents = []) /\
           (st1 = TIDE_STATUS_OK -> repair_fits output (ps_user q) -> st = TIDE_STATUS_OK)
       | st1 => st = st1 /\ contents = []
       end).
Proof.
  intros Hm Hw Hb. unfold remux_cmd. destruct (from_file_spec None input (st_heap s)) as (st & r & h & -> & Hr & Hst).
  rewrite bind_done. cbv beta iota zeta. cbn [deref]. rewrite bind_done. destruct r as [src|].
  2: { assert (Hne : st <> TIDE_STATUS_OK) by (destruct Hr as [-> | ->]; discriminate). rewrite (bool_decide_eq_false_2 _ Hne), bind_done.
       cbv beta iota. cbn [deref]. rewrite bind_done. destruct (remux_skip st (Some output) None (set_heap h s) hs Hne Hb) as (s' & -> & Hb').
       rewrite bind_done. cbv beta iota. exists st. do 3 eexists. split; [reflexivity|]. split; [exact Hb'|]. split; [contradiction|].
       intros E. destruct (Hst E) as [-> _]. destruct (file_status_cases input) as [E2|E2]; [contradiction|rewrite E2; auto]. }
  destruct Hr as (-> & Hf & -> & Hz). rewrite bool_decide_eq_true_2 by reflexivity. rewrite Hf.
  destruct (demux_open_spec None _ _ (Some cli_demux_options) hp (set_heap h s) hs (source_of_wf _) ltac:(rewrite Hz; exact Hm) limits_default_typed Hb)
    as (st1 & r & s2 & -> & Hr & Hst1). change (demux_limits (Some cli_demux_options)) with tide_limits_default in *.
  change (selected_track (Some cli_demux_options)) with 0 in *. rewrite bind_done. cbv beta iota. cbn [deref]. rewrite bind_done.
  destruct (decide (st1 = TIDE_STATUS_OK)) as [->|Hne].
  - destruct r as [d|]; [|destruct Hr as [Hr _]; discriminate Hr]. destruct Hr as (_ & q & pending & Hq & Hop & Hcar & _ & Hheap). rewrite wanted_all in Hcar.
    destruct (demuxed_session output d s2 hs _ hp _ q pending Hop Hcar Hq ltac:(rewrite Hz; exact Hm) Hw) as (Hi & Hn & st & c & s3 & Hrun & Hok & Hfit).
    destruct (remux_copy_spec output d s2 _ pending hs Hop Hi Hn Hw) as (st' & c' & s3' & contents & s4 & Hrun' & -> & Hb' & Hsame).
    rewrite Hrun in Hrun'. injection Hrun' as <- <- <-. rewrite bind_done. cbv beta iota. exists st. do 3 eexists. split; [reflexivity|]. split; [exact Hb'|]. split.
    + intros ->. split; [reflexivity|]. split; [reflexivity|]. split; [lia|]. exists q. split; [exact Hq|]. rewrite Hsame by reflexivity. auto.
    + intros E. exists TIDE_STATUS_OK, q. split; [exact Hq|]. split; [contradiction|]. intros _ Hfits. apply Hfit; [|exact Hfits].
      apply Hheap. apply Hst, E.
  - destruct (remux_skip st1 (Some output) r s2 hs Hne) as (s' & -> & Hb').
    { destruct r as [d|]; [|apply Hr]. destruct Hr as (_ & q & pending & _ & (_ & Hp & Hown) & _). eauto. }
    rewrite bind_done. cbv beta iota. exists st1. do 3 eexists. split; [reflexivity|]. split; [exact Hb'|]. split; [contradiction|].
    intros E. destruct (Hst1 (proj2 (Hst E))) as (q & Hq & _). exists st1, q. split; [exact Hq|]. split; [auto|contradiction].
Qed.

(** C9: [tide remux] is defined whatever the files and the allocator answer, and
    leaves no lease behind.  It exits with 0 only when the whole input was
    accepted by the decoder; then nothing is printed, the output is the muxer's
    file of exactly the streams and packets the decoder delivers, and reopening
    it delivers the same again.  Without a failing allocation: an input that
    cannot be read, or that the decoder does not accept whole, gives the exit
    code of that status and an output without a byte; and an accepted input
    gives 0, if its streams and packets fit the limits and the output file does
    not fail. *)
Theorem remux_cmd_correct (input : input_file) (output : output_file) (hp : heap) (s : lease_store) (hs : list lease_ptr) :
  in_tell input < 2 ^ 56 -> writable output -> balanced s hs ->
  exists code lines contents s', remux_cmd (Some input) (Some output) hp s = Done (code, lines, contents, s') /\ balanced s' hs /\
    (code = 0 -> lines = [] /\ exists q q',
       recording (source_of (file_bytes input)) tide_limits_default hp = Done (TIDE_STATUS_OK, q) /\
       contents = repaired_file output (ps_user q) /\
       recording (source_of contents) tide_limits_default [] = Done (TIDE_STATUS_OK, q') /\
       streams (ps_user q') = streams (ps_user q) /\ packets (ps_user q') = packets (ps_user q)) /\
    (st_heap s = [] ->
       match file_status input with
       | TIDE_STATUS_OK => exists st q, recording (source_of (file_bytes input)) tide_limits_default hp = Done (st, q) /\
           (st <> TIDE_STATUS_OK -> code = status_to_exit st /\ contents = []) /\
           (st = TIDE_STATUS_OK -> repair_fits output (ps_user q) -> code = 0)
       | st => code = status_to_exit st /\ contents = []
       end).
Proof.
  intros Hm Hw Hb. destruct (remux_cmd_spec input output hp s hs Hm Hw Hb) as (st & lines & contents & s' & Hrun & Hb' & Hok & Hst).
  exists (status_to_exit st), lines, contents, s'. split; [exact Hrun|]. split; [exact Hb'|]. rewrite exit_ok. split.
  - intros E. destruct (Hok E) as (Hl & _ & Hz & q & Hq & Hc). split; [exact Hl|].
    destruct (repaired_recording _ _ _ _ _ _ Hq Hz Hc) as (q' & Hq' & Hs & Hp). exists q, q'. split; [exact Hq|]. split; [apply Hc|]. auto.
  - intros E. specialize (Hst E). destruct (file_status_cases input) as [Hf|Hf]; rewrite Hf in *.
    + destruct Hst as (st1 & q & Hq & H1 & H2). exists st1, q. split; [exact Hq|]. split; [intros Hne; destruct (H1 Hne) as [-> ->]; auto|].
      intros E1 Hfit. apply exit_ok, H2; assumption.
    + destruct Hst as [-> ->]. auto.
Qed.

Lemma take_zlen {A} (l : list A) : take (Z.to_nat (zlen l)) l = l.
Proof. unfold zlen. rewrite Nat2Z.id. apply firstn_all. Qed.

Lemma readable_status content : file_status (readable content) = TIDE_STATUS_OK.
Proof.
  unfold file_status, readable. cbn [in_open in_seek_end in_tell in_seek_set in_read andb]. pose proof (zlen_nonneg content).
  rewrite (proj2 (Z.leb_le _ _)), take_zlen, Z.eqb_refl, orb_true_r by lia. reflexivity.
Qed.

Lemma readable_bytes content : file_bytes (readable content) = content.
Proof.
  unfold file_bytes, readable. cbn [in_tell in_read]. rewrite take_zlen. destruct content; reflexivity.
Qed.

(** A file that opens, takes everything and closes. *)
Definition reliable (file : output_file) : Prop :=
  out_open file = true /\ out_close file = true /\ forall n, out_write file n = n.

(** C11: [tide remux] is a normal form: remuxing a remuxed file gives the same
    bytes again, whenever it exits with 0, and it does so unless memory or the
    output file fails. *)
Theorem remux_cmd_idempotent (input : input_file) (output output' : output_file) (hp : heap) (s s1 s2 : lease_store)
    (hs hs2 : list lease_ptr) (lines : list printed) (contents : list byte) :
  in_tell input < 2 ^ 56 -> writable output -> writable output' -> balanced s hs -> balanced s2 hs2 ->
  remux_cmd (Some input) (Some output) hp s = Done (0, lines, contents, s1) ->
  exists code lines' contents' s', remux_cmd (Some (readable contents)) (Some output') [] s2 = Done (code, lines', contents', s') /\
    balanced s' hs2 /\ (code = 0 -> contents' = contents) /\ (st_heap s2 = [] -> reliable output' -> code = 0).
Proof.
  intros Hm Hw Hw' Hb Hb2 Hrun. destruct (remux_cmd_spec input output hp s hs Hm Hw Hb) as (st & l & c & s0 & Hrun' & _ & Hok & _).
  rewrite Hrun in Hrun'. injection Hrun' as E <- <- <-. destruct (Hok (proj1 (exit_ok st) (eq_sym E))) as (_ & _ & Hz & q & Hq & Hc).
  destruct (repaired_recording _ _ _ _ _ _ Hq Hz Hc) as (q' & Hq' & Hs & Hp). destruct Hc as [-> Hfit].
  assert (Hlog : log_inputs (ps_user q') = log_inputs (ps_user q)) by (unfold log_inputs; rewrite Hs, Hp; reflexivity).
  set (contents := repaired_file output (ps_user q)) in *.
  assert (Hsmall : zlen contents < 2 ^ 56) by (pose proof (room_default _ (proj2 (proj2 Hfit))); exact H).
  destruct (remux_cmd_spec (readable contents) output' [] s2 hs2 Hsmall Hw' Hb2) as (st2 & l' & c' & s' & Hrun2 & Hb' & Hok2 & Hst2).
  rewrite readable_status, readable_bytes in *. exists (status_to_exit st2), l', c', s'. rewrite exit_ok. split; [exact Hrun2|]. split; [exact Hb'|]. split.
  - intros E2. destruct (Hok2 E2) as (_ & _ & _ & q2 & Hq2 & -> & _). rewrite Hq' in Hq2. injection Hq2 as <-.
    unfold repaired_file. rewrite Hlog. reflexivity.
  - intros Hh (H1 & H2 & H3). destruct (Hst2 Hh) as (st3 & q2 & Hq2 & _ & H). rewrite Hq' in Hq2. injection Hq2 as <- <-.
    apply H; [reflexivity|]. split; [exact H1|]. split; [exact H2|]. split; [exact H3|]. rewrite Hlog. exact Hfit.
Qed.

(** ** inspect *)

(** What is printed of a file that opens. *)
Definition summary (st : tide_status) (infos : list tide_stream_info) : list printed :=
  [Stdout ("status=" +:+ tide_status_string st); Stdout ("streams=" +:+ pretty (zlen infos))] ++ map stream_line infos.

Lemma stored_lines infos : map stream_line (map stored_stream infos) = map stream_line infos.
Proof. rewrite map_map. apply map_ext. intros x. reflexivity. Qed.

(** The status opens a demuxer of the command line. *)
Definition readable_status_of (st : tide_status) : bool :=
  bool_decide (st = TIDE_STATUS_OK) || bool_decide (st = TIDE_STATUS_PARTIAL).

Lemma inspect_cmd_spec (input : input_file) (hp : heap) (s : lease_store) (hs : list lease_ptr) :
  in_tell input < 2 ^ 56 -> balanced s hs ->
  exists st lines s', inspect_cmd (Some input) hp s = Done (status_to_exit st, lines, [], s') /\ balanced s' hs /\
    (readable_status_of st = true -> file_status input = TIDE_STATUS_OK /\ exists q,
       recording (source_of (file_bytes input)) tide_limits_default hp = Done (st, q) /\ lines = summary st (streams (ps_user q))) /\
    (st_heap s = [] ->
       match file_status input with
       | TIDE_STATUS_OK => exists q, recording (source_of (file_bytes input)) tide_limits_default hp = Done (st, q) /\
           (readable_status_of st = false -> lines = [Stderr ("decode: " +:+ tide_status_string st)])
       | fst => st = fst /\ lines = [Stderr ("source: " +:+ tide_status_string fst)]
       end).
Proof.
  intros Hm Hb. unfold inspect_cmd. destruct (from_file_spec None input (st_heap s)) as (st & r & h & -> & Hr & Hst).
  rewrite bind_done. cbv beta iota zeta. cbn [deref]. rewrite bind_done. destruct r as [src|].
  2: { assert (Hne : readable_status_of st = false /\ st <> TIDE_STATUS_OK) by (destruct Hr as [-> | ->]; (split; [reflexivity|discriminate])).
       destruct Hne as [Hno Hne]. rewrite (bool_decide_eq_false_2 _ Hne). cbn [negb]. exists st. do 2 eexists. split; [reflexivity|]. split; [exact Hb|].
       split; [rewrite Hno; discriminate|]. intros E. destruct (Hst E) as [-> _]. destruct (file_status_cases input) as [E2|E2]; [contradiction|rewrite E2; auto]. }
  destruct Hr as (-> & Hf & -> & Hz). rewrite bool_decide_eq_true_2 by reflexivity. cbn [negb]. rewrite Hf.
  destruct (demux_open_spec None _ _ (Some cli_demux_options) hp (set_heap h s) hs (source_of_wf _) ltac:(rewrite Hz; exact Hm) limits_default_typed Hb)
    as (st1 & r & s2 & -> & Hr & Hst1). change (demux_limits (Some cli_demux_options)) with tide_limits_default in *.
  rewrite bind_done. cbv beta iota. cbn [deref]. rewrite bind_done, <- negb_orb. fold (readable_status_of st1). rewrite opens_cli in *.
  fold (readable_status_of st1) in Hr, Hst1. exists st1. destruct r as [d|].
  - destruct Hr as (Hopen & q & pending & Hq & Hop & _). rewrite Hopen. cbn [negb]. pose proof Hop as (Hs & Hp & Hown).
    destruct (recording_log _ _ _ _ _ _ (source_of_wf _) ltac:(rewrite Hz; lia) limits_default_typed Hq) as [_ Hn].
    pose proof (zlen_nonneg (packets (ps_user q))).
    pose proof (print_streams_spec d _ _ [] Hs eq_refl ltac:(rewrite zlen_map; lia)) as Hprint. change (zlen []) with 0 in Hprint.
    assert (Hcount : tide_demux_stream_count (Some d) = zlen (streams (ps_user q))) by (destruct Hs as (_ & _ & Hn' & _); cbn; rewrite Hn', zlen_map; reflexivity).
    rewrite Hcount. rewrite length_map in Hprint. replace (Z.to_nat (zlen (streams (ps_user q)))) with (length (streams (ps_user q))) by (unfold zlen; lia).
    rewrite Hprint, bind_done, stored_lines.
    destruct (close_spec_demux d pending s2 hs Hp Hown) as (s' & -> & Hb' & _). rewrite bind_done. do 2 eexists. split; [reflexivity|]. split; [exact Hb'|].
    split; [intros _; split; [reflexivity|]; exists q; split; [exact Hq|reflexivity]|].
    intros _. exists q. split; [exact Hq|discriminate].
  - destruct Hr as [Hopen Hb']. rewrite Hopen. cbn [negb]. do 2 eexists. split; [reflexivity|]. split; [exact Hb'|]. split; [discriminate|].
    intros E. destruct (Hst1 (proj2 (Hst E))) as (q & Hq & _). exists q. auto.
Qed.

(** C12: [tide inspect] (also [demux] and [index]) is defined whatever the file and
    the allocator answer, leaves no lease behind and writes nothing.  When it
    exits with 0 or 6 it printed the decoder's status and exactly the streams
    the decoder delivers, one line each and in order.  Unless an allocation fails
    the exit code is that of the decoder's status, or of [IO] when the file
    cannot be read, and a rejected file gives one line on the error output. *)
Theorem inspect_cmd_correct (input : input_file) (hp : heap) (s : lease_store) (hs : list lease_ptr) :
  in_tell input < 2 ^ 56 -> balanced s hs ->
  exists code lines s', inspect_cmd (Some input) hp s = Done (code, lines, [], s') /\ balanced s' hs /\
    (code = 0 \/ code = 6 -> exists st q, code = status_to_exit st /\
       recording (source_of (file_bytes input)) tide_limits_default hp = Done (st, q) /\ lines = summary st (streams (ps_user q))) /\
    (st_heap s = [] ->
       match file_status input with
       | TIDE_STATUS_OK => exists st q, code = status_to_exit st /\
           recording (source_of (file_bytes input)) tide_limits_default hp = Done (st, q) /\
           (code <> 0 -> code <> 6 -> lines = [Stderr ("decode: " +:+ tide_status_string st)])
       | st => code = status_to_exit st /\ lines = [Stderr ("source: " +:+ tide_status_string st)]
       end).
Proof.
  intros Hm Hb. destruct (inspect_cmd_spec input hp s hs Hm Hb) as (st & lines & s' & Hrun & Hb' & Hok & Hst).
  assert (Hcode : status_to_exit st = 0 \/ status_to_exit st = 6 <-> readable_status_of st = true) by (destruct st; cbn; intuition discriminate).
  exists (status_to_exit st), lines, s'. split; [exact Hrun|]. split; [exact Hb'|]. split.
  - intros E. destruct (Hok (proj1 Hcode E)) as (_ & q & Hq & Hl). eauto.
  - intros E. specialize (Hst E). destruct (file_status_cases input) as [Hf|Hf]; rewrite Hf in *.
    + destruct Hst as (q & Hq & Hl). exists st, q. split; [reflexivity|]. split; [exact Hq|]. intros H0 H6. apply Hl.
      destruct (readable_status_of st); [|reflexivity]. destruct (proj2 Hcode eq_refl); contradiction.
    + destruct Hst as [-> ->]. auto.
Qed.

(** ** repair *)

Definition prefix_line (v : Z) : printed := Stdout ("valid_prefix=" +:+ pretty v).

(** Writing a plan, whatever its prefix. *)
Lemma repair_write_any plan bytes file hp s hs :
  source_wf (rp_source plan) bytes -> 0 <= rp_valid_prefix plan <= zlen bytes -> zlen bytes < 2 ^ 56 -> balanced s hs -> writable file ->
  let prefix := take (Z.to_nat (rp_valid_prefix plan)) bytes in
  exists st contents s', tide_repair_write (Some plan) (Some file) hp s = Done (st, contents, s') /\ balanced s' hs /\
    (st = TIDE_STATUS_OK -> 0 < rp_valid_prefix plan /\ exists st1 q,
       recording (source_of prefix) tide_limits_default hp = Done (st1, q) /\ repaired file (ps_user q) contents) /\
    (st_heap s = [] -> 0 < rp_valid_prefix plan -> forall st1 q, recording (source_of prefix) tide_limits_default hp = Done (st1, q) ->
       readable_status_of st1 = true -> repair_fits file (ps_user q) -> st = TIDE_STATUS_OK).
Proof.
  intros Hsrc Hv Hm Hb Hw prefix. destruct (Z.eq_dec (rp_valid_prefix plan) 0) as [E|Hne].
  - unfold tide_repair_write. rewrite E. exists TIDE_STATUS_INVALID_ARGUMENT, [], s. split; [reflexivity|]. split; [exact Hb|]. split; [discriminate|lia].
  - destruct (repair_write_spec plan bytes file hp s hs Hsrc ltac:(lia) Hm Hb Hw) as (st & contents & s' & -> & Hb' & Hok & Hgood).
    exists st, contents, s'. split; [reflexivity|]. split; [exact Hb'|]. split.
    + intros E. destruct (Hok E) as (st1 & q & Hq & _ & Hc). split; [lia|]. exists st1, q. auto.
    + intros E _ st1 q Hq Hr. apply (Hgood E st1 q Hq). rewrite opens_repair. exact Hr.
Qed.

Lemma repair_cmd_spec (input : input_file) (output : output_file) (hp1 hp2 : heap) (s : lease_store) (hs : list lease_ptr) :
  let bytes := file_bytes input in
  in_tell input < 2 ^ 56 -> writable output -> balanced s hs ->
  exists st lines contents s', repair_cmd (Some input) (Some output) hp1 hp2 s = Done (status_to_exit st, lines, contents, s') /\ balanced s' hs /\
    (st = TIDE_STATUS_OK -> exists st1 q v st2 q2, lines = [prefix_line v] /\ zlen (take (Z.to_nat v) bytes) < 2 ^ 56 /\
       recording (source_of bytes) tide_limits_default hp1 = Done (st1, q) /\ ps_valid_prefix q = Some v /\
       recording (source_of (take (Z.to_nat v) bytes)) tide_limits_default hp2 = Done (st2, q2) /\ repaired output (ps_user q2) contents) /\
    (st_heap s = [] -> file_status input = TIDE_STATUS_OK -> forall st1 q v st2 q2,
       recording (source_of bytes) tide_limits_default hp1 = Done (st1, q) -> readable_status_of st1 = true -> ps_valid_prefix q = Some v -> 0 < v ->
       recording (source_of (take (Z.to_nat v) bytes)) tide_limits_default hp2 = Done (st2, q2) -> readable_status_of st2 = true ->
       repair_fits output (ps_user q2) -> st = TIDE_STATUS_OK).
Proof.
  intros bytes Hm Hw Hb. unfold repair_cmd. destruct (from_file_spec None input (st_heap s)) as (st & r & h & -> & Hr & Hst).
  rewrite bind_done. cbv beta iota zeta. cbn [deref]. rewrite bind_done. destruct r as [src|].
  2: { assert (Hno : readable_status_of st = false /\ st <> TIDE_STATUS_OK) by (destruct Hr as [-> | ->]; (split; [reflexivity|discriminate])).
       destruct Hno as [Hno Hne]. rewrite (bool_decide_eq_false_2 _ Hne), bind_done. cbv beta iota. cbn [deref]. rewrite bind_done. cbv zeta.
       fold (readable_status_of st). rewrite Hno, bind_done. cbv beta iota. exists st. do 3 eexists. split; [reflexivity|]. split; [exact Hb|].
       split; [contradiction|]. intros E Hf. destruct (Hst E) as [Hst' _]. congruence. }
  destruct Hr as (-> & Hf & -> & Hz). rewrite bool_decide_eq_true_2 by reflexivity. fold bytes in Hz |- *.
  destruct (scan_spec None (source_of bytes) bytes None hp1 h (source_of_wf _) ltac:(lia) I) as (st1 & r & h1 & -> & Hr & Hh).
  rewrite bind_done. cbv beta iota. cbn [deref]. rewrite bind_done. cbv zeta. fold (readable_status_of st1). destruct r as [plan|].
  2: { subst st1. change (readable_status_of TIDE_STATUS_RESOURCE) with false. cbv iota. rewrite bind_done. cbv beta iota. exists TIDE_STATUS_RESOURCE. do 3 eexists. split; [reflexivity|].
       split; [exact Hb|]. split; [discriminate|]. intros E. destruct (Hst E) as [_ ->]. destruct (Hh eq_refl) as [[? ?] _]. discriminate. }
  destruct Hr as (Esrc & Hv & q & Hq & Hvp & _). change (scan_limits None) with tide_limits_default in Hq.
  destruct (readable_status_of st1) eqn:Er.
  2: { rewrite bind_done. cbv beta iota. exists st1. do 3 eexists. split; [reflexivity|]. split; [exact Hb|].
       split; [intros E; rewrite E in Er; discriminate|]. intros _ _ st2 q2 v st3 q3 Hq2 Hr2. rewrite Hq in Hq2. injection Hq2 as <- <-. congruence. }
  destruct (repair_write_any plan bytes output hp2 (set_heap h1 s) hs) as (st & contents & s' & -> & Hb' & Hok & Hgood);
    [rewrite Esrc; apply source_of_wf|exact Hv|lia|exact Hb|exact Hw|].
  rewrite !bind_done. cbv beta iota. cbn [tide_repair_plan_valid_prefix]. exists st. do 3 eexists. split; [reflexivity|]. split; [exact Hb'|]. split.
  - intros ->. destruct (Hok eq_refl) as (_ & st2 & q2 & Hq2 & Hc). exists st1, q, (rp_valid_prefix plan), st2, q2.
    split; [reflexivity|]. split; [unfold zlen in *; rewrite length_take; lia|]. auto.
  - intros E _ st2 q2 v st3 q3 Hq2 _ Hv2 Hpos Hq3 Hr3 Hfit. rewrite Hq in Hq2. injection Hq2 as <- <-. rewrite Hvp in Hv2. injection Hv2 as <-.
    destruct (Hst E) as [_ ->]. destruct (Hh eq_refl) as [_ ->]. apply (Hgood eq_refl Hpos st3 q3 Hq3 Hr3 Hfit).
Qed.

(** C10: [tide repair] restores: on a file that decodes without error and was then
    cut anywhere behind its header it exits with 0, if memory and the output
    file do not fail and the packets fit the limits; and of the file it wrote
    [tide inspect] exits with 0 and prints the streams that the cut file
    still delivers, which are the first streams of the whole file. *)
Theorem repair_cmd_restores (bytes : list byte) (n : Z) (qw : pstate (list delivery)) (output : output_file)
    (s s2 : lease_store) (hs hs2 : list lease_ptr) :
  let cut := take (Z.to_nat n) bytes in
  zlen bytes < 2 ^ 56 -> TIDE_HEADER_SIZE <= n <= zlen bytes ->
  recording (source_of bytes) tide_limits_default [] = Done (TIDE_STATUS_OK, qw) ->
  writable output -> balanced s hs -> st_heap s = [] -> balanced s2 hs2 -> st_heap s2 = [] ->
  exists st q, recording (source_of cut) tide_limits_default [] = Done (st, q) /\ readable_status_of st = true /\
    ps_user q `prefix_of` ps_user qw /\
    (repair_fits output (ps_user q) ->
       exists v contents s', repair_cmd (Some (readable cut)) (Some output) [] [] s = Done (0, [prefix_line v], contents, s') /\ balanced s' hs /\
         exists s2', inspect_cmd (Some (readable contents)) [] s2 = Done (0, summary TIDE_STATUS_OK (streams (ps_user q)), [], s2') /\ balanced s2' hs2).
Proof.
  intros cut Hm Hn Hqw Hw Hb Hh Hb2 Hh2. pose proof limits_default_typed as Hl.
  assert (Hcz : zlen cut = n) by (unfold cut, zlen, TIDE_HEADER_SIZE in *; rewrite length_take; lia).
  destruct (cut_recording bytes n _ qw Hl ltac:(lia) Hn Hqw) as (st & q & v & Hq & Hst & Hv & Hvn & Hpre & Hagain). fold cut in Hq, Hagain.
  assert (Hr : readable_status_of st = true) by (destruct Hst as [-> | ->]; reflexivity).
  exists st, q. split; [exact Hq|]. split; [exact Hr|]. split; [exact Hpre|]. intros Hfit.
  destruct (repair_cmd_spec (readable cut) output [] [] s hs) as (st1 & lines & contents & s' & Hrun & Hb' & Hok & Hgood);
    [cbn; lia|exact Hw|exact Hb|]. rewrite readable_bytes, readable_status in *.
  assert (st1 = TIDE_STATUS_OK) as ->.
  { apply (Hgood Hh eq_refl st q v TIDE_STATUS_OK q Hq Hr Hv); [unfold TIDE_HEADER_SIZE in *; lia|exact Hagain|reflexivity|exact Hfit]. }
  destruct (Hok eq_refl) as (st1 & q1 & v1 & st2 & q2 & -> & Hvz & Hq1 & Hv1 & Hq2 & Hc). rewrite Hq in Hq1. injection Hq1 as <- <-.
  rewrite Hv in Hv1. injection Hv1 as <-. rewrite Hagain in Hq2. injection Hq2 as <- <-.
  exists v, contents, s'. split; [exact Hrun|]. split; [exact Hb'|].
  destruct (repaired_recording _ _ _ _ _ _ Hagain Hvz Hc) as (q' & Hq' & Hs & _). destruct Hc as [-> Hroom].
  destruct (inspect_cmd_spec (readable (repaired_file output (ps_user q))) [] s2 hs2) as (st3 & lines & s3 & Hins & Hb3 & Hok3 & Hst3);
    [exact (room_default _ (proj2 (proj2 Hroom)))|exact Hb2|]. rewrite readable_status, readable_bytes in *.
  destruct (Hst3 Hh2) as (q3 & Hq3 & _). rewrite Hq' in Hq3. injection Hq3 as <- <-.
  destruct (Hok3 eq_refl) as (_ & q3 & Hq3 & ->). rewrite Hq' in Hq3. injection Hq3 as <-. rewrite Hs in Hins. eauto.
Qed.

(** ** main *)

(** The command lines that [usage] lists. *)
Definition command_line (argv : list string) : bool :=
  match argv with
  | [_; cmd; _] => (cmd =? "inspect")%string || (cmd =? "demux")%string || (cmd =? "index")%string
  | [_; cmd; _; _] => (cmd =? "remux")%string || (cmd =? "repair")%string
  | _ => false
  end.

Definition on_stdout (line : printed) : Prop := match line with Stdout _ => True | Stderr _ => False end.

Lemma summary_stdout st infos : Forall on_stdout (summary st infos).
Proof. repeat constructor. rewrite Forall_map. apply Forall_true. intros x. exact I. Qed.

Definition files_small (fs : file_system) : Prop :=
  (forall p, in_tell (fs_input fs p) < 2 ^ 56) /\ (forall p, writable (fs_output fs p)).

(** How a command ends. *)
Definition ends_well (r : outcome command_result) (hs : list lease_ptr) : Prop :=
  exists code lines contents s', r = Done (code, lines, contents, s') /\ balanced s' hs /\ code ∈ exit_codes /\
    (code = 0 -> Forall on_stdout lines).

Lemma inspect_ends input hp s hs : in_tell input < 2 ^ 56 -> balanced s hs -> ends_well (inspect_cmd (Some input) hp s) hs.
Proof.
  intros Hm Hb. destruct (inspect_cmd_spec input hp s hs Hm Hb) as (st & lines & s' & Hrun & Hb' & Hok & _).
  exists (status_to_exit st), lines, [], s'. split; [exact Hrun|]. split; [exact Hb'|]. split; [apply exit_code_listed|]. rewrite exit_ok.
  intros ->. destruct (Hok eq_refl) as (_ & q & _ & ->). apply summary_stdout.
Qed.

Lemma remux_ends input output hp s hs : in_tell input < 2 ^ 56 -> writable output -> balanced s hs ->
  ends_well (remux_cmd (Some input) (Some output) hp s) hs.
Proof.
  intros Hm Hw Hb. destruct (remux_cmd_spec input output hp s hs Hm Hw Hb) as (st & lines & contents & s' & Hrun & Hb' & Hok & _).
  exists (status_to_exit st), lines, contents, s'. split; [exact Hrun|]. split; [exact Hb'|]. split; [apply exit_code_listed|]. rewrite exit_ok.
  intros ->. destruct (Hok eq_refl) as (-> & _). constructor.
Qed.

Lemma repair_ends input output hp1 hp2 s hs : in_tell input < 2 ^ 56 -> writable output -> balanced s hs ->
  ends_well (repair_cmd (Some input) (Some output) hp1 hp2 s) hs.
Proof.
  intros Hm Hw Hb. destruct (repair_cmd_spec input output hp1 hp2 s hs Hm Hw Hb) as (st & lines & contents & s' & Hrun & Hb' & Hok & _).
  exists (status_to_exit st), lines, contents, s'. split; [exact Hrun|]. split; [exact Hb'|]. split; [apply exit_code_listed|]. rewrite exit_ok.
  intros ->. destruct (Hok eq_refl) as (st1 & q & v & st2 & q2 & -> & _). repeat constructor.
Qed.

(** C8: the program always ends: for every command line, files below 2^56 bytes
    and answers of the allocator, [main] is defined, leaves no lease behind and
    exits with a code the documentation lists; with 0 it printed nothing on the
    error output.  Anything but the listed command lines prints the usage, exits
    with 2 and touches nothing. *)
Theorem main_defined (argv : list string) (fs : file_system) (hp1 hp2 : heap) (s : lease_store) (hs : list lease_ptr) :
  files_small fs -> balanced s hs ->
  ends_well (main argv fs hp1 hp2 s) hs /\
  (command_line argv = false -> main argv fs hp1 hp2 s = Done (2, usage, [], s)).
Proof.
  intros [Hi Ho] Hb. assert (Husage : ends_well (Done (2, usage, [], s)) hs).
  { exists 2, usage, [], s. split; [reflexivity|]. split; [exact Hb|]. split; [unfold exit_codes; set_solver|discriminate]. }
  destruct argv as [|a [|cmd [|x [|y [|z rest]]]]]; try (split; [exact Husage|reflexivity]).
  - unfold main, command_line. cbn -[inspect_cmd remux_cmd repair_cmd String.eqb]. rewrite !andb_true_r, !andb_false_r.
    repeat match goal with |- context [(?a =? ?b)%string] => destruct (a =? b)%string end; cbn [orb]; (split; [|discriminate || reflexivity]);
      first [apply inspect_ends; auto|exact Husage].
  - unfold main, command_line. cbn -[inspect_cmd remux_cmd repair_cmd String.eqb]. rewrite !andb_true_r, !andb_false_r.
    repeat match goal with |- context [(?a =? ?b)%string] => destruct (a =? b)%string end; cbn [orb]; (split; [|discriminate || reflexivity]);
      first [apply remux_ends; auto|apply repair_ends; auto|exact Husage].
  - assert (E : main (a :: cmd :: x :: y :: z :: rest) fs hp1 hp2 s = Done (2, usage, [], s)).
    { unfold main. assert (Hz : zlen (a :: cmd :: x :: y :: z :: rest) = zlen rest + 5) by (unfold zlen; cbn [length]; lia). pose proof (zlen_nonneg rest).
      rewrite Hz, (proj2 (Z.ltb_ge _ _)), (proj2 (Z.eqb_neq _ 3)), (proj2 (Z.eqb_neq _ 4)), !andb_false_r by lia. reflexivity. }
    rewrite E. split; [exact Husage|reflexivity].
Qed.

(** ** Witnesses: the sample file *)

Lemma good_file_writable : writable good_file.
Proof. intros n Hn. exact (conj Hn (Z.le_refl n)). Qed.

Definition sample_files : file_system := mk_files (fun _ => readable sample_file) (fun _ => good_file).

Lemma sample_files_small : files_small sample_files.
Proof. split; intros p; [vm_compute; reflexivity|apply good_file_writable]. Qed.

Lemma remux_cmd_correct_witness :
  exists contents s' q', remux_cmd (Some (readable sample_file)) (Some good_file) [] client_store = Done (0, [], contents, s') /\
    balanced s' [4%positive] /\ recording (source_of contents) tide_limits_default [] = Done (TIDE_STATUS_OK, q') /\
    length (streams (ps_user q')) = 1%nat /\ length (packets (ps_user q')) = 1%nat.
Proof.
  destruct (remux_cmd_correct (readable sample_file) good_file [] client_store [4%positive] eq_refl good_file_writable client_store_balanced)
    as (code & lines & contents & s' & Hrun & Hb & Hok & _).
  assert (code = 0) as -> by (assert (H := Hrun); vm_compute in H; injection H as <- _ _ _; reflexivity).
  destruct (Hok eq_refl) as (-> & q & q' & Hq & _ & Hq' & Hs & Hp). exists contents, s', q'. split; [exact Hrun|]. split; [exact Hb|].
  split; [exact Hq'|]. rewrite Hs, Hp. vm_compute in Hq. injection Hq as <-. split; reflexivity.
Defined.

Lemma remux_cmd_idempotent_witness :
  exists contents s1 lines s', remux_cmd (Some (readable sample_file)) (Some good_file) [] client_store = Done (0, [], contents, s1) /\
    remux_cmd (Some (readable contents)) (Some good_file) [] client_store = Done (0, lines, contents, s').
Proof.
  destruct (remux_cmd (Some (readable sample_file)) (Some good_file) [] client_store) as [[[[code lines] contents] s1]| |] eqn:E;
    [|exfalso; vm_compute in E; discriminate E..].
  assert (code = 0 /\ lines = []) as [-> ->] by (assert (H := E); vm_compute in H; injection H as <- <- _ _; split; reflexivity).
  destruct (remux_cmd_idempotent (readable sample_file) good_file good_file [] client_store s1 client_store [4%positive] [4%positive] [] contents
    eq_refl good_file_writable good_file_writable client_store_balanced client_store_balanced E) as (code & lines' & contents' & s' & Hrun & _ & Hsame & Hok).
  assert (code = 0) as -> by (apply Hok; repeat split). rewrite (Hsame eq_refl) in Hrun. exists contents, s1, lines', s'. auto.
Defined.

Lemma inspect_cmd_correct_witness :
  exists s', inspect_cmd (Some (readable sample_file)) [] client_store =
    Done (0, [Stdout "status=OK"; Stdout "streams=1"; Stdout "stream track=1 generation=0 time_base=1/1000 codec=97"], [], s') /\
    balanced s' [4%positive].
Proof.
  destruct (inspect_cmd_correct (readable sample_file) [] client_store [4%positive] eq_refl client_store_balanced)
    as (code & lines & s' & Hrun & Hb & Hok & _).
  assert (code = 0) as -> by (assert (H := Hrun); vm_compute in H; injection H as <- _ _; reflexivity).
  destruct (Hok (or_introl eq_refl)) as (st & q & Hc & Hq & ->). exists s'. split; [|exact Hb]. rewrite Hrun.
  vm_compute in Hq. injection Hq as <- <-. reflexivity.
Defined.

Lemma repair_cmd_restores_witness :
  exists v contents s' s2', repair_cmd (Some (readable cut_file)) (Some good_file) [] [] client_store = Done (0, [prefix_line v], contents, s') /\
    inspect_cmd (Some (readable contents)) [] client_store =
      Done (0, [Stdout "status=OK"; Stdout "streams=1"; Stdout "stream track=1 generation=0 time_base=1/1000 codec=97"], [], s2').
Proof.
  destruct (recording (source_of sample_file) tide_limits_default []) as [[st0 qw]| |] eqn:Ew; [|exfalso; vm_compute in Ew; discriminate Ew..].
  assert (st0 = TIDE_STATUS_OK) as -> by (assert (H := Ew); vm_compute in H; injection H as <- _; reflexivity).
  destruct (repair_cmd_restores sample_file 200 qw good_file client_store client_store [4%positive] [4%positive] eq_refl ltac:(split; discriminate) Ew
    good_file_writable client_store_balanced eq_refl client_store_balanced eq_refl) as (st & q & Hq & _ & _ & Hgood).
  change (take (Z.to_nat 200) sample_file) with cut_file in *.
  assert (Hlog : ps_user q = cut_log) by (unfold cut_log; rewrite Hq; reflexivity). rewrite Hlog in Hgood.
  destruct (Hgood cut_repair_fits) as (v & contents & s' & Hrun & _ & s2' & Hins & _). exists v, contents, s', s2'. split; [exact Hrun|].
  rewrite Hins. vm_compute. reflexivity.
Defined.

Lemma main_defined_witness :
  ends_well (main ["tide"; "remux"; "a"; "b"] sample_files [] [] client_store) [4%positive] /\
  main ["tide"; "remux"; "a"] sample_files [] [] client_store = Done (2, usage, [], client_store).
Proof.
  split.
  - apply (main_defined ["tide"; "remux"; "a"; "b"] sample_files [] [] client_store [4%positive] sample_files_small client_store_balanced).
  - apply (main_defined ["tide"; "remux"; "a"] sample_files [] [] client_store [4%positive] sample_files_small client_store_balanced). reflexivity.
Defined.
