(* ===== verification/FuzzRemux.v ===== *)
(** * The remux harness

    [src/fuzz/fuzz_demux_remux.c]: demuxes any bytes, muxes what comes out into a
    file, demuxes that file, and calls [abort] when the two demuxers differ in
    the number of their streams or packets. *)

From S2P Require Import Prelude Status Checked Buffer Crc Reader Rational Model Lease Packet Frame Validate Header Decoder Parse ParseRule ParseSplit Samples Delivery Replay Source Writer RoundTrip Mux MuxSpec MuxFile Demux DemuxSpec DemuxRun MuxDemux Repair RepairSpec RepairRun Cli CliRun Harness.

(** The loop over the streams; it is left when one fails. *)
Fixpoint roundtrip_streams (n : nat) (i : Z) (status : tide_status) (demux : option tide_demux) (mux : option tide_mux) (h : heap)
    : outcome (tide_status * option tide_mux * heap) :=
  match n with
  | O => Done (status, mux, h)
  | S n =>
    '(status, stream) ← tide_demux_stream_info demux i (Some stream_local);
    '(status, mux, h) ← (if bool_decide (status = TIDE_STATUS_OK) then tide_mux_add_stream mux stream h
                         else Done (status, mux, h));
    if negb (bool_decide (status = TIDE_STATUS_OK)) then Done (status, mux, h)
    else roundtrip_streams n (i +u 1) status demux mux h
  end.

(** The [while] loop; its guard is tested once more than packets are read. *)
Fixpoint roundtrip_packets (fuel : nat) (status : tide_status) (demux : option tide_demux) (mux : option tide_mux) (input_packets : Z)
    (s : lease_store) : outcome (tide_status * option tide_demux * option tide_mux * Z * lease_store) :=
  match fuel with
  | O => NoFuel
  | S fuel =>
    if negb (bool_decide (status = TIDE_STATUS_OK)) then Done (status, demux, mux, input_packets, s)
    else
      let packet := tide_packet_ref_init (Some zero_packet) in
      '(status, demux, packet, s) ← tide_demux_next demux packet s;
      if bool_decide (status = TIDE_STATUS_WOULD_BLOCK) then Done (TIDE_STATUS_OK, demux, mux, input_packets, s)
      else
        '(status, mux, packet, input_packets, s) ←
          (if bool_decide (status = TIDE_STATUS_OK) then
             '(status, mux, packet, s) ← tide_mux_write_packet mux packet s;
             Done (status, mux, packet, input_packets +u 1, s)
           else Done (status, mux, packet, input_packets, s));
        '(_, s) ← tide_packet_ref_reset packet s;
        roundtrip_packets fuel status demux mux input_packets s
  end.

(** From the creation of the muxer to its closing. *)
Definition roundtrip_write (path : option output_file) (demux : option tide_demux) (s : lease_store)
    : outcome (tide_status * option tide_demux * list byte * Z * lease_store) :=
  '(status, mux, h) ← tide_mux_create (Some None) path None (st_heap s);
  mux ← deref mux;
  '(status, mux, h) ← (if bool_decide (status = TIDE_STATUS_OK)
                       then roundtrip_streams (Z.to_nat (tide_demux_stream_count demux)) 0 status demux mux h
                       else Done (status, mux, h));
  '(status, demux, mux, input_packets, s) ← roundtrip_packets (S (packet_fuel demux)) status demux mux 0 (set_heap h s);
  '(status, bytes, h) ←
    match mux with
    | None => Done (status, [], st_heap s)
    | Some _ =>
      '(close_status, bytes, h) ← tide_mux_close mux (st_heap s);
      Done (if bool_decide (status = TIDE_STATUS_OK) then close_status else status, bytes, h)
    end;
  Done (status, demux, bytes, input_packets, set_heap h s).

(** The [for] loop over the packets of the file written. *)
Fixpoint count_packets (fuel : nat) (demux : option tide_demux) (output_packets : Z) (s : lease_store)
    : outcome (tide_status * option tide_demux * Z * lease_store) :=
  match fuel with
  | O => NoFuel
  | S fuel =>
    let packet := tide_packet_ref_init (Some zero_packet) in
    '(status, demux, packet, s) ← tide_demux_next demux packet s;
    if bool_decide (status = TIDE_STATUS_WOULD_BLOCK) then Done (TIDE_STATUS_OK, demux, output_packets, s)
    else if negb (bool_decide (status = TIDE_STATUS_OK)) then Done (status, demux, output_packets, s)
    else
      '(_, s) ← tide_packet_ref_reset packet s;
      count_packets fuel demux (output_packets +u 1) s
  end.

(** The comparison; with the second demuxer, to be closed. *)
Definition roundtrip_compare (status : tide_status) (demux : option tide_demux) (input_packets : Z) (path : option input_file)
    (hp : heap) (s : lease_store) : aborting (option tide_demux * option tide_source * lease_store) :=
  if negb (bool_decide (status = TIDE_STATUS_OK)) then mret (None, None, s)
  else
    '(status, roundtrip_source, h) ← calling (tide_source_from_file (Some None) path (st_heap s));
    roundtrip_source ← calling (deref roundtrip_source);
    let s := set_heap h s in
    if negb (bool_decide (status = TIDE_STATUS_OK)) then mret (None, roundtrip_source, s)
    else
      '(status, roundtrip_demux, s) ← calling (tide_demux_open (Some None) roundtrip_source None hp s);
      roundtrip_demux ← calling (deref roundtrip_demux);
      if negb (bool_decide (status = TIDE_STATUS_OK)) then mret (roundtrip_demux, roundtrip_source, s)
      else if negb (tide_demux_stream_count roundtrip_demux =? tide_demux_stream_count demux) then c_abort
      else
        '(status, roundtrip_demux, output_packets, s) ← calling (count_packets (packet_fuel roundtrip_demux) roundtrip_demux 0 s);
        if bool_decide (status = TIDE_STATUS_OK) && negb (output_packets =? input_packets) then c_abort
        else mret (roundtrip_demux, roundtrip_source, s).

(** [path] answers the writes to [fuzz_roundtrip.tide] and [reopen] reads it,
    given what was written; [hp1] and [hp2] are the allocator's answers to the
    two parsers. *)
Definition run_one (data : option (list byte)) (size : Z) (path : output_file) (reopen : list byte -> input_file)
    (hp1 hp2 : heap) (s : lease_store) : aborting (Z * lease_store) :=
  '(status, source, h) ← calling (tide_source_from_memory (Some None) data size (st_heap s));
  let s := set_heap h s in
  if negb (bool_decide (status = TIDE_STATUS_OK)) then mret (0, s)
  else
    source ← calling (deref source);
    '(status, demux, s) ← calling (tide_demux_open (Some None) source None hp1 s);
    if negb (bool_decide (status = TIDE_STATUS_OK)) then
      let _ := tide_source_destroy source in
      mret (0, s)
    else
      demux ← calling (deref demux);
      '(status, demux, bytes, input_packets, s) ← calling (roundtrip_write (Some path) demux s);
      '(roundtrip_demux, roundtrip_source, s) ← roundtrip_compare status demux input_packets (Some (reopen bytes)) hp2 s;
      s ← calling (tide_demux_close roundtrip_demux s);
      let _ := tide_source_destroy roundtrip_source in
      s ← calling (tide_demux_close demux s);
      let _ := tide_source_destroy source in
      mret (0, s).

Definition LLVMFuzzerTestOneInput (data : option (list byte)) (size : Z) (path : output_file) (reopen : list byte -> input_file)
    (hp1 hp2 : heap) (s : lease_store) : aborting (Z * lease_store) := run_one data size path reopen hp1 hp2 s.

Definition main (path : output_file) (reopen : list byte -> input_file) (hp1 hp2 : heap) (s : lease_store) : aborting (Z * lease_store) :=
  run_one (Some [x00]) 1 path reopen hp1 hp2 s.

Example fuzz_remux_sample : exists s, run_one (Some sample_file) 212 good_file readable [] [] (empty_store []) = Done (Some (0, s)) /\ st_leases s = ∅.
Proof. eexists. split; vm_compute; reflexivity. Qed.

(** A descriptor that the second parser drops for want of memory, and still
    answers [OK], looks like a difference. *)
Example fuzz_remux_aborts_without_memory :
  run_one (Some (sample_header ++ sample_stream_record)) (zlen (sample_header ++ sample_stream_record)) good_file readable [] [false] (empty_store []) = Done None.
Proof. vm_compute. reflexivity. Qed.

(** ** The loops *)

Lemma roundtrip_streams_remux n demux : forall i status mux h,
  roundtrip_streams n i status demux mux h = remux_streams n i status demux mux h.
Proof.
  induction n as [|n IH]; intros i status mux h; [reflexivity|]. cbn [roundtrip_streams remux_streams].
  destruct (tide_demux_stream_info _ _ _) as [[st stream]| |]; [|reflexivity..]. rewrite !bind_done. cbv beta iota.
  destruct (if bool_decide _ then _ else _) as [[[st1 mux1] h1]| |]; [|reflexivity..]. rewrite !bind_done. cbv beta iota.
  destruct (negb _); [reflexivity|apply IH].
Qed.

(** Reading moves the cursor, or is at the end. *)
Lemma next_cursor d out s st demux' out' s' : 0 <= dx_cursor d -> dx_packet_count d < 2 ^ 62 ->
  tide_demux_next (Some d) (Some out) s = Done (st, demux', out', s') ->
  (st = TIDE_STATUS_WOULD_BLOCK /\ demux' = Some d /\ s' = s /\ dx_packet_count d <= dx_cursor d) \/
  (st = TIDE_STATUS_OK /\ exists d', demux' = Some d' /\ dx_cursor d' = dx_cursor d + 1 /\ dx_packet_count d' = dx_packet_count d /\
     dx_cursor d < dx_packet_count d).
Proof.
  intros H0 Hn. unfold tide_demux_next. rewrite Z.geb_leb. destruct (Z.leb_spec (dx_packet_count d) (dx_cursor d)) as [|Hlt].
  { intros [= <- <- _ <-]. auto. }
  intros E. apply bind_Done_inv in E as (packet & _ & E). apply bind_Done_inv in E as ([[[st1 out1] packet1] s1] & Hmove & E).
  apply bind_Done_inv in E as (p & _ & E). apply bind_Done_inv in E as (cells & _ & E). injection E as <- <- _ _.
  unfold tide_packet_ref_move in Hmove. cbn [is_null orb] in Hmove. apply bind_Done_inv in Hmove as ([o s2] & _ & E).
  apply bind_Done_inv in E as (from & _ & E). apply bind_Done_inv in E as (to & _ & E). injection E as <- _ _ _.
  right. split; [reflexivity|]. eexists. split; [reflexivity|]. cbn [dx_cursor dx_packet_count set_packets].
  rewrite wrap64_small by zlia. auto.
Qed.

(** The packets counted are those the cursor passed; with [OK] none is left. *)
Lemma roundtrip_packets_remux fuel : forall status d mux n s st demux' mux' s',
  0 <= n <= dx_cursor d -> dx_cursor d <= dx_packet_count d < 2 ^ 62 ->
  remux_packets fuel status (Some d) mux s = Done (st, demux', mux', s') ->
  exists d', demux' = Some d' /\
    roundtrip_packets fuel status (Some d) mux n s = Done (st, demux', mux', n + (dx_cursor d' - dx_cursor d), s') /\
    dx_packet_count d' = dx_packet_count d /\ (st = TIDE_STATUS_OK -> dx_cursor d' = dx_packet_count d).
Proof.
  induction fuel as [|fuel IH]; intros status d mux n s st demux' mux' s' Hn Hc; [discriminate|]. cbn [remux_packets roundtrip_packets].
  destruct (bool_decide_reflect (status = TIDE_STATUS_OK)) as [->|Hne]; cbn [negb].
  2: { intros [= <- <- <- <-]. exists d. rewrite Z.sub_diag, Z.add_0_r. repeat split. contradiction. }
  cbv zeta. cbn [tide_packet_ref_init option_map]. intros E. apply bind_Done_inv in E as ([[[st1 demux1] out] s1] & Hnext & E).
  rewrite Hnext, bind_done. cbv beta iota. apply next_cursor in Hnext as [(-> & -> & -> & Hend)|(-> & d1 & -> & Hc1 & Hn1 & Hlt)]; [..|lia|lia].
  { rewrite bool_decide_eq_true_2 in E |- * by reflexivity. injection E as <- <- <- <-. exists d. rewrite Z.sub_diag, Z.add_0_r. repeat split. lia. }
  rewrite (bool_decide_eq_false_2 (TIDE_STATUS_OK = TIDE_STATUS_WOULD_BLOCK)) in E |- * by discriminate.
  rewrite bool_decide_eq_true_2 in E |- * by reflexivity.
  apply bind_Done_inv in E as ([[[st2 mux2] out2] s2] & Hw & E). rewrite Hw, !bind_done. cbv beta iota.
  apply bind_Done_inv in E as ([out3 s3] & Hr & E). rewrite Hr, bind_done. cbv beta iota. rewrite wrap64_small by zlia.
  destruct (IH st2 d1 mux2 (n + 1) s3 st demux' mux' s' ltac:(lia) ltac:(lia) E) as (d' & -> & Hrun & Hn' & Hok).
  exists d'. split; [reflexivity|]. rewrite Hrun. split; [do 3 f_equal; lia|]. split; [lia|]. intros Est. rewrite (Hok Est). lia.
Qed.

Lemma count_packets_spec pending : forall d s infos hs fuel n, opened d s infos pending hs -> (length pending < fuel)%nat ->
  0 <= n -> n + zlen pending < 2 ^ 62 ->
  exists d' s', count_packets fuel (Some d) n s = Done (TIDE_STATUS_OK, Some d', n + zlen pending, s') /\ opened d' s' infos [] hs.
Proof.
  induction pending as [|r pending IH]; intros d s infos hs fuel n Hop Hf Hn Hz; (destruct fuel as [|fuel]; [cbn in Hf; lia|]);
    cbn [count_packets tide_packet_ref_init option_map].
  { rewrite (next_none d infos s hs _ Hop), bind_done. cbv beta iota. rewrite bool_decide_eq_true_2 by reflexivity.
    exists d, s. split; [do 3 f_equal; unfold zlen; cbn [length]; lia|exact Hop]. }
  assert (Hl : zlen (r :: pending) = zlen pending + 1) by (unfold zlen; cbn [length]; lia). pose proof (zlen_nonneg pending).
  destruct (next_reset_spec d infos r pending s hs Hop) as (d1 & s1 & -> & Hreset & Hop1). rewrite bind_done. cbv beta iota.
  rewrite bool_decide_eq_false_2 by discriminate. rewrite bool_decide_eq_true_2 by reflexivity. cbn [negb].
  rewrite Hreset, bind_done. cbv beta iota. rewrite (wrap64_small (n + 1)) by zlia.
  destruct (IH d1 s1 infos hs fuel (n + 1) Hop1) as (d' & s' & -> & Hop'); [cbn in Hf; lia|lia|lia|].
  exists d', s'. split; [do 3 f_equal; lia|exact Hop'].
Qed.

(** ** Writing and comparing *)

Lemma roundtrip_write_remux path d s st demux' bytes s' :
  0 <= dx_cursor d <= dx_packet_count d -> dx_packet_count d < 2 ^ 62 ->
  remux_write TIDE_STATUS_OK path (Some d) s = Done (st, demux', bytes, s') ->
  exists d', demux' = Some d' /\ roundtrip_write path (Some d) s = Done (st, demux', bytes, dx_cursor d' - dx_cursor d, s') /\
    (st = TIDE_STATUS_OK -> dx_cursor d' = dx_packet_count d).
Proof.
  intros Hc Hn. unfold remux_write, roundtrip_write. rewrite bool_decide_eq_true_2 by reflexivity.
  change (tide_mux_create (Some None) path (Some cli_mux_options)) with (tide_mux_create (Some None) path None).
  intros E. apply bind_Done_inv in E as ([[st1 mux1] h1] & -> & E). rewrite bind_done. cbv beta iota.
  apply bind_Done_inv in E as (mux & -> & E). rewrite bind_done.
  apply bind_Done_inv in E as ([[st2 mux2] h2] & Hs & E). rewrite roundtrip_streams_remux, Hs, bind_done. cbv beta iota.
  apply bind_Done_inv in E as ([[[st3 demux3] mux3] s3] & Hp & E).
  destruct (roundtrip_packets_remux _ _ d _ 0 _ _ _ _ _ ltac:(lia) ltac:(lia) Hp) as (d' & -> & Hp' & _ & Hok).
  rewrite Hp', bind_done. cbv beta iota.
  apply bind_Done_inv in E as ([[st4 bytes4] h4] & Hcl & E). injection E as <- <- <- <-. exists d'. split; [reflexivity|].
  unfold remux_close in Hcl. rewrite Hcl, bind_done. split; [reflexivity|]. intros ->. apply Hok.
  destruct mux3; [|injection Hcl as -> _ _; reflexivity]. apply bind_Done_inv in Hcl as ([[st5 b5] h5] & _ & E). injection E as E _ _.
  destruct (bool_decide_reflect (st3 = TIDE_STATUS_OK)); [assumption|congruence].
Qed.

(** Reading back gives what was written, or fails. *)
Definition faithful (reopen : list byte -> input_file) : Prop :=
  forall bytes, file_status (reopen bytes) = TIDE_STATUS_OK -> file_bytes (reopen bytes) = bytes.

(** What the comparison needs: the file decodes to [n] streams and [k] packets. *)
Definition decodes_as (bytes : list byte) (n k : Z) : Prop :=
  zlen bytes < 2 ^ 56 /\ exists q, recording (source_of bytes) tide_limits_default [] = Done (TIDE_STATUS_OK, q) /\
    zlen (streams (ps_user q)) = n /\ zlen (packets (ps_user q)) = k.

Lemma compare_spec status demux bytes reopen k s hs : faithful reopen ->
  (status = TIDE_STATUS_OK -> decodes_as bytes (tide_demux_stream_count demux) k) -> balanced s hs ->
  exists d2 src s', roundtrip_compare status demux k (Some (reopen bytes)) [] s = Done (Some (d2, src, s')) /\
    match d2 with None => balanced s' hs | Some d => exists infos, opened d s' infos [] hs end.
Proof.
  intros Hre Hdec Hb. unfold roundtrip_compare. destruct (bool_decide_reflect (status = TIDE_STATUS_OK)) as [->|]; cbn [negb].
  2: { eexists None, _, s. split; [reflexivity|exact Hb]. }
  destruct (Hdec eq_refl) as (Hz & q & Hq & Hn & Hk).
  destruct (from_file_spec None (reopen bytes) (st_heap s)) as (st1 & r & h1 & -> & Hr & _). rewrite calling_done. cbn [deref]. rewrite calling_done.
  destruct r as [src|].
  2: { rewrite bool_decide_eq_false_2 by (destruct Hr as [-> | ->]; discriminate). cbn [negb]. eexists None, _, _. split; [reflexivity|exact Hb]. }
  destruct Hr as (-> & Hst & -> & _). rewrite bool_decide_eq_true_2 by reflexivity. cbn [negb]. rewrite (Hre bytes Hst) in *.
  destruct (demux_open_spec None _ _ None [] (set_heap h1 s) hs (source_of_wf bytes) Hz I Hb) as (st & r & s2 & -> & Hr & _).
  rewrite calling_done. cbn [deref]. rewrite calling_done. change (demux_limits None) with tide_limits_default in Hr.
  destruct r as [d|].
  2: { destruct Hr as [Ho Hb2]. rewrite bool_decide_eq_false_2 by (intros ->; discriminate Ho). cbn [negb]. eexists None, _, s2. split; [reflexivity|exact Hb2]. }
  destruct Hr as (Ho & q' & pending & Hq' & Hop & Hcar & _). rewrite Hq in Hq'. injection Hq' as <- <-.
  rewrite bool_decide_eq_true_2 by reflexivity. cbn [negb]. pose proof Hop as ((_ & _ & Hcount & _) & Hp & _).
  rewrite zlen_map in Hcount. unfold tide_demux_stream_count at 1. rewrite Hcount, Hn, Z.eqb_refl. cbn [negb].
  change (selected_track None) with 0 in Hcar. rewrite wanted_all in Hcar. apply zlen_same in Hcar.
  destruct (packets_bound d pending Hp) as (H1 & H2 & H3 & ->).
  destruct (count_packets_spec pending d s2 _ hs (S (length pending)) 0 Hop ltac:(lia) ltac:(lia) ltac:(lia)) as (d' & s' & -> & Hop').
  rewrite calling_done, bool_decide_eq_true_2 by reflexivity. rewrite <- Hcar, Hk, Z.eqb_refl. cbn [negb andb].
  eexists (Some d'), _, s'. split; [reflexivity|]. eexists. exact Hop'.
Qed.

(** From the first demuxer on. *)
Lemma write_compare_spec path d s hs bytes hp q pending reopen : writable path -> faithful reopen -> zlen bytes < 2 ^ 56 ->
  opened d s (map stored_stream (streams (ps_user q))) pending hs -> Forall2 carries (packets (ps_user q)) pending ->
  recording (source_of bytes) tide_limits_default hp = Done (TIDE_STATUS_OK, q) ->
  exists st d' contents n s1 pending' d2 src s2,
    roundtrip_write (Some path) (Some d) s = Done (st, Some d', contents, n, s1) /\
    opened d' s1 (map stored_stream (streams (ps_user q))) pending' hs /\
    roundtrip_compare st (Some d') n (Some (reopen contents)) [] s1 = Done (Some (d2, src, s2)) /\
    (match d2 with None => balanced s2 (held_by pending' ++ hs) | Some d2 => exists infos, opened d2 s2 infos [] (held_by pending' ++ hs) end).
Proof.
  intros Hw Hre Hm Hop Hcar Hq.
  destruct (demuxed_session path d s hs _ hp _ q pending Hop Hcar Hq Hm Hw) as (Hi & Hn & st & c & s1 & Hrun & Hok & _).
  destruct (remux_write_spec path d s _ pending hs Hop Hi Hn Hw) as (st' & c' & s1' & contents & d' & pending' & s2 & Hrun' & Hwr & Hop' & Hsame).
  rewrite Hrun in Hrun'. injection Hrun' as <- <- <-. destruct (packets_bound d pending ltac:(apply Hop)) as (B1 & B2 & B3 & _).
  destruct (roundtrip_write_remux _ d s _ _ _ _ B1 ltac:(lia) Hwr) as (d'' & [= <-] & Hrw & Hend).
  destruct (compare_spec st (Some d') contents reopen (dx_cursor d' - dx_cursor d) s2 (held_by pending' ++ hs) Hre) as (d2 & src & s3 & Hcmp & Hd2).
  - intros ->. rewrite (Hsame eq_refl). specialize (Hok eq_refl). destruct (repaired_recording _ _ _ _ _ _ Hq Hm Hok) as (q' & Hq' & E1 & E2).
    destruct Hok as [-> Hfit]. split; [exact (room_default _ (proj2 (proj2 Hfit)))|]. exists q'. split; [exact Hq'|].
    rewrite E1, E2. destruct Hop' as ((_ & _ & Hcount & _) & _). unfold tide_demux_stream_count. rewrite Hcount, zlen_map. split; [reflexivity|].
    rewrite (zlen_same _ _ _ Hcar), B3, (Hend eq_refl). reflexivity.
  - apply Hop'.
  - exists st, d', contents, (dx_cursor d' - dx_cursor d), s2, pending', d2, src, s3. auto.
Qed.

(** C30: take a file that, if it can be read again, reads back as it was written,
    and memory for the second parse.  Then on every input below 64 PiB, whatever
    the allocator answers the library and the first parse, and wherever writing the file fails, the remux
    harness returns 0, without abort, and with every lease released: what the demuxer gives, muxed and
    demuxed again, has as many streams and packets.  The assumption on
    memory is needed: a second parse that drops a descriptor for
    want of memory and still answers [OK] is taken for a difference
    ([fuzz_remux_aborts_without_memory]). *)
Theorem remux_harness_passes (data : list byte) (path : output_file) (reopen : list byte -> input_file) (hp : heap)
    (s : lease_store) (hs : list lease_ptr) :
  zlen data < 2 ^ 56 -> writable path -> faithful reopen -> balanced s hs ->
  exists s', LLVMFuzzerTestOneInput (Some data) (zlen data) path reopen hp [] s = Done (Some (0, s')) /\ balanced s' hs.
Proof.
  intros Hm Hw Hre Hb. unfold LLVMFuzzerTestOneInput, run_one. pose proof (zlen_nonneg data).
  destruct (from_memory_spec None data (zlen data) (st_heap s) ltac:(lia)) as (st & r & h & -> & Hr & _). rewrite calling_done.
  destruct Hr as [[-> ->]|[-> _]]; [|eexists; split; [reflexivity|exact Hb]]. rewrite bool_decide_eq_true_2 by reflexivity. cbn [negb deref].
  rewrite calling_done, slice_full.
  destruct (demux_open_spec None _ _ None hp (set_heap h s) hs (source_of_wf data) Hm I Hb) as (st & r & s1 & -> & Hr & _).
  rewrite calling_done. destruct r as [d|].
  2: { destruct Hr as [Ho Hb1]. rewrite bool_decide_eq_false_2 by (intros ->; discriminate Ho). eexists. split; [reflexivity|exact Hb1]. }
  destruct Hr as (Ho & q & pending & Hq & Hop & Hcar & _). change (demux_limits None) with tide_limits_default in Hq.
  change (selected_track None) with 0 in Hcar. rewrite wanted_all in Hcar.
  assert (st = TIDE_STATUS_OK) as -> by (unfold opens in Ho; rewrite andb_false_r, orb_false_r in Ho; apply bool_decide_eq_true in Ho; exact Ho).
  rewrite bool_decide_eq_true_2 by reflexivity. cbn [negb deref]. rewrite calling_done.
  destruct (write_compare_spec path d s1 hs data hp q pending reopen Hw Hre Hm Hop Hcar Hq)
    as (st & d' & contents & n & s2 & pending' & d2 & src & s3 & -> & (_ & Hp' & _) & Hcmp & Hd2).
  rewrite calling_done, Hcmp, returned_bind.
  assert (Hclose : exists s4, tide_demux_close d2 s3 = Done s4 /\ balanced s4 (held_by pending' ++ hs)).
  { destruct d2 as [d2|]; [|eexists; split; [reflexivity|exact Hd2]]. destruct Hd2 as (infos & _ & Hp2 & Hown2).
    destruct (close_spec_demux d2 [] s3 _ Hp2 Hown2) as (s4 & H1 & H2 & _). eauto. }
  destruct Hclose as (s4 & -> & Hb4). rewrite calling_done.
  destruct (close_balanced d' pending' s4 hs Hp' Hb4) as (s5 & -> & Hb5 & _). rewrite calling_done. exists s5. split; [reflexivity|exact Hb5].
Qed.

Lemma readable_faithful : faithful readable.
Proof. intros bytes _. apply readable_bytes. Qed.

Lemma remux_harness_passes_witness :
  zlen sample_file < 2 ^ 56 /\
  exists s, LLVMFuzzerTestOneInput (Some sample_file) 212 good_file readable [true; true] [] client_store = Done (Some (0, s)) /\
    balanced s [4%positive].
Proof.
  split; [reflexivity|].
  exact (remux_harness_passes sample_file good_file readable [true; true] client_store [4%positive]
    eq_refl good_file_writable readable_faithful client_store_balanced).
Defined.
