(* ===== verification/Tools.v ===== *)
(** * The examples and the tools

    [src/examples/stream_demux.c], [src/examples/write_capture.c],
    [src/tools/tide_dump.c] and [src/tools/tide_index_dump.c]: small programs
    over the library, in the manner of [Cli].  Besides the store of leases they
    thread a ledger of the library's objects they hold: what was made for them and
    not given back. *)

From stdpp Require Import pretty.
From S2P Require Import Prelude Status Checked Buffer Crc Reader Rational Model Lease Packet Frame Validate Header Decoder Parse ParseRule ParseSplit Samples Delivery Replay Source Writer RoundTrip Mux MuxSpec MuxFile Demux DemuxSpec DemuxRun MuxDemux Repair RepairSpec RepairRun Cli CliRun.

(** ** The objects of a program *)

(** How many sources, demuxers and muxers were handed out and not freed. *)
Record objects : Set := mk_objects { sources : Z; demuxers : Z; muxers : Z }.
Definition no_objects : objects := mk_objects 0 0 0.

Definition add_sources (n : Z) (o : objects) : objects := mk_objects (sources o + n) (demuxers o) (muxers o).
Definition add_demuxers (n : Z) (o : objects) : objects := mk_objects (sources o) (demuxers o + n) (muxers o).
Definition add_muxers (n : Z) (o : objects) : objects := mk_objects (sources o) (demuxers o) (muxers o + n).

(** One object behind a pointer that is not null. *)
Definition one_if {A} (p : option A) : Z := match p with None => 0 | Some _ => 1 end.

(** The calls that make and free objects, with the ledger.  The pointer the program
    passes for the result is null before. *)
Definition source_from_file (path : input_file) (h : heap) (o : objects) : outcome (tide_status * option tide_source * heap * objects) :=
  '(status, source, h) ← tide_source_from_file (Some None) (Some path) h;
  source ← deref source;
  Done (status, source, h, add_sources (one_if source) o).
Definition source_destroy (source : option tide_source) (o : objects) : objects :=
  let _ := tide_source_destroy source in add_sources (- one_if source) o.

Definition demux_open (source : option tide_source) (hp : heap) (s : lease_store) (o : objects)
    : outcome (tide_status * option tide_demux * lease_store * objects) :=
  '(status, demux, s) ← tide_demux_open (Some None) source None hp s;
  demux ← deref demux;
  Done (status, demux, s, add_demuxers (one_if demux) o).
Definition demux_close (demux : option tide_demux) (s : lease_store) (o : objects) : outcome (lease_store * objects) :=
  s ← tide_demux_close demux s; Done (s, add_demuxers (- one_if demux) o).

Definition mux_create (path : output_file) (h : heap) (o : objects) : outcome (tide_status * option tide_mux * heap * objects) :=
  '(status, mux, h) ← tide_mux_create (Some None) (Some path) None h;
  mux ← deref mux;
  Done (status, mux, h, add_muxers (one_if mux) o).
Definition mux_abort (mux : option tide_mux) (o : objects) : objects :=
  let _ := tide_mux_abort mux in add_muxers (- one_if mux) o.
Definition mux_close (mux : option tide_mux) (h : heap) (o : objects) : outcome (tide_status * list byte * heap * objects) :=
  '(status, bytes, h) ← tide_mux_close mux h; Done (status, bytes, h, add_muxers (- one_if mux) o).

(** The file behind the one argument. *)
Definition argument (argv : list string) (files : string -> input_file) : input_file := files (default ""%string (argv !! 1%nat)).

(** The source and the demuxer the readers open; the demuxer is [None] unless
    both succeed. *)
Definition open_argument (path : input_file) (hp : heap) (s : lease_store) (o : objects)
    : outcome (tide_status * option tide_source * option tide_demux * lease_store * objects) :=
  '(status, source, h, o) ← source_from_file path (st_heap s) o;
  let s := set_heap h s in
  '(status, demux, s, o) ← (if bool_decide (status = TIDE_STATUS_OK) then demux_open source hp s o
                            else Done (status, None, s, o));
  Done (status, source, demux, s, o).

(** ** stream_demux.c *)

Definition packet_line (info : tide_packet_info) : printed :=
  Stdout ("track=" +:+ pretty (pk_track_id info) +:+ " seq=" +:+ pretty (pk_packet_seq info) +:+
          " payload=" +:+ pretty (pv_size (pk_payload info))).

(** The [while] loop, over one packet reference that is reset every time. *)
Fixpoint print_packets (fuel : nat) (demux : option tide_demux) (packet : option tide_packet_ref) (s : lease_store)
    : outcome (list printed * option tide_demux * lease_store) :=
  match fuel with
  | O => NoFuel
  | S fuel =>
    '(status, demux, packet, s) ← tide_demux_next demux packet s;
    if negb (bool_decide (status = TIDE_STATUS_OK)) then Done ([], demux, s)
    else
      read ← deref packet;
      '(packet, s) ← tide_packet_ref_reset packet s;
      '(lines, demux, s) ← print_packets fuel demux packet s;
      Done (packet_line (ref_info read) :: lines, demux, s)
  end.

Definition stream_demux_main (argv : list string) (files : string -> input_file) (hp : heap) (s : lease_store) (o : objects)
    : outcome (Z * list printed * lease_store * objects) :=
  if negb (zlen argv =? 2) then Done (2, [], s, o)
  else
    '(status, source, demux, s, o) ← open_argument (argument argv files) hp s o;
    if negb (bool_decide (status = TIDE_STATUS_OK)) then
      let o := source_destroy source o in
      Done (1, [Stderr (tide_status_string status)], s, o)
    else
      let packet := tide_packet_ref_init (Some zero_packet) in
      '(lines, demux, s) ← print_packets (packet_fuel demux) demux packet s;
      '(s, o) ← demux_close demux s o;
      let o := source_destroy source o in
      Done (0, lines, s, o).

(** ** tide_dump.c *)

Definition tide_dump_main (argv : list string) (files : string -> input_file) (hp : heap) (s : lease_store) (o : objects)
    : outcome (Z * list printed * lease_store * objects) :=
  if negb (zlen argv =? 2) then Done (2, [], s, o)
  else
    '(status, source, demux, s, o) ← open_argument (argument argv files) hp s o;
    let lines := if bool_decide (status = TIDE_STATUS_OK) then [Stdout ("streams=" +:+ pretty (tide_demux_stream_count demux))] else [] in
    '(s, o) ← demux_close demux s o;
    let o := source_destroy source o in
    Done (if bool_decide (status = TIDE_STATUS_OK) then 0 else 1, lines, s, o).

(** ** tide_index_dump.c *)

Definition tide_index_dump_main (argv : list string) (files : string -> input_file) (hp : heap) (s : lease_store) (o : objects)
    : outcome (Z * list printed * lease_store * objects) :=
  if negb (zlen argv =? 2) then Done (2, [], s, o)
  else
    '(status, source, demux, s, o) ← open_argument (argument argv files) hp s o;
    let lines := [Stdout ("index_status=" +:+ tide_status_string status +:+ " streams=" +:+ pretty (tide_demux_stream_count demux))] in
    '(s, o) ← demux_close demux s o;
    let o := source_destroy source o in
    Done (if bool_decide (status = TIDE_STATUS_OK) then 0 else 1, lines, s, o).

(** ** write_capture.c *)

Definition capture_payload : list byte := [x01; x02; x03; x04].
Definition capture_stream : tide_stream_info := mk_stream_info 1 1 1 0 (mk_rational 1 48000) None 0.

(** The reference zeroed, then its fields; the payload is that of the lease. *)
Definition capture_packet (lease : option lease_ptr) (data : option (list byte)) (size : Z) : tide_packet_ref :=
  mk_packet_ref (mk_packet_info 1 1 1 0 0 1024 0 (mk_payload_view data size lease)) lease.

(** With the contents of the file. *)
Definition write_capture_main (path : output_file) (s : lease_store) (o : objects) : outcome (Z * list byte * lease_store * objects) :=
  '(status, mux, h, o) ← mux_create path (st_heap s) o;
  if negb (bool_decide (status = TIDE_STATUS_OK)) then Done (1, [], set_heap h s, o)
  else
    '(status, mux, h) ← tide_mux_add_stream mux (Some capture_stream) h;
    if negb (bool_decide (status = TIDE_STATUS_OK)) then
      let o := mux_abort mux o in
      Done (1, [], set_heap h s, o)
    else
      '(lease, s) ← tide_payload_lease_create_copy (Some capture_payload) 4 (set_heap h s);
      data ← tide_payload_lease_data lease s;
      size ← tide_payload_lease_size lease s;
      '(status, mux, packet, s) ← tide_mux_write_packet mux (Some (capture_packet lease data size)) s;
      if negb (bool_decide (status = TIDE_STATUS_OK)) then
        '(_, s) ← tide_packet_ref_reset packet s;
        let o := mux_abort mux o in
        Done (1, [], s, o)
      else
        '(status, bytes, h, o) ← mux_close mux (st_heap s) o;
        Done (if bool_decide (status = TIDE_STATUS_OK) then 0 else 1, bytes, set_heap h s, o).

(** What one example writes the other reads. *)
Example capture_is_read : exists bytes s, write_capture_main good_file (empty_store []) no_objects = Done (0, bytes, s, no_objects) /\ st_leases s = ∅ /\
  exists s', stream_demux_main ["stream_demux"; "example.tide"]%string (fun _ => readable bytes) [] s no_objects =
    Done (0, [Stdout "track=1 seq=1 payload=4"], s', no_objects) /\ st_leases s' = ∅.
Proof. eexists _, _. split; [vm_compute; reflexivity|]. split; [reflexivity|]. eexists. split; vm_compute; reflexivity. Qed.

(** Without memory for the lease the example writes a packet without payload, and
    still succeeds. *)
Example capture_without_lease : exists bytes s, write_capture_main good_file (empty_store [true; true; true; true; false]) no_objects = Done (0, bytes, s, no_objects) /\
  exists s', stream_demux_main ["stream_demux"; "example.tide"]%string (fun _ => readable bytes) [] s no_objects =
    Done (0, [Stdout "track=1 seq=1 payload=0"], s', no_objects).
Proof. eexists _, _. split; [vm_compute; reflexivity|]. eexists. vm_compute. reflexivity. Qed.
