(* ===== verification/ToolsRun.v ===== *)
(** * What the examples and the tools do *)

From stdpp Require Import pretty.
From S2P Require Import Prelude Status Checked Buffer Crc Reader Rational Model Lease Packet Frame Validate Header Decoder Parse ParseRule ParseSplit Samples Delivery Replay Source Writer RoundTrip Mux MuxSpec MuxFile Demux DemuxSpec DemuxRun MuxDemux Repair RepairSpec RepairRun Cli CliRun Tools.

(** ** The readers *)

(** The decoder accepts all of the file, with these deliveries. *)
Definition accepts_file (path : input_file) (hp : heap) (log : list delivery) : Prop :=
  file_status path = TIDE_STATUS_OK /\
  exists q, recording (source_of (file_bytes path)) tide_limits_default hp = Done (TIDE_STATUS_OK, q) /\ ps_user q = log.

(** The status of opening a file, when no allocation fails. *)
Definition open_status (path : input_file) (hp : heap) (st : tide_status) : Prop :=
  match file_status path with
  | TIDE_STATUS_OK => exists q, recording (source_of (file_bytes path)) tide_limits_default hp = Done (st, q)
  | fst => st = fst
  end.

(** A ledger in which some entries cancel. *)
Ltac ledger := unfold source_destroy, add_sources, add_demuxers, add_muxers, one_if;
  match goal with o : objects |- _ => destruct o end; cbn [sources demuxers muxers]; f_equal; lia.

Lemma open_argument_spec path hp s hs o : in_tell path < 2 ^ 56 -> balanced s hs ->
  exists st src r log s', open_argument path hp s o = Done (st, src, r, s', add_demuxers (one_if r) (add_sources (one_if src) o)) /\
    match r with
    | Some d => st = TIDE_STATUS_OK /\ accepts_file path hp log /\ exists pending,
        opened d s' (map stored_stream (streams log)) pending hs /\ Forall2 carries (packets log) pending
    | None => st <> TIDE_STATUS_OK /\ balanced s' hs
    end /\ (st_heap s = [] -> open_status path hp st).
Proof.
  intros Hm Hb. unfold open_argument, source_from_file, open_status. destruct (from_file_spec None path (st_heap s)) as (st & r & h & -> & Hr & Hst).
  rewrite bind_done. cbv beta iota zeta. cbn [deref]. rewrite !bind_done. cbv beta iota. destruct r as [src|].
  2: { assert (Hne : st <> TIDE_STATUS_OK) by (destruct Hr as [-> | ->]; discriminate). rewrite (bool_decide_eq_false_2 _ Hne), bind_done.
       exists st, None, None, [], (set_heap h s). split; [f_equal; f_equal; ledger|]. split; [split; [exact Hne|exact Hb]|].
       intros E. destruct (Hst E) as [-> _]. destruct (file_status_cases path) as [E2|E2]; [contradiction|rewrite E2; reflexivity]. }
  destruct Hr as (-> & Hf & -> & Hz). rewrite bool_decide_eq_true_2 by reflexivity. rewrite Hf. unfold demux_open.
  destruct (demux_open_spec None _ _ None hp (set_heap h s) hs (source_of_wf _) ltac:(rewrite Hz; exact Hm) I Hb) as (st & r & s' & -> & Hr & Hst').
  change (demux_limits None) with tide_limits_default in *. change (selected_track None) with 0 in *.
  rewrite bind_done. cbv beta iota. cbn [deref]. rewrite !bind_done. cbv beta iota.
  assert (Hh : st_heap s = [] -> exists q, recording (source_of (file_bytes path)) tide_limits_default hp = Done (st, q)).
  { intros E. destruct (Hst' (proj2 (Hst E))) as (q & Hq & _). eauto. }
  destruct r as [d|].
  - destruct Hr as (Ho & q & pending & Hq & Hop & Hcar & _). rewrite wanted_all in Hcar.
    assert (st = TIDE_STATUS_OK) as -> by (unfold opens in Ho; rewrite andb_false_r, orb_false_r in Ho; apply bool_decide_eq_true in Ho; exact Ho).
    exists TIDE_STATUS_OK, (Some (source_of (file_bytes path))), (Some d), (ps_user q), s'. split; [reflexivity|]. split; [|exact Hh].
    split; [reflexivity|]. split; [split; [exact Hf|eauto]|]. eauto.
  - destruct Hr as [Ho Hb']. exists st, (Some (source_of (file_bytes path))), None, [], s'. split; [reflexivity|]. split; [|exact Hh].
    split; [intros ->; discriminate Ho|exact Hb'].
Qed.

Lemma print_packets_spec pending : forall d s infos hs fuel, opened d s infos pending hs -> (length pending < fuel)%nat ->
  exists d' s', print_packets fuel (Some d) (Some zero_packet) s = Done (map (fun r => packet_line (ref_info r)) pending, Some d', s') /\
    opened d' s' infos [] hs.
Proof.
  induction pending as [|r pending IH]; intros d s infos hs fuel Hop Hf; (destruct fuel as [|fuel]; [cbn in Hf; lia|]); cbn [print_packets].
  { rewrite (next_none d infos s hs _ Hop), bind_done. cbv beta iota. rewrite bool_decide_eq_false_2 by discriminate. cbn [negb].
    exists d, s. split; [reflexivity|exact Hop]. }
  destruct (next_reset_spec d infos r pending s hs Hop) as (d1 & s1 & -> & Hreset & Hop1). rewrite bind_done. cbv beta iota.
  rewrite bool_decide_eq_true_2 by reflexivity. cbn [negb deref]. rewrite bind_done, Hreset, bind_done. cbv beta iota.
  destruct (IH d1 s1 infos hs fuel Hop1) as (d' & s' & -> & Hop'); [cbn in Hf; lia|].
  rewrite bind_done. exists d', s'. split; [reflexivity|exact Hop'].
Qed.

Lemma carried_lines ps pending : Forall2 carries ps pending -> map (fun r => packet_line (ref_info r)) pending = map packet_line ps.
Proof. induction 1 as [|p r ps pending H _ IH]; [reflexivity|]. cbn [map]. rewrite IH. unfold carries in H. rewrite H. reflexivity. Qed.

(** All three print what the decoder delivers, and free what they made. *)
Lemma readers_spec argv files hp s hs o : zlen argv = 2 -> in_tell (argument argv files) < 2 ^ 56 -> balanced s hs ->
  exists st log s1 s2,
    (st = TIDE_STATUS_OK -> accepts_file (argument argv files) hp log) /\
    (st_heap s = [] -> open_status (argument argv files) hp st) /\ balanced s1 hs /\ balanced s2 hs /\
    let ok := bool_decide (st = TIDE_STATUS_OK) in
    stream_demux_main argv files hp s o =
      Done (if ok then 0 else 1, if ok then map packet_line (packets log) else [Stderr (tide_status_string st)], s1, o) /\
    tide_dump_main argv files hp s o =
      Done (if ok then 0 else 1, if ok then [Stdout ("streams=" +:+ pretty (zlen (streams log)))] else [], s2, o) /\
    tide_index_dump_main argv files hp s o =
      Done (if ok then 0 else 1, [Stdout ("index_status=" +:+ tide_status_string st +:+ " streams=" +:+
                                          pretty (if ok then zlen (streams log) else 0))], s2, o).
Proof.
  intros Hargc Hm Hb. unfold stream_demux_main, tide_dump_main, tide_index_dump_main. rewrite Hargc, Z.eqb_refl. cbn [negb].
  destruct (open_argument_spec _ hp s hs o Hm Hb) as (st & src & r & log & s' & -> & Hr & Hst). rewrite !bind_done. cbv beta iota.
  unfold demux_close. destruct r as [d|].
  - destruct Hr as (-> & Hacc & pending & Hop & Hcar). rewrite bool_decide_eq_true_2 by reflexivity. cbn [negb tide_packet_ref_init option_map].
    pose proof Hop as ((_ & _ & Hn & _) & Hp & Hown). destruct (packets_bound d pending Hp) as (_ & _ & _ & ->).
    destruct (print_packets_spec pending d s' _ hs (S (length pending)) Hop ltac:(lia)) as (d' & s1 & -> & (_ & Hp' & Hown')).
    rewrite bind_done. cbv beta iota. destruct (close_spec_demux d' [] s1 hs Hp' Hown') as (s2 & -> & Hb2 & _).
    destruct (close_spec_demux d pending s' hs Hp Hown) as (s3 & -> & Hb3 & _). rewrite !bind_done, (carried_lines _ _ Hcar).
    unfold tide_demux_stream_count. rewrite Hn, zlen_map. exists TIDE_STATUS_OK, log, s2, s3.
    split; [intros _; exact Hacc|]. split; [exact Hst|]. split; [exact Hb2|]. split; [exact Hb3|].
    cbv zeta. repeat split; f_equal; f_equal; ledger.
  - destruct Hr as [Hne Hb']. rewrite (bool_decide_eq_false_2 _ Hne). cbn [negb tide_demux_close tide_demux_stream_count]. rewrite !bind_done.
    exists st, [], s', s'. split; [contradiction|]. split; [exact Hst|]. split; [exact Hb'|]. split; [exact Hb'|].
    rewrite (bool_decide_eq_false_2 _ Hne). cbv zeta. repeat split; f_equal; f_equal; ledger.
Qed.

(** ** write_capture *)

(** The payload of the packet written: that of the lease, or none if there was
    no memory for it. *)
Definition capture_inputs (lease : option lease_ptr) (data : option (list byte)) : list mux_input :=
  [In_stream capture_stream; In_packet (capture_packet lease data (zlen (default [] data)))].

Definition capture_data (data : option (list byte)) : Prop := data = Some capture_payload \/ data = None.

Lemma capture_inputs_ok lease data : capture_data data -> Forall input_ok (capture_inputs lease data).
Proof.
  intros [-> | ->]; repeat constructor; unfold input_ok, rational_typed; cbn; repeat split; discriminate.
Qed.

(** The lease, and its data and size; null, null and 0 without memory. *)
Lemma capture_lease_spec s hs : balanced s hs ->
  exists lease data s', tide_payload_lease_create_copy (Some capture_payload) 4 s = Done (lease, s') /\
    tide_payload_lease_data lease s' = Done data /\ tide_payload_lease_size lease s' = Done (zlen (default [] data)) /\
    balanced s' (option_list lease ++ hs) /\ capture_data data /\ (st_heap s = [] -> st_heap s' = [] /\ data = Some capture_payload).
Proof.
  intros Hb. destruct (create_spec s hs capture_payload 4 Hb ltac:(vm_compute; split; discriminate)) as (o & s' & -> & Hh & Ho).
  destruct o as [p|].
  - destruct Ho as (_ & Hb' & n & Hl). exists (Some p), (Some capture_payload), s'.
    unfold tide_payload_lease_data, tide_payload_lease_size. rewrite Hl, lookup_insert_eq. cbn [deref]. rewrite !bind_done.
    repeat (split; [reflexivity|]). split; [exact Hb'|]. split; [left; reflexivity|]. intros E. split; [apply Hh, E|reflexivity].
  - exists None, None, s'. repeat (split; [reflexivity|]). split; [apply Ho|]. split; [right; reflexivity|].
    intros E. destruct (Hh E) as [[? ?] _]. discriminate.
Qed.

(** The example writes the file of these inputs, or fails. *)
Lemma write_capture_spec path s hs o : writable path -> balanced s hs ->
  exists code contents s', write_capture_main path s o = Done (code, contents, s', o) /\ balanced s' hs /\ (code = 0 \/ code = 1) /\
    (code = 0 -> exists lease data, capture_data data /\ (st_heap s = [] -> data = Some capture_payload) /\
       contents = mux_file (new_mux path None) (capture_inputs lease data)) /\
    (st_heap s = [] -> reliable path -> code = 0).
Proof.
  intros Hw Hb. unfold write_capture_main, mux_create. destruct (create_spec_mux None path None (st_heap s) I) as (st & r & h1 & -> & Hr & Hcreate).
  rewrite bind_done. cbv beta iota. cbn [deref]. rewrite !bind_done. cbv beta iota. destruct r as [m|].
  2: { rewrite (bool_decide_eq_false_2 _ Hr). cbn [negb]. exists 1, [], (set_heap h1 s). split; [f_equal; f_equal; ledger|]. split; [exact Hb|]. split; [auto|].
       split; [discriminate|]. intros E (Ho & _). destruct (Hcreate E Ho eq_refl eq_refl) as (-> & _). contradiction. }
  destruct Hr as (-> & Hopen & _ & (Hfile & Hlim & Hfoot & Hagg) & Hm & _). rewrite bool_decide_eq_true_2 by reflexivity. cbn [negb].
  assert (Hh0 : st_heap s = [] -> h1 = []) by (intros E; apply (Hcreate E Hopen eq_refl eq_refl)).
  assert (Hl : 0 <= max_single_alloc (mx_limits m)) by (rewrite Hlim; discriminate).
  pose proof (capture_inputs_ok None None (or_intror eq_refl)) as Hi0. inversion Hi0 as [|? ? Hi1 _]; subst. clear Hi0.
  destruct (add_stream_spec m _ 0 capture_stream h1 Hm ltac:(zlia) Hl Hi1) as (st1 & m1 & h2 & -> & Hs1 & Hst1 & Hh1). rewrite bind_done. cbv beta iota.
  destruct (bool_decide_reflect (st1 = TIDE_STATUS_OK)) as [->|Hne]; cbn [negb].
  2: { exists 1, [], (set_heap h2 s). split; [f_equal; f_equal; unfold mux_abort; ledger|]. split; [exact Hb|]. split; [auto|]. split; [discriminate|].
       intros E _. exfalso. apply Hne, (Hh1 (Hh0 E)).
       unfold record_room. rewrite Hlim, (room_rep m _ 0 _ _ Hm Hagg). vm_compute. reflexivity. }
  destruct Hst1 as [(_ & Hm1 & _)|[? _]]; [|discriminate]. change (rc_sequence (input_rec 0 (In_stream capture_stream)) +u 1) with 1 in Hm1.
  destruct Hs1 as (Hfile1 & Hlim1 & Hfoot1 & Hagg1).
  destruct (capture_lease_spec (set_heap h2 s) hs Hb) as (lease & data & s3 & -> & Hdata & Hsize & Hb3 & Hcap & Hh3). rewrite bind_done. cbv beta iota.
  rewrite Hdata, bind_done, Hsize, bind_done.
  assert (Hh3' : st_heap s = [] -> st_heap s3 = [] /\ data = Some capture_payload) by (intros E; apply Hh3, (Hh1 (Hh0 E))).
  pose proof (capture_inputs_ok lease data Hcap) as Hi0. inversion Hi0 as [|? ? _ Hi0']; subst. inversion Hi0' as [|? ? Hi2 _]; subst. clear Hi0 Hi0'.
  destruct (write_packet_spec m1 _ 1 (capture_packet lease data (zlen (default [] data))) s3 hs Hm1 ltac:(zlia) ltac:(rewrite Hlim1; exact Hl) Hi2 Hb3)
    as (st2 & m2 & s4 & -> & (Hs2 & Hst2 & Hh4) & Hb4 & _). rewrite bind_done. cbv beta iota.
  destruct (bool_decide_reflect (st2 = TIDE_STATUS_OK)) as [->|Hne]; cbn [negb].
  2: { cbn [tide_packet_ref_reset ref_lease zero_packet tide_payload_lease_release]. rewrite !bind_done. cbv beta iota.
       exists 1, [], s4. split; [f_equal; f_equal; unfold mux_abort; ledger|]. split; [exact Hb4|]. split; [auto|]. split; [discriminate|].
       intros E _. exfalso. apply Hne, (Hh4 (proj1 (Hh3' E))). unfold record_room. rewrite Hlim1, Hlim, (room_rep m1 _ 1 _ _ Hm1 (eq_trans Hagg1 Hagg)).
       destruct Hcap as [-> | ->]; vm_compute; reflexivity. }
  destruct Hst2 as [(_ & Hm2 & _)|[? _]]; [|discriminate].
  change (rc_sequence (input_rec 1 (In_packet (capture_packet lease data (zlen (default [] data))))) +u 1) with 2 in Hm2.
  destruct Hs2 as (Hfile2 & Hlim2 & Hfoot2 & Hagg2).
  assert (Hpos : 0 < zlen ((header_bytes (mx_movie_time_base (new_mux path None)) mux_uuid ++ rec_bytes (input_rec 0 (In_stream capture_stream))) ++
      rec_bytes (input_rec 1 (In_packet (capture_packet lease data (zlen (default [] data))))))).
  { rewrite !zlen_app, zlen_header by apply mux_uuid_ok. pose proof (zlen_nonneg (rec_bytes (input_rec 0 (In_stream capture_stream)))).
    pose proof (zlen_nonneg (rec_bytes (input_rec 1 (In_packet (capture_packet lease data (zlen (default [] data))))))). lia. }
  unfold mux_close. destruct (close_spec m2 _ 2 path (st_heap s4) Hm2 ltac:(zlia) ltac:(rewrite Hlim2, Hlim1; exact Hl)
    Hpos ltac:(rewrite Hfile2, Hfile1, Hfile; reflexivity) Hw)
    as (st3 & contents & h4 & -> & Hok & Hh5).
  rewrite !bind_done. cbv beta iota. rewrite Hfoot2, Hfoot1, Hfoot in *.
  eexists _, contents, (set_heap h4 s4). split; [f_equal; f_equal; ledger|]. split; [exact Hb4|]. split; [destruct (bool_decide _); auto|]. split.
  - destruct (bool_decide_reflect (st3 = TIDE_STATUS_OK)) as [->|]; [|discriminate]. intros _. exists lease, data. split; [exact Hcap|].
    split; [intros E; apply Hh3', E|]. destruct (Hok eq_refl) as (-> & _). unfold mux_file, mux_body.
    change (zlen (capture_inputs lease data)) with 2. unfold recs_bytes. cbn [capture_inputs map item_records concat]. rewrite app_nil_r, app_assoc. reflexivity.
  - intros E (_ & Hc & Hall). destruct (Hh5 (proj1 (Hh4 (proj1 (Hh3' E))))) as [_ H]. rewrite bool_decide_eq_true_2; [reflexivity|].
    apply H; [exact Hc|exact Hall|]. intros _. rewrite Hlim2, Hlim1, Hlim, (room_rep m2 _ 2 _ _ Hm2 (eq_trans Hagg2 (eq_trans Hagg1 Hagg))).
    destruct Hcap as [-> | ->]; vm_compute; reflexivity.
Qed.

Lemma capture_recording path lease data : capture_data data ->
  exists log, accepts_file (readable (mux_file (new_mux path None) (capture_inputs lease data))) [] log /\
    map stored_stream (streams log) = [capture_stream] /\
    map packet_line (packets log) = [packet_line (ref_info (capture_packet lease data (zlen (default [] data))))].
Proof.
  intros Hd. unfold accepts_file. rewrite readable_status, readable_bytes.
  assert (H : exists q, recording (source_of (mux_file (new_mux path None) (capture_inputs lease data))) tide_limits_default [] = Done (TIDE_STATUS_OK, q) /\
    map stored_stream (streams (ps_user q)) = [capture_stream] /\
    map packet_line (packets (ps_user q)) = [packet_line (ref_info (capture_packet lease data (zlen (default [] data))))]).
  { destruct Hd as [-> | ->]; eexists; (split; [vm_compute; reflexivity|]); split; reflexivity. }
  destruct H as (q & Hq & Hs & Hp). exists (ps_user q). split; [split; [reflexivity|eauto]|]. auto.
Qed.

(** C32: the programs beside the library are right about any file.  With one
    argument the three readers are defined whatever the file and the allocator
    answer; when they end, every source and demuxer made for them was freed, once, and no
    lease is left.  They exit with 0 exactly when the file
    opens (the decoder accepts all of it), and with 1 otherwise.
    [stream_demux] prints one line for each packet the decoder delivers, in order, with its track, sequence
    number and payload size, or the status; [tide_dump] prints the number of the streams delivered, and
    [tide_index_dump] that number and the status.  [write_capture] frees its muxer and its lease on every path; it exits with 0
    only when it wrote a file that the decoder accepts with its one stream and one packet, and it does
    when memory and the file suffice; the payload is there unless the allocation of the lease failed. *)
Theorem examples_correct (argv : list string) (files : string -> input_file) (output : output_file) (hp : heap)
    (s : lease_store) (hs : list lease_ptr) (o : objects) :
  zlen argv = 2 -> in_tell (argument argv files) < 2 ^ 56 -> writable output -> balanced s hs ->
  (exists st log s1 s2,
    (st = TIDE_STATUS_OK -> accepts_file (argument argv files) hp log) /\
    (st_heap s = [] -> open_status (argument argv files) hp st) /\ balanced s1 hs /\ balanced s2 hs /\
    let ok := bool_decide (st = TIDE_STATUS_OK) in
    stream_demux_main argv files hp s o =
      Done (if ok then 0 else 1, if ok then map packet_line (packets log) else [Stderr (tide_status_string st)], s1, o) /\
    tide_dump_main argv files hp s o =
      Done (if ok then 0 else 1, if ok then [Stdout ("streams=" +:+ pretty (zlen (streams log)))] else [], s2, o) /\
    tide_index_dump_main argv files hp s o =
      Done (if ok then 0 else 1, [Stdout ("index_status=" +:+ tide_status_string st +:+ " streams=" +:+
                                          pretty (if ok then zlen (streams log) else 0))], s2, o)) /\
  (exists code contents s3, write_capture_main output s o = Done (code, contents, s3, o) /\ balanced s3 hs /\ (code = 0 \/ code = 1) /\
    (code = 0 -> exists log size, accepts_file (readable contents) [] log /\ map stored_stream (streams log) = [capture_stream] /\
       map packet_line (packets log) = [packet_line (ref_info (capture_packet None None size))] /\
       (size = 4 \/ size = 0 /\ st_heap s <> [])) /\
    (st_heap s = [] -> reliable output -> code = 0)).
Proof.
  intros Hargc Hm Hw Hb. split; [exact (readers_spec argv files hp s hs o Hargc Hm Hb)|].
  destruct (write_capture_spec output s hs o Hw Hb) as (code & contents & s3 & Hrun & Hb3 & Hcode & Hok & Hh).
  exists code, contents, s3. split; [exact Hrun|]. split; [exact Hb3|]. split; [exact Hcode|]. split; [|exact Hh].
  intros E. destruct (Hok E) as (lease & data & Hd & Hmem & ->). destruct (capture_recording output lease data Hd) as (log & H1 & H2 & H3).
  exists log, (zlen (default [] data)). split; [exact H1|]. split; [exact H2|]. split; [exact H3|].
  destruct Hd as [-> | ->]; [left; reflexivity|]. right. split; [reflexivity|]. intros E2. discriminate (Hmem E2).
Qed.

Lemma examples_correct_witness :
  balanced (empty_store []) [] /\
  (exists log s, accepts_file (readable sample_file) [] log /\ map packet_line (packets log) = [Stdout "track=1 seq=5 payload=2"] /\
     stream_demux_main ["stream_demux"; "sample.tide"]%string (fun _ => readable sample_file) [] (empty_store []) no_objects
       = Done (0, map packet_line (packets log), s, no_objects)) /\
  exists contents s, write_capture_main good_file (empty_store []) no_objects = Done (0, contents, s, no_objects) /\ balanced s [].
Proof.
  split; [apply balanced_empty|].
  destruct (examples_correct ["stream_demux"; "sample.tide"]%string (fun _ => readable sample_file) good_file [] (empty_store []) [] no_objects
    eq_refl eq_refl good_file_writable (balanced_empty []))
    as ((st & log & s1 & s2 & Hacc & _ & _ & _ & H1 & _) & code & contents & s3 & H2 & Hb3 & _ & _ & Hcode).
  split.
  - assert (E : exists s, stream_demux_main ["stream_demux"; "sample.tide"]%string (fun _ => readable sample_file) [] (empty_store []) no_objects
      = Done (0, [Stdout "track=1 seq=5 payload=2"], s, no_objects)) by (eexists; vm_compute; reflexivity).
    destruct E as [s E]. rewrite E in H1. clear E. cbv zeta in H1.
    assert (Hst : st = TIDE_STATUS_OK) by (apply dec_stable; intros Hne; rewrite (bool_decide_eq_false_2 _ Hne) in H1; discriminate H1).
    rewrite (bool_decide_eq_true_2 _ Hst) in H1. injection H1 as Hl _. exists log. rewrite <- Hl. eexists. split; [exact (Hacc Hst)|].
    split; [reflexivity|]. vm_compute. reflexivity.
  - exists contents, s3. rewrite (Hcode eq_refl ltac:(split; [reflexivity|split; reflexivity])) in H2. split; [exact H2|exact Hb3].
Defined.
