(* ===== verification/Findings.v ===== *)
(** * Behaviours found on the way

    Concrete runs of the model that show where the code does something its
    comments, its documentation or its other branches do not suggest. *)

From S2P Require Import Prelude Status Checked Buffer Crc Reader Rational Edit Model Lease Packet Reorder Frame Validate Bodies Records Header Decoder Parse ParseRule ParseSplit Samples Delivery Feed Chunks Source Writer RoundTrip Mux MuxSpec Demux DemuxRun Repair Cli CliRun.

(** A stream descriptor and nothing else. *)
Definition stream_file : list byte := sample_header ++ sample_stream_record.

(** When the track table cannot grow, [tide_emit_stream] returns the code of an
    error that nobody set: the descriptor is dropped and decoding ends with [OK]. *)
Example lost_descriptor_is_ok :
  exists s, tide_parse_tide_bytes (Some stream_file) (zlen stream_file) true None (Some counting) 0 (Some zero_error) (Some 0) [false]
    = Done (TIDE_STATUS_OK, s) /\ ps_tracks s = [] /\ ps_user s = 1.
Proof. eexists. split; [vm_compute; reflexivity|]. split; reflexivity. Qed.

(** A null [valid_prefix] is tested for, and then written through. *)
Example null_valid_prefix_is_written :
  tide_parse_tide_bytes (Some stream_file) (zlen stream_file) true None (Some counting) 0 (Some zero_error) None [] = Undef.
Proof. vm_compute. reflexivity. Qed.

(** So is a null [error], when a descriptor is rejected. *)
Example null_error_is_read :
  tide_parse_tide_bytes (Some (stream_file ++ sample_stream_record)) (zlen (stream_file ++ sample_stream_record)) true None
    (Some counting) 0 None (Some 0) [] = Undef.
Proof. vm_compute. reflexivity. Qed.

(** A record that fails half way stays in the muxer's buffer; closing still
    writes the file, with [OK], and the decoder finds it cut short. *)
Definition large_stream : tide_stream_info :=
  mk_stream_info 1 0 2 0x61 (mk_rational 1 1000) (Some (replicate 400 x07)) 400.

Example failed_record_is_published :
  exists m1 m2 contents h1 h2 h3 s,
    tide_mux_create (Some None) (Some good_file) None [true; true; true; true; false] = Done (TIDE_STATUS_OK, Some (Some m1), h1) /\
    tide_mux_add_stream (Some m1) (Some large_stream) h1 = Done (TIDE_STATUS_RESOURCE, Some m2, h2) /\
    tide_mux_close (Some m2) h2 = Done (TIDE_STATUS_OK, contents, h3) /\
    tide_parse_tide_bytes (Some contents) (zlen contents) true None (Some counting) 0 (Some zero_error) (Some 0) []
      = Done (TIDE_STATUS_PARTIAL, s).
Proof.
  eexists _, _, _, _, _, _, _. split; [vm_compute; reflexivity|]. split; [vm_compute; reflexivity|].
  split; [vm_compute; reflexivity|]. vm_compute. reflexivity.
Qed.

(** [tide_reorder_queue_pop_ready] clears the packet it is given without
    releasing its lease; a caller that reuses a packet between pops leaks. *)
Example pop_drops_a_lease :
  exists q s', tide_reorder_queue_pop_ready (Some (mk_queue [Some (plain_item 0 20 1)] 1 1 1)) (Some (ri_packet leased_item)) leased_store
    = Done (TIDE_STATUS_OK, Some q, Some (ri_packet (plain_item 0 20 1)), s') /\
    held (ri_packet leased_item) = [5%positive] /\ held (ri_packet (plain_item 0 20 1)) = [] /\
    st_leases s' !! 5%positive = Some (mk_lease 1 (Some [x07]) 1 3).
Proof. eexists _, _. split; [vm_compute; reflexivity|]. split; [reflexivity|]. split; reflexivity. Qed.

(** [tide remux] closes its muxer also after a failure: it exits with 4, and
    leaves a file behind that decodes with [OK] and lacks the packet. *)
Example failed_remux_is_published :
  exists lines contents s' q,
    remux_cmd (Some (readable sample_file)) (Some good_file) [] (mk_store ∅ 1 (replicate 12 true ++ [false])) = Done (4, lines, contents, s') /\
    recording (source_of contents) tide_limits_default [] = Done (TIDE_STATUS_OK, q) /\
    length (streams (ps_user q)) = 1%nat /\ packets (ps_user q) = [].
Proof. eexists _, _, _, _. split; [vm_compute; reflexivity|]. split; [vm_compute; reflexivity|]. split; reflexivity. Qed.

(** [tide repair] of a file cut inside its header exits with 2, the code of a
    wrong command line; an input that does not exist gives 10, that of a
    broken invariant. *)
Example no_prefix_is_usage_error :
  exists s', repair_cmd (Some (readable (take 30 sample_file))) (Some good_file) [] [] client_store =
    Done (2, [prefix_line 0; Stderr "repair: INVALID_ARGUMENT"], [], s').
Proof. eexists. vm_compute. reflexivity. Qed.

Example missing_file_is_invariant_failure :
  exists s', inspect_cmd (Some (mk_input false false 0 false (fun _ => []))) [] client_store = Done (10, [Stderr "source: IO"], [], s').
Proof. eexists. vm_compute. reflexivity. Qed.

(** A refused header is told to [on_error] by a call that is not the last, and
    not by the last: whether the caller hears of it depends on the cut. *)
Example refused_header_told_by_cut :
  (exists impl, feed_chunks (Some (Some (new_decoder None (Some telling)))) [x00 :: sample_file] [] 0 []
      = Done (TIDE_STATUS_FORMAT, Some (Some impl), 1000, [])) /\
  (exists impl, feed_chunks (Some (Some (new_decoder None (Some telling)))) [] (x00 :: sample_file) 0 []
      = Done (TIDE_STATUS_FORMAT, Some (Some impl), 0, [])).
Proof. split; eexists; vm_compute; reflexivity. Qed.

(** An index whose entries go back in time is accepted, and the same entries in
    order of time are refused. *)
Definition seek_state : pstate unit := mk_pstate sample_tracks 8 (Some zero_error) (Some 0) tt [].
Definition seek_status (es : list seek_entry) : outcome tide_status :=
  '(st, _) ← tide_emit_simple_record tide_limits_default (replicate 620 x00) (seek_payload 1 es) (zlen (seek_payload 1 es))
               (body_frame TIDE_RECORD_SEEK_INDEX) seek_state;
  Done st.

Example unsorted_index_is_accepted :
  seek_status mixed_seeks = Done TIDE_STATUS_OK /\ seek_status (reverse mixed_seeks) = Done TIDE_STATUS_INDEX.
Proof. split; vm_compute; reflexivity. Qed.

(** Conditions that span records are not tested: an index entry may name an offset inside a
    record, and the epochs of a track may go down. *)
Definition behind_stream (rs : list rec) : list byte := stream_file ++ recs_bytes rs.
Definition stream_status (rs : list rec) : outcome tide_status :=
  '(st, _) ← tide_parse_tide_bytes (Some (behind_stream rs)) (zlen (behind_stream rs)) true None (Some counting) 0 (Some zero_error) (Some 0) [];
  Done st.
Definition epoch_record (sequence epoch : Z) : rec :=
  mk_rec TIDE_RECORD_DISCONTINUITY 0 3 sequence (le_bytes 4 1 ++ le_bytes 4 0 ++ le_bytes 8 epoch ++ le_bytes 4 0).

Example index_into_payload_is_accepted :
  stream_status [mk_rec TIDE_RECORD_SEEK_INDEX 0 3 2 (seek_payload 1 [mk_seek_entry 1 0 0 0 72 90])] = Done TIDE_STATUS_OK.
Proof. vm_compute. reflexivity. Qed.

Example falling_epoch_is_accepted : stream_status [epoch_record 2 9; epoch_record 3 4] = Done TIDE_STATUS_OK.
Proof. vm_compute. reflexivity. Qed.

(** A valid edit rate is not applied: an entry at twice the speed projects as one at rate one, and
    misses the second half of the source it covers. *)
Example edit_rate_is_ignored :
  tide_edit_project_one (Some [mk_edit 0 10 0 (mk_rational 2 1)]) 1 10 5 (Some 0) (Some 0) = Done (TIDE_STATUS_PARTIAL, Some 0, Some 0) /\
  edit_covers (mk_edit 0 10 0 (mk_rational 2 1)) 10 5 12 /\ edit_maps (mk_edit 0 10 0 (mk_rational 2 1)) 12 6.
Proof. split; [reflexivity|]. unfold edit_covers, edit_source, edit_maps. cbn. lia. Qed.
